(* ===== verification/_CoqProject ===== *)
-Q . S2P
Prelude.v
Codec.v
Protocol.v
BlockBuffer.v
OrchestratorChain.v
TwoPhase.v
TpcSpec.v
VmState.v
MemDB.v
TrackingDB.v
EvmState.v
ShardChain.v
SlotLocks.v
StorageProof.v
TxOrder.v
ShardBlock.v
FundLocks.v
Isolation.v
Receipts.v
ShardServer.v
ServerBlocks.v
ServerHandlers.v
Races.v
BytecodeStore.v
SimStateDB.v
StateFetcher.v
ShardQueries.v
SimProofs.v
SimTyping.v
Simulator.v
Service.v
Network.v
Genesis.v
JsonRpc.v
Startup.v
Routes.v
System.v
Commands.v
EndToEnd.v
Ledger.v
