(* ===== verification/Prelude.v ===== *)
(** * A verified model of the sharding prototype

    The program (Go, under src/) is a sharded EVM blockchain. Every shard node owns
    the accounts whose address ends in its number (modulo the number of shards) and
    keeps them in a go-ethereum state database; one orchestrator orders the
    transactions that touch several shards and decides them by two-phase commit.
    A cross-shard call goes through these parts:

    - a shard's submission endpoint decides whether a transaction is local, and
      forwards it to the orchestrator otherwise (server.go);
    - the orchestrator queues the call for its simulator, which runs it on a database
      that fetches accounts and storage from the shards, and records a read/write set
      (service.go, simulator.go, statefetcher.go, bytecode_store.go, statedb.go);
    - the orchestrator chain puts the transaction in its next block, counts the votes
      of the involved shards and publishes a decision in a later block (chain.go);
    - each shard processes the orchestrator's blocks in height order
      (block_buffer.go, server.go), queues a Lock that validates the reads and locks
      slots and funds, votes through its own next block, and on a commit applies the
      write set, the debit and the credits (shard/chain.go, evm.go);
    - a shard's own simulations run on a recording wrapper (tracking_statedb.go);
    - wallets talk to a shard over JSON-RPC, beside all of this (jsonrpc.go, receipt.go);
    - a separate tool creates the initial state of every shard (create_storage.go).

    Files and code

    - [Prelude]: errors, panics, machine integers, Go maps and their iteration
      order ([MapRange]: every order the language allows), shared lemmas and tactics.
    - [Codec], [Protocol]: internal/protocol/types.go and block.go. One record per
      struct; [InvolvedShards], [Priority], deep copies; JSON of integers and bytes.
    - [BlockBuffer]: internal/shard/block_buffer.go.
    - [OrchestratorChain]: internal/orchestrator/chain.go; [TwoPhase] and [TpcSpec]
      prove it against an abstract commit protocol.
    - [VmState]: the interface between the repository and go-ethereum. The methods of
      vm.StateDB are the type [StateOp]; what the interpreter does on a database is a
      program [Prog] over it; geth's database, the interpreter and the conversions
      are classes with documented laws. [MemDB] is a concrete instance of all of
      them, used by the witnesses.
    - [TrackingDB]: internal/shard/tracking_statedb.go.
    - [EvmState]: internal/shard/evm.go.
    - [ShardChain]: internal/shard/chain.go; [SlotLocks], [TxOrder], [ShardBlock],
      [FundLocks], [Isolation] hold its theorems.
    - [ShardServer]: internal/shard/server.go; [ServerBlocks], [ServerHandlers] hold
      its theorems. [Races] cuts handlePrepare and ProduceBlock into single steps of
      concurrent goroutines.
    - [Startup]: opening a shard's state from the files of the generator (evm.go), and
      of server.go the start, the HTTP requests of crash recovery, the block
      producer's loop, sending a block and Close.
    - [Routes]: the route tables of server.go and service.go and the requests the
      nodes make to one another.
    - [StorageProof]: Merkle proofs of storage slots, made by the shard (evm.go) and
      checked by the orchestrator (statefetcher.go), over an interface to geth's tries.
    - [SimStateDB]: internal/orchestrator/statedb.go, over the interface [Fetcher];
      [SimProofs] holds its theorems, [SimTyping] its state invariant.
    - [BytecodeStore]: internal/orchestrator/bytecode_store.go.
    - [StateFetcher]: internal/orchestrator/statefetcher.go, an instance of [Fetcher]
      over the interface [Net]; [ShardQueries] has the read endpoints of server.go and
      makes the shards of the model an instance of [Net].
    - [Simulator]: internal/orchestrator/simulator.go; [sim_step] interleaves the
      callers, the worker and the cleanup.
    - [Service]: internal/orchestrator/service.go; [svc_run] is a sequence of its events.
    - [Receipts], [JsonRpc]: internal/shard/receipt.go and jsonrpc.go.
    - [Network]: config/config.go and internal/network.
    - [Genesis]: storage/create_storage.go.
    - [System]: the whole deployment as one transition system over the definitions of
      [Service], [ShardServer], [ShardQueries] and [JsonRpc]; [act] runs named steps
      of it.
    - [Commands]: cmd/orchestrator and cmd/shard, with the environments of
      docker-compose.yml.
    - [EndToEnd]: a transfer through the whole of [System], round by round; [Ledger]:
      lists of transfers against an abstract ledger.

    How state and operations correspond

    A Go struct is a record with the fields in order, a method a function from the
    receiver's state (and its arguments) to its result and the new state; a method
    that holds the mutex for its body is one atomic step. Definitions keep the names
    of the source; a prefix ([t_], [es_], [s_], [f_]) separates methods of the same
    name. A panic is [None] of [panics]; an error result is an option or [result].
    uint64 and uint256 arithmetic wraps ([u64_add], [u256_sub]); big integers are [Z].
    A nil slice and an empty one are both [[]] where the code does not tell them
    apart. Random identifiers (uuid) are a sequence the definitions take as argument,
    block hashes are a parameter.

    What the theorems show

    - Atomic commitment of the deployment: whatever messages are late, repeated,
      reordered or lost and whichever shards restart, a shard takes up a commit only
      if the transaction was requested and every involved shard sent its YES vote,
      and then no shard takes up an abort ([System]); clients are told committed for
      such transactions only ([Service]). On idle nodes a transfer is carried through
      both rounds: moved if the sender can pay, aborted if not, and the nodes are idle
      again ([EndToEnd]); lists of transfers give the answers and the balances of a
      ledger ([Ledger]).
    - The coordinator: the orchestrator chain refines the abstract protocol, a
      commit is justified by every involved shard's vote, a transaction is decided
      once, and within the timeout ([TwoPhase], [TpcSpec]).
    - Votes mean something: a YES vote is backed by locks the shard still holds;
      validation locks a whole matching read set or nothing; locked slots keep their
      values; reserved funds are there for the debit; a block's state is that of its
      transactions; failures leave no trace ([ShardBlock], [SlotLocks], [Isolation],
      [FundLocks], [TxOrder]).
    - Simulation is sound: recorded sets describe the run, on one shard
      ([TrackingDB], [EvmState], [Isolation]) and across shards, where committing the
      parts on every shard equals running the call on one unsharded database
      ([SimProofs]); the simulation's state stays well formed ([SimTyping]).
    - The way to the simulation: accepted calls are simulated in order and reported
      once, an uncontended call can be locked ([Simulator]); reads of an account are
      repeatable ([StateFetcher]); proofs of honest shards are accepted and accepted
      proofs agree ([StorageProof]); stored code is found ([BytecodeStore]).
    - Nodes follow the orchestrator: arrival order does not matter, a decision is
      acted on once, a commit queues what was reserved, request handlers keep the
      shard solvent ([BlockBuffer], [ServerBlocks], [ServerHandlers]), also when
      prepare requests run concurrently; the small-step producer, left alone, is
      ProduceBlock ([Races]).
    - The edges: broadcasts and simulated delays are bounded ([Service], [Network]),
      sent transactions have receipts ([JsonRpc]), every shard starts with its part of
      the initial state ([Genesis], [Startup]), docker-compose starts the initial state
      of [System] ([Commands]), and requests between nodes reach their handlers
      ([Routes]).
    - Theorems of kind error state, as the code behaves, where it departs from its
      intention: reverted frames in both recorders, failed storage fetches, local
      transfers of reserved funds, repeated reservations, recovery, failed calls that
      commit, JSON-RPC beside the locks, proofs that may be left out, accounts created
      where no node looks, changes lost when a block's transaction fails beside them
      ([Races]), committed state lost by a restart ([Commands]).

    Bounds and fuel

    Three loops run on fuel: [drain] (the release loop of the block buffer), with the
    number of buffered blocks, one of which leaves the buffer per round
    ([drain_exits] shows it never runs out), [send_loop] (the retries of a
    broadcast), with one unit more than its attempts ([send_loop_fuel] shows more
    changes nothing), and [produce] (the producer's steps), for which the theorem
    gives three units per queued transaction and three more. [Prog] trees are finite since gas bounds every execution.
    Theorems about heights state the uint64 bound they need.

    Not modelled

    Listening and serving, the JSON of HTTP bodies (handlers take decoded requests,
    and parameters or interfaces stand for what a peer answers), the matching of
    gorilla/mux ([Mux], with its laws), logging, tickers. Message types that nothing
    uses (LockRequest, NoStateError). Handlers and chain methods interleave as atomic
    steps in [System]; [Submit], [runSimulation], handlePrepare and ProduceBlock are
    split into the steps between which others can come in ([Simulator], [Races]). The
    simulator's chain configuration lacks Shanghai, unlike the shards'; the EVM is a
    parameter everywhere and no theorem compares runs under the two. A restart of the
    orchestrator, which loses all of its state, is not a step of [System]
    ([stale_block_dropped] says what the shards do with its blocks then). *)

From stdpp Require Export base gmap strings list fin_maps sorting.
From Stdlib Require Export ZArith Lia.

(** ** Errors and panics *)

(** A Go call that returns [(value, error)]: exactly one of the two is meaningful. *)
Inductive result (E A : Type) : Type :=
| Ok (a : A)
| Err (e : E).
Arguments Ok {E A} a.
Arguments Err {E A} e.

(** A Go computation that may panic (index out of range, nil dereference,
    a Must- conversion): [None] is the panic. *)
Abbreviation panics A := (option A) (only parsing).

Declare Scope go_scope.
Delimit Scope go_scope with go.
Open Scope go_scope.

(** Go's two-value map read is [!!]; the one-value read yields the zero value
    of the element type on a missing key. *)
Definition map_get {K V} `{Countable K} (d : V) (m : gmap K V) (k : K) : V :=
  default d (m !! k).

Notation "m .[ k ; d ]" := (map_get d m k)
  (at level 1, k at level 200, d at level 200, left associativity,
   format "m .[ k ;  d ]") : go_scope.

(** ** Machine integers *)

Definition two64 : Z := 2 ^ 64.
Definition two256 : Z := 2 ^ 256.

Definition wrap64 (z : Z) : Z := z mod two64.
Definition u64_add (a b : Z) : Z := wrap64 (a + b).
Definition u64_sub (a b : Z) : Z := wrap64 (a - b).
Definition is_u64 (z : Z) : Prop := (0 ≤ z < two64)%Z.

Definition wrap256 (z : Z) : Z := z mod two256.
Definition u256_add (a b : Z) : Z := wrap256 (a + b).
Definition u256_sub (a b : Z) : Z := wrap256 (a - b).
Definition is_u256 (z : Z) : Prop := (0 ≤ z < two256)%Z.

Create HintDb go.
Create Rewrite HintDb go.

Lemma wrap64_small z : is_u64 z → wrap64 z = z.
Proof. apply Z.mod_small. Qed.

Lemma wrap64_range z : is_u64 (wrap64 z).
Proof. apply Z.mod_pos_bound. reflexivity. Qed.

Lemma wrap256_small z : is_u256 z → wrap256 z = z.
Proof. apply Z.mod_small. Qed.

Lemma wrap256_range z : is_u256 (wrap256 z).
Proof. apply Z.mod_pos_bound. reflexivity. Qed.

Lemma u64_add_small a b : (0 ≤ a)%Z → (0 ≤ b)%Z → (a + b < two64)%Z → u64_add a b = (a + b)%Z.
Proof. intros. apply wrap64_small. split; lia. Qed.

Lemma u64_sub_small a b : (0 ≤ b ≤ a)%Z → is_u64 a → u64_sub a b = (a - b)%Z.
Proof. intros ? [??]. apply wrap64_small. split; lia. Qed.

Lemma u256_add_small a b : (0 ≤ a)%Z → (0 ≤ b)%Z → (a + b < two256)%Z → u256_add a b = (a + b)%Z.
Proof. intros. apply wrap256_small. split; lia. Qed.

Lemma u256_sub_small a b : (0 ≤ b ≤ a)%Z → is_u256 a → u256_sub a b = (a - b)%Z.
Proof. intros ? [??]. apply wrap256_small. split; lia. Qed.

#[export] Hint Resolve wrap64_range wrap256_range : go.

(** ** Maps *)

Section map_get_lemmas.
Context {K V : Type} `{Countable K}.
Implicit Types (m : gmap K V).

Lemma map_get_Some (d : V) m k v : m !! k = Some v → m.[k; d] = v.
Proof. unfold map_get. by intros ->. Qed.

Lemma map_get_None (d : V) m k : m !! k = None → m.[k; d] = d.
Proof. unfold map_get. by intros ->. Qed.

Lemma map_get_insert_eq (d : V) m k v : (<[k:=v]> m).[k; d] = v.
Proof. unfold map_get. by rewrite lookup_insert_eq. Qed.

Lemma map_get_insert_ne (d : V) m k k' v : k ≠ k' → (<[k:=v]> m).[k'; d] = m.[k'; d].
Proof. intros. unfold map_get. by rewrite lookup_insert_ne. Qed.

Lemma map_get_delete_eq (d : V) m k : (delete k m).[k; d] = d.
Proof. unfold map_get. by rewrite lookup_delete_eq. Qed.

Lemma map_get_delete_ne (d : V) m k k' : k ≠ k' → (delete k m).[k'; d] = m.[k'; d].
Proof. intros. unfold map_get. by rewrite lookup_delete_ne. Qed.
End map_get_lemmas.

#[export] Hint Rewrite @map_get_insert_eq @map_get_delete_eq : go.

(** ** Iterating over a map *)

(** Go's [range] over a map visits every entry once, in an order the language
    leaves open: the definitions that iterate take the order as an instance, and
    the theorems hold for each. *)
Class MapRange := {
  map_range {K : Type} `{Countable K} {V : Type} : gmap K V → list (K * V);
  map_range_perm {K : Type} `{Countable K} {V : Type} (m : gmap K V) :
    map_range m ≡ₚ map_to_list m
}.

Lemma elem_of_map_range `{MapRange} {K V} `{Countable K} (m : gmap K V) k v :
  (k, v) ∈ map_range m ↔ m !! k = Some v.
Proof. by rewrite map_range_perm, elem_of_map_to_list. Qed.

Lemma NoDup_map_range `{MapRange} {K V} `{Countable K} (m : gmap K V) :
  NoDup (map_range m).*1.
Proof. rewrite map_range_perm. apply NoDup_fst_map_to_list. Qed.

(** The order of stdpp's enumeration, for the witnesses. *)
Definition list_range : MapRange :=
  {| map_range K _ _ V := map_to_list; map_range_perm K _ _ V m := Permutation_refl _ |}.

(** ** Sums over lists *)

Definition sumZ {A} (f : A → Z) (l : list A) : Z := foldr (λ a s, (f a + s)%Z) 0%Z l.

Lemma sumZ_app {A} (f : A → Z) l k : sumZ f (l ++ k) = (sumZ f l + sumZ f k)%Z.
Proof. induction l as [|a l IH]; simpl; [done|]. rewrite IH. lia. Qed.

Lemma sumZ_nonneg {A} (f : A → Z) l : (∀ a, a ∈ l → (0 ≤ f a)%Z) → (0 ≤ sumZ f l)%Z.
Proof.
  induction l as [|a l IH]; intros Hf; simpl; [lia|].
  pose proof (Hf a (list_elem_of_here _ _)).
  assert (0 ≤ sumZ f l)%Z; [|lia]. apply IH. intros. apply Hf. by apply list_elem_of_further.
Qed.

#[export] Instance sumZ_Permutation {A} (f : A → Z) : Proper ((≡ₚ) ==> (=)) (sumZ f).
Proof. induction 1; simpl; lia. Qed.

(** ** Lists *)

(** When at most one element maps to a value, two elements that do coincide. *)
Lemma omap_at_most_once {A B} (f : A → option B) (l : list A) i j a a' b b' :
  l !! i = Some a → l !! j = Some a' → f a = Some b → f a' = Some b' →
  (length (omap f l) ≤ 1)%nat → (i < j)%nat → False.
Proof.
  intros Hi Hj Ha Ha' Hlen Hij.
  rewrite <- (take_drop j l), omap_app, length_app in Hlen.
  rewrite <- (lookup_take_lt l j i) in Hi by done. erewrite drop_S in Hlen by done.
  cbn in Hlen. rewrite Ha' in Hlen. cbn in Hlen. apply list_elem_of_lookup_2 in Hi.
  assert (b ∈ omap f (take j l)) as Hd by (apply list_elem_of_omap; eauto).
  destruct (omap _ (take j l)); [by apply not_elem_of_nil in Hd|]. simpl in Hlen. lia.
Qed.

(** ** Automation *)


(** Case on the scrutinee of every [match]/[if] in the goal or in a hypothesis,
    keeping the equations, and discharge the contradictory branches. *)
Ltac go_cases :=
  repeat (case_match; simplify_eq/=; try done).

(** Split conjunctions everywhere and close what [done] closes. *)
Ltac go_split := repeat split; simplify_eq/=; try done.

(** Range side conditions on concrete machine integers. *)
Ltac concrete_range := split; vm_compute; congruence.
Ltac concrete_u64s := repeat (apply Forall_cons; split; [concrete_range|]); apply Forall_nil; done.
