(* ===== verification/Codec.v ===== *)
(** * Codec: the hand-written JSON codecs of internal/protocol/types.go

    [BigInt] (a nil-able arbitrary precision integer that travels as a decimal
    string, a 0x-prefixed hexadecimal string or a JSON number) and [HexBytes]
    (a byte slice that travels as a 0x-prefixed hexadecimal string), with the
    parts of Go's math/big, encoding/hex and encoding/json they rely on. *)

From S2P Require Import Prelude.
From Stdlib Require Import Ascii String.
From Stdlib Require Strings.Byte.

Open Scope Z_scope.

(** ** Bytes and JSON values *)

Abbreviation byte := Byte.byte.

#[export] Instance byte_eq_dec : EqDecision byte := Byte.byte_eq_dec.

(** A JSON document as json.Unmarshal classifies it for a string or an int64
    target: a string, an integer literal, null, or anything else (a fraction, a
    boolean, an array, an object), which neither target accepts. *)
Inductive json : Type :=
| JStr (s : string)
| JInt (z : Z)
| JNull
| JOther.

(** json.Unmarshal into a Go string: null leaves the zero value and is not an
    error. *)
Definition unmarshal_string (j : json) : option string :=
  match j with
  | JStr s => Some s
  | JNull => Some ""%string
  | _ => None
  end.

Definition is_int64 (z : Z) : bool := (- 2 ^ 63 <=? z) && (z <? 2 ^ 63).

(** json.Unmarshal into an int64: a literal out of range is an error. *)
Definition unmarshal_int64 (j : json) : option Z :=
  match j with
  | JInt z => if is_int64 z then Some z else None
  | JNull => Some 0
  | _ => None
  end.

(** ** math/big: SetString and String *)

(** Value of a digit in bases up to 16, either case. *)
Definition digit_val (c : ascii) : Z :=
  let n := Z.of_nat (nat_of_ascii c) in
  if (48 <=? n) && (n <=? 57) then n - 48
  else if (97 <=? n) && (n <=? 122) then n - 97 + 10
  else if (65 <=? n) && (n <=? 90) then n - 65 + 10
  else 255.

(** The digits of [s], most significant first, onto the accumulator. *)
Fixpoint scan_digits (base acc : Z) (s : string) : option Z :=
  match s with
  | EmptyString => Some acc
  | String c s' =>
      if digit_val c <? base then scan_digits base (acc * base + digit_val c) s'
      else None
  end.

(** At least one digit, and nothing after the digits. *)
Definition scan_nat (base : Z) (s : string) : option Z :=
  match s with
  | EmptyString => None
  | _ => scan_digits base 0 s
  end.

(** [z.SetString(s, base)]: an optional sign, then digits up to the end. *)
Definition SetString (s : string) (base : Z) : option Z :=
  match s with
  | String "-" s' => Z.opp <$> scan_nat base s'
  | String "+" s' => scan_nat base s'
  | _ => scan_nat base s
  end.

Definition dec_digit (d : Z) : ascii := ascii_of_nat (Z.to_nat (48 + d)).

Fixpoint print_nat (fuel : nat) (n : Z) (acc : string) : string :=
  match fuel with
  | O => acc
  | S fuel' =>
      let acc' := String (dec_digit (n mod 10)) acc in
      if n <? 10 then acc' else print_nat fuel' (n / 10) acc'
  end.

(** [z.String()]: base 10, a minus sign for negatives. One digit per binary
    digit is fuel enough. *)
Definition Int_String (z : Z) : string :=
  let digits n := print_nat (S (Z.to_nat (Z.log2 n))) n EmptyString in
  if z <? 0 then String "-" (digits (- z)) else digits z.

(** ** BigInt *)

(** [struct BigInt { *big.Int }]: the embedded pointer may be nil. *)
Definition BigInt := option Z.

Definition NewBigInt (i : option Z) : option BigInt :=
  match i with
  | None => None
  | Some z => Some (Some z)
  end.

Inductive codec_error : Type :=
| BigInt_cannot_unmarshal
| BigInt_invalid_hex
| BigInt_invalid_decimal
| HexBytes_expected_string
| HexBytes_invalid_hex.

(** [len(s) >= 2 && s[:2] == "0x"], and the rest of [s] when it holds. *)
Definition strip_0x (s : string) : option string :=
  match s with
  | String "0" (String "x" s') => Some s'
  | _ => None
  end.

Definition BigInt_UnmarshalJSON (data : json) : result codec_error BigInt :=
  match unmarshal_string data with
  | None =>
      match unmarshal_int64 data with
      | None => Err BigInt_cannot_unmarshal
      | Some n => Ok (Some n)
      end
  | Some s =>
      match strip_0x s with
      | Some s' =>
          match SetString s' 16 with
          | None => Err BigInt_invalid_hex
          | Some z => Ok (Some z)
          end
      | None =>
          match SetString s 10 with
          | None => Err BigInt_invalid_decimal
          | Some z => Ok (Some z)
          end
      end
  end.

Definition BigInt_MarshalJSON (b : BigInt) : json :=
  match b with
  | None => JStr "0"
  | Some z => JStr (Int_String z)
  end.

(** The receiver is a pointer: nil, or a struct whose Int is nil, reads as 0. *)
Definition ToBigInt (b : option BigInt) : Z :=
  match b with
  | None | Some None => 0
  | Some (Some z) => z
  end.

Definition BigInt_DeepCopy (b : option BigInt) : option BigInt :=
  match b with
  | None | Some None => None
  | Some (Some z) => Some (Some z)
  end.

(** ** encoding/hex and HexBytes *)

Definition HexBytes := list byte.

Definition hex_digit (n : N) : ascii :=
  match n with
  | 0 => "0" | 1 => "1" | 2 => "2" | 3 => "3" | 4 => "4" | 5 => "5" | 6 => "6"
  | 7 => "7" | 8 => "8" | 9 => "9" | 10 => "a" | 11 => "b" | 12 => "c"
  | 13 => "d" | 14 => "e" | _ => "f"
  end%N%char.

(** hex.EncodeToString: two lower-case digits per byte, high nibble first. *)
Fixpoint EncodeToString (bs : list byte) : string :=
  match bs with
  | [] => EmptyString
  | b :: bs' =>
      let n := Byte.to_N b in
      String (hex_digit (n / 16)) (String (hex_digit (n mod 16)) (EncodeToString bs'))
  end.

Definition nibble (c : ascii) : option N :=
  let d := digit_val c in if d <? 16 then Some (Z.to_N d) else None.

(** hex.DecodeString: an odd length or a character that is no hexadecimal
    digit is an error. *)
Fixpoint DecodeString (s : string) : option (list byte) :=
  match s with
  | EmptyString => Some []
  | String c1 (String c2 s') =>
      h ← nibble c1; l ← nibble c2;
      b ← Byte.of_N (16 * h + l); bs ← DecodeString s';
      Some (b :: bs)
  | String _ EmptyString => None
  end.

Definition HexBytes_UnmarshalJSON (data : json) : result codec_error HexBytes :=
  match unmarshal_string data with
  | None => Err HexBytes_expected_string
  | Some s =>
      if decide (s = ""%string ∨ s = "0x"%string) then Ok []
      else
        let s := default s (strip_0x s) in
        match DecodeString s with
        | None => Err HexBytes_invalid_hex
        | Some decoded => Ok decoded
        end
  end.

Definition HexBytes_MarshalJSON (h : HexBytes) : json :=
  JStr (String "0" (String "x" (EncodeToString h))).

(** ** Round trips *)

Lemma digit_val_dec_digit d : 0 ≤ d < 10 → digit_val (dec_digit d) = d.
Proof.
  intros Hd. unfold digit_val, dec_digit.
  rewrite nat_ascii_embedding by lia. rewrite Z2Nat.id by lia.
  repeat case_match; lia.
Qed.

Lemma scan_print fuel n acc :
  0 ≤ n < 2 ^ Z.of_nat fuel →
  scan_digits 10 0 (print_nat fuel n acc) = scan_digits 10 n acc.
Proof.
  revert n acc. induction fuel as [|fuel IH]; intros n acc Hn.
  { assert (n = 0) as -> by (simpl in Hn; lia). done. }
  assert (0 ≤ n mod 10 < 10) as Hmod by (apply Z.mod_pos_bound; lia).
  pose proof (Z.div_mod n 10) as Hdm.
  simpl. case_match eqn:Hlt.
  - simpl. rewrite digit_val_dec_digit by lia.
    replace (n mod 10 <? 10) with true by lia. f_equal.
    rewrite Z.mod_small by lia. lia.
  - rewrite IH.
    + simpl. rewrite digit_val_dec_digit by lia.
      replace (n mod 10 <? 10) with true by lia. f_equal. lia.
    + rewrite Nat2Z.inj_succ, Z.pow_succ_r in Hn by lia.
      split; [apply Z.div_pos; lia|]. apply Z.div_lt_upper_bound; lia.
Qed.

Lemma scan_Int_String_nonneg n :
  0 ≤ n →
  scan_digits 10 0 (print_nat (S (Z.to_nat (Z.log2 n))) n EmptyString) = Some n.
Proof.
  intros Hn. rewrite scan_print; [done|].
  rewrite Nat2Z.inj_succ, Z2Nat.id by apply Z.log2_nonneg.
  destruct (decide (n = 0)) as [->|]; [done|].
  pose proof (Z.log2_spec n). lia.
Qed.

Lemma print_nat_nonempty fuel n acc : print_nat (S fuel) n acc ≠ EmptyString.
Proof.
  revert n acc. induction fuel as [|fuel IH]; intros n acc; cbn [print_nat];
    case_match; try done. apply IH.
Qed.

(** Whatever scans as decimal digits carries no sign and no 0x prefix. *)
Lemma scanned_no_prefix acc s z : scan_digits 10 acc s = Some z → strip_0x s = None.
Proof.
  destruct s as [|c [|c' s]]; [done| by destruct c as [[][][][][][][][]] |].
  simpl. intros Hs. destruct (digit_val c' <? 10) eqn:Hc'; [|by case_match].
  unfold strip_0x. destruct c as [[][][][][][][][]]; try done.
  by destruct c' as [[][][][][][][][]].
Qed.

Lemma scanned_SetString s z :
  s ≠ EmptyString → scan_digits 10 0 s = Some z → SetString s 10 = Some z.
Proof.
  destruct s as [|c s]; [done|]. intros _ Hs.
  assert (scan_nat 10 (String c s) = Some z) as Hn by done.
  unfold SetString. simpl in Hs.
  by destruct c as [[][][][][][][][]].
Qed.

Lemma SetString_Int_String z : SetString (Int_String z) 10 = Some z.
Proof.
  unfold Int_String. destruct (z <? 0) eqn:Hz.
  - unfold SetString, scan_nat.
    pose proof (print_nat_nonempty (Z.to_nat (Z.log2 (- z))) (- z) EmptyString).
    pose proof (scan_Int_String_nonneg (- z)) as Hs.
    destruct (print_nat _ _ _); [done|]. rewrite Hs by lia. simpl. f_equal. lia.
  - apply scanned_SetString; [apply print_nat_nonempty|].
    apply scan_Int_String_nonneg. lia.
Qed.

Lemma Int_String_no_0x z : strip_0x (Int_String z) = None.
Proof.
  unfold Int_String. destruct (z <? 0) eqn:Hz; [done|].
  eapply scanned_no_prefix, scan_Int_String_nonneg. lia.
Qed.

(** C34. A big integer survives the wire: decoding what is encoded gives the same
    value, for every integer of either sign and any size, and zero for an unset
    one. *)
Theorem BigInt_roundtrip (b : BigInt) :
  BigInt_UnmarshalJSON (BigInt_MarshalJSON b) = Ok (Some (ToBigInt (Some b))).
Proof.
  destruct b as [z|]; [|done]. unfold BigInt_UnmarshalJSON. simpl.
  by rewrite Int_String_no_0x, SetString_Int_String.
Qed.

Lemma DecodeString_EncodeToString bs : DecodeString (EncodeToString bs) = Some bs.
Proof.
  induction bs as [|b bs IH]; [done|].
  cbn [EncodeToString DecodeString]. rewrite IH. by destruct b.
Qed.

(** Call data survives the wire: decoding the hexadecimal encoding of any byte
    string, the empty one included, gives it back. *)
Theorem HexBytes_roundtrip (h : HexBytes) :
  HexBytes_UnmarshalJSON (HexBytes_MarshalJSON h) = Ok h.
Proof.
  unfold HexBytes_UnmarshalJSON. simpl. rewrite DecodeString_EncodeToString.
  case_decide as Hs; [|done]. destruct h as [|b h]; [done|]. by destruct Hs.
Qed.
