(* ===== verification/Protocol.v ===== *)
(** * Protocol: the message and block types of internal/protocol

    One record per Go struct (fields in the source's order, prefixed by the
    struct's initials), one inductive per string enumeration, the deep copies,
    and the operations on them: [Priority], [TargetShards], [InvolvedShards]. *)

From S2P Require Import Prelude Codec.

Open Scope Z_scope.

(** ** Addresses, hashes and slots *)

(** [common.Address] is [[20]byte] and [common.Hash] is [[32]byte]: the big
    endian value of the array. The source compares them for equality, uses them
    as map keys and reads the last byte of an address. *)
Abbreviation Address := Z (only parsing).
Abbreviation Hash := Z (only parsing).
Abbreviation Slot := Z (only parsing).
Abbreviation BlockHash := Z (only parsing).

(** [addr[len(addr)-1]] *)
Definition last_byte (a : Address) : Z := Z.land a 255.

(** [int(addr[len(addr)-1]) % n], for a shard count [n] > 0. *)
Definition shard_of (a : Address) (n : Z) : Z := Z.rem (last_byte a) n.

(** ** Read and write sets *)

Record Reference := mkReference {
  ref_ShardNum : Z;
  ref_BlockHash : Hash;
  ref_BlockHeight : Z
}.

Record ReadSetItem := mkReadSetItem {
  rs_Slot : Slot;
  rs_Value : list byte;
  rs_Proof : list (list byte)
}.

Record WriteSetItem := mkWriteSetItem {
  ws_Slot : Slot;
  ws_OldValue : list byte;
  ws_NewValue : list byte
}.

Record RwVariable := mkRwVariable {
  rw_Address : Address;
  rw_ReferenceBlock : Reference;
  rw_ReadSet : list ReadSetItem;
  rw_WriteSet : list WriteSetItem
}.

#[export] Instance Reference_eq_dec : EqDecision Reference.
Proof. solve_decision. Defined.
#[export] Instance ReadSetItem_eq_dec : EqDecision ReadSetItem.
Proof. solve_decision. Defined.
#[export] Instance WriteSetItem_eq_dec : EqDecision WriteSetItem.
Proof. solve_decision. Defined.
#[export] Instance RwVariable_eq_dec : EqDecision RwVariable.
Proof. solve_decision. Defined.

(** ** Transaction types and their priorities *)

(** [type TxType string]: the named constants, and any other string a peer may
    have sent. *)
Inductive TxType : Type :=
| TxTypeLocal
| TxTypeCrossDebit
| TxTypeCrossCredit
| TxTypeCrossWriteSet
| TxTypeCrossAbort
| TxTypePrepareDebit
| TxTypePrepareCredit
| TxTypePrepareWriteSet
| TxTypeLock
| TxTypeUnlock
| TxTypeSimError
| TxTypeFinalize
| TxTypeOther (s : string).

#[export] Instance TxType_eq_dec : EqDecision TxType.
Proof. solve_decision. Defined.

Definition Priority (t : TxType) : Z :=
  match t with
  | TxTypeCrossDebit | TxTypeCrossCredit | TxTypeCrossWriteSet | TxTypeFinalize => 1
  | TxTypeUnlock => 2
  | TxTypeLock => 3
  | TxTypeSimError => 5
  | _ => 4
  end.

(** ** Transactions *)

Record Transaction := mkTransaction {
  tx_ID : string;
  tx_TxHash : Hash;
  tx_From : Address;
  tx_To : Address;
  tx_Value : option BigInt;
  tx_Gas : Z;
  tx_Data : HexBytes;
  tx_IsCrossShard : bool;
  tx_TxType : TxType;
  tx_CrossShardTxID : string;
  tx_RwSet : list RwVariable;
  tx_Error : string
}.

#[export] Instance Transaction_eq_dec : EqDecision Transaction.
Proof. solve_decision. Defined.

(** A composite literal leaves the omitted fields at their zero value. *)
Definition zeroTransaction : Transaction :=
  mkTransaction "" 0 0 0 None 0 [] false TxTypeLocal "" [] "".

Inductive TxStatus : Type :=
| TxNoStatus
| TxPending
| TxPrepared
| TxCommitted
| TxAborted.

Inductive SimulationStatus : Type :=
| SimNoStatus
| SimPending
| SimRunning
| SimSuccess
| SimFailed.

#[export] Instance TxStatus_eq_dec : EqDecision TxStatus.
Proof. solve_decision. Defined.
#[export] Instance SimulationStatus_eq_dec : EqDecision SimulationStatus.
Proof. solve_decision. Defined.

Record CrossShardTx := mkCrossShardTx {
  ct_ID : string;
  ct_TxHash : Hash;
  ct_FromShard : Z;
  ct_From : Address;
  ct_To : Address;
  ct_Value : option BigInt;
  ct_Gas : Z;
  ct_Data : HexBytes;
  ct_RwSet : list RwVariable;
  ct_Status : TxStatus;
  ct_SimStatus : SimulationStatus;
  ct_SimError : string
}.

#[export] Instance CrossShardTx_eq_dec : EqDecision CrossShardTx.
Proof. solve_decision. Defined.

(** ** Deep copies

    Values carry no aliasing here, so a deep copy returns the fields it copies;
    what it changes is a [BigInt] whose inner pointer is nil, which comes back
    as a nil [*BigInt]. *)

Definition ReadSetItem_DeepCopy (r : ReadSetItem) : ReadSetItem :=
  mkReadSetItem (rs_Slot r) (rs_Value r) (map id (rs_Proof r)).

Definition WriteSetItem_DeepCopy (w : WriteSetItem) : WriteSetItem :=
  mkWriteSetItem (ws_Slot w) (ws_OldValue w) (ws_NewValue w).

Definition RwVariable_DeepCopy (rw : RwVariable) : RwVariable :=
  mkRwVariable (rw_Address rw) (rw_ReferenceBlock rw)
    (map ReadSetItem_DeepCopy (rw_ReadSet rw))
    (map WriteSetItem_DeepCopy (rw_WriteSet rw)).

Definition Transaction_DeepCopy (tx : Transaction) : Transaction :=
  mkTransaction (tx_ID tx) (tx_TxHash tx) (tx_From tx) (tx_To tx)
    (BigInt_DeepCopy (tx_Value tx)) (tx_Gas tx) (tx_Data tx) (tx_IsCrossShard tx)
    (tx_TxType tx) (tx_CrossShardTxID tx)
    (map RwVariable_DeepCopy (tx_RwSet tx)) (tx_Error tx).

Definition CrossShardTx_DeepCopy (tx : CrossShardTx) : CrossShardTx :=
  mkCrossShardTx (ct_ID tx) (ct_TxHash tx) (ct_FromShard tx) (ct_From tx) (ct_To tx)
    (BigInt_DeepCopy (ct_Value tx)) (ct_Gas tx) (ct_Data tx)
    (map RwVariable_DeepCopy (ct_RwSet tx))
    (ct_Status tx) (ct_SimStatus tx) (ct_SimError tx).

(** ** Shards of a cross-shard transaction *)

(** The loop of [TargetShards]: [seen] and the shards appended so far. *)
Fixpoint TargetShards_loop (rws : list RwVariable) (seen : gset Z) (shards : list Z) : list Z :=
  match rws with
  | [] => shards
  | rw :: rws' =>
      let n := ref_ShardNum (rw_ReferenceBlock rw) in
      if decide (n ∈ seen) then TargetShards_loop rws' seen shards
      else TargetShards_loop rws' ({[n]} ∪ seen) (shards ++ [n])
  end.

Definition TargetShards (tx : CrossShardTx) : list Z :=
  TargetShards_loop (ct_RwSet tx) ∅ [].

Definition InvolvedShards (tx : CrossShardTx) : list Z :=
  let shards := TargetShards tx in
  if existsb (λ s, s =? ct_FromShard tx) shards then shards
  else ct_FromShard tx :: shards.

(** ** Blocks *)

Record OrchestratorShardBlock := mkOrchestratorShardBlock {
  ob_Height : Z;
  ob_PrevHash : BlockHash;
  ob_Timestamp : Z;
  ob_TpcResult : gmap string bool;
  ob_CtToOrder : list CrossShardTx
}.

Record StateShardBlock := mkStateShardBlock {
  sb_ShardID : Z;
  sb_Height : Z;
  sb_PrevHash : BlockHash;
  sb_Timestamp : Z;
  sb_StateRoot : Hash;
  sb_TxOrdering : list Transaction;
  sb_PrepareTxs : list Transaction;
  sb_TpcPrepare : gmap string bool
}.

(** ** Requests and replies *)

Record PrepareRequest := mkPrepareRequest {
  pr_TxID : string; pr_Address : Address; pr_Amount : Z }.

Record PrepareResponse := mkPrepareResponse {
  pp_TxID : string; pp_Success : bool; pp_Error : string }.

Record CommitRequest := mkCommitRequest { cr_TxID : string }.

Record RwSetRequest := mkRwSetRequest {
  rq_Address : Address;
  rq_Data : HexBytes;
  rq_Value : option BigInt;
  rq_Caller : Address;
  rq_ReferenceBlock : Reference;
  rq_TxID : string
}.

Record RwSetReply := mkRwSetReply {
  rr_Success : bool;
  rr_RwSet : list RwVariable;
  rr_Error : string;
  rr_GasUsed : Z
}.

(** ** Lemmas *)

Lemma last_byte_range a : 0 ≤ last_byte a < 256.
Proof.
  unfold last_byte. change 255 with (Z.ones 8). rewrite Z.land_ones by lia.
  apply Z.mod_pos_bound. lia.
Qed.

Lemma shard_of_range a n : 0 < n → 0 ≤ shard_of a n < n.
Proof.
  intros. unfold shard_of. pose proof (last_byte_range a).
  rewrite Z.rem_mod_nonneg by lia. apply Z.mod_pos_bound. lia.
Qed.

Lemma ToBigInt_DeepCopy b : ToBigInt (BigInt_DeepCopy b) = ToBigInt b.
Proof. by destruct b as [[]|]. Qed.

Lemma ReadSetItem_DeepCopy_id r : ReadSetItem_DeepCopy r = r.
Proof. destruct r. unfold ReadSetItem_DeepCopy. simpl. by rewrite map_id. Qed.

Lemma WriteSetItem_DeepCopy_id w : WriteSetItem_DeepCopy w = w.
Proof. by destruct w. Qed.

Lemma map_DeepCopy_id {A} (f : A → A) l : (∀ x, f x = x) → map f l = l.
Proof. intros Hf. induction l; simpl; congruence. Qed.

Lemma RwVariable_DeepCopy_id rw : RwVariable_DeepCopy rw = rw.
Proof.
  destruct rw. unfold RwVariable_DeepCopy. simpl.
  by rewrite (map_DeepCopy_id _ _ ReadSetItem_DeepCopy_id),
    (map_DeepCopy_id _ _ WriteSetItem_DeepCopy_id).
Qed.

Lemma RwSet_DeepCopy_id l : map RwVariable_DeepCopy l = l.
Proof. apply map_DeepCopy_id, RwVariable_DeepCopy_id. Qed.

(** A deep copy shows every field as the original does. *)
Lemma Transaction_DeepCopy_fields tx :
  let cp := Transaction_DeepCopy tx in
  tx_ID cp = tx_ID tx ∧ tx_TxType cp = tx_TxType tx ∧
  tx_CrossShardTxID cp = tx_CrossShardTxID tx ∧ tx_RwSet cp = tx_RwSet tx ∧
  tx_From cp = tx_From tx ∧ tx_To cp = tx_To tx ∧ tx_Data cp = tx_Data tx ∧
  tx_Gas cp = tx_Gas tx ∧ ToBigInt (tx_Value cp) = ToBigInt (tx_Value tx).
Proof. simpl. rewrite RwSet_DeepCopy_id, ToBigInt_DeepCopy. done. Qed.

Lemma CrossShardTx_DeepCopy_RwSet tx : ct_RwSet (CrossShardTx_DeepCopy tx) = ct_RwSet tx.
Proof. apply RwSet_DeepCopy_id. Qed.

Lemma TargetShards_DeepCopy tx : TargetShards (CrossShardTx_DeepCopy tx) = TargetShards tx.
Proof. unfold TargetShards. by rewrite CrossShardTx_DeepCopy_RwSet. Qed.

Lemma InvolvedShards_DeepCopy tx :
  InvolvedShards (CrossShardTx_DeepCopy tx) = InvolvedShards tx.
Proof. unfold InvolvedShards. by rewrite TargetShards_DeepCopy. Qed.

Lemma TargetShards_loop_spec rws seen shards :
  list_to_set shards = seen → NoDup shards →
  let r := TargetShards_loop rws seen shards in
  NoDup r ∧
  ∀ n, n ∈ r ↔ n ∈ shards ∨ ∃ rw, rw ∈ rws ∧ ref_ShardNum (rw_ReferenceBlock rw) = n.
Proof.
  revert seen shards. induction rws as [|rw rws IH]; intros seen shards Hseen Hnd; simpl.
  { split; [done|]. intros n. set_solver. }
  case_decide as Hin.
  - destruct (IH seen shards Hseen Hnd) as [? Hr]. split; [done|].
    intros n. rewrite Hr. set_solver.
  - destruct (IH ({[ref_ShardNum (rw_ReferenceBlock rw)]} ∪ seen)
                (shards ++ [ref_ShardNum (rw_ReferenceBlock rw)])) as [? Hr].
    + rewrite <- Hseen. set_solver.
    + apply NoDup_app. split; [done|]. split; [set_solver|apply NoDup_singleton].
    + split; [done|]. intros n. rewrite Hr. set_solver.
Qed.

Lemma TargetShards_NoDup tx : NoDup (TargetShards tx).
Proof. apply TargetShards_loop_spec; [done|constructor]. Qed.

Lemma elem_of_TargetShards tx n :
  n ∈ TargetShards tx ↔
  ∃ rw, rw ∈ ct_RwSet tx ∧ ref_ShardNum (rw_ReferenceBlock rw) = n.
Proof.
  unfold TargetShards.
  destruct (TargetShards_loop_spec (ct_RwSet tx) ∅ []) as [_ ->];
    [done|constructor|set_solver].
Qed.

Lemma existsb_eqb_elem_of (n : Z) l : existsb (λ s, s =? n) l = true ↔ n ∈ l.
Proof.
  rewrite existsb_exists. setoid_rewrite Z.eqb_eq. setoid_rewrite <- list_elem_of_In.
  naive_solver.
Qed.

Lemma elem_of_InvolvedShards tx n :
  n ∈ InvolvedShards tx ↔ n = ct_FromShard tx ∨ n ∈ TargetShards tx.
Proof.
  unfold InvolvedShards. case_match eqn:He.
  - apply existsb_eqb_elem_of in He. set_solver.
  - set_solver.
Qed.

Lemma InvolvedShards_NoDup tx : NoDup (InvolvedShards tx).
Proof.
  unfold InvolvedShards. case_match eqn:He; [apply TargetShards_NoDup|].
  constructor; [|apply TargetShards_NoDup].
  intros Hin%existsb_eqb_elem_of. congruence.
Qed.

(** ** The accesses of a read/write set *)

(** Every read and write of a set, in order, keyed by address and slot. *)
Definition rw_reads (rws : list RwVariable) : list ((Address * Slot) * list byte) :=
  rws ≫= λ rw, map (λ r, ((rw_Address rw, rs_Slot r), rs_Value r)) (rw_ReadSet rw).

Definition rw_writes (rws : list RwVariable) : list ((Address * Slot) * list byte) :=
  rws ≫= λ rw, map (λ w, ((rw_Address rw, ws_Slot w), ws_NewValue w)) (rw_WriteSet rw).

Lemma elem_of_rw_reads rws a s bs :
  ((a, s), bs) ∈ rw_reads rws ↔
  ∃ rw r, rw ∈ rws ∧ r ∈ rw_ReadSet rw ∧ rw_Address rw = a ∧ rs_Slot r = s ∧ rs_Value r = bs.
Proof.
  unfold rw_reads. rewrite list_elem_of_bind. split.
  - intros (rw&(r&[= -> -> ->]&Hr)%list_elem_of_fmap&Hrw). eauto 10.
  - intros (rw&r&Hrw&Hr&<-&<-&<-). exists rw. split; [|done].
    apply list_elem_of_fmap. by exists r.
Qed.

Lemma elem_of_rw_writes rws a s bs :
  ((a, s), bs) ∈ rw_writes rws ↔
  ∃ rw w, rw ∈ rws ∧ w ∈ rw_WriteSet rw ∧ rw_Address rw = a ∧ ws_Slot w = s ∧ ws_NewValue w = bs.
Proof.
  unfold rw_writes. rewrite list_elem_of_bind. split.
  - intros (rw&(r&[= -> -> ->]&Hr)%list_elem_of_fmap&Hrw). eauto 10.
  - intros (rw&r&Hrw&Hr&<-&<-&<-). exists rw. split; [|done].
    apply list_elem_of_fmap. by exists r.
Qed.

(** One entry per address and one write per slot: no slot is written twice. *)
Lemma rw_writes_NoDup rws :
  NoDup (rw_Address <$> rws) → (∀ rw, rw ∈ rws → NoDup (ws_Slot <$> rw_WriteSet rw)) →
  NoDup (rw_writes rws).*1.
Proof.
  induction rws as [|rw rws IH]; intros Ha Hs; [constructor|].
  apply NoDup_cons in Ha as [Hnin Ha]. unfold rw_writes. simpl. rewrite fmap_app.
  apply NoDup_app. split_and!.
  - specialize (Hs rw (list_elem_of_here _ _)).
    change (map ?f ?l) with (f <$> l). rewrite <- list_fmap_compose.
    apply (NoDup_fmap_2_strong (λ s, (rw_Address rw, s))) in Hs; [|by intros ???? [= ->]].
    by rewrite <- list_fmap_compose in Hs.
  - intros [a s] ([[? ?] bs]&[= -> ->]&Hw)%list_elem_of_fmap.
    apply list_elem_of_fmap in Hw as (w&[= -> -> ->]&_).
    intros ([[? ?] bs']&[= <- <-]&Hw')%list_elem_of_fmap.
    apply (elem_of_rw_writes rws) in Hw' as (rw'&?&?&?&Heq&_).
    apply Hnin. rewrite <- Heq. by apply list_elem_of_fmap_2.
  - apply IH; [done|]. intros. apply Hs. by apply list_elem_of_further.
Qed.

(** The last write to each slot, when the writes are applied in order. *)
Definition last_writes (rws : list RwVariable) : gmap (Address * Slot) (list byte) :=
  foldl (λ m '(k, v), <[k := v]> m) ∅ (rw_writes rws).

Lemma foldl_insert_notin {K V} `{Countable K} (l : list (K * V)) (m : gmap K V) k :
  k ∉ l.*1 → foldl (λ m '(k, v), <[k := v]> m) m l !! k = m !! k.
Proof.
  revert m. induction l as [|[k' v'] l IH]; intros m Hk; simpl; [done|].
  rewrite IH by set_solver. rewrite lookup_insert_ne; [done|set_solver].
Qed.

Lemma foldl_insert_elem {K V} `{Countable K} (l : list (K * V)) (m : gmap K V) k v :
  NoDup l.*1 → (k, v) ∈ l → foldl (λ m '(k, v), <[k := v]> m) m l !! k = Some v.
Proof.
  revert m. induction l as [|[k' v'] l IH]; intros m Hnd Hk; simpl; [by apply not_elem_of_nil in Hk|].
  apply NoDup_cons in Hnd as [Hnin Hnd]. apply elem_of_cons in Hk as [[= <- <-]|Hk].
  - rewrite foldl_insert_notin by done. apply lookup_insert_eq.
  - by apply IH.
Qed.

Lemma last_writes_elem rws k v :
  NoDup (rw_writes rws).*1 → last_writes rws !! k = Some v ↔ (k, v) ∈ rw_writes rws.
Proof.
  intros Hnd. unfold last_writes. split; [|by apply foldl_insert_elem].
  intros Hl. destruct (decide (k ∈ (rw_writes rws).*1)) as [Hin|Hnin].
  - apply list_elem_of_fmap in Hin as ([k' v']&->&Hin).
    rewrite (foldl_insert_elem _ _ _ _ Hnd Hin) in Hl. naive_solver.
  - by rewrite foldl_insert_notin, lookup_empty in Hl.
Qed.
