(* ===== verification/BlockBuffer.v ===== *)
(** * BlockBuffer: internal/shard/block_buffer.go

    Orchestrator blocks reach a shard over HTTP in any order. The buffer keeps
    the blocks that are ahead of the next expected height and releases a run of
    consecutive heights as soon as the gap is filled. Every method holds the
    mutex for its whole body, so each is one atomic step of the state. *)

From S2P Require Import Prelude Codec Protocol.

Open Scope Z_scope.

Record BlockBuffer := mkBlockBuffer {
  bb_expected : Z;
  bb_buffered : gmap Z OrchestratorShardBlock;
  bb_maxBuffer : Z;
  bb_shardID : Z
}.

Definition NewBlockBuffer (shardID startHeight maxBuffer : Z) : BlockBuffer :=
  mkBlockBuffer startHeight ∅ maxBuffer shardID.

(** The drain loop of [ProcessBlock]. Every iteration removes a buffered block,
    so [size buffered] iterations are enough ([drain_exits]). *)
Fixpoint drain (fuel : nat) (expected : Z) (buffered : gmap Z OrchestratorShardBlock)
    (result : list OrchestratorShardBlock) :
    Z * gmap Z OrchestratorShardBlock * list OrchestratorShardBlock :=
  match fuel with
  | O => (expected, buffered, result)
  | S fuel' =>
      match buffered !! expected with
      | None => (expected, buffered, result)
      | Some next =>
          drain fuel' (u64_add expected 1) (delete expected buffered) (result ++ [next])
      end
  end.

(** [None] is the nil slice: the block was buffered, dropped or ignored. *)
Definition ProcessBlock (b : BlockBuffer) (block : OrchestratorShardBlock) :
    option (list OrchestratorShardBlock) * BlockBuffer :=
  let h := ob_Height block in
  if h =? bb_expected b then
    let '(expected, buffered, result) :=
      drain (size (bb_buffered b)) (u64_add (bb_expected b) 1) (bb_buffered b) [block] in
    (Some result, mkBlockBuffer expected buffered (bb_maxBuffer b) (bb_shardID b))
  else if bb_expected b <? h then
    if bb_maxBuffer b <=? Z.of_nat (size (bb_buffered b)) then (None, b)
    else if decide (is_Some (bb_buffered b !! h)) then (None, b)
    else
      (None, mkBlockBuffer (bb_expected b) (<[h := block]> (bb_buffered b))
               (bb_maxBuffer b) (bb_shardID b))
  else (None, b).

Definition GetExpected (b : BlockBuffer) : Z := bb_expected b.

Definition GetBufferedCount (b : BlockBuffer) : Z := Z.of_nat (size (bb_buffered b)).

Definition SetExpected (b : BlockBuffer) (height : Z) : BlockBuffer :=
  mkBlockBuffer height (bb_buffered b) (bb_maxBuffer b) (bb_shardID b).

(** One enumeration of the keys; Go's map order is unspecified. *)
Definition GetBufferedHeights (b : BlockBuffer) : list Z :=
  (map_to_list (bb_buffered b)).*1.

(** A sequence of arrivals, with everything released, in release order. *)
Fixpoint deliver (b : BlockBuffer) (arrivals : list OrchestratorShardBlock) :
    list OrchestratorShardBlock * BlockBuffer :=
  match arrivals with
  | [] => ([], b)
  | blk :: rest =>
      let '(r, b') := ProcessBlock b blk in
      let '(rs, b'') := deliver b' rest in
      (default [] r ++ rs, b'')
  end.

(** ** The well-formedness invariant *)

(** Buffered blocks sit under their own height, strictly ahead of the expected
    one, and the capacity is respected. *)
Record bb_wf (b : BlockBuffer) : Prop := {
  wf_u64 : is_u64 (bb_expected b);
  wf_key h blk : bb_buffered b !! h = Some blk → ob_Height blk = h;
  wf_ahead h blk : bb_buffered b !! h = Some blk → bb_expected b < h < two64;
  wf_capacity : Z.of_nat (size (bb_buffered b)) ≤ Z.max 0 (bb_maxBuffer b)
}.

Lemma NewBlockBuffer_wf shardID start max : is_u64 start → bb_wf (NewBlockBuffer shardID start max).
Proof. intros. split; simpl; try done. rewrite map_size_empty. lia. Qed.

(** ** The drain loop *)

Lemma drain_exits fuel e m res e' m' res' :
  (size m ≤ fuel)%nat → drain fuel e m res = (e', m', res') → m' !! e' = None.
Proof.
  revert e m res. induction fuel as [|fuel IH]; intros e m res Hsz Hd; simpl in Hd.
  - simplify_eq. assert (m' = ∅) as -> by (apply map_size_empty_iff; lia). done.
  - destruct (m !! e) as [next|] eqn:He; simplify_eq; [|done].
    eapply IH; [|done]. rewrite map_size_delete_Some by eauto. lia.
Qed.

(** What the loop releases: the run of blocks stored from the (unwrapped)
    height [e0] on; it leaves the rest of the map untouched. *)
Lemma drain_spec fuel e0 m res e' m' res' :
  drain fuel (wrap64 e0) m res = (e', m', res') →
  0 ≤ e0 ≤ two64 → (∀ h blk, m !! h = Some blk → e0 ≤ h < two64) →
  ∃ out, res' = res ++ out ∧
    e' = wrap64 (e0 + Z.of_nat (length out)) ∧
    e0 + Z.of_nat (length out) ≤ two64 ∧
    (∀ i, (i < length out)%nat → out !! i = m !! (e0 + Z.of_nat i)) ∧
    (∀ h, m' !! h = if decide (h < e0 + Z.of_nat (length out)) then None else m !! h).
Proof.
  revert e0 m res. induction fuel as [|fuel IH]; intros e0 m res Hd He Hm; simpl in Hd.
  { simplify_eq. exists []. rewrite app_nil_r. simpl. rewrite Z.add_0_r.
    repeat split; try lia. intros h. case_decide; [|done].
    destruct (m' !! h) eqn:E; [|done]. specialize (Hm _ _ E). lia. }
  destruct (m !! wrap64 e0) as [next|] eqn:Hnext.
  - assert (e0 < two64) as Hlt.
    { destruct (decide (e0 = two64)); [|lia]. destruct (Hm _ _ Hnext). subst. lia. }
    rewrite (wrap64_small e0) in Hnext, Hd by (split; lia).
    apply IH in Hd as (out & -> & -> & Hle & Hout & Hm'); [|lia|].
    + exists (next :: out). rewrite <- app_assoc. cbn [length app].
      rewrite Nat2Z.inj_succ. split_and!; [done|f_equal; lia|lia| |].
      * intros [|i] Hi; simpl; [by rewrite Z.add_0_r|].
        rewrite Hout by lia. rewrite lookup_delete_ne by lia. f_equal. lia.
      * intros h. rewrite Hm'. repeat case_decide; try lia; [done|].
        by rewrite lookup_delete_ne by lia.
    + intros h blk [Hne Hl]%lookup_delete_Some. specialize (Hm _ _ Hl). lia.
  - simplify_eq. exists []. rewrite app_nil_r. simpl. rewrite Z.add_0_r.
    repeat split; try lia. intros h. case_decide; [|done].
    destruct (m' !! h) eqn:E; [|done]. specialize (Hm _ _ E). lia.
Qed.

(** ** One arrival *)

(** The released blocks are the run of heights starting at the expected one,
    and the invariant is preserved. *)
Lemma ProcessBlock_spec b blk r b' :
  bb_wf b → is_u64 (ob_Height blk) → ProcessBlock b blk = (r, b') →
  bb_wf b' ∧
  (∀ i x, default [] r !! i = Some x → ob_Height x = wrap64 (bb_expected b + Z.of_nat i)) ∧
  bb_expected b' = wrap64 (bb_expected b + Z.of_nat (length (default [] r))).
Proof.
  intros Hwf Hu Hp. pose proof Hwf as [Hu64 Hkey Hahead Hcap]. unfold ProcessBlock in Hp.
  assert (wrap64 (bb_expected b + Z.of_nat 0) = bb_expected b) as Hw0
    by (rewrite Z.add_0_r; by apply wrap64_small).
  destruct (ob_Height blk =? bb_expected b) eqn:Heq.
  - destruct (drain _ _ _ _) as [[e m] res] eqn:Hd. simplify_eq/=.
    pose proof (drain_exits _ _ _ _ _ _ _ (le_n _) Hd) as Hnone.
    apply drain_spec in Hd as (out & -> & -> & Hle & Hout & Hm);
      [|destruct Hu64; lia|intros h x Hx; specialize (Hahead _ _ Hx); lia].
    assert (m ⊆ bb_buffered b) as Hsub.
    { apply map_subseteq_spec. intros h x. rewrite Hm. by case_decide. }
    cbn [length app]. rewrite Nat2Z.inj_succ.
    split_and!; [split; simpl| |f_equal; lia].
    + apply wrap64_range.
    + intros h x Hx. eapply Hkey, lookup_weaken; eauto.
    + intros h x Hx. pose proof Hx as Hx'. rewrite Hm in Hx. case_decide; [done|].
      specialize (Hahead _ _ Hx). rewrite wrap64_small in * by (destruct Hu64; split; lia).
      assert (h ≠ bb_expected b + 1 + Z.of_nat (length out)); [|lia]. congruence.
    + apply map_subseteq_size in Hsub. lia.
    + intros [|i] x Hx; simplify_eq/=; [rewrite Hw0; lia|].
      pose proof (lookup_lt_Some _ _ _ Hx). rewrite Hout in Hx by done.
      pose proof (Hahead _ _ Hx) as [??]. rewrite (Hkey _ _ Hx).
      rewrite wrap64_small; [lia|]. destruct Hu64; split; lia.
  - destruct (bb_expected b <? ob_Height blk) eqn:Hlt; [|by simplify_eq/=].
    destruct (bb_maxBuffer b <=? _) eqn:Hfull; [by simplify_eq/=|].
    case_decide as Hdup; [by simplify_eq/=|]. simplify_eq/=.
    rewrite Hw0. split_and!; [|done|done].
    apply eq_None_not_Some in Hdup. destruct Hu.
    split; simpl; [done| | |rewrite map_size_insert_None by done; lia];
      intros h x [[<- <-]|[? Hx]]%lookup_insert_Some; eauto; lia.
Qed.

(** ** Any sequence of arrivals *)

Lemma deliver_in_order_aux arrivals b rel b' :
  bb_wf b → Forall (λ blk, is_u64 (ob_Height blk)) arrivals →
  deliver b arrivals = (rel, b') →
  bb_wf b' ∧
  (∀ i x, rel !! i = Some x → ob_Height x = wrap64 (bb_expected b + Z.of_nat i)) ∧
  bb_expected b' = wrap64 (bb_expected b + Z.of_nat (length rel)).
Proof.
  intros Hwf Hall. revert b rel Hwf. induction Hall as [|blk rest Hu _ IH];
    intros b rel Hwf Hd; simpl in Hd.
  { simplify_eq/=. rewrite Z.add_0_r, wrap64_small; [done|apply Hwf]. }
  destruct (ProcessBlock b blk) as [r b1] eqn:Hp.
  destruct (deliver b1 rest) as [rs b2] eqn:Hr. simplify_eq/=.
  destruct (ProcessBlock_spec _ _ _ _ Hwf Hu Hp) as (Hwf1 & Hrel & He1).
  destruct (IH _ _ Hwf1 Hr) as (Hwf2 & Hrel2 & He2).
  split_and!; [done| |].
  - intros i x [Hx|[Hle Hx]]%lookup_app_Some; [eauto|].
    rewrite (Hrel2 _ _ Hx), He1. unfold wrap64. rewrite Zplus_mod_idemp_l. f_equal. lia.
  - rewrite He2, He1, length_app. unfold wrap64. rewrite Zplus_mod_idemp_l. f_equal. lia.
Qed.

(** ** Completeness: every order of arrival releases the same sequence *)

(** [recv] holds the distinct blocks received so far, by height: the released
    ones are its run from [s], the buffered ones its heights past the run. *)
Record sequenced (s : Z) (recv : gmap Z OrchestratorShardBlock)
    (rel : list OrchestratorShardBlock) (b : BlockBuffer) : Prop := {
  sq_next : bb_expected b = s + Z.of_nat (length rel);
  sq_rel i : (i < length rel)%nat → rel !! i = recv !! (s + Z.of_nat i);
  sq_buf h : bb_buffered b !! h = if decide (bb_expected b ≤ h) then recv !! h else None;
  sq_gap : recv !! bb_expected b = None
}.

Lemma sequenced_buffered_sub s recv rel b :
  sequenced s recv rel b → bb_buffered b ⊆ recv.
Proof.
  intros [_ _ Hbuf _]. apply map_subseteq_spec. intros h x. rewrite Hbuf. by case_decide.
Qed.

Lemma sequenced_rel_lookup s recv rel b h :
  sequenced s recv rel b → s ≤ h < bb_expected b → is_Some (recv !! h).
Proof.
  intros [Hn Hrel _ _] Hh. specialize (Hrel (Z.to_nat (h - s))).
  rewrite Z2Nat.id in Hrel by lia. replace (s + (h - s)) with h in Hrel by lia.
  rewrite <- Hrel by lia. apply lookup_lt_is_Some. lia.
Qed.

Lemma ProcessBlock_sequenced s recv rel b blk r b' :
  sequenced s recv rel b → 0 ≤ s →
  (∀ h x, recv !! h = Some x → s ≤ h < two64 - 1) →
  s ≤ ob_Height blk < two64 - 1 → recv !! ob_Height blk = None →
  Z.of_nat (size recv) < bb_maxBuffer b →
  ProcessBlock b blk = (r, b') →
  sequenced s (<[ob_Height blk := blk]> recv) (rel ++ default [] r) b'.
Proof.
  intros Hsq Hs Hrecv Hh Hfresh Hcap Hp. pose proof Hsq as [Hnext Hrel Hbuf Hgap].
  unfold ProcessBlock in Hp. destruct (ob_Height blk =? bb_expected b) eqn:Heq.
  - apply Z.eqb_eq in Heq.
    destruct (drain _ _ _ _) as [[e m] res] eqn:Hd. simplify_eq/=.
    pose proof (drain_exits _ _ _ _ _ _ _ (le_n _) Hd) as Hnone.
    apply drain_spec in Hd as (out & -> & -> & Hle & Hout & Hm); [|lia|].
    2:{ intros h x. rewrite Hbuf. case_decide; [|done]. intros Hx.
        pose proof (Hrecv _ _ Hx). destruct (decide (h = bb_expected b)); [congruence|lia]. }
    assert (wrap64 (bb_expected b + 1 + Z.of_nat (length out))
            = bb_expected b + 1 + Z.of_nat (length out)) as Hw.
    { apply wrap64_small. split; [lia|]. destruct out as [|o out'] using rev_ind; [simpl; lia|].
      clear IHout'. specialize (Hout (length out')). rewrite length_app in *. simpl in *.
      rewrite list_lookup_middle in Hout by done. rewrite Hbuf in Hout by lia.
      case_decide; [|by specialize (Hout ltac:(lia))].
      pose proof (Hrecv _ _ (eq_sym (Hout ltac:(lia)))). lia. }
    rewrite Hw in *. split; simpl.
    + rewrite length_app. simpl. lia.
    + intros i Hi. rewrite length_app in Hi. simpl in Hi.
      destruct (decide (i < length rel)%nat) as [Hlt|Hge].
      * rewrite lookup_app_l by done. rewrite lookup_insert_ne by lia. by apply Hrel.
      * rewrite lookup_app_r by lia. destruct (i - length rel)%nat as [|j] eqn:Hj; simpl.
        { rewrite lookup_insert. by case_decide; [|lia]. }
        rewrite Hout by lia. rewrite lookup_insert_ne by lia. rewrite Hbuf.
        case_decide; [|lia]. f_equal. lia.
    + intros h. rewrite Hm, Hbuf. repeat case_decide; try lia; try done.
      by rewrite lookup_insert_ne by lia.
    + rewrite lookup_insert_ne by lia. rewrite Hm, Hbuf in Hnone.
      repeat case_decide; try lia; done.
  - apply Z.eqb_neq in Heq.
    destruct (bb_expected b <? ob_Height blk) eqn:Hlt.
    2:{ exfalso. destruct (sequenced_rel_lookup _ _ _ _ (ob_Height blk) Hsq); [lia|congruence]. }
    pose proof (map_subseteq_size _ _ (sequenced_buffered_sub _ _ _ _ Hsq)).
    destruct (bb_maxBuffer b <=? _) eqn:Hfull; [lia|].
    case_decide as Hdup.
    { destruct Hdup as [x Hx]. rewrite Hbuf in Hx. by case_decide; [congruence|]. }
    simplify_eq/=. rewrite app_nil_r. split; simpl; [done| | |].
    + intros i Hi. rewrite lookup_insert_ne by lia. by apply Hrel.
    + intros h. destruct (decide (h = ob_Height blk)) as [->|].
      * rewrite !lookup_insert_eq. by case_decide; [|lia].
      * rewrite !lookup_insert_ne by done. apply Hbuf.
    + by rewrite lookup_insert_ne by lia.
Qed.

Lemma ProcessBlock_maxBuffer b blk r b' :
  ProcessBlock b blk = (r, b') → bb_maxBuffer b' = bb_maxBuffer b.
Proof. unfold ProcessBlock. intros. repeat case_match; by simplify_eq/=. Qed.

Lemma deliver_sequenced s arrivals : ∀ recv rel b out b',
  sequenced s recv rel b → 0 ≤ s →
  (∀ h x, recv !! h = Some x → s ≤ h < two64 - 1) →
  (∀ x, x ∈ arrivals → s ≤ ob_Height x < two64 - 1 ∧ recv !! ob_Height x = None) →
  NoDup (map ob_Height arrivals) →
  Z.of_nat (size recv + length arrivals) ≤ bb_maxBuffer b →
  deliver b arrivals = (out, b') →
  sequenced s (list_to_map ((λ x, (ob_Height x, x)) <$> arrivals) ∪ recv) (rel ++ out) b'.
Proof.
  induction arrivals as [|blk rest IH]; intros recv rel b out b' Hsq Hs Hrecv Harr Hnd Hcap Hd;
    cbn [deliver] in Hd.
  { simplify_eq. simpl. by rewrite app_nil_r, (left_id_L ∅ (∪)). }
  destruct (ProcessBlock b blk) as [r b1] eqn:Hp.
  destruct (deliver b1 rest) as [rs b2] eqn:Hr. simplify_eq/=.
  destruct (Harr blk (list_elem_of_here _ _)) as [Hh Hfresh].
  apply NoDup_cons in Hnd as [Hnotin Hnd].
  pose proof (ProcessBlock_sequenced _ _ _ _ _ _ _ Hsq Hs Hrecv Hh Hfresh ltac:(lia) Hp) as Hsq1.
  apply ProcessBlock_maxBuffer in Hp.
  rewrite <- insert_union_l, insert_union_r, app_assoc.
  - eapply IH; try done.
    + intros h x [[<- <-]|[? Hx]]%lookup_insert_Some; eauto.
    + intros x Hx. destruct (Harr x (list_elem_of_further _ _ _ Hx)) as [? Hxf].
      split; [done|]. rewrite lookup_insert_ne; [done|]. intros Heq. apply Hnotin.
      rewrite Heq. by apply list_elem_of_fmap_2.
    + rewrite map_size_insert_None by done. lia.
  - apply not_elem_of_list_to_map_1. by rewrite <- list_fmap_compose.
Qed.

(** The blocks of consecutive heights, keyed by height. *)
Definition by_height (l : list OrchestratorShardBlock) : gmap Z OrchestratorShardBlock :=
  list_to_map ((λ x, (ob_Height x, x)) <$> l).

Section consecutive.
Variables (start : Z) (blocks : list OrchestratorShardBlock).
Hypothesis Hheights : ∀ i x, blocks !! i = Some x → ob_Height x = start + Z.of_nat i.

Lemma consecutive_elem x :
  x ∈ blocks → ∃ i, blocks !! i = Some x ∧ ob_Height x = start + Z.of_nat i
                    ∧ (i < length blocks)%nat.
Proof using Hheights. intros [i Hx]%list_elem_of_lookup. eauto 10 using lookup_lt_Some. Qed.

Lemma consecutive_NoDup : NoDup (map ob_Height blocks).
Proof using Hheights.
  apply NoDup_alt. intros i j h. rewrite !list_lookup_fmap.
  intros (x & Hx & ->)%fmap_Some (y & Hy & Heq)%fmap_Some.
  rewrite (Hheights _ _ Hx), (Hheights _ _ Hy) in Heq. lia.
Qed.

Lemma by_height_lookup h :
  by_height blocks !! h
  = if decide (start ≤ h < start + Z.of_nat (length blocks))
    then blocks !! Z.to_nat (h - start) else None.
Proof using Hheights.
  unfold by_height. case_decide as Hr.
  - destruct (lookup_lt_is_Some_2 blocks (Z.to_nat (h - start))) as [x Hx]; [lia|].
    rewrite Hx. apply elem_of_list_to_map_1.
    { rewrite <- list_fmap_compose. apply consecutive_NoDup. }
    apply list_elem_of_fmap. exists x. split; [|by eapply list_elem_of_lookup_2].
    f_equal. rewrite (Hheights _ _ Hx). lia.
  - apply not_elem_of_list_to_map_1. rewrite <- list_fmap_compose.
    intros (x & -> & Hx)%list_elem_of_fmap. simpl in Hr.
    destruct (consecutive_elem _ Hx) as (i & _ & ? & ?). lia.
Qed.

(** Once every block has been received, the run is the whole list. *)
Lemma sequenced_all rel b :
  sequenced start (by_height blocks) rel b → rel = blocks ∧ bb_buffered b = ∅.
Proof using Hheights.
  intros [Hnext Hrel Hbuf Hgap]. rewrite by_height_lookup in Hgap.
  assert (length rel ≤ length blocks)%nat as Hle.
  { apply Nat.nlt_ge. intros Hlt. specialize (Hrel (length blocks) Hlt).
    rewrite by_height_lookup, decide_False in Hrel by lia.
    apply lookup_ge_None in Hrel. lia. }
  assert (length rel = length blocks) as Hlen.
  { apply Nat.le_antisymm; [done|]. apply Nat.nlt_ge. intros Hlt.
    rewrite decide_True in Hgap by lia. apply lookup_ge_None in Hgap. lia. }
  split.
  - apply list_eq_same_length with (length blocks); [done|done|].
    intros i x y Hi Hx Hy. specialize (Hrel i ltac:(lia)).
    rewrite by_height_lookup, decide_True in Hrel by lia.
    replace (Z.to_nat (start + Z.of_nat i - start)) with i in Hrel by lia. congruence.
  - apply map_empty. intros h. rewrite Hbuf, by_height_lookup.
    repeat case_decide; first [done|lia].
Qed.
End consecutive.

Lemma by_height_Permutation l k :
  NoDup (map ob_Height l) → l ≡ₚ k → by_height l = by_height k.
Proof.
  intros Hnd Hp. apply list_to_map_proper; [by rewrite <- list_fmap_compose|by rewrite Hp].
Qed.

(** ** The component's properties *)

(** In-order, exactly-once delivery: whatever sequence of blocks arrives, in
    whatever order and with whatever duplicates, the concatenation of all the
    slices [ProcessBlock] has returned holds exactly one block per height,
    consecutive from the height first expected (modulo 2^64), and the buffer
    stays well formed and within its capacity. *)
Theorem deliver_in_order (shardID start max : Z) (arrivals : list OrchestratorShardBlock)
    (rel : list OrchestratorShardBlock) (b' : BlockBuffer)
    (Hstart : is_u64 start)
    (Hu64 : Forall (λ blk, is_u64 (ob_Height blk)) arrivals)
    (Hrun : deliver (NewBlockBuffer shardID start max) arrivals = (rel, b')) :
  (∀ i x, rel !! i = Some x → ob_Height x = wrap64 (start + Z.of_nat i)) ∧
  bb_expected b' = wrap64 (start + Z.of_nat (length rel)) ∧
  bb_wf b' ∧
  GetBufferedCount b' ≤ Z.max 0 max.
Proof.
  destruct (deliver_in_order_aux _ _ _ _ (NewBlockBuffer_wf shardID start max Hstart) Hu64 Hrun)
    as (Hwf & Hrel & He).
  split_and!; [done|done|done|].
  assert (bb_maxBuffer b' = max) as <-; [|apply Hwf].
  clear -Hrun. change max with (bb_maxBuffer (NewBlockBuffer shardID start max)).
  generalize dependent (NewBlockBuffer shardID start max). revert rel.
  induction arrivals as [|blk rest IH]; intros rel b Hrun; simpl in Hrun; [by simplify_eq|].
  destruct (ProcessBlock b blk) as [r b1] eqn:Hp, (deliver b1 rest) as [rs b2] eqn:Hr.
  simplify_eq/=. rewrite (IH _ _ Hr). by eapply ProcessBlock_maxBuffer.
Qed.

Lemma deliver_all (shardID start max : Z)
    (blocks arrivals : list OrchestratorShardBlock)
    (Hstart : 0 ≤ start)
    (Hheights : ∀ i x, blocks !! i = Some x → ob_Height x = start + Z.of_nat i)
    (Hperm : arrivals ≡ₚ blocks)
    (Hcap : Z.of_nat (length blocks) ≤ max)
    (Hbound : start + Z.of_nat (length blocks) < two64) :
  ∃ b', deliver (NewBlockBuffer shardID start max) arrivals = (blocks, b') ∧
    bb_expected b' = start + Z.of_nat (length blocks) ∧ bb_buffered b' = ∅.
Proof.
  destruct (deliver (NewBlockBuffer shardID start max) arrivals) as [rel b'] eqn:Hd.
  pose proof (consecutive_NoDup _ _ Hheights) as Hnd.
  apply (deliver_sequenced start arrivals ∅ []) in Hd as Hsq; cbn; try done.
  - change ([] ++ rel) with rel in Hsq. rewrite (right_id_L ∅ (∪)) in Hsq. fold (by_height arrivals) in Hsq.
    rewrite (by_height_Permutation arrivals blocks) in Hsq by (by rewrite ?Hperm).
    pose proof (sq_next _ _ _ _ Hsq). destruct (sequenced_all _ _ Hheights _ _ Hsq) as [-> ?].
    by exists b'.
  - split; simpl; [lia|lia|intros h; by case_decide|done].
  - intros x Hx. rewrite Hperm in Hx.
    destruct (consecutive_elem _ _ Hheights _ Hx) as (i & _ & ? & ?). split; [lia|done].
  - by rewrite Hperm.
  - rewrite map_size_empty, Hperm. simpl. lia.
Qed.

(** C32. Completeness: when the blocks of [n] consecutive heights, [n] within the
    buffer's capacity, arrive in ANY order, every one of them is released, in
    height order, and nothing stays in the buffer. *)
Theorem deliver_complete (shardID start max : Z)
    (blocks arrivals : list OrchestratorShardBlock)
    (Hstart : 0 ≤ start)
    (Hheights : ∀ i x, blocks !! i = Some x → ob_Height x = start + Z.of_nat i)
    (Hperm : arrivals ≡ₚ blocks)
    (Hcap : Z.of_nat (length blocks) ≤ max)
    (Hbound : start + Z.of_nat (length blocks) < two64) :
  ∃ b', deliver (NewBlockBuffer shardID start max) arrivals = (blocks, b') ∧
    bb_expected b' = start + Z.of_nat (length blocks) ∧ bb_buffered b' = ∅.
Proof. by apply deliver_all. Qed.

(** ** Witnesses *)

Definition emptyBlock (h : Z) : OrchestratorShardBlock :=
  mkOrchestratorShardBlock h 0 0 ∅ [].

Lemma deliver_in_order_witness :
  let arrivals := emptyBlock <$> [3; 1; 1; 2; 7] in
  let out := deliver (NewBlockBuffer 0 1 100) arrivals in
  map ob_Height out.1 = [1; 2; 3] ∧ bb_expected out.2 = 4 ∧ GetBufferedCount out.2 ≤ 100.
Proof.
  pose proof (deliver_in_order 0 1 100 (emptyBlock <$> [3; 1; 1; 2; 7]) _ _
    ltac:(done) ltac:(concrete_u64s) eq_refl) as (_ & _ & _ & Hc).
  split_and!; [vm_compute; reflexivity|vm_compute; reflexivity|exact Hc].
Defined.

Lemma deliver_complete_witness :
  ∃ b', deliver (NewBlockBuffer 0 1 100) (emptyBlock <$> [3; 1; 2])
        = (emptyBlock <$> [1; 2; 3], b') ∧ bb_buffered b' = ∅.
Proof.
  destruct (deliver_complete 0 1 100 (emptyBlock <$> [1; 2; 3]) (emptyBlock <$> [3; 1; 2]))
    as (b' & H1 & _ & H3).
  - lia.
  - intros [|[|[|i]]] x Hx; simpl in Hx; by simplify_eq.
  - apply (fmap_Permutation emptyBlock [3; 1; 2] [1; 2; 3]).
    apply (Permutation_cons_append [1; 2] 3).
  - simpl. lia.
  - simpl. reflexivity.
  - exists b'. split; [exact H1|exact H3].
Defined.
