(* ===== verification/OrchestratorChain.v ===== *)
(** * OrchestratorChain: internal/orchestrator/chain.go

    The coordinator of the two-phase commit: it orders cross-shard transactions
    into blocks, aggregates the prepare votes of the involved shards, aborts on
    the first NO vote or on a timeout counted in blocks, commits when every
    involved shard has voted YES, and publishes the decisions in its next block.
    Every method holds the mutex for its whole body: one method call, one step. *)

From S2P Require Import Prelude Codec Protocol.

Open Scope Z_scope.

(** ** State *)

Definition DefaultVoteTimeout : Z := 10.

Record OrchestratorChain := mkOrchestratorChain {
  oc_blocks : list OrchestratorShardBlock;
  oc_height : Z;
  oc_pendingTxs : list CrossShardTx;
  oc_awaitingVotes : gmap string CrossShardTx;
  oc_pendingResult : gmap string bool;
  oc_votes : gmap string (gmap Z bool);
  oc_expectedVoters : gmap string (list Z);
  oc_voteStartBlock : gmap string Z;
  oc_voteTimeout : Z
}.

(** [now] is [uint64(time.Now().Unix())]. *)
Definition NewOrchestratorChain (now : Z) : OrchestratorChain :=
  mkOrchestratorChain [mkOrchestratorShardBlock 0 0 now ∅ []] 0 [] ∅ ∅ ∅ ∅ ∅ DefaultVoteTimeout.

Definition SetVoteTimeout (c : OrchestratorChain) (blocks : Z) : OrchestratorChain :=
  mkOrchestratorChain (oc_blocks c) (oc_height c) (oc_pendingTxs c) (oc_awaitingVotes c)
    (oc_pendingResult c) (oc_votes c) (oc_expectedVoters c) (oc_voteStartBlock c) blocks.

Definition GetVoteTimeout (c : OrchestratorChain) : Z := oc_voteTimeout c.

Definition AddTransaction (c : OrchestratorChain) (tx : CrossShardTx) : OrchestratorChain :=
  mkOrchestratorChain (oc_blocks c) (oc_height c)
    (oc_pendingTxs c ++ [CrossShardTx_DeepCopy tx]) (oc_awaitingVotes c)
    (oc_pendingResult c) (oc_votes c) (oc_expectedVoters c) (oc_voteStartBlock c)
    (oc_voteTimeout c).

Definition set_votes (c : OrchestratorChain) (votes : gmap string (gmap Z bool)) :
    OrchestratorChain :=
  mkOrchestratorChain (oc_blocks c) (oc_height c) (oc_pendingTxs c) (oc_awaitingVotes c)
    (oc_pendingResult c) votes (oc_expectedVoters c) (oc_voteStartBlock c) (oc_voteTimeout c).

(** The decision block that the source repeats on a NO vote, on the last YES
    vote and on a timeout: record the result, forget the vote tracking. *)
Definition decide_tx (c : OrchestratorChain) (txID : string) (commit : bool) :
    OrchestratorChain :=
  mkOrchestratorChain (oc_blocks c) (oc_height c) (oc_pendingTxs c)
    (delete txID (oc_awaitingVotes c)) (<[txID := commit]> (oc_pendingResult c))
    (delete txID (oc_votes c)) (delete txID (oc_expectedVoters c))
    (delete txID (oc_voteStartBlock c)) (oc_voteTimeout c).

Definition RecordVote (c : OrchestratorChain) (txID : string) (shardID : Z)
    (canCommit : bool) : bool * OrchestratorChain :=
  match oc_awaitingVotes c !! txID with
  | None => (false, c)
  | Some _ =>
      let txVotes := (oc_votes c).[txID; ∅] in
      match txVotes !! shardID with
      | Some _ => (false, set_votes c (<[txID := txVotes]> (oc_votes c)))
      | None =>
          let txVotes := <[shardID := canCommit]> txVotes in
          let c := set_votes c (<[txID := txVotes]> (oc_votes c)) in
          if negb canCommit then (true, decide_tx c txID false)
          else
            let expected := (oc_expectedVoters c).[txID; []] in
            if (length expected <=? size txVotes)%nat then
              if forallb (λ s, bool_decide (is_Some (txVotes !! s))) expected
              then (true, decide_tx c txID true)
              else (true, c)
            else (true, c)
      end
  end.

(** The condition of the collecting loop: a transaction without a start block is
    skipped. The sum is a uint64 sum. *)
Definition timed_out (c : OrchestratorChain) (txID : string) : bool :=
  match oc_voteStartBlock c !! txID with
  | None => false
  | Some startBlock => u64_add startBlock (oc_voteTimeout c) <=? oc_height c
  end.

(** Both loops, over one enumeration of the awaiting transactions (Go's map
    order is unspecified; [checkTimeouts_lookup] shows the state reached does
    not depend on it). *)
Definition checkTimeouts (c : OrchestratorChain) : list string * OrchestratorChain :=
  let timedOut := filter (λ txID, timed_out c txID = true)
                         (map_to_list (oc_awaitingVotes c)).*1 in
  (timedOut, foldl (λ c txID, decide_tx c txID false) c timedOut).

Definition CheckTimeouts (c : OrchestratorChain) : list string * OrchestratorChain :=
  checkTimeouts c.

Definition GetAwaitingTx (c : OrchestratorChain) (txID : string) : option CrossShardTx :=
  CrossShardTx_DeepCopy <$> (oc_awaitingVotes c !! txID).

(** The loop body that moves a pending transaction to the vote tracking. *)
Definition start_voting (newHeight : Z) (c : OrchestratorChain) (tx : CrossShardTx) :
    OrchestratorChain :=
  mkOrchestratorChain (oc_blocks c) (oc_height c) (oc_pendingTxs c)
    (<[ct_ID tx := CrossShardTx_DeepCopy tx]> (oc_awaitingVotes c))
    (oc_pendingResult c) (oc_votes c)
    (<[ct_ID tx := InvolvedShards tx]> (oc_expectedVoters c))
    (<[ct_ID tx := newHeight]> (oc_voteStartBlock c)) (oc_voteTimeout c).

Section with_hash.

(** [block.Hash()]: sha256 of the JSON encoding, a function of the block. *)
Context (Hash : OrchestratorShardBlock → BlockHash).

(** [c.blocks[c.height]] panics when the index is out of range. *)
Definition ProduceBlock (c : OrchestratorChain) (now : Z) :
    panics (OrchestratorShardBlock * OrchestratorChain) :=
  let c := (checkTimeouts c).2 in
  prev ← oc_blocks c !! Z.to_nat (oc_height c);
  let newHeight := u64_add (oc_height c) 1 in
  let block := mkOrchestratorShardBlock newHeight (Hash prev) now
                 (oc_pendingResult c) (map CrossShardTx_DeepCopy (oc_pendingTxs c)) in
  let c := foldl (start_voting newHeight) c (oc_pendingTxs c) in
  Some (block,
    mkOrchestratorChain (oc_blocks c ++ [block]) newHeight [] (oc_awaitingVotes c) ∅
      (oc_votes c) (oc_expectedVoters c) (oc_voteStartBlock c) (oc_voteTimeout c)).

Definition GetHeight (c : OrchestratorChain) : Z := oc_height c.

Definition GetBlock (c : OrchestratorChain) (height : Z) : option OrchestratorShardBlock :=
  if (oc_height c <? height) || (Z.of_nat (length (oc_blocks c)) <=? height) then None
  else oc_blocks c !! Z.to_nat height.

(** ** Steps of the component *)

Inductive orch_op : Type :=
| OpAdd (tx : CrossShardTx)
| OpVote (txID : string) (shardID : Z) (canCommit : bool)
| OpProduce (now : Z)
| OpTimeouts
| OpSetTimeout (blocks : Z).

Definition orch_step (c : OrchestratorChain) (op : orch_op) : panics OrchestratorChain :=
  match op with
  | OpAdd tx => Some (AddTransaction c tx)
  | OpVote txID s b => Some (RecordVote c txID s b).2
  | OpProduce now => snd <$> ProduceBlock c now
  | OpTimeouts => Some (CheckTimeouts c).2
  | OpSetTimeout n => Some (SetVoteTimeout c n)
  end.

Fixpoint orch_run (c : OrchestratorChain) (ops : list orch_op) : panics OrchestratorChain :=
  match ops with
  | [] => Some c
  | op :: ops' => c' ← orch_step c op; orch_run c' ops'
  end.

End with_hash.

(** ** What the loops do, pointwise *)

Lemma foldl_decide_frame b l c :
  let c' := foldl (λ c txID, decide_tx c txID b) c l in
  oc_blocks c' = oc_blocks c ∧ oc_height c' = oc_height c ∧
  oc_pendingTxs c' = oc_pendingTxs c ∧ oc_voteTimeout c' = oc_voteTimeout c.
Proof. revert c. induction l as [|id l IH]; intros c; [done|]. exact (IH (decide_tx c id b)). Qed.

Lemma foldl_decide_lookup b l c id :
  let c' := foldl (λ c txID, decide_tx c txID b) c l in
  oc_awaitingVotes c' !! id = (if decide (id ∈ l) then None else oc_awaitingVotes c !! id) ∧
  oc_pendingResult c' !! id = (if decide (id ∈ l) then Some b else oc_pendingResult c !! id) ∧
  oc_votes c' !! id = (if decide (id ∈ l) then None else oc_votes c !! id) ∧
  oc_expectedVoters c' !! id = (if decide (id ∈ l) then None else oc_expectedVoters c !! id) ∧
  oc_voteStartBlock c' !! id = (if decide (id ∈ l) then None else oc_voteStartBlock c !! id).
Proof.
  revert c. induction l as [|x l IH]; intros c; cbn [foldl]; cbv zeta.
  { by rewrite !decide_False by set_solver. } destruct (IH (decide_tx c x b)) as (-> & -> & -> & -> & ->).
  destruct (decide (id ∈ l)) as [Hl|Hl]; [by rewrite !decide_True by set_solver|].
  destruct (decide (id = x)) as [->|Hne].
  - rewrite !decide_True by set_solver. simpl. by rewrite !lookup_delete_eq, lookup_insert_eq.
  - rewrite !decide_False by set_solver. simpl.
    by rewrite !lookup_delete_ne, lookup_insert_ne by done.
Qed.

Lemma elem_of_timedOut c id :
  id ∈ (checkTimeouts c).1 ↔ is_Some (oc_awaitingVotes c !! id) ∧ timed_out c id = true.
Proof.
  unfold checkTimeouts. cbn [fst]. rewrite list_elem_of_filter, list_elem_of_fmap. split.
  - intros [? ([? tx] & -> & Htx%elem_of_map_to_list)]. simpl in *. eauto.
  - intros [[tx Htx] ?]. split; [done|]. exists (id, tx). by rewrite elem_of_map_to_list.
Qed.

(** The state reached does not depend on the order of enumeration. *)
Lemma checkTimeouts_lookup c id :
  let c' := (checkTimeouts c).2 in
  let out := id ∈ (checkTimeouts c).1 in
  oc_awaitingVotes c' !! id = (if decide out then None else oc_awaitingVotes c !! id) ∧
  oc_pendingResult c' !! id = (if decide out then Some false else oc_pendingResult c !! id) ∧
  oc_votes c' !! id = (if decide out then None else oc_votes c !! id) ∧
  oc_expectedVoters c' !! id = (if decide out then None else oc_expectedVoters c !! id) ∧
  oc_voteStartBlock c' !! id = (if decide out then None else oc_voteStartBlock c !! id).
Proof. apply foldl_decide_lookup. Qed.

Lemma checkTimeouts_frame c :
  let c' := (checkTimeouts c).2 in
  oc_blocks c' = oc_blocks c ∧ oc_height c' = oc_height c ∧
  oc_pendingTxs c' = oc_pendingTxs c ∧ oc_voteTimeout c' = oc_voteTimeout c.
Proof. apply foldl_decide_frame. Qed.

Lemma foldl_start_frame h l c :
  let c' := foldl (start_voting h) c l in
  oc_blocks c' = oc_blocks c ∧ oc_height c' = oc_height c ∧
  oc_pendingResult c' = oc_pendingResult c ∧ oc_votes c' = oc_votes c ∧
  oc_voteTimeout c' = oc_voteTimeout c.
Proof. revert c. induction l as [|tx l IH]; intros c; [done|]. exact (IH (start_voting h c tx)). Qed.

(** The last queued transaction with a given ID wins the map entries. *)
Definition last_with_id (id : string) (l : list CrossShardTx) : option CrossShardTx :=
  last (filter (λ tx, ct_ID tx = id) l).

Lemma last_with_id_cons id tx l :
  last_with_id id (tx :: l) =
  match last_with_id id l with
  | Some t => Some t
  | None => if decide (ct_ID tx = id) then Some tx else None
  end.
Proof.
  unfold last_with_id. rewrite filter_cons. case_decide; [|by destruct (last _)].
  rewrite last_cons. done.
Qed.

Lemma last_with_id_Some id l tx : last_with_id id l = Some tx → tx ∈ l ∧ ct_ID tx = id.
Proof. intros H%last_Some_elem_of. apply list_elem_of_filter in H. naive_solver. Qed.

Lemma last_with_id_None id l : last_with_id id l = None ↔ id ∉ map ct_ID l.
Proof.
  unfold last_with_id. rewrite last_None. split.
  - intros Hf (tx & -> & Hin)%list_elem_of_fmap.
    assert (tx ∈ filter (λ t, ct_ID t = ct_ID tx) l) as H by by apply list_elem_of_filter.
    rewrite Hf in H. by apply not_elem_of_nil in H.
  - intros Hn. destruct (filter _ l) as [|tx r] eqn:Hf; [done|].
    assert (tx ∈ filter (λ t, ct_ID t = id) l) as [<- Hin]%list_elem_of_filter
      by (rewrite Hf; apply list_elem_of_here).
    destruct Hn. by apply list_elem_of_fmap_2.
Qed.

Lemma foldl_start_lookup h l c id :
  let c' := foldl (start_voting h) c l in
  match last_with_id id l with
  | Some tx =>
      oc_awaitingVotes c' !! id = Some (CrossShardTx_DeepCopy tx) ∧
      oc_expectedVoters c' !! id = Some (InvolvedShards tx) ∧
      oc_voteStartBlock c' !! id = Some h
  | None =>
      oc_awaitingVotes c' !! id = oc_awaitingVotes c !! id ∧
      oc_expectedVoters c' !! id = oc_expectedVoters c !! id ∧
      oc_voteStartBlock c' !! id = oc_voteStartBlock c !! id
  end.
Proof.
  revert c. induction l as [|tx l IH]; intros c; [done|].
  cbn [foldl]. specialize (IH (start_voting h c tx)). simpl in *.
  rewrite last_with_id_cons. destruct (last_with_id id l); [done|].
  destruct IH as (-> & -> & ->). case_decide as Hid; simpl.
  - subst. by rewrite !lookup_insert_eq.
  - by rewrite !lookup_insert_ne by done.
Qed.
