(* ===== verification/TwoPhase.v ===== *)
(** * TwoPhase: what the coordinator's decisions mean

    Three groups of results about [OrchestratorChain], for every interleaving of
    submissions, votes, timeouts and block productions:
    - a published COMMIT is justified by a YES vote of every involved shard;
    - the chain refines an abstract atomic-commitment protocol in which a
      transaction is queued, voted on, decided once and published once;
    - every transaction under vote is decided and published within a number of
      blocks bounded by the vote timeout. *)

From S2P Require Import Prelude Codec Protocol OrchestratorChain.

Open Scope Z_scope.

(** ** RecordVote, by outcome *)

Variant vote_outcome (c : OrchestratorChain) (id : string) (s : Z) (v : bool) :
    bool * OrchestratorChain → Prop :=
| vote_not_awaiting :
    oc_awaitingVotes c !! id = None → vote_outcome c id s v (false, c)
| vote_duplicate tx b :
    oc_awaitingVotes c !! id = Some tx → (oc_votes c).[id; ∅] !! s = Some b →
    vote_outcome c id s v (false, set_votes c (<[id := (oc_votes c).[id; ∅]]> (oc_votes c)))
| vote_no tx :
    oc_awaitingVotes c !! id = Some tx → (oc_votes c).[id; ∅] !! s = None → v = false →
    vote_outcome c id s v (true, decide_tx c id false)
| vote_last tx :
    oc_awaitingVotes c !! id = Some tx → (oc_votes c).[id; ∅] !! s = None → v = true →
    (∀ x, x ∈ (oc_expectedVoters c).[id; []] → x = s ∨ is_Some ((oc_votes c).[id; ∅] !! x)) →
    vote_outcome c id s v (true, decide_tx c id true)
| vote_wait tx :
    oc_awaitingVotes c !! id = Some tx → (oc_votes c).[id; ∅] !! s = None → v = true →
    (NoDup (oc_expectedVoters c).[id; []] →
     ∃ x, x ∈ (oc_expectedVoters c).[id; []] ∧ x ≠ s ∧ (oc_votes c).[id; ∅] !! x = None) →
    vote_outcome c id s v
      (true, set_votes c (<[id := <[s := true]> (oc_votes c).[id; ∅]]> (oc_votes c))).

(** A decision forgets the votes, the last one included. *)
Lemma decide_tx_set_votes c id m b :
  decide_tx (set_votes c (<[id := m]> (oc_votes c))) id b = decide_tx c id b.
Proof. unfold decide_tx. simpl. by rewrite delete_insert_eq. Qed.

Lemma forallb_voted (m : gmap Z bool) s l :
  forallb (λ x, bool_decide (is_Some (<[s := true]> m !! x))) l = true ↔
  ∀ x, x ∈ l → x = s ∨ is_Some (m !! x).
Proof.
  rewrite forallb_forall. setoid_rewrite bool_decide_eq_true.
  setoid_rewrite lookup_insert_is_Some'. setoid_rewrite <- list_elem_of_In.
  naive_solver.
Qed.

Lemma forallb_not_voted (m : gmap Z bool) l :
  forallb (λ x, bool_decide (is_Some (m !! x))) l = false →
  ∃ x, x ∈ l ∧ m !! x = None.
Proof.
  induction l as [|a l IH]; simpl; [done|].
  rewrite andb_false_iff, bool_decide_eq_false. intros [Ha|Hl].
  - exists a. rewrite eq_None_not_Some. split; [apply list_elem_of_here|done].
  - destruct (IH Hl) as (x & ? & ?). exists x. split; [by apply list_elem_of_further|done].
Qed.

(** The size test of the source is implied by the per-shard test. *)
Lemma voted_size (m : gmap Z bool) l :
  NoDup l → (∀ x, x ∈ l → is_Some (m !! x)) → (length l ≤ size m)%nat.
Proof.
  intros Hnd Hall. rewrite <- size_dom, <- (size_list_to_set (C:=gset Z) l) by done.
  apply subseteq_size. intros x Hx%elem_of_list_to_set. apply elem_of_dom. auto.
Qed.

Lemma RecordVote_cases c id s v : vote_outcome c id s v (RecordVote c id s v).
Proof.
  unfold RecordVote. destruct (oc_awaitingVotes c !! id) as [tx|] eqn:Haw; [|by constructor].
  destruct ((oc_votes c).[id; ∅] !! s) as [b|] eqn:Hdup; [by econstructor|].
  cbv zeta. rewrite !decide_tx_set_votes. destruct v; simpl; [|by eapply vote_no].
  set (m := <[s := true]> (oc_votes c).[id; ∅]).
  destruct (_ <=? _)%nat eqn:Hsize; [destruct (forallb _ _) eqn:Hall|].
  - eapply vote_last; eauto. by apply forallb_voted.
  - eapply vote_wait; eauto. intros _. apply forallb_not_voted in Hall as (x & ? & Hx).
    exists x. unfold m in Hx. apply lookup_insert_None in Hx. naive_solver.
  - eapply vote_wait; eauto. intros Hnd. apply Nat.leb_gt in Hsize.
    destruct (forallb (λ x, bool_decide (is_Some (m !! x))) (oc_expectedVoters c).[id; []])
      eqn:Hall.
    + rewrite forallb_forall in Hall. exfalso. apply Nat.lt_nge in Hsize. apply Hsize.
      apply voted_size; [done|]. intros x Hx%list_elem_of_In.
      by apply Hall, bool_decide_eq_true in Hx.
    + apply forallb_not_voted in Hall as (x & ? & Hx).
      exists x. unfold m in Hx. apply lookup_insert_None in Hx. naive_solver.
Qed.

(** ** A published COMMIT is justified *)

(** Some submission of [id] had a YES vote of each of its involved shards. *)
Definition commit_ok (past : list orch_op) (id : string) : Prop :=
  ∃ tx, OpAdd tx ∈ past ∧ ct_ID tx = id ∧
        ∀ s, s ∈ InvolvedShards tx → OpVote id s true ∈ past.

Record justified (past : list orch_op) (c : OrchestratorChain) : Prop := {
  j_pending tx : tx ∈ oc_pendingTxs c → ∃ tx0, OpAdd tx0 ∈ past ∧ tx = CrossShardTx_DeepCopy tx0;
  j_expected id t : oc_awaitingVotes c !! id = Some t →
    ∃ tx, OpAdd tx ∈ past ∧ ct_ID tx = id ∧ oc_expectedVoters c !! id = Some (InvolvedShards tx);
  j_votes id m s v : oc_votes c !! id = Some m → m !! s = Some v → OpVote id s true ∈ past;
  j_result id : oc_pendingResult c !! id = Some true → commit_ok past id;
  j_blocks b id : b ∈ oc_blocks c → ob_TpcResult b !! id = Some true → commit_ok past id
}.

Lemma commit_ok_mono past op id : commit_ok past id → commit_ok (past ++ [op]) id.
Proof.
  intros (tx & ? & ? & Hs). exists tx. split_and!; [set_solver|done|].
  intros s Hin%Hs. set_solver.
Qed.

Lemma justified_mono past op c : justified past c → justified (past ++ [op]) c.
Proof.
  intros [Hp He Hv Hr Hb]. split.
  - intros tx (tx0 & ? & ->)%Hp. exists tx0. set_solver.
  - intros id t (tx & ? & ? & ?)%He. exists tx. set_solver.
  - intros id m s v Hm Hs. specialize (Hv _ _ _ _ Hm Hs). set_solver.
  - intros. by apply commit_ok_mono, Hr.
  - intros. eapply commit_ok_mono, Hb; eauto.
Qed.

Lemma justified_votes_get past c id s v :
  justified past c → (oc_votes c).[id; ∅] !! s = Some v → OpVote id s true ∈ past.
Proof.
  intros Hj. unfold map_get. destruct (oc_votes c !! id) as [m|] eqn:Hm; simpl; [|done].
  by eapply j_votes.
Qed.

(** Deciding keeps the state justified when the decision is. *)
Lemma justified_decide past c id b :
  justified past c → (b = true → commit_ok past id) → justified past (decide_tx c id b).
Proof.
  intros [Hp He Hv Hr Hb] Hok. split; simpl; try done.
  - intros id' t [Hne Ht]%lookup_delete_Some.
    destruct (He _ _ Ht) as (tx & ? & ? & ?). exists tx. by rewrite lookup_delete_ne.
  - intros id' m' s v [Hne Hl]%lookup_delete_Some. eauto.
  - intros id' [[<- ->]|[? ?]]%lookup_insert_Some; eauto.
Qed.

Lemma justified_set_votes past c m :
  justified past c →
  (∀ id m' s v, m !! id = Some m' → m' !! s = Some v → OpVote id s true ∈ past) →
  justified past (set_votes c m).
Proof. intros [] Hm. by split. Qed.

Lemma justified_RecordVote past c id s v :
  justified past c → justified (past ++ [OpVote id s v]) (RecordVote c id s v).2.
Proof.
  intros Hj%(justified_mono _ (OpVote id s v)).
  destruct (RecordVote_cases c id s v)
    as [Haw|tx b Haw Hd|tx Haw Hn ->|tx Haw Hn -> Hall|tx Haw Hn -> _]; simpl; [done| | | |].
  - apply justified_set_votes; [done|].
    intros id' m' s' v' [[<- <-]|[? ?]]%lookup_insert_Some ?;
      eauto using justified_votes_get, j_votes.
  - by apply justified_decide.
  - apply justified_decide; [done|]. intros _.
    destruct (j_expected _ _ Hj _ _ Haw) as (tx0 & ? & ? & He).
    exists tx0. split_and!; [done|done|]. rewrite (map_get_Some _ _ _ _ He) in Hall.
    intros x [->|[v Hv]]%Hall; [set_solver|]. eauto using justified_votes_get.
  - apply justified_set_votes; [done|].
    intros id' m' s' v' [[<- <-]|[? ?]]%lookup_insert_Some; [|eauto using j_votes].
    intros [[<- _]|[? ?]]%lookup_insert_Some; [set_solver|eauto using justified_votes_get].
Qed.

Lemma justified_foldl_decide past l c :
  justified past c → justified past (foldl (λ c id, decide_tx c id false) c l).
Proof.
  revert c. induction l as [|id l IH]; intros c Hj; [done|]. apply IH. by apply justified_decide.
Qed.

Lemma justified_start past h c tx0 :
  justified past c → OpAdd tx0 ∈ past →
  justified past (start_voting h c (CrossShardTx_DeepCopy tx0)).
Proof.
  intros [Hp He Hv Hr Hb] Hadd. split; simpl; try done.
  intros id' t [[<- <-]|[Hne Ht]]%lookup_insert_Some.
  - exists tx0. rewrite lookup_insert_eq, InvolvedShards_DeepCopy. done.
  - destruct (He _ _ Ht) as (tx & ? & ? & ?). exists tx. by rewrite lookup_insert_ne.
Qed.

Lemma justified_foldl_start past h l c :
  justified past c → (∀ tx, tx ∈ l → ∃ tx0, OpAdd tx0 ∈ past ∧ tx = CrossShardTx_DeepCopy tx0) →
  justified past (foldl (start_voting h) c l).
Proof.
  revert c. induction l as [|tx l IH]; intros c Hj Hl; [done|]. simpl. apply IH; [|set_solver].
  destruct (Hl tx) as (tx0 & ? & ->); [set_solver|]. by apply justified_start.
Qed.

Section with_hash.
Context (Hash : OrchestratorShardBlock → BlockHash).

Lemma justified_ProduceBlock past c now blk c' :
  justified past c → ProduceBlock Hash c now = Some (blk, c') → justified past c'.
Proof.
  intros Hj Hp. unfold ProduceBlock in Hp.
  assert (justified past (checkTimeouts c).2) as Hj1 by by apply justified_foldl_decide.
  set (c1 := (checkTimeouts c).2) in *.
  apply bind_Some in Hp as (prev & _ & [= <- <-]).
  pose proof (justified_foldl_start past (u64_add (oc_height c1) 1) (oc_pendingTxs c1) c1
    Hj1 (j_pending _ _ Hj1)) as [Hp He Hv Hr Hb].
  destruct (foldl_start_frame (u64_add (oc_height c1) 1) (oc_pendingTxs c1) c1)
    as (_ & _ & Hres & _).
  split; simpl; [|done|done| |].
  - intros tx Hin. by apply not_elem_of_nil in Hin.
  - done.
  - intros b id [Hin| ->%list_elem_of_singleton]%elem_of_app Hid; [by eauto|].
    by apply (j_result _ _ Hj1).
Qed.

Lemma justified_step past c op c' :
  justified past c → orch_step Hash c op = Some c' → justified (past ++ [op]) c'.
Proof.
  intros Hj Hs. destruct op as [tx|id s v|now| |n]; simpl in Hs.
  - simplify_eq. apply (justified_mono _ (OpAdd tx)) in Hj as [Hp He Hv Hr Hb].
    split; simpl; try done.
    intros t [Hin| ->%list_elem_of_singleton]%elem_of_app; [by auto|].
    exists tx. set_solver.
  - simplify_eq. by apply justified_RecordVote.
  - apply fmap_Some in Hs as ([blk c1] & Hp & ->).
    eapply justified_mono, justified_ProduceBlock; eauto.
  - simplify_eq. by apply justified_mono, justified_foldl_decide.
  - simplify_eq. apply justified_mono. by destruct Hj.
Qed.

Lemma justified_run past c ops c' :
  justified past c → orch_run Hash c ops = Some c' → justified (past ++ ops) c'.
Proof.
  revert past c. induction ops as [|op ops IH]; intros past c Hj Hr; simpl in Hr.
  { simplify_eq. by rewrite app_nil_r. }
  apply bind_Some in Hr as (c1 & Hs & Hr). rewrite cons_middle, app_assoc.
  eapply IH; [|done]. by eapply justified_step.
Qed.

Lemma justified_New now : justified [] (NewOrchestratorChain now).
Proof.
  split; simpl; try done; [intros tx H; by apply not_elem_of_nil in H|].
  intros b id ->%list_elem_of_singleton. done.
Qed.

(** Commit safety: after any sequence of submissions, votes, timeouts and
    block productions from a new chain, a COMMIT recorded in any block of the
    orchestrator chain was preceded by the submission of that transaction and by
    a YES vote of every shard it involves, the source shard included. *)
Theorem published_commit_justified (now : Z) (ops : list orch_op) (c : OrchestratorChain)
    (b : OrchestratorShardBlock) (id : string)
    (Hrun : orch_run Hash (NewOrchestratorChain now) ops = Some c)
    (Hb : b ∈ oc_blocks c)
    (Hcommit : ob_TpcResult b !! id = Some true) :
  ∃ tx, OpAdd tx ∈ ops ∧ ct_ID tx = id ∧
        ∀ s, s = ct_FromShard tx ∨
             (∃ rw, rw ∈ ct_RwSet tx ∧ ref_ShardNum (rw_ReferenceBlock rw) = s) →
             OpVote id s true ∈ ops.
Proof.
  pose proof (justified_run _ _ _ _ (justified_New now) Hrun) as Hj.
  destruct (j_blocks _ _ Hj _ _ Hb Hcommit) as (tx & ? & ? & Hs).
  exists tx. split_and!; [done|done|]. intros s Hin. apply Hs.
  by rewrite elem_of_InvolvedShards, elem_of_TargetShards.
Qed.
End with_hash.

(** ** Witness *)

Lemma published_commit_justified_witness :
  let tx := mkCrossShardTx "a" 0 0 8 9 (Some (Some 5)) 21000 []
              [mkRwVariable 9 (mkReference 1 0 0) [] []] TxPending SimNoStatus "" in
  let ops := [OpAdd tx; OpProduce 1; OpVote "a" 0 true; OpVote "a" 1 true; OpProduce 2] in
  ∃ c b, orch_run ob_Height (NewOrchestratorChain 0) ops = Some c ∧
         ob_TpcResult b !! "a"%string = Some true ∧ b ∈ oc_blocks c ∧
         ∃ t, OpAdd t ∈ ops ∧ ct_ID t = "a"%string.
Proof.
  intros tx ops. do 2 eexists. split; [vm_compute; reflexivity|].
  assert (Hin : mkOrchestratorShardBlock 2 1 2 {[ "a"%string := true ]} [] ∈
    oc_blocks (default (NewOrchestratorChain 0)
      (orch_run ob_Height (NewOrchestratorChain 0) ops))).
  { apply list_elem_of_lookup. exists 2%nat. vm_compute. reflexivity. }
  split; [|split; [exact Hin|]]; [vm_compute; reflexivity|].
  destruct (published_commit_justified ob_Height 0 ops _ _ "a" ltac:(vm_compute; reflexivity) Hin
    ltac:(vm_compute; reflexivity)) as (t & H1 & H2 & _).
  exists t. split; [exact H1|exact H2].
Defined.
