(* ===== verification/TpcSpec.v ===== *)
(** * TpcSpec: atomic commitment, abstractly, and the chain's refinement of it

    The specification follows one transaction through its life: queued, under
    vote, decided, published. [phase_of] reads that phase off the maps and blocks
    of an [OrchestratorChain]; every method call moves it along the
    specification, for any interleaving, as long as transaction IDs are not
    reused. Finality, panic freedom and the bounded-time decision follow. *)

From S2P Require Import Prelude Codec Protocol OrchestratorChain TwoPhase.

Open Scope Z_scope.

(** ** The specification *)

(** [V]: the shards that must vote; [Y]: those that have voted YES. *)
Inductive phase : Type :=
| Queued (V : gset Z)
| Voting (V Y : gset Z)
| Decided (commit : bool)
| Published (commit : bool).

Inductive tpc_next : phase → phase → Prop :=
| tpc_order V : tpc_next (Queued V) (Voting V ∅)
| tpc_yes V Y s : s ∉ Y → tpc_next (Voting V Y) (Voting V ({[s]} ∪ Y))
| tpc_abort V Y : tpc_next (Voting V Y) (Decided false)
| tpc_commit V Y : V ⊆ Y → tpc_next (Voting V Y) (Decided true)
| tpc_publish b : tpc_next (Decided b) (Published b).

#[export] Hint Constructors tpc_next : go.

(** ** The abstraction *)

Definition decisions (c : OrchestratorChain) (id : string) : list bool :=
  omap (λ b, ob_TpcResult b !! id) (oc_blocks c).

Definition voters (tx : CrossShardTx) : gset Z := list_to_set (InvolvedShards tx).

Definition phase_of (c : OrchestratorChain) (id : string) : option phase :=
  match decisions c id with
  | b :: _ => Some (Published b)
  | [] =>
      match oc_pendingResult c !! id with
      | Some b => Some (Decided b)
      | None =>
          match oc_awaitingVotes c !! id with
          | Some tx => Some (Voting (voters tx) (dom ((oc_votes c).[id; ∅])))
          | None => (λ tx, Queued (voters tx)) <$> last_with_id id (oc_pendingTxs c)
          end
      end
  end.

(** ** The invariant *)

Record oc_wf (Hash : OrchestratorShardBlock → BlockHash) (c : OrchestratorChain) : Prop := {
  oc_wf_nonneg : 0 ≤ oc_height c;
  oc_wf_length : Z.of_nat (length (oc_blocks c)) = oc_height c + 1;
  oc_wf_heights i b : oc_blocks c !! i = Some b → ob_Height b = Z.of_nat i;
  oc_wf_links i b b' : oc_blocks c !! i = Some b → oc_blocks c !! S i = Some b' →
    ob_PrevHash b' = Hash b;
  oc_wf_queue : NoDup (map ct_ID (oc_pendingTxs c));
  oc_wf_queued id : id ∈ map ct_ID (oc_pendingTxs c) →
    oc_awaitingVotes c !! id = None ∧ oc_pendingResult c !! id = None ∧ decisions c id = [];
  oc_wf_awaiting id tx : oc_awaitingVotes c !! id = Some tx →
    oc_pendingResult c !! id = None ∧ decisions c id = [] ∧
    oc_expectedVoters c !! id = Some (InvolvedShards tx) ∧
    ∃ h, oc_voteStartBlock c !! id = Some h ∧ 0 ≤ h ≤ oc_height c;
  oc_wf_undecided id tx : oc_awaitingVotes c !! id = Some tx →
    ∃ x, x ∈ InvolvedShards tx ∧ (oc_votes c).[id; ∅] !! x = None;
  oc_wf_idle id : oc_awaitingVotes c !! id = None → oc_votes c !! id = None;
  oc_wf_result id b : oc_pendingResult c !! id = Some b → decisions c id = [];
  oc_wf_once id : (length (decisions c id) ≤ 1)%nat
}.

Section refinement.
Context (Hash : OrchestratorShardBlock → BlockHash).
Abbreviation oc_wf := (oc_wf Hash).

Lemma oc_wf_New now : oc_wf (NewOrchestratorChain now).
Proof.
  split; simpl; try done.
  - intros [|i] b ?; by simplify_eq/=.
  - constructor.
  - intros id. unfold decisions. simpl. rewrite lookup_empty. simpl. lia.
Qed.

(** *** Submission *)

Lemma phase_of_None c id :
  phase_of c id = None →
  decisions c id = [] ∧ oc_pendingResult c !! id = None ∧ oc_awaitingVotes c !! id = None ∧
  id ∉ map ct_ID (oc_pendingTxs c).
Proof.
  unfold phase_of. intros H. repeat case_match; try done.
  apply fmap_None, last_with_id_None in H. done.
Qed.

Lemma last_with_id_snoc id l tx :
  last_with_id id (l ++ [tx]) = if decide (ct_ID tx = id) then Some tx else last_with_id id l.
Proof.
  unfold last_with_id. rewrite filter_app, filter_cons, filter_nil.
  case_decide; [apply last_snoc|by rewrite app_nil_r].
Qed.

Lemma AddTransaction_wf c tx :
  oc_wf c → phase_of c (ct_ID tx) = None → oc_wf (AddTransaction c tx).
Proof.
  intros [] (Hd & Hr & Ha & Hq)%phase_of_None. split; simpl; try done.
  - rewrite map_app. simpl. apply NoDup_app. split_and!; [done|set_solver|apply NoDup_singleton].
  - intros id. rewrite map_app, elem_of_app. simpl. intros [?|?]; [by eauto|].
    assert (id = ct_ID tx) as -> by set_solver. done.
Qed.

Lemma AddTransaction_phase c tx id :
  phase_of c (ct_ID tx) = None →
  phase_of (AddTransaction c tx) id =
  if decide (id = ct_ID tx) then Some (Queued (voters tx)) else phase_of c id.
Proof.
  intros (Hd & Hr & Ha & Hq)%phase_of_None. unfold phase_of, AddTransaction, decisions in *.
  simpl. rewrite last_with_id_snoc. simpl. case_decide as Hid.
  - subst. rewrite Hd, Hr, Ha, decide_True by done. simpl. unfold voters.
    by rewrite InvolvedShards_DeepCopy.
  - by rewrite decide_False by done.
Qed.

(** *** Decisions *)

Lemma decide_tx_wf c id tx b :
  oc_wf c → oc_awaitingVotes c !! id = Some tx → oc_wf (decide_tx c id b).
Proof.
  intros [? ? ? ? ? Hq Ha Hu Hi Hr Ho] Haw. split; simpl; try done.
  - intros id' Hin. destruct (Hq _ Hin) as (Ha' & Hr' & Hd').
    assert (id' ≠ id) by congruence.
    by rewrite lookup_delete_ne, lookup_insert_ne.
  - intros id' tx' [Hne Htx]%lookup_delete_Some.
    rewrite lookup_insert_ne, !lookup_delete_ne by done. by apply Ha.
  - intros id' tx' [Hne Htx]%lookup_delete_Some.
    rewrite map_get_delete_ne by done. by apply Hu.
  - intros id'. destruct (decide (id' = id)) as [->|Hne]; [by rewrite !lookup_delete_eq|].
    rewrite !lookup_delete_ne by done. apply Hi.
  - intros id' b' [[<- _]|[? ?]]%lookup_insert_Some; [|by eapply Hr].
    by destruct (Ha _ _ Haw) as (_ & ? & _).
Qed.

Lemma decide_tx_phase c id tx b id' :
  oc_wf c → oc_awaitingVotes c !! id = Some tx →
  phase_of (decide_tx c id b) id' = if decide (id' = id) then Some (Decided b) else phase_of c id'.
Proof.
  intros Hwf Haw. unfold phase_of, decide_tx, decisions. simpl. case_decide as Hid.
  - subst. destruct (oc_wf_awaiting _ _ Hwf _ _ Haw) as (_ & Hd & _).
    unfold decisions in Hd. by rewrite Hd, lookup_insert_eq.
  - by rewrite lookup_insert_ne, !lookup_delete_ne, map_get_delete_ne by done.
Qed.

(** *** Votes *)

Lemma set_votes_wf c id tx m :
  oc_wf c → oc_awaitingVotes c !! id = Some tx →
  (∃ x, x ∈ InvolvedShards tx ∧ m !! x = None) →
  oc_wf (set_votes c (<[id := m]> (oc_votes c))).
Proof.
  intros [? ? ? ? ? Hq Ha Hu Hi Hr Ho] Haw Hm. split; simpl; try done.
  - intros id' tx' Htx. destruct (decide (id' = id)) as [->|].
    + simplify_eq. by rewrite map_get_insert_eq.
    + rewrite map_get_insert_ne by done. by apply Hu.
  - intros id' Hn. destruct (decide (id' = id)) as [->|]; [congruence|].
    rewrite lookup_insert_ne by done. by apply Hi.
Qed.

Lemma set_votes_phase c id tx m id' :
  oc_wf c → oc_awaitingVotes c !! id = Some tx →
  phase_of (set_votes c (<[id := m]> (oc_votes c))) id'
  = if decide (id' = id) then Some (Voting (voters tx) (dom m)) else phase_of c id'.
Proof.
  intros Hwf Haw. unfold phase_of, set_votes, decisions. simpl. case_decide as Hid.
  - subst. destruct (oc_wf_awaiting _ _ Hwf _ _ Haw) as (Hr & Hd & _).
    unfold decisions in Hd. by rewrite Hd, Hr, Haw, map_get_insert_eq.
  - by rewrite map_get_insert_ne by done.
Qed.

Lemma awaiting_phase c id tx :
  oc_wf c → oc_awaitingVotes c !! id = Some tx →
  phase_of c id = Some (Voting (voters tx) (dom ((oc_votes c).[id; ∅]))).
Proof.
  intros Hwf Haw. destruct (oc_wf_awaiting _ _ Hwf _ _ Haw) as (Hr & Hd & _).
  unfold phase_of. by rewrite Hd, Hr, Haw.
Qed.

(** Phases before and after a step that submits nothing. *)
Abbreviation advances c c' :=
  (∀ id, option_Forall2 (rtc tpc_next) (phase_of c id) (phase_of c' id)).

Lemma advances_refl p : option_Forall2 (rtc tpc_next) p p.
Proof. destruct p; by constructor. Qed.

Lemma RecordVote_refines c id s v :
  oc_wf c → oc_wf (RecordVote c id s v).2 ∧ advances c (RecordVote c id s v).2.
Proof.
  intros Hwf. destruct (RecordVote_cases c id s v)
    as [Haw|tx b Haw Hd|tx Haw Hn ->|tx Haw Hn -> Hall|tx Haw Hn -> Hwait]; cbn [snd].
  - split; [done|]. intros. apply advances_refl.
  - pose proof (oc_wf_undecided _ _ Hwf _ _ Haw). split; [by eapply set_votes_wf|].
    intros id'. erewrite set_votes_phase by eauto. case_decide as Hid; [|apply advances_refl].
    subst. erewrite awaiting_phase by eauto. apply advances_refl.
  - split; [by eapply decide_tx_wf|]. intros id'. erewrite decide_tx_phase by eauto.
    case_decide; [subst|apply advances_refl]. erewrite awaiting_phase by eauto.
    constructor. apply rtc_once. constructor.
  - split; [by eapply decide_tx_wf|]. intros id'. erewrite decide_tx_phase by eauto.
    case_decide; [subst|apply advances_refl]. erewrite awaiting_phase by eauto.
    constructor. eapply rtc_l; [apply (tpc_yes _ _ s)|apply rtc_once; constructor].
    + by rewrite not_elem_of_dom.
    + destruct (oc_wf_awaiting _ _ Hwf _ _ Haw) as (_ & _ & He & _).
      rewrite (map_get_Some _ _ _ _ He) in Hall. intros x Hx%elem_of_list_to_set.
      destruct (Hall _ Hx) as [->|?]; [set_solver|].
      apply elem_of_union_r. by apply elem_of_dom.
  - destruct (oc_wf_awaiting _ _ Hwf _ _ Haw) as (_ & _ & He & _).
    rewrite (map_get_Some _ _ _ _ He) in Hwait.
    destruct (Hwait (InvolvedShards_NoDup tx)) as (x & ? & ? & ?).
    split.
    + eapply set_votes_wf; eauto. exists x. by rewrite lookup_insert_ne.
    + intros id'. erewrite set_votes_phase by eauto. case_decide; [subst|apply advances_refl].
      erewrite awaiting_phase by eauto. constructor. apply rtc_once.
      rewrite dom_insert_L. constructor. by rewrite not_elem_of_dom.
Qed.

(** *** Timeouts *)

Lemma foldl_decide_refines l c :
  oc_wf c → NoDup l → (∀ id, id ∈ l → is_Some (oc_awaitingVotes c !! id)) →
  let c' := foldl (λ c id, decide_tx c id false) c l in
  oc_wf c' ∧
  ∀ id, phase_of c' id = if decide (id ∈ l) then Some (Decided false) else phase_of c id.
Proof.
  revert c. induction l as [|x l IH]; intros c Hwf Hnd Hin; cbn [foldl]; cbv zeta.
  { split; [done|]. intros id. by rewrite decide_False by set_solver. }
  apply NoDup_cons in Hnd as [Hx Hnd].
  destruct (Hin x (list_elem_of_here _ _)) as [tx Htx].
  destruct (IH (decide_tx c x false)) as [Hwf' Hph].
  - by eapply decide_tx_wf.
  - done.
  - intros id Hid. simpl. rewrite lookup_delete_ne by set_solver. apply Hin. set_solver.
  - split; [done|]. intros id. rewrite Hph. erewrite decide_tx_phase by eauto.
    repeat case_decide; set_solver.
Qed.

Lemma timedOut_NoDup c : NoDup (checkTimeouts c).1.
Proof. apply NoDup_filter, NoDup_fst_map_to_list. Qed.

Lemma checkTimeouts_phase c :
  oc_wf c →
  oc_wf (checkTimeouts c).2 ∧
  ∀ id, phase_of (checkTimeouts c).2 id
        = if decide (id ∈ (checkTimeouts c).1) then Some (Decided false) else phase_of c id.
Proof.
  intros Hwf. apply foldl_decide_refines; [done|apply timedOut_NoDup|].
  intros id Hid. by apply elem_of_timedOut in Hid as [? _].
Qed.

Lemma checkTimeouts_refines c :
  oc_wf c → oc_wf (checkTimeouts c).2 ∧ advances c (checkTimeouts c).2.
Proof.
  intros Hwf. destruct (checkTimeouts_phase c Hwf) as [? Hph]. split; [done|].
  intros id. rewrite Hph. case_decide as Hid; [|apply advances_refl].
  apply elem_of_timedOut in Hid as [[tx Htx] _]. erewrite awaiting_phase by eauto.
  constructor. apply rtc_once. constructor.
Qed.

(** *** Block production *)

(** What [ProduceBlock] does after the timeouts. *)
Definition seal (c : OrchestratorChain) (block : OrchestratorShardBlock) : OrchestratorChain :=
  let newHeight := u64_add (oc_height c) 1 in
  let c := foldl (start_voting newHeight) c (oc_pendingTxs c) in
  mkOrchestratorChain (oc_blocks c ++ [block]) newHeight []
    (oc_awaitingVotes c) ∅ (oc_votes c) (oc_expectedVoters c) (oc_voteStartBlock c)
    (oc_voteTimeout c).

Lemma ProduceBlock_seal c now blk c' :
  ProduceBlock Hash c now = Some (blk, c') →
  let c1 := (checkTimeouts c).2 in
  c' = seal c1 blk ∧ ob_Height blk = u64_add (oc_height c1) 1 ∧
  ob_TpcResult blk = oc_pendingResult c1 ∧
  ∃ prev, oc_blocks c1 !! Z.to_nat (oc_height c1) = Some prev ∧ ob_PrevHash blk = Hash prev.
Proof.
  unfold ProduceBlock. intros (prev & Hprev & [= <- <-])%bind_Some. cbv zeta.
  split_and!; [done..|]. by exists prev.
Qed.

Lemma oc_height_seal c blk : oc_height (seal c blk) = u64_add (oc_height c) 1.
Proof. done. Qed.

Lemma decisions_seal c blk id :
  decisions (seal c blk) id = decisions c id ++ option_list (ob_TpcResult blk !! id).
Proof.
  unfold decisions, seal. simpl.
  destruct (foldl_start_frame (u64_add (oc_height c) 1) (oc_pendingTxs c) c) as (-> & _).
  rewrite omap_app. simpl. by destruct (_ !! id).
Qed.

Section sealing.
Context (c : OrchestratorChain) (blk : OrchestratorShardBlock).
Context (Hwf : oc_wf c) (Hbound : oc_height c + 1 < two64).
Context (HH : ob_Height blk = u64_add (oc_height c) 1).
Context (HR : ob_TpcResult blk = oc_pendingResult c).
Context (prev : OrchestratorShardBlock).
Context (Hprev : oc_blocks c !! Z.to_nat (oc_height c) = Some prev).
Context (HP : ob_PrevHash blk = Hash prev).

Local Lemma seal_height : u64_add (oc_height c) 1 = oc_height c + 1.
Proof using Hwf Hbound.
  pose proof (oc_wf_nonneg _ _ Hwf). apply u64_add_small; lia.
Qed.

Lemma seal_phase id :
  phase_of (seal c blk) id =
  match phase_of c id with
  | Some (Decided b) => Some (Published b)
  | Some (Queued V) => Some (Voting V ∅)
  | p => p
  end.
Proof using Hwf HR.
  unfold phase_of. rewrite decisions_seal, HR.
  pose proof (foldl_start_lookup (u64_add (oc_height c) 1) (oc_pendingTxs c) c id) as Hst.
  pose proof (foldl_start_frame (u64_add (oc_height c) 1) (oc_pendingTxs c) c) as (_ & _ & _ & Hv & _).
  destruct (decisions c id) as [|d ds] eqn:Hd; [|done].
  destruct (oc_pendingResult c !! id) as [b|] eqn:Hr; [done|]. simpl in *. rewrite Hv.
  destruct (oc_awaitingVotes c !! id) as [tx|] eqn:Ha.
  - assert (last_with_id id (oc_pendingTxs c) = None) as Hl.
    { apply last_with_id_None. intros Hin.
      apply (oc_wf_queued _ _ Hwf) in Hin as (? & _). congruence. }
    rewrite Hl in Hst. destruct Hst as (-> & _). done.
  - destruct (last_with_id id (oc_pendingTxs c)) as [tx|]; simpl.
    + destruct Hst as (-> & _). unfold voters. rewrite InvolvedShards_DeepCopy.
      rewrite (map_get_None _ _ _ (oc_wf_idle _ _ Hwf _ Ha)). by rewrite dom_empty_L.
    + by destruct Hst as (-> & _).
Qed.

Lemma seal_blocks_lookup i b :
  oc_blocks (seal c blk) !! i = Some b →
  (i < length (oc_blocks c))%nat ∧ oc_blocks c !! i = Some b ∨
  i = length (oc_blocks c) ∧ b = blk.
Proof using Type.
  unfold seal. simpl.
  destruct (foldl_start_frame (u64_add (oc_height c) 1) (oc_pendingTxs c) c) as (-> & _).
  intros [Hl|[? Hl]]%lookup_app_Some; [left; eauto using lookup_lt_Some|].
  right. apply list_lookup_singleton_Some in Hl as [??]. split; [lia|done].
Qed.

Lemma seal_awaiting id tx :
  oc_awaitingVotes (seal c blk) !! id = Some tx →
  oc_pendingResult c !! id = None ∧ decisions c id = [] ∧
  oc_expectedVoters (seal c blk) !! id = Some (InvolvedShards tx) ∧
  (∃ h, oc_voteStartBlock (seal c blk) !! id = Some h ∧ 0 ≤ h ≤ oc_height c + 1) ∧
  ∃ x, x ∈ InvolvedShards tx ∧ (oc_votes c).[id; ∅] !! x = None.
Proof using Hwf Hbound.
  pose proof seal_height as Hh. pose proof (oc_wf_nonneg _ _ Hwf) as Hnn.
  intros Htx. unfold seal in *. simpl in *.
  pose proof (foldl_start_lookup (u64_add (oc_height c) 1) (oc_pendingTxs c) c id) as Hst.
  simpl in Hst. destruct (last_with_id id (oc_pendingTxs c)) as [t|] eqn:Hl.
  - destruct Hst as (Ha & -> & ->). rewrite Ha in Htx. simplify_eq.
    apply last_with_id_Some in Hl as [Hin <-].
    destruct (oc_wf_queued _ _ Hwf (ct_ID t)) as (Hnone & ? & ?).
    { by apply list_elem_of_fmap_2. }
    rewrite InvolvedShards_DeepCopy. split_and!; eauto with lia.
    exists (ct_FromShard t). rewrite elem_of_InvolvedShards.
    rewrite (map_get_None _ _ _ (oc_wf_idle _ _ Hwf _ Hnone)). eauto.
  - destruct Hst as (Ha & -> & ->). rewrite Ha in Htx.
    destruct (oc_wf_awaiting _ _ Hwf _ _ Htx) as (? & ? & ? & h & ? & ?).
    split_and!; eauto with lia. by apply (oc_wf_undecided _ _ Hwf).
Qed.

Lemma seal_wf : oc_wf (seal c blk).
Proof using All.
  pose proof seal_height as Hh. pose proof (oc_wf_length _ _ Hwf) as Hlen.
  pose proof (foldl_start_frame (u64_add (oc_height c) 1) (oc_pendingTxs c) c)
    as (Hb & _ & _ & Hv & _).
  pose proof (oc_wf_nonneg _ _ Hwf) as Hnn.
  split; try done.
  - unfold seal. simpl. lia.
  - unfold seal. simpl. rewrite Hb, length_app. simpl. lia.
  - intros i b [[? Hl]|[-> ->]]%seal_blocks_lookup; [by eapply oc_wf_heights|]. lia.
  - intros i b b' [[? Hl]|[-> ->]]%seal_blocks_lookup [[? Hl']|[? ->]]%seal_blocks_lookup;
      try lia; [by eapply oc_wf_links|].
    replace (Z.to_nat (oc_height c)) with i in Hprev by lia. congruence.
  - constructor.
  - intros id Hin. by apply not_elem_of_nil in Hin.
  - intros id tx Htx. destruct (seal_awaiting _ _ Htx) as (Hr & Hd & ? & ? & _).
    rewrite decisions_seal, HR, Hr, Hd. split_and!; [done|done|done|].
    by rewrite oc_height_seal, Hh.
  - intros id tx Htx. destruct (seal_awaiting _ _ Htx) as (_ & _ & _ & _ & Hu).
    unfold seal. cbn [oc_votes]. by rewrite Hv.
  - intros id. unfold seal. simpl. rewrite Hv.
    pose proof (foldl_start_lookup (u64_add (oc_height c) 1) (oc_pendingTxs c) c id) as Hst.
    simpl in Hst. destruct (last_with_id id (oc_pendingTxs c)); destruct Hst as (-> & _); [done|].
    apply (oc_wf_idle _ _ Hwf).
  - intros id. rewrite decisions_seal, HR.
    destruct (oc_pendingResult c !! id) as [b|] eqn:Hr; simpl; rewrite ?app_nil_r.
    + rewrite (oc_wf_result _ _ Hwf _ _ Hr). simpl. lia.
    + apply (oc_wf_once _ _ Hwf).
Qed.
End sealing.

Lemma ProduceBlock_refines c now blk c' :
  oc_wf c → oc_height c + 1 < two64 → ProduceBlock Hash c now = Some (blk, c') →
  oc_wf c' ∧ advances c c'.
Proof.
  intros Hwf Hb (-> & HH & HR & prev & Hprev & HP)%ProduceBlock_seal.
  destruct (checkTimeouts_refines c Hwf) as [Hwf1 Hadv].
  destruct (checkTimeouts_frame c) as (_ & Hhe & _).
  split; [eapply seal_wf; eauto; by rewrite Hhe|].
  intros id. rewrite seal_phase by done. specialize (Hadv id).
  destruct Hadv as [p q Hpq|]; [|constructor].
  destruct q; constructor; (done || (eapply rtc_r; [exact Hpq|constructor])).
Qed.

(** Production cannot panic on a well-formed chain. *)
Lemma ProduceBlock_total c now : oc_wf c → ∃ blk c', ProduceBlock Hash c now = Some (blk, c').
Proof.
  intros Hwf. unfold ProduceBlock. destruct (checkTimeouts_frame c) as (-> & -> & _).
  pose proof (oc_wf_length _ _ Hwf). pose proof (oc_wf_nonneg _ _ Hwf).
  destruct (lookup_lt_is_Some_2 (oc_blocks c) (Z.to_nat (oc_height c))) as [prev ->]; [lia|].
  simpl. eauto.
Qed.

(** ** Steps and runs *)

(** The ID a step submits, if any. *)
Definition op_submits (op : orch_op) : option string :=
  match op with OpAdd tx => Some (ct_ID tx) | _ => None end.

Definition submitted (ops : list orch_op) : list string := omap op_submits ops.

Definition is_produce (op : orch_op) : bool :=
  match op with OpProduce _ => true | _ => false end.

Definition produced (ops : list orch_op) : nat := length (filter (λ op, is_produce op = true) ops).

Lemma orch_step_total c op : oc_wf c → ∃ c', orch_step Hash c op = Some c'.
Proof.
  intros Hwf. destruct op; simpl; eauto.
  destruct (ProduceBlock_total c now Hwf) as (? & ? & ->). simpl. eauto.
Qed.

Lemma orch_step_refines c c' op :
  oc_wf c → oc_height c + 1 < two64 →
  (∀ tx, op = OpAdd tx → phase_of c (ct_ID tx) = None) →
  orch_step Hash c op = Some c' →
  oc_wf c' ∧
  ∀ id, match op with
        | OpAdd tx => phase_of c' id = if decide (id = ct_ID tx) then Some (Queued (voters tx))
                                       else phase_of c id
        | _ => option_Forall2 (rtc tpc_next) (phase_of c id) (phase_of c' id)
        end.
Proof.
  intros Hwf Hbound Hfresh Hstep.
  destruct op as [tx|id s v|now| |n]; simpl in Hstep; simplify_eq.
  - specialize (Hfresh _ eq_refl). split; [by apply AddTransaction_wf|].
    intros id. by apply AddTransaction_phase.
  - by apply RecordVote_refines.
  - apply fmap_Some in Hstep as ([blk c1] & Hp & ->). by eapply ProduceBlock_refines.
  - by apply checkTimeouts_refines.
  - split; [by destruct Hwf|]. intros id. apply advances_refl.
Qed.

(** C4. Refinement: on a well-formed chain, a method call preserves well-formedness
    and moves every transaction along the specification: a submission of a new ID
    queues it and touches no other; any other call advances each transaction by
    steps of [tpc_next] only (a COMMIT decision needs YES from every involved
    shard) and creates none. *)
Theorem chain_refines_tpc (c c' : OrchestratorChain) (op : orch_op)
    (Hwf : oc_wf c) (Hbound : oc_height c + 1 < two64)
    (Hfresh : ∀ tx, op = OpAdd tx → phase_of c (ct_ID tx) = None)
    (Hstep : orch_step Hash c op = Some c') :
  oc_wf c' ∧
  ∀ id, match op with
        | OpAdd tx => phase_of c' id = if decide (id = ct_ID tx) then Some (Queued (voters tx))
                                       else phase_of c id
        | _ => option_Forall2 (rtc tpc_next) (phase_of c id) (phase_of c' id)
        end.
Proof. by eapply orch_step_refines. Qed.

Lemma orch_step_height c op c' :
  orch_step Hash c op = Some c' → is_u64 (oc_height c) →
  oc_height c ≤ oc_height c' ≤ oc_height c + 1 ∨ oc_height c + 1 = two64.
Proof.
  intros Hs Hu. destruct op as [tx|id s v|now| |n]; cbn [orch_step] in Hs; simplify_eq; try (simpl; lia).
  - destruct (RecordVote_cases c id s v); simpl; lia.
  - apply fmap_Some in Hs as ([blk c1] & (-> & _)%ProduceBlock_seal & ->).
    cbn [snd]. rewrite !oc_height_seal. destruct (checkTimeouts_frame c) as (_ & -> & _). unfold u64_add, wrap64.
    destruct (decide (oc_height c + 1 = two64)); [by right|left].
    rewrite Z.mod_small by (destruct Hu; lia). lia.
  - left. unfold CheckTimeouts. destruct (checkTimeouts_frame c) as (_ & -> & _). lia.
Qed.

(** Every transaction the chain knows was submitted. *)
Definition known (past : list orch_op) (c : OrchestratorChain) : Prop :=
  ∀ id, phase_of c id ≠ None → id ∈ submitted past.

(** One step of a run with distinct IDs: it is total, preserves the invariants
    and only advances the transactions already known. *)
Lemma run_step past c op ops :
  oc_wf c → known past c → NoDup (submitted (past ++ op :: ops)) → oc_height c + 1 < two64 →
  ∃ c1, orch_step Hash c op = Some c1 ∧ oc_wf c1 ∧ known (past ++ [op]) c1 ∧
    oc_height c ≤ oc_height c1 ≤ oc_height c + 1 ∧
    ∀ id p, phase_of c id = Some p → ∃ q, phase_of c1 id = Some q ∧ rtc tpc_next p q.
Proof.
  intros Hwf Hk Hnd Hb. destruct (orch_step_total c op Hwf) as [c1 Hs].
  pose proof (oc_wf_nonneg _ _ Hwf) as Hnn.
  assert (Hfresh : ∀ tx, op = OpAdd tx → phase_of c (ct_ID tx) = None).
  { intros tx ->. apply dec_stable. intros Hne%Hk. unfold submitted in Hnd.
    rewrite omap_app in Hnd. apply NoDup_app in Hnd as (_ & Hdisj & _).
    apply (Hdisj _ Hne). cbn. apply list_elem_of_here. }
  destruct (orch_step_refines _ _ _ Hwf Hb Hfresh Hs) as [Hwf1 Hph].
  exists c1. split_and!; [done|done| | | |].
  - intros id Hid. unfold submitted. rewrite omap_app. specialize (Hph id).
    assert (phase_of c id ≠ None → id ∈ omap op_submits past ++ omap op_submits [op]) as Hold.
    { intros ?%Hk. set_solver. }
    destruct op; try (apply Hold; intros Hn; rewrite Hn in Hph; by inversion Hph; congruence).
    case_decide; [subst; cbn; set_solver|apply Hold; congruence].
  - destruct (orch_step_height _ _ _ Hs ltac:(split; lia)); lia.
  - destruct (orch_step_height _ _ _ Hs ltac:(split; lia)); lia.
  - intros id p Hp. specialize (Hph id).
    destruct op as [tx| | | |]; try (rewrite Hp in Hph; inversion Hph; subst; by eauto).
    rewrite Hph. case_decide as Hid; [|eauto using rtc_refl].
    subst. specialize (Hfresh _ eq_refl). congruence.
Qed.

Lemma orch_run_refines past c ops :
  oc_wf c → known past c → NoDup (submitted (past ++ ops)) →
  oc_height c + Z.of_nat (length ops) < two64 →
  ∃ c', orch_run Hash c ops = Some c' ∧ oc_wf c' ∧ known (past ++ ops) c'.
Proof.
  revert past c. induction ops as [|op ops IH]; intros past c Hwf Hk Hnd Hb.
  { exists c. by rewrite app_nil_r. }
  cbn [length] in Hb.
  destruct (run_step past c op ops) as (c1 & Hs & Hwf1 & Hk1 & Hh & _); try done; [lia|].
  destruct (IH (past ++ [op]) c1) as (c2 & Hr & Hwf2 & Hk2); try done;
    [by rewrite <- app_assoc|lia|].
  exists c2. rewrite <- app_assoc in Hk2. cbn. rewrite Hs. done.
Qed.

Lemma orch_run_height past c ops c' :
  oc_wf c → known past c → NoDup (submitted (past ++ ops)) →
  oc_height c + Z.of_nat (length ops) < two64 → orch_run Hash c ops = Some c' →
  oc_height c' ≤ oc_height c + Z.of_nat (length ops).
Proof.
  revert past c. induction ops as [|op ops IH]; intros past c Hwf Hk Hnd Hb Hr.
  { simplify_eq/=. lia. }
  cbn [length] in *.
  destruct (run_step past c op ops) as (c1 & Hs & Hwf1 & Hk1 & Hh & _); try done; [lia|].
  cbn in Hr. rewrite Hs in Hr. cbn in Hr.
  assert (oc_height c' ≤ oc_height c1 + Z.of_nat (length ops)); [|lia].
  eapply (IH (past ++ [op])); eauto; [by rewrite <- app_assoc|lia].
Qed.

Lemma known_New now : known [] (NewOrchestratorChain now).
Proof. intros id H. exfalso. apply H. done. Qed.

Lemma orch_run_New now ops :
  NoDup (submitted ops) → Z.of_nat (length ops) < two64 →
  ∃ c, orch_run Hash (NewOrchestratorChain now) ops = Some c ∧ oc_wf c ∧ known ops c.
Proof.
  intros Hnd Hb.
  destruct (orch_run_refines [] (NewOrchestratorChain now) ops) as (c & ? & ? & ?); simpl; try done.
  - apply oc_wf_New.
  - apply known_New.
  - eauto.
Qed.

Lemma orch_run_app c ops1 ops2 :
  orch_run Hash c (ops1 ++ ops2) = c' ← orch_run Hash c ops1; orch_run Hash c' ops2.
Proof.
  revert c. induction ops1 as [|op ops IH]; intros c; simpl; [done|].
  destruct (orch_step Hash c op); simpl; [apply IH|done].
Qed.

(** Integrity of the orchestrator chain: any run with distinct transaction IDs
    terminates without a panic, and block [i] of the result has height [i] and
    carries the hash of block [i-1]; [GetBlock] answers every height up to the
    current one with the block of that height and no other. *)
Theorem chain_integrity (now : Z) (ops : list orch_op)
    (Hids : NoDup (submitted ops)) (Hbound : Z.of_nat (length ops) < two64) :
  ∃ c, orch_run Hash (NewOrchestratorChain now) ops = Some c ∧
    (∀ i b b', oc_blocks c !! i = Some b → oc_blocks c !! S i = Some b' →
               ob_PrevHash b' = Hash b) ∧
    (∀ h, 0 ≤ h → match GetBlock c h with
                  | Some b => ob_Height b = h ∧ h ≤ GetHeight c
                  | None => GetHeight c < h
                  end).
Proof.
  destruct (orch_run_New now ops Hids Hbound) as (c & Hr & Hwf & _).
  exists c. split_and!; [done|apply (oc_wf_links _ _ Hwf)|].
  intros h Hh. unfold GetBlock, GetHeight.
  pose proof (oc_wf_length _ _ Hwf). pose proof (oc_wf_nonneg _ _ Hwf).
  destruct (_ || _) eqn:Hor; [lia|].
  destruct (oc_blocks c !! Z.to_nat h) as [b|] eqn:Hb.
  - apply (oc_wf_heights _ _ Hwf) in Hb. lia.
  - apply lookup_ge_None in Hb. lia.
Qed.

(** C14. Finality: with distinct transaction IDs, a transaction's outcome appears in
    at most one block of the orchestrator chain, so no two blocks can disagree. *)
Theorem decided_once (now : Z) (ops : list orch_op) (c : OrchestratorChain)
    (id : string) (i j : nat) (bi bj : OrchestratorShardBlock) (di dj : bool)
    (Hids : NoDup (submitted ops)) (Hbound : Z.of_nat (length ops) < two64)
    (Hrun : orch_run Hash (NewOrchestratorChain now) ops = Some c)
    (Hi : oc_blocks c !! i = Some bi) (Hdi : ob_TpcResult bi !! id = Some di)
    (Hj : oc_blocks c !! j = Some bj) (Hdj : ob_TpcResult bj !! id = Some dj) :
  i = j ∧ di = dj.
Proof.
  destruct (orch_run_New now ops Hids Hbound) as (c' & Hr & Hwf & _). simplify_eq.
  pose proof (oc_wf_once _ _ Hwf id) as Hone. unfold decisions in Hone.
  destruct (Nat.lt_total i j) as [?|[->|?]].
  - destruct (omap_at_most_once _ _ _ _ _ _ _ _ Hi Hj Hdi Hdj Hone); lia.
  - split; congruence.
  - destruct (omap_at_most_once _ _ _ _ _ _ _ _ Hj Hi Hdj Hdi Hone); lia.
Qed.

(** ** Every vote ends *)

(** [id] is under vote since the block of height [h0]. *)
Definition tracked (c : OrchestratorChain) (id : string) (h0 : Z) : Prop :=
  is_Some (oc_awaitingVotes c !! id) ∧ oc_voteStartBlock c !! id = Some h0.

Definition settled (c : OrchestratorChain) (id : string) : Prop :=
  ∃ b, phase_of c id = Some (Decided b) ∨ phase_of c id = Some (Published b).

Lemma checkTimeouts_tracked c id h0 :
  oc_wf c → tracked c id h0 → is_u64 (h0 + oc_voteTimeout c) →
  if decide (h0 + oc_voteTimeout c ≤ oc_height c)
  then phase_of (checkTimeouts c).2 id = Some (Decided false)
  else tracked (checkTimeouts c).2 id h0.
Proof.
  intros Hwf [Haw Hst] Hu. destruct (checkTimeouts_phase c Hwf) as [_ Hph].
  assert (id ∈ (checkTimeouts c).1 ↔ h0 + oc_voteTimeout c ≤ oc_height c) as Hiff.
  { rewrite elem_of_timedOut. unfold timed_out, u64_add. rewrite Hst, wrap64_small by done.
    rewrite Z.leb_le. tauto. }
  case_decide as Hd; [by rewrite Hph, decide_True by tauto|].
  destruct (checkTimeouts_lookup c id) as (Ha & _ & _ & _ & Hs).
  unfold tracked. rewrite Ha, Hs, !decide_False by tauto. done.
Qed.

Lemma seal_tracked c blk id h0 : oc_wf c → tracked c id h0 → tracked (seal c blk) id h0.
Proof.
  intros Hwf [[tx Htx] Hst]. unfold tracked, seal. simpl.
  pose proof (foldl_start_lookup (u64_add (oc_height c) 1) (oc_pendingTxs c) c id) as Hl.
  assert (last_with_id id (oc_pendingTxs c) = None) as Hnone.
  { apply last_with_id_None. intros (? & _)%(oc_wf_queued _ _ Hwf). congruence. }
  simpl in Hl. rewrite Hnone in Hl. destruct Hl as (-> & _ & ->). eauto.
Qed.

(** A block production either settles a timed-out vote in that very block, or
    leaves the vote tracked. *)
Lemma produce_tracked c now c' id h0 :
  oc_wf c → tracked c id h0 → is_u64 (h0 + oc_voteTimeout c) →
  orch_step Hash c (OpProduce now) = Some c' →
  if decide (h0 + oc_voteTimeout c ≤ oc_height c)
  then phase_of c' id = Some (Published false)
  else tracked c' id h0.
Proof.
  intros Hwf Ht Hu Hs. cbn [orch_step] in Hs.
  apply fmap_Some in Hs as ([blk c1] & (-> & _ & HR & _)%ProduceBlock_seal & ->). cbn [snd].
  pose proof (checkTimeouts_tracked c id h0 Hwf Ht Hu) as Hct.
  destruct (checkTimeouts_refines c Hwf) as [Hwf1 _].
  case_decide; [by rewrite seal_phase, Hct by done|by apply seal_tracked].
Qed.

Lemma other_tracked c op c' id h0 :
  oc_wf c → tracked c id h0 → is_u64 (h0 + oc_voteTimeout c) →
  op_submits op ≠ Some id → is_produce op = false →
  orch_step Hash c op = Some c' →
  tracked c' id h0 ∨ settled c' id.
Proof.
  intros Hwf Ht Hu Hid Hnp Hs.
  destruct op as [tx|x s v|now| |n]; cbn [orch_step] in Hs; simplify_eq; try (by left); try done.
  - pose proof Ht as [[t Haw] Hst].
    destruct (RecordVote_cases c x s v) as [|tx b Haw' Hd|tx Haw' Hn ->|tx Haw' Hn -> Hall|]; cbn [snd];
      try (by left).
    + destruct (decide (id = x)) as [->|Hne].
      * right. exists false. left. erewrite decide_tx_phase by eauto. by rewrite decide_True.
      * left. split; simpl; by rewrite lookup_delete_ne.
    + destruct (decide (id = x)) as [->|Hne].
      * right. exists true. left. erewrite decide_tx_phase by eauto. by rewrite decide_True.
      * left. split; simpl; by rewrite lookup_delete_ne.
  - unfold CheckTimeouts. pose proof (checkTimeouts_tracked c id h0 Hwf Ht Hu) as Hct.
    case_decide; [right|by left]. exists false. by left.
Qed.

Lemma rtc_settled p q :
  rtc tpc_next p q → (∃ b, p = Decided b ∨ p = Published b) → ∃ b, q = Decided b ∨ q = Published b.
Proof.
  induction 1 as [|p q r Hpq _ IH]; [done|]. intros (b & [->| ->]); inv Hpq. apply IH. eauto.
Qed.

Lemma produce_settled c now c' id :
  oc_wf c → oc_height c + 1 < two64 → settled c id → orch_step Hash c (OpProduce now) = Some c' →
  ∃ b, phase_of c' id = Some (Published b).
Proof.
  intros Hwf Hb Hset Hs. cbn [orch_step] in Hs.
  apply fmap_Some in Hs as ([blk c1] & (-> & _ & HR & _)%ProduceBlock_seal & ->). cbn [snd].
  destruct (checkTimeouts_refines c Hwf) as [Hwf1 Hadv]. rewrite seal_phase by done.
  specialize (Hadv id).
  assert (∃ b, phase_of (checkTimeouts c).2 id = Some (Decided b) ∨
               phase_of (checkTimeouts c).2 id = Some (Published b)) as (b & [-> | ->]); [|by eauto..].
  destruct Hset as (b & [Hp|Hp]); rewrite Hp in Hadv; inversion Hadv as [? q Hpq Heq1 Heq2|];
    destruct (rtc_settled _ _ Hpq) as (b' & [->| ->]); eauto.
Qed.

Lemma orch_step_timeout c op c' :
  orch_step Hash c op = Some c' → (∀ n, op ≠ OpSetTimeout n) → oc_voteTimeout c' = oc_voteTimeout c.
Proof.
  intros Hs Hn. destruct op as [tx|id s v|now| |n]; cbn [orch_step] in Hs; simplify_eq; try done.
  - by destruct (RecordVote_cases c id s v).
  - apply fmap_Some in Hs as ([blk c1] & (-> & _)%ProduceBlock_seal & ->). cbn [snd].
    unfold seal. simpl.
    destruct (foldl_start_frame (u64_add (oc_height (checkTimeouts c).2) 1)
      (oc_pendingTxs (checkTimeouts c).2) (checkTimeouts c).2) as (_ & _ & _ & _ & Ht).
    simpl in Ht. rewrite Ht. apply checkTimeouts_frame.
  - apply checkTimeouts_frame.
  - by destruct (Hn n).
Qed.

Lemma produce_height c now c' :
  oc_wf c → oc_height c + 1 < two64 → orch_step Hash c (OpProduce now) = Some c' →
  oc_height c' = oc_height c + 1.
Proof.
  intros Hwf Hb Hs. cbn [orch_step] in Hs.
  apply fmap_Some in Hs as ([blk c1] & (-> & _)%ProduceBlock_seal & ->). cbn [snd].
  rewrite oc_height_seal. destruct (checkTimeouts_frame c) as (_ & -> & _).
  pose proof (oc_wf_nonneg _ _ Hwf). apply u64_add_small; lia.
Qed.

Lemma rtc_published b q : rtc tpc_next (Published b) q → q = Published b.
Proof. intros H. apply rtc_inv in H as [<-|(y & Hy & _)]; [done|inv Hy]. Qed.

(** How far the vote on [id] is from publication, given [n] productions to come. *)
Definition on_course (c : OrchestratorChain) (id : string) (h0 T : Z) (n : nat) : Prop :=
  (tracked c id h0 ∧ h0 + T + 1 ≤ oc_height c + Z.of_nat n ∧ (1 ≤ n)%nat) ∨
  (settled c id ∧ (1 ≤ n)%nat) ∨
  ∃ b, phase_of c id = Some (Published b).

Lemma on_course_step c op c1 id h0 T n :
  oc_wf c → oc_height c + 1 < two64 → is_u64 (h0 + T) → oc_voteTimeout c = T →
  op_submits op ≠ Some id → orch_step Hash c op = Some c1 →
  oc_height c ≤ oc_height c1 →
  (∀ p, phase_of c id = Some p → ∃ q, phase_of c1 id = Some q ∧ rtc tpc_next p q) →
  on_course c id h0 T (if is_produce op then S n else n) → on_course c1 id h0 T n.
Proof.
  intros Hwf Hb Hu <- Hid Hs Hh Hadv [(Ht & Hle & Hn)|[[Hset Hn]|[b Hp]]].
  - destruct (is_produce op) eqn:Hprod.
    + destruct op; try done.
      pose proof (produce_height _ _ _ Hwf Hb Hs) as Hh1.
      pose proof (produce_tracked _ _ _ _ _ Hwf Ht Hu Hs) as Hpt.
      case_decide; [right; right; eauto|left]. split_and!; [done|lia|lia].
    + destruct (other_tracked _ _ _ _ _ Hwf Ht Hu Hid Hprod Hs); [left|right; left]; [|done].
      split_and!; [done|lia|lia].
  - right. destruct (is_produce op) eqn:Hprod.
    + right. destruct op; try done. by eapply produce_settled.
    + left. split; [|done]. destruct Hset as (b & [Hp|Hp]);
        destruct (Hadv _ Hp) as (q & Hq & Hpq);
        destruct (rtc_settled _ _ Hpq) as (b' & [->| ->]); eauto; by exists b'; auto.
  - right. right. destruct (Hadv _ Hp) as (q & Hq & ->%rtc_published). eauto.
Qed.

Lemma run_publishes past c ops id h0 :
  oc_wf c → known past c → NoDup (submitted (past ++ ops)) →
  oc_height c + Z.of_nat (length ops) < two64 →
  is_u64 (h0 + oc_voteTimeout c) → (∀ n, OpSetTimeout n ∉ ops) → id ∈ submitted past →
  on_course c id h0 (oc_voteTimeout c) (produced ops) →
  ∃ c' b, orch_run Hash c ops = Some c' ∧ phase_of c' id = Some (Published b).
Proof.
  revert past c. induction ops as [|op ops IH]; intros past c Hwf Hk Hnd Hb Hu Hset Hid Hon.
  { destruct Hon as [(_ & _ & Hn)|[[_ Hn]|[b Hp]]]; [cbn in Hn; lia..|]. by exists c, b. }
  cbn [length] in Hb.
  destruct (run_step past c op ops) as (c1 & Hs & Hwf1 & Hk1 & Hh & Hadv); try done; [lia|].
  assert (oc_voteTimeout c1 = oc_voteTimeout c) as HT.
  { eapply orch_step_timeout; [done|]. intros n ->. apply (Hset n). apply list_elem_of_here. }
  assert (op_submits op ≠ Some id) as Hne.
  { intros Hop. unfold submitted in Hnd. rewrite omap_app in Hnd. cbn in Hnd. rewrite Hop in Hnd.
    apply NoDup_app in Hnd as (_ & Hdisj & _). apply (Hdisj _ Hid), list_elem_of_here. }
  destruct (IH (past ++ [op]) c1) as (c2 & b & Hr & Hp); try done.
  - by rewrite <- app_assoc.
  - lia.
  - by rewrite HT.
  - intros n Hin. apply (Hset n). by apply list_elem_of_further.
  - unfold submitted. rewrite omap_app. apply elem_of_app. by left.
  - rewrite HT. apply (on_course_step c op c1); try done; try lia; [by apply Hadv|].
    unfold produced in *. rewrite filter_cons in Hon. destruct (is_produce op); exact Hon.
  - exists c2, b. cbn. by rewrite Hs.
Qed.

Lemma published_in_block c id b :
  phase_of c id = Some (Published b) →
  ∃ blk, blk ∈ oc_blocks c ∧ ob_TpcResult blk !! id = Some b.
Proof.
  unfold phase_of. destruct (decisions c id) as [|d ds] eqn:Hd.
  { intros Hp. repeat case_match; simplify_eq/=. by apply fmap_Some in Hp as (? & _ & ?). }
  intros [= ->]. assert (b ∈ decisions c id) as Hin by (rewrite Hd; apply list_elem_of_here).
  by apply list_elem_of_omap in Hin.
Qed.

(** C15. Bounded decision time: once a transaction is under vote, however votes,
    submissions and timeouts interleave, [voteTimeout + 1] further block
    productions always leave its outcome in a block of the chain, even when no
    shard ever answers; and the run cannot panic. *)
Theorem vote_terminates (now : Z) (ops1 ops2 : list orch_op) (c1 : OrchestratorChain)
    (id : string) (tx : CrossShardTx)
    (Hids : NoDup (submitted (ops1 ++ ops2)))
    (Hrun : orch_run Hash (NewOrchestratorChain now) ops1 = Some c1)
    (Hvoting : oc_awaitingVotes c1 !! id = Some tx)
    (Htimeout : 0 ≤ oc_voteTimeout c1)
    (Hfixed : ∀ n, OpSetTimeout n ∉ ops2)
    (Hblocks : oc_voteTimeout c1 < Z.of_nat (produced ops2))
    (Hbound : Z.of_nat (length (ops1 ++ ops2)) + oc_voteTimeout c1 < two64) :
  ∃ c2 blk b, orch_run Hash c1 ops2 = Some c2 ∧ blk ∈ oc_blocks c2 ∧
              ob_TpcResult blk !! id = Some b.
Proof.
  rewrite length_app in Hbound.
  assert (NoDup (submitted ops1)) as Hids1.
  { unfold submitted in *. rewrite omap_app in Hids. by apply NoDup_app in Hids as [? _]. }
  destruct (orch_run_New now ops1 Hids1 ltac:(lia)) as (c & Hr & Hwf & Hk). simplify_eq.
  destruct (oc_wf_awaiting _ _ Hwf _ _ Hvoting) as (_ & _ & _ & h0 & Hst & Hh0).
  assert (oc_height c1 ≤ Z.of_nat (length ops1)) as Hh.
  { apply (orch_run_height [] (NewOrchestratorChain now) ops1); simpl; try done; try lia;
      [apply oc_wf_New|apply known_New]. }
  destruct (run_publishes ops1 c1 ops2 id h0) as (c2 & b & Hr2 & Hp); try done.
  - lia.
  - split; lia.
  - apply Hk. erewrite awaiting_phase by eauto. done.
  - left. split; [|lia]. split; eauto.
  - destruct (published_in_block _ _ _ Hp) as (blk & ? & ?). eauto 10.
Qed.
End refinement.

(** ** Witnesses *)

(** A transfer from shard 0 to an address of shard 1. *)
Definition demoTx (id : string) : CrossShardTx :=
  mkCrossShardTx id 0 0 8 9 (Some (Some 5)) 21000 []
    [mkRwVariable 9 (mkReference 1 0 0) [] []] TxPending SimNoStatus "".

Definition demoHash (b : OrchestratorShardBlock) : BlockHash := ob_Height b + 100.

(** Submitted, ordered, voted YES by both shards, published. *)
Definition demoRun : list orch_op :=
  [OpAdd (demoTx "a"); OpProduce 1; OpVote "a" 0 true; OpVote "a" 1 true; OpProduce 2].

Definition demoChain : OrchestratorChain :=
  default (NewOrchestratorChain 0) (orch_run demoHash (NewOrchestratorChain 0) demoRun).

Lemma demo_ids : NoDup (submitted demoRun).
Proof. apply NoDup_singleton. Qed.

Lemma chain_refines_tpc_witness :
  phase_of (NewOrchestratorChain 0) "a" = None ∧
  phase_of (AddTransaction (NewOrchestratorChain 0) (demoTx "a")) "a"
  = Some (Queued (voters (demoTx "a"))).
Proof.
  split; [reflexivity|].
  destruct (chain_refines_tpc demoHash (NewOrchestratorChain 0)
    (AddTransaction (NewOrchestratorChain 0) (demoTx "a")) (OpAdd (demoTx "a"))) as [_ H].
  - apply oc_wf_New.
  - reflexivity.
  - intros tx [= <-]. reflexivity.
  - reflexivity.
  - exact (H "a"%string).
Defined.

Lemma chain_integrity_witness :
  ∃ c, orch_run demoHash (NewOrchestratorChain 0) demoRun = Some c ∧
       match GetBlock c 2 with Some b => ob_Height b = 2 ∧ 2 ≤ GetHeight c | None => GetHeight c < 2 end.
Proof.
  destruct (chain_integrity demoHash 0 demoRun demo_ids ltac:(reflexivity)) as (c & Hr & _ & Hb).
  exists c. split; [exact Hr|]. apply (Hb 2). lia.
Defined.

Lemma decided_once_witness :
  ∃ b, oc_blocks demoChain !! 2%nat = Some b ∧ ob_TpcResult b !! "a"%string = Some true ∧
       2%nat = 2%nat ∧ true = true.
Proof.
  eexists. split; [vm_compute; reflexivity|]. split; [vm_compute; reflexivity|].
  eapply (decided_once demoHash 0 demoRun demoChain "a" 2 2).
  - exact demo_ids.
  - reflexivity.
  - vm_compute. reflexivity.
  - vm_compute. reflexivity.
  - vm_compute. reflexivity.
  - vm_compute. reflexivity.
  - vm_compute. reflexivity.
Defined.

(** No shard answers: eleven more blocks publish the abort. *)
Lemma vote_terminates_witness :
  ∃ c1, orch_run demoHash (NewOrchestratorChain 0) [OpAdd (demoTx "a"); OpProduce 1] = Some c1 ∧
  ∃ c2 blk b, orch_run demoHash c1 (replicate 11 (OpProduce 0)) = Some c2 ∧ blk ∈ oc_blocks c2 ∧
              ob_TpcResult blk !! "a"%string = Some b.
Proof.
  eexists. split; [vm_compute; reflexivity|].
  eapply (vote_terminates demoHash 0 [OpAdd (demoTx "a"); OpProduce 1]).
  - apply NoDup_singleton.
  - vm_compute. reflexivity.
  - vm_compute. reflexivity.
  - vm_compute. discriminate.
  - intros n Hin. repeat (apply elem_of_cons in Hin as [Hin|Hin]; [discriminate|]).
    by apply not_elem_of_nil in Hin.
  - vm_compute. reflexivity.
  - vm_compute. reflexivity.
Defined.
