(* ===== verification/VmState.v ===== *)
(** * VmState: the boundary with go-ethereum

    The repository runs go-ethereum's EVM against three implementations of its
    [vm.StateDB] interface: geth's own [state.StateDB], and the repository's
    [TrackingStateDB] and [SimulationStateDB]. The interface is a type of
    operations ([StateOp]); an execution of the EVM is a finite tree of such
    operations ([Prog]); an implementation is an instance of [StateDB]. What is
    not in the repository (geth's state database, the interpreter, byte and
    256-bit conversions) is a class: the clients are verified against its
    operations and its documented laws, never against an implementation. *)

From S2P Require Import Prelude Codec Protocol.

Open Scope Z_scope.

(** ** The vm.StateDB interface *)

Record Log := mkLog { log_Address : Address; log_Topics : list Hash; log_Data : list byte }.

Inductive StateOp : Type → Type :=
| CreateAccount (a : Address) : StateOp unit
| CreateContract (a : Address) : StateOp unit
| SubBalance (a : Address) (amount : Z) : StateOp Z
| AddBalance (a : Address) (amount : Z) : StateOp Z
| GetBalance (a : Address) : StateOp Z
| GetNonce (a : Address) : StateOp Z
| SetNonce (a : Address) (nonce : Z) : StateOp unit
| GetCodeHash (a : Address) : StateOp Hash
| GetCode (a : Address) : StateOp (list byte)
| SetCode (a : Address) (code : list byte) : StateOp (list byte)
| GetCodeSize (a : Address) : StateOp Z
| AddRefund (gas : Z) : StateOp unit
| SubRefund (gas : Z) : StateOp unit
| GetRefund : StateOp Z
| GetState (a : Address) (slot : Hash) : StateOp Hash
| GetStateAndCommittedState (a : Address) (slot : Hash) : StateOp (Hash * Hash)
| SetState (a : Address) (slot value : Hash) : StateOp Hash
| GetStorageRoot (a : Address) : StateOp Hash
| GetTransientState (a : Address) (key : Hash) : StateOp Hash
| SetTransientState (a : Address) (key value : Hash) : StateOp unit
| SelfDestruct (a : Address) : StateOp Z
| HasSelfDestructed (a : Address) : StateOp bool
| SelfDestruct6780 (a : Address) : StateOp (Z * bool)
| Exist (a : Address) : StateOp bool
| Empty (a : Address) : StateOp bool
| AddressInAccessList (a : Address) : StateOp bool
| SlotInAccessList (a : Address) (slot : Hash) : StateOp (bool * bool)
| AddAddressToAccessList (a : Address) : StateOp unit
| AddSlotToAccessList (a : Address) (slot : Hash) : StateOp unit
| Prepare (sender coinbase : Address) (dest : option Address)
    (precompiles : list Address) (txAccesses : list (Address * list Hash)) : StateOp unit
| RevertToSnapshot (revid : Z) : StateOp unit
| Snapshot : StateOp Z
| AddLog (log : Log) : StateOp unit
| AddPreimage (hash : Hash) (preimage : list byte) : StateOp unit
| Finalise (deleteEmptyObjects : bool) : StateOp unit.

(** An implementation: the result of a method and the state it leaves. *)
Class StateDB (DB : Type) := do_op : ∀ {A : Type}, StateOp A → DB → A * DB.

(** ** Programs over the interface *)

Inductive Prog (R : Type) : Type :=
| Ret (r : R)
| Vis (A : Type) (op : StateOp A) (k : A → Prog R).
Arguments Ret {R} r.
Arguments Vis {R} A op k.

Fixpoint prog_bind {R S} (p : Prog R) (f : R → Prog S) : Prog S :=
  match p with
  | Ret r => f r
  | Vis A op k => Vis A op (λ a, prog_bind (k a) f)
  end.

Definition call {A} (op : StateOp A) : Prog A := Vis A op Ret.

Notation "'let!' x ':=' p 'in' q" := (prog_bind p (λ x, q))
  (at level 10, x binder, p at level 100, q at level 200) : go_scope.

(** Running a program on an implementation: total, since the tree is finite. *)
Fixpoint exec {DB R} `{StateDB DB} (p : Prog R) (db : DB) : R * DB :=
  match p with
  | Ret r => (r, db)
  | Vis A op k => let '(a, db') := do_op op db in exec (k a) db'
  end.

Lemma exec_bind {DB R S} `{StateDB DB} (p : Prog R) (f : R → Prog S) (db : DB) :
  exec (prog_bind p f) db = let '(r, db') := exec p db in exec (f r) db'.
Proof.
  revert db. induction p as [r|A op k IH]; intros db; simpl; [done|].
  destruct (do_op op db). apply IH.
Qed.

(** ** The EVM *)

(** [vm.BlockContext]: the callbacks are the repository's own code. *)
Record BlockContext := mkBlockContext {
  bc_CanTransfer : Address → Z → Prog bool;
  bc_Transfer : Address → Address → Z → Prog unit;
  bc_GetHash : Z → Hash;
  bc_Coinbase : Address;
  bc_GasLimit : Z;
  bc_BlockNumber : Z;
  bc_Time : Z;
  bc_Difficulty : Z;
  bc_BaseFee : Z;
  bc_Random : option Hash
}.

Record TxContext := mkTxContext { tc_Origin : Address; tc_GasPrice : Z }.

(** What [evm.Call] returns: output, gas left, and an error message. *)
Record CallResult := mkCallResult {
  call_ret : list byte; call_gasLeft : Z; call_err : option string }.

(** [evm.Create] also returns the new contract's address. *)
Record CreateResult := mkCreateResult {
  create_ret : list byte; create_addr : Address; create_gasLeft : Z;
  create_err : option string }.

(** [vm.NewEVM(blockCtx, db, chainCfg, vm.Config{})] followed by one call, under
    the chain configuration of the caller: shards and genesis use one with Shanghai,
    the simulator one without; no theorem compares executions under both. *)
Class EVM := {
  evm_Call : BlockContext → TxContext → Address → Address → list byte → Z → Z → Prog CallResult;
  evm_StaticCall : BlockContext → TxContext → Address → Address → list byte → Z → Prog CallResult;
  evm_Create : BlockContext → TxContext → Address → list byte → Z → Z → Prog CreateResult
}.

(** ** Conversions of go-ethereum/common, crypto and holiman/uint256 *)

Class Geth := {
  BytesToHash : list byte → Hash;
  Hash_Bytes : Hash → list byte;
  Keccak256Hash : list byte → Hash;
  MustFromBig : Z → panics Z
}.

(** Documented: the bytes of a hash convert back to it; a non-negative integer
    below 2^256 converts to itself, and the result is always below 2^256. *)
Class GethLaws `{Geth} := {
  BytesToHash_Bytes h : is_u256 h → BytesToHash (Hash_Bytes h) = h;
  BytesToHash_range bs : is_u256 (BytesToHash bs);
  MustFromBig_u256 z : is_u256 z → MustFromBig z = Some z;
  MustFromBig_range z v : MustFromBig z = Some v → is_u256 v
}.

(** Hexadecimal conversions of go-ethereum/common. *)
Class GethHex := {
  HexToAddress : string → Address;
  HexToHash : string → Hash;
  FromHex : string → list byte;
  Address_Hex : Address → string;
  Hash_Hex : Hash → string;
  Bytes2Hex : list byte → string
}.

(** Documented: the printed forms read back as the value. *)
Class GethHexLaws `{GethHex} := {
  HexToAddress_Hex a : 0 ≤ a < 2 ^ 160 → HexToAddress (Address_Hex a) = a;
  HexToHash_Hex h : is_u256 h → HexToHash (Hash_Hex h) = h;
  FromHex_Bytes2Hex bs : FromHex (Bytes2Hex bs) = bs;
  DecodeString_Bytes2Hex bs : DecodeString (Bytes2Hex bs) = Some bs
}.

(** ** geth's state database *)

(** The part of [state.StateDB] beyond the interface. [sdb_Commit] writes the
    state at a block number, reopens it at the new root and returns both, or
    fails. *)
Class GethStateDB (DB : Type) `{StateDB DB} := {
  sdb_Commit : DB → Z → option (Hash * DB);
  sdb_IntermediateRoot : DB → Hash;
  sdb_GetCommittedState : DB → Address → Hash → Hash;
  sdb_Logs : DB → list Log
}.

(** Observations. *)
Definition balance {DB} `{StateDB DB} (db : DB) (a : Address) : Z := (do_op (GetBalance a) db).1.
Definition storage {DB} `{StateDB DB} (db : DB) (a : Address) (s : Hash) : Hash :=
  (do_op (GetState a s) db).1.

(** Two databases that show the same balances and the same storage. *)
Definition same_state {DB} `{StateDB DB} (db db' : DB) : Prop :=
  (∀ a, balance db a = balance db' a) ∧ (∀ a s, storage db a s = storage db' a s).

#[export] Instance same_state_equiv {DB} `{StateDB DB} : Equivalence (same_state (DB:=DB)).
Proof.
  split.
  - by intros db.
  - intros x y [Hb Hs]. by split; intros; symmetry.
  - intros x y z [Hb Hs] [Hb' Hs']. split; intros; [by rewrite Hb|by rewrite Hs].
Qed.

#[export] Instance balance_proper {DB} `{StateDB DB} :
  Proper (same_state (DB:=DB) ==> (=) ==> (=)) balance.
Proof. intros x y [Hb _] a ? <-. apply Hb. Qed.

#[export] Instance storage_proper {DB} `{StateDB DB} :
  Proper (same_state (DB:=DB) ==> (=) ==> (=) ==> (=)) storage.
Proof. intros x y [_ Hs] a ? <- s ? <-. apply Hs. Qed.

(** Two databases no program can tell apart. *)
Definition obs_eq {DB} `{StateDB DB} (db db' : DB) : Prop :=
  ∀ R (p : Prog R), (exec p db).1 = (exec p db').1.

#[export] Instance obs_eq_equiv {DB} `{StateDB DB} : Equivalence (obs_eq (DB:=DB)).
Proof.
  split.
  - by intros db R p.
  - intros x y Hxy R p. symmetry. apply Hxy.
  - intros x y z Hxy Hyz R p. etrans; [apply Hxy|apply Hyz].
Qed.

(** A program has the same result on both and leaves them indistinguishable. *)
Lemma obs_eq_exec {DB R} `{StateDB DB} (p : Prog R) (db db' : DB) :
  obs_eq db db' → (exec p db).1 = (exec p db').1 ∧ obs_eq (exec p db).2 (exec p db').2.
Proof.
  intros He. split; [apply He|]. intros S q.
  pose proof (He S (prog_bind p (λ _, q))) as Hq. rewrite !exec_bind in Hq.
  by destruct (exec p db), (exec p db').
Qed.

Lemma obs_eq_op {DB A} `{StateDB DB} (op : StateOp A) (db db' : DB) :
  obs_eq db db' → (do_op op db).1 = (do_op op db').1 ∧ obs_eq (do_op op db).2 (do_op op db').2.
Proof.
  intros He. destruct (obs_eq_exec (call op) db db' He) as [Hr Hs]. simpl in *.
  by destruct (do_op op db), (do_op op db').
Qed.

#[export] Instance obs_same_state {DB} `{StateDB DB} : subrelation (obs_eq (DB:=DB)) same_state.
Proof. intros db db' He. split; intros; by apply obs_eq_op. Qed.

(** An operation and its continuation-free form, for sequences of changes. *)
Inductive any_op : Type := AnyOp (A : Type) (op : StateOp A).

Definition do_ops {DB} `{StateDB DB} (ops : list any_op) (db : DB) : DB :=
  foldl (λ db '(AnyOp _ op), (do_op op db).2) db ops.

(** An operation that stays within the revisions made after [revid] and keeps
    the journal alive. *)
Definition within (revid : Z) (o : any_op) : Prop :=
  match o with
  | AnyOp _ (RevertToSnapshot r) => revid < r
  | AnyOp _ (Finalise _) => False
  | _ => True
  end.

(** The operations after which an account's storage may differ. *)
Definition writes_storage {A} (op : StateOp A) : bool :=
  match op with
  | SetState _ _ _ | RevertToSnapshot _ | CreateAccount _ | CreateContract _
  | SelfDestruct _ | SelfDestruct6780 _ | Finalise _ => true
  | _ => false
  end.

(** Documented behaviour of balances, storage, snapshots and commits. *)
Class GethStateDBLaws (DB : Type) `{GethStateDB DB} := {
  get_balance_pure (db : DB) a : obs_eq (do_op (GetBalance a) db).2 db;
  get_state_pure (db : DB) a s : obs_eq (do_op (GetState a s) db).2 db;
  get_both_spec (db : DB) a s :
    (do_op (GetStateAndCommittedState a s) db).1
    = (storage db a s, sdb_GetCommittedState db a s);
  get_both_pure (db : DB) a s : obs_eq (do_op (GetStateAndCommittedState a s) db).2 db;
  committed_obs (db db' : DB) a s :
    obs_eq db db' → sdb_GetCommittedState db a s = sdb_GetCommittedState db' a s;
  balance_u256 (db : DB) a : is_u256 (balance db a);
  sub_balance_spec (db : DB) a v a' :
    balance (do_op (SubBalance a v) db).2 a'
    = if decide (a' = a) then u256_sub (balance db a) v else balance db a';
  add_balance_spec (db : DB) a v a' :
    balance (do_op (AddBalance a v) db).2 a'
    = if decide (a' = a) then u256_add (balance db a) v else balance db a';
  other_ops_storage (db : DB) A (op : StateOp A) a s :
    writes_storage op = false → storage (do_op op db).2 a s = storage db a s;
  set_state_spec (db : DB) a s v a' s' :
    storage (do_op (SetState a s v) db).2 a' s'
    = if decide (a' = a ∧ s' = s) then v else storage db a' s';
  set_state_ret (db : DB) a s v : (do_op (SetState a s v) db).1 = storage db a s;
  set_state_balance (db : DB) a s v a' :
    balance (do_op (SetState a s v) db).2 a' = balance db a';
  snapshot_pure (db : DB) : same_state (do_op Snapshot db).2 db;
  revert_spec (db : DB) (ops : list any_op) :
    let '(r, db1) := do_op Snapshot db in
    Forall (within r) ops →
    same_state (do_op (RevertToSnapshot r) (do_ops ops db1)).2 db;
  snapshot_fresh (db : DB) (ops : list any_op) :
    let '(r, db1) := do_op Snapshot db in
    Forall (within r) ops → r < (do_op Snapshot (do_ops ops db1)).1;
  commit_same (db db' : DB) n root : sdb_Commit db n = Some (root, db') → same_state db' db
}.

(** ** Programs that clean up after themselves *)

(** The reverts of a program go to the snapshots it took ([ids]), and it does not
    finalise the state: what the interpreter does when a frame fails. *)
Fixpoint own_reverts {R} (ids : list Z) (p : Prog R) : Prop :=
  match p with
  | Ret _ => True
  | Vis A op k =>
      (match op in StateOp A return (A → Prog R) → Prop with
       | RevertToSnapshot r => λ k, r ∈ ids ∧ ∀ u, own_reverts ids (k u)
       | Snapshot => λ k, ∀ r, own_reverts (r :: ids) (k r)
       | Finalise _ => λ _, False
       | _ => λ k, ∀ x, own_reverts ids (k x)
       end) k
  end.

Class EVMLaws `{EVM} := {
  evm_Call_own_reverts bc tc caller addr input gas value :
    (∀ ids a v, own_reverts ids (bc_CanTransfer bc a v)) →
    (∀ ids a b v, own_reverts ids (bc_Transfer bc a b v)) →
    own_reverts [] (evm_Call bc tc caller addr input gas value)
}.

Lemma own_reverts_bind {R S} (p : Prog R) (f : R → Prog S) ids :
  own_reverts ids p → (∀ ids' x, own_reverts ids' (f x)) → own_reverts ids (prog_bind p f).
Proof.
  intros Hp Hf. revert ids Hp. induction p as [r|A op k IH]; intros ids; [by simpl|].
  destruct op; simpl; naive_solver.
Qed.
