(* ===== verification/MemDB.v ===== *)
(** * MemDB: a concrete instance of the go-ethereum boundary

    An in-memory state database, byte conversions and a small EVM that
    satisfy the laws of [VmState]. They show that the laws can hold together and
    let the witnesses of the other files compute; no property is stated of them. *)

From S2P Require Import Prelude Codec Protocol VmState.
From Stdlib Require Strings.Byte.

Open Scope Z_scope.

(** ** Conversions *)

Definition be_val (bs : list byte) : Z :=
  foldl (λ acc b, acc * 256 + Z.of_N (Byte.to_N b)) 0 bs.

Definition byte_of (z : Z) : byte := default Byte.x00 (Byte.of_N (Z.to_N (z mod 256))).

Fixpoint be_bytes (n : nat) (z : Z) : list byte :=
  match n with
  | O => []
  | S n' => be_bytes n' (z / 256) ++ [byte_of z]
  end.

Lemma byte_of_val z : Z.of_N (Byte.to_N (byte_of z)) = z mod 256.
Proof.
  unfold byte_of. pose proof (Z.mod_pos_bound z 256 ltac:(lia)) as Hb.
  destruct (Byte.of_N (Z.to_N (z mod 256))) as [b|] eqn:He; simpl.
  - apply Byte.to_of_N in He. rewrite He. lia.
  - apply Byte.of_N_None_iff in He. lia.
Qed.

Lemma be_val_bytes n z : be_val (be_bytes n z) = z mod 256 ^ Z.of_nat n.
Proof.
  revert z. induction n as [|n IH]; intros z; simpl; [by rewrite Z.mod_1_r|].
  unfold be_val in *. rewrite foldl_app. simpl. rewrite IH, byte_of_val.
  change (Z.pos (Pos.of_succ_nat n)) with (Z.of_nat (S n)).
  rewrite Nat2Z.inj_succ, Z.pow_succ_r by lia.
  rewrite Z.rem_mul_r by (try apply Z.pow_nonzero; lia). lia.
Qed.

#[export] Instance mem_geth : Geth := {
  BytesToHash bs := be_val bs mod two256;
  Hash_Bytes h := be_bytes 32 h;
  Keccak256Hash bs := be_val bs mod two256;
  MustFromBig z := if (0 <=? z) && (z <? two256) then Some z else None
}.

#[export] Instance mem_geth_laws : GethLaws.
Proof.
  split.
  - intros h Hh. unfold BytesToHash, Hash_Bytes, mem_geth. rewrite be_val_bytes. change (256 ^ Z.of_nat 32) with two256.
    rewrite !Z.mod_small; [done|exact Hh|]. apply Z.mod_pos_bound. reflexivity.
  - intros bs. apply Z.mod_pos_bound. reflexivity.
  - intros z [??]. unfold MustFromBig, mem_geth. replace ((0 <=? z) && (z <? two256)) with true by lia. done.
  - intros z v. unfold MustFromBig, mem_geth. destruct (_ && _) eqn:Hz; [|done]. intros [= <-].
    unfold is_u256. lia.
Qed.

(** Numbers print in decimal here; what counts is that they read back. *)
#[export] Instance mem_hex : GethHex := {
  HexToAddress str := default 0 (SetString str 10);
  HexToHash str := default 0 (SetString str 10);
  FromHex str := default [] (DecodeString str);
  Address_Hex a := Int_String a;
  Hash_Hex h := Int_String h;
  Bytes2Hex bs := EncodeToString bs
}.

#[export] Instance mem_hex_laws : GethHexLaws.
Proof.
  split; intros; simpl.
  - by rewrite SetString_Int_String.
  - by rewrite SetString_Int_String.
  - by rewrite DecodeString_EncodeToString.
  - apply DecodeString_EncodeToString.
Qed.

(** ** The state database *)

Record mem_state := mkMemState {
  ms_bal : gmap Z Z; ms_sto : gmap (Z * Z) Z; ms_nonce : gmap Z Z; ms_code : gmap Z (list byte)
}.

(** The current state, the saved revisions (newest first) and the next id. *)
Record MemDB := mkMemDB { mem_cur : mem_state; mem_revs : list (Z * mem_state); mem_next : Z }.

Definition emptyMem : MemDB := mkMemDB (mkMemState ∅ ∅ ∅ ∅) [] 0.

Definition mem_upd (db : MemDB) (s : mem_state) : MemDB := mkMemDB s (mem_revs db) (mem_next db).

Definition set_bal (db : MemDB) (a v : Z) : MemDB :=
  let s := mem_cur db in
  mem_upd db (mkMemState (<[a := v]> (ms_bal s)) (ms_sto s) (ms_nonce s) (ms_code s)).

Definition get_bal (db : MemDB) (a : Z) : Z := wrap256 ((ms_bal (mem_cur db)).[a; 0]).

Definition set_sto (db : MemDB) (a s v : Z) : MemDB :=
  let m := mem_cur db in
  mem_upd db (mkMemState (ms_bal m) (<[(a, s) := v]> (ms_sto m)) (ms_nonce m) (ms_code m)).

Definition get_sto (db : MemDB) (a s : Z) : Z := (ms_sto (mem_cur db)).[(a, s); 0].

(** Restore a revision and forget the later ones; an unknown id changes nothing. *)
Fixpoint find_rev (r : Z) (revs : list (Z * mem_state)) : option mem_state :=
  match revs with
  | [] => None
  | (r', s) :: revs' => if decide (r' = r) then Some s else find_rev r revs'
  end.

Definition mem_revert (db : MemDB) (r : Z) : MemDB :=
  match find_rev r (mem_revs db) with
  | Some s => mkMemDB s (filter (λ p, p.1 < r) (mem_revs db)) (mem_next db)
  | None => db
  end.

Definition mem_do (A : Type) (op : StateOp A) (db : MemDB) : A * MemDB :=
  let m := mem_cur db in
  match op with
  | SubBalance a v => (get_bal db a, set_bal db a (u256_sub (get_bal db a) v))
  | AddBalance a v => (get_bal db a, set_bal db a (u256_add (get_bal db a) v))
  | GetBalance a => (get_bal db a, db)
  | GetNonce a => ((ms_nonce m).[a; 0], db)
  | SetNonce a n => (tt, mem_upd db (mkMemState (ms_bal m) (ms_sto m) (<[a := n]> (ms_nonce m)) (ms_code m)))
  | GetCode a => ((ms_code m).[a; []], db)
  | SetCode a code => ((ms_code m).[a; []],
      mem_upd db (mkMemState (ms_bal m) (ms_sto m) (ms_nonce m) (<[a := code]> (ms_code m))))
  | GetCodeSize a => (Z.of_nat (length ((ms_code m).[a; []])), db)
  | GetCodeHash a => (0, db)
  | GetState a s => (get_sto db a s, db)
  | GetStateAndCommittedState a s => ((get_sto db a s, get_sto db a s), db)
  | SetState a s v => (get_sto db a s, set_sto db a s v)
  | Exist a | Empty a | HasSelfDestructed a | AddressInAccessList a => (false, db)
  | SlotInAccessList _ _ => ((false, false), db)
  | SelfDestruct a => (get_bal db a, set_bal db a 0)
  | SelfDestruct6780 a => ((get_bal db a, false), db)
  | GetRefund => (0, db)
  | GetStorageRoot _ => (0, db)
  | GetTransientState _ _ => (0, db)
  | RevertToSnapshot r => (tt, mem_revert db r)
  | Snapshot => (mem_next db, mkMemDB m ((mem_next db, m) :: mem_revs db) (mem_next db + 1))
  | _ => (tt, db)
  end.

#[export] Instance mem_db : StateDB MemDB := mem_do.

#[export] Instance mem_geth_db : GethStateDB MemDB := {
  sdb_Commit db n := Some (n, mkMemDB (mem_cur db) [] 0);
  sdb_IntermediateRoot db := 7;
  sdb_GetCommittedState db a s := get_sto db a s;
  sdb_Logs db := []
}.

(** Revision [r] holds [s], and every id given from now on is above it. *)
Definition saved (r : Z) (s : mem_state) (db : MemDB) : Prop :=
  r < mem_next db ∧ find_rev r (mem_revs db) = Some s.

Lemma find_rev_filter r r' revs :
  r < r' → find_rev r (filter (λ p, p.1 < r') revs) = find_rev r revs.
Proof.
  intros Hr. induction revs as [|[q s] revs IH]; [done|].
  rewrite filter_cons. simpl. case_decide; simpl; [by rewrite IH|].
  rewrite IH. case_decide; [lia|done].
Qed.

Lemma saved_op r s A (op : StateOp A) db :
  within r (AnyOp A op) → saved r s db → saved r s (do_op op db).2.
Proof.
  intros Hw [Hn Hs]. unfold do_op, mem_db.
  destruct op; simpl in *; try done.
  - unfold mem_revert. destruct (find_rev revid (mem_revs db)) eqn:He; [|done].
    split; [done|]. simpl. by rewrite find_rev_filter.
  - split; simpl; [lia|]. rewrite decide_False; [done|lia].
Qed.

Lemma saved_ops r s ops db :
  Forall (within r) ops → saved r s db → saved r s (do_ops ops db).
Proof.
  intros Hw. revert db. induction Hw as [|[A op] ops Ho Hw IH]; intros db Hs; [done|].
  simpl. apply IH. by apply saved_op.
Qed.

Lemma saved_snapshot db : saved (mem_next db) (mem_cur db) (do_op Snapshot db).2.
Proof. split; simpl; [lia|]. by rewrite decide_True. Qed.

Lemma get_sto_set db a s v a' s' :
  get_sto (set_sto db a s v) a' s' = if decide (a' = a ∧ s' = s) then v else get_sto db a' s'.
Proof.
  unfold get_sto, set_sto. simpl. case_decide as Hd.
  - destruct Hd as [-> ->]. apply map_get_insert_eq.
  - apply map_get_insert_ne. naive_solver.
Qed.

Lemma get_bal_set db a v a' :
  is_u256 v → get_bal (set_bal db a v) a' = if decide (a' = a) then v else get_bal db a'.
Proof.
  intros Hv. unfold get_bal, set_bal. simpl. case_decide as Hd.
  - subst. rewrite map_get_insert_eq. by apply Z.mod_small.
  - by rewrite map_get_insert_ne.
Qed.

#[export] Instance mem_geth_db_laws : GethStateDBLaws MemDB.
Proof.
  split; try done.
  - intros db db' a s He. apply (obs_eq_op (GetState a s) _ _ He).
  - intros db a. apply Z.mod_pos_bound. reflexivity.
  - intros db a v a'. apply get_bal_set, Z.mod_pos_bound. reflexivity.
  - intros db a v a'. apply get_bal_set, Z.mod_pos_bound. reflexivity.
  - intros db A op a s Hw. by destruct op.
  - intros db a s v a' s'. apply get_sto_set.
  - intros db ops. change (do_op Snapshot db) with (mem_next db, (do_op Snapshot db).2). intros Hw.
    destruct (saved_ops _ _ _ _ Hw (saved_snapshot db)) as [_ Hf].
    change (same_state (mem_revert (do_ops ops (do_op Snapshot db).2) (mem_next db)) db).
    unfold mem_revert. by rewrite Hf.
  - intros db ops. change (do_op Snapshot db) with (mem_next db, (do_op Snapshot db).2). intros Hw.
    apply (saved_ops _ _ _ _ Hw (saved_snapshot db)).
  - intros db db' n root [= <- <-]. done.
Qed.

(** ** A small interpreter *)

(** A value transfer and, when there is input, one step of a counter contract
    that adds one to its slot 0. *)
Definition mem_call (bc : BlockContext) (caller addr : Address) (input : list byte) (gas value : Z) :
    Prog CallResult :=
  (let! ok := bc_CanTransfer bc caller value in
   if ok then
     let! _ := bc_Transfer bc caller addr value in
     match input with
     | [] => Ret (mkCallResult [] gas None)
     | _ =>
         let! x := call (GetState addr 0) in
         let! _ := call (SetState addr 0 ((x + 1) mod two256)) in
         Ret (mkCallResult [] gas None)
     end
   else Ret (mkCallResult [] gas (Some "insufficient balance for transfer"%string)))%go.

#[export] Instance mem_evm : EVM := {
  evm_Call bc tc caller addr input gas value := mem_call bc caller addr input gas value;
  evm_StaticCall bc tc caller addr input gas := Ret (mkCallResult [] gas None);
  evm_Create bc tc caller code gas value := Ret (mkCreateResult [] 0 gas None)
}.

#[export] Instance mem_evm_laws : EVMLaws.
Proof.
  split. intros bc tc caller addr input gas value Hc Ht. simpl. unfold mem_call.
  apply own_reverts_bind; [apply Hc|]. intros ids [|]; [|done].
  apply own_reverts_bind; [apply Ht|]. intros ids' _. by destruct input.
Qed.
