(* ===== verification/TrackingDB.v ===== *)
(** * TrackingDB: internal/shard/tracking_statedb.go

    [TrackingStateDB] wraps geth's state database: every method of the interface
    is passed on to the inner database, after recording the address it touches,
    the first value read in each storage slot and the last value written.
    [BuildRwSet] turns the records into the read/write set the orchestrator
    receives. The theorems show that the wrapper cannot be told apart from the
    database it wraps, and what the recorded sets mean. *)

From S2P Require Import Prelude Codec Protocol VmState MemDB.

Open Scope Z_scope.

Abbreviation Slots := (gmap Address (gmap Hash Hash)) (only parsing).

Record TrackingStateDB (DB : Type) := mkTrackingStateDB {
  t_inner : DB;
  t_accessedAddrs : gmap Address bool;
  t_storageReads : Slots;
  t_storageWrites : Slots;
  t_numShards : Z;
  t_localShardID : Z
}.
Arguments mkTrackingStateDB {DB} _ _ _ _ _ _.
Arguments t_inner {DB} _.
Arguments t_accessedAddrs {DB} _.
Arguments t_storageReads {DB} _.
Arguments t_storageWrites {DB} _.
Arguments t_numShards {DB} _.
Arguments t_localShardID {DB} _.

Definition NewTrackingStateDB {DB} (inner : DB) (localShardID numShards : Z) : TrackingStateDB DB :=
  mkTrackingStateDB inner ∅ ∅ ∅ numShards localShardID.

(** The value recorded for a slot of an address in a two-level map. *)
Definition slot_get (m : Slots) (a : Address) (s : Hash) : option Hash := m !! a ≫= (.!! s).

(** [m[a][s] = v], creating the inner map of [a] when it is nil. *)
Definition slot_put (m : Slots) (a : Address) (s v : Hash) : Slots :=
  <[a := <[s := v]> m.[a; ∅]]> m.

(** [for addr := range m { addrSet[addr] = true }] *)
Definition mark_addrs {V} (l : list (Address * V)) (addrSet : gmap Address bool) : gmap Address bool :=
  foldl (λ s '(addr, _), <[addr := true]> s) addrSet l.

Section tracking.
Context {DB : Type} `{GethStateDB DB}.
Implicit Types (t : TrackingStateDB DB).

Definition with_inner t (db : DB) : TrackingStateDB DB :=
  mkTrackingStateDB db (t_accessedAddrs t) (t_storageReads t) (t_storageWrites t)
    (t_numShards t) (t_localShardID t).

Definition recordAccess t (addr : Address) : TrackingStateDB DB :=
  mkTrackingStateDB (t_inner t) (<[addr := true]> (t_accessedAddrs t)) (t_storageReads t)
    (t_storageWrites t) (t_numShards t) (t_localShardID t).

(** The recording block of [GetState], [GetStateAndCommittedState] and
    [SetState]: only the first value of a slot is kept. *)
Definition recordRead t (addr : Address) (slot value : Hash) : TrackingStateDB DB :=
  let reads := (t_storageReads t).[addr; ∅] in
  let reads' := match reads !! slot with Some _ => reads | None => <[slot := value]> reads end in
  mkTrackingStateDB (t_inner t) (t_accessedAddrs t) (<[addr := reads']> (t_storageReads t))
    (t_storageWrites t) (t_numShards t) (t_localShardID t).

Definition recordWrite t (addr : Address) (slot value : Hash) : TrackingStateDB DB :=
  mkTrackingStateDB (t_inner t) (t_accessedAddrs t) (t_storageReads t)
    (slot_put (t_storageWrites t) addr slot value) (t_numShards t) (t_localShardID t).

(** A method whose body is [return t.inner.M(...)]. *)
Definition pass {A} (op : StateOp A) t : A * TrackingStateDB DB :=
  let '(r, db) := do_op op (t_inner t) in (r, with_inner t db).

Definition t_GetState t (addr : Address) (hash : Hash) : Hash * TrackingStateDB DB :=
  let t1 := recordAccess t addr in
  let '(value, t2) := pass (GetState addr hash) t1 in
  (value, recordRead t2 addr hash value).

Definition t_GetCommittedState t (addr : Address) (hash : Hash) : Hash * TrackingStateDB DB :=
  let t1 := recordAccess t addr in (sdb_GetCommittedState (t_inner t1) addr hash, t1).

Definition t_GetStateAndCommittedState t (addr : Address) (slot : Hash) :
    (Hash * Hash) * TrackingStateDB DB :=
  let t1 := recordAccess t addr in
  let '(value, t2) := pass (GetState addr slot) t1 in
  let committed := sdb_GetCommittedState (t_inner t2) addr slot in
  ((value, committed), recordRead t2 addr slot value).

Definition t_SetState t (addr : Address) (key value : Hash) : Hash * TrackingStateDB DB :=
  let t1 := recordAccess t addr in
  let t2 := match (t_storageReads t1).[addr; ∅] !! key with
            | Some _ => t1
            | None => let '(old, t') := pass (GetState addr key) t1 in recordRead t' addr key old
            end in
  pass (SetState addr key value) (recordWrite t2 addr key value).

(** The methods of the interface. *)
Definition t_do (A : Type) (op : StateOp A) (t : TrackingStateDB DB) : A * TrackingStateDB DB :=
  match op in StateOp A return A * TrackingStateDB DB with
  | CreateAccount a => pass (CreateAccount a) (recordAccess t a)
  | CreateContract a => pass (CreateContract a) (recordAccess t a)
  | SubBalance a v => pass (SubBalance a v) (recordAccess t a)
  | AddBalance a v => pass (AddBalance a v) (recordAccess t a)
  | GetBalance a => pass (GetBalance a) (recordAccess t a)
  | GetNonce a => pass (GetNonce a) (recordAccess t a)
  | SetNonce a n => pass (SetNonce a n) (recordAccess t a)
  | GetCodeHash a => pass (GetCodeHash a) (recordAccess t a)
  | GetCode a => pass (GetCode a) (recordAccess t a)
  | SetCode a c => pass (SetCode a c) (recordAccess t a)
  | GetCodeSize a => pass (GetCodeSize a) (recordAccess t a)
  | AddRefund g => pass (AddRefund g) t
  | SubRefund g => pass (SubRefund g) t
  | GetRefund => pass GetRefund t
  | GetState a s => t_GetState t a s
  | GetStateAndCommittedState a s => t_GetStateAndCommittedState t a s
  | SetState a s v => t_SetState t a s v
  | GetStorageRoot a => pass (GetStorageRoot a) (recordAccess t a)
  | GetTransientState a k => pass (GetTransientState a k) (recordAccess t a)
  | SetTransientState a k v => pass (SetTransientState a k v) (recordAccess t a)
  | SelfDestruct a => pass (SelfDestruct a) (recordAccess t a)
  | HasSelfDestructed a => pass (HasSelfDestructed a) (recordAccess t a)
  | SelfDestruct6780 a => pass (SelfDestruct6780 a) (recordAccess t a)
  | Exist a => pass (Exist a) (recordAccess t a)
  | Empty a => pass (Empty a) (recordAccess t a)
  | AddressInAccessList a => pass (AddressInAccessList a) t
  | SlotInAccessList a s => pass (SlotInAccessList a s) t
  | AddAddressToAccessList a => pass (AddAddressToAccessList a) t
  | AddSlotToAccessList a s => pass (AddSlotToAccessList a s) t
  | Prepare s c d ps txa => pass (Prepare s c d ps txa) t
  | RevertToSnapshot r => pass (RevertToSnapshot r) t
  | Snapshot => pass Snapshot t
  | AddLog l => pass (AddLog l) t
  | AddPreimage h p => pass (AddPreimage h p) t
  | Finalise b => pass (Finalise b) t
  end.

#[export] Instance tracking_db : StateDB (TrackingStateDB DB) := t_do.

(** ** Queries *)

Definition GetAccessedAddresses `{MapRange} t : list Address := (map_range (t_accessedAddrs t)).*1.

Fixpoint HasCrossShardAccess_loop t (addrs : list Address) : bool :=
  match addrs with
  | [] => false
  | addr :: addrs' =>
      let shardID := shard_of addr (t_numShards t) in
      if shardID =? t_localShardID t then HasCrossShardAccess_loop t addrs' else true
  end.

Definition HasCrossShardAccess `{MapRange} t : bool :=
  HasCrossShardAccess_loop t (map_range (t_accessedAddrs t)).*1.

Definition GetCrossShardAddresses `{MapRange} t : gmap Address Z :=
  foldl (λ result addr,
    let shardID := shard_of addr (t_numShards t) in
    if shardID =? t_localShardID t then result else <[addr := shardID]> result)
  ∅ (map_range (t_accessedAddrs t)).*1.

(** A copy of a map, entry by entry. *)
Definition copy_map `{MapRange} {K V} `{Countable K} (f : V → V) (m : gmap K V) : gmap K V :=
  foldl (λ result '(k, v), <[k := f v]> result) ∅ (map_range m).

Definition GetStorageWrites `{MapRange} t : Slots := copy_map (copy_map id) (t_storageWrites t).
Definition GetStorageReads `{MapRange} t : Slots := copy_map (copy_map id) (t_storageReads t).

Definition GetStorageWritesForAddress `{MapRange} t (addr : Address) : option (gmap Hash Hash) :=
  match t_storageWrites t !! addr with
  | None => None
  | Some slots => Some (copy_map id slots)
  end.

(** ** BuildRwSet *)

Context `{Geth} `{MapRange}.

Definition build_reads t (addr : Address) : list ReadSetItem :=
  match t_storageReads t !! addr with
  | Some reads => map (λ '(slot, value), mkReadSetItem slot (Hash_Bytes value) []) (map_range reads)
  | None => []
  end.

Definition build_writes t (addr : Address) : list WriteSetItem :=
  match t_storageWrites t !! addr with
  | Some writes =>
      map (λ '(slot, newValue),
        let oldValue :=
          match t_storageReads t !! addr with
          | Some reads => match reads !! slot with Some v => v | None => 0 end
          | None => 0
          end in
        mkWriteSetItem slot (Hash_Bytes oldValue) (Hash_Bytes newValue)) (map_range writes)
  | None => []
  end.

Definition BuildRwSet t (refBlock : Reference) : list RwVariable :=
  let addrSet :=
    mark_addrs (map_range (t_storageWrites t)) (mark_addrs (map_range (t_storageReads t)) ∅) in
  map (λ '(addr, _), mkRwVariable addr refBlock (build_reads t addr) (build_writes t addr))
    (map_range addrSet).

End tracking.

(** ** Two-level maps *)

Lemma slot_get_put m a s v a' s' :
  slot_get (slot_put m a s v) a' s' = if decide (a' = a ∧ s' = s) then Some v else slot_get m a' s'.
Proof.
  unfold slot_get, slot_put, map_get. destruct (decide (a' = a)) as [->|Hne].
  - rewrite lookup_insert_eq. simpl. destruct (decide (s' = s)) as [->|Hs].
    + rewrite lookup_insert_eq, decide_True; done.
    + rewrite lookup_insert_ne, decide_False by naive_solver. by destruct (m !! a).
  - rewrite lookup_insert_ne, decide_False by naive_solver. done.
Qed.

Section lemmas.
Context {DB : Type} `{GethStateDBLaws DB}.
Implicit Types (t : TrackingStateDB DB).

Lemma slot_get_recordRead t a s v a' s' :
  slot_get (t_storageReads (recordRead t a s v)) a' s'
  = if decide (a' = a ∧ s' = s ∧ slot_get (t_storageReads t) a s = None) then Some v
    else slot_get (t_storageReads t) a' s'.
Proof.
  unfold recordRead, slot_get, map_get. simpl. destruct (decide (a' = a)) as [->|Hne].
  - rewrite lookup_insert_eq. simpl. destruct (t_storageReads t !! a) as [r|]; simpl.
    + destruct (decide (s' = s)) as [->|Hs].
      * destruct (r !! s) eqn:Hr; rewrite ?lookup_insert_eq.
        -- rewrite decide_False; naive_solver.
        -- rewrite decide_True; naive_solver.
      * rewrite decide_False by naive_solver. destruct (r !! s); [done|].
        by rewrite lookup_insert_ne.
    + rewrite lookup_empty. destruct (decide (s' = s)) as [->|Hs].
      * rewrite lookup_insert_eq, decide_True; done.
      * rewrite lookup_insert_ne, lookup_empty, decide_False; naive_solver.
  - rewrite lookup_insert_ne, decide_False by naive_solver. done.
Qed.

Lemma pass_writes {A} (op : StateOp A) t : t_storageWrites (pass op t).2 = t_storageWrites t.
Proof. unfold pass. by destruct (do_op op (t_inner t)). Qed.

Lemma t_SetState_writes t a s v :
  t_storageWrites (t_SetState t a s v).2 = slot_put (t_storageWrites t) a s v.
Proof.
  unfold t_SetState; cbv zeta. rewrite pass_writes. simpl. destruct (_ !! s); [done|].
  pose proof (pass_writes (GetState a s) (recordAccess t a)) as Hp.
  destruct (pass _ _). simpl in *. by rewrite Hp.
Qed.

(** ** The wrapper is transparent *)

Lemma pass_sim {A} (op : StateOp A) t (db : DB) :
  obs_eq (t_inner t) db →
  (pass op t).1 = (do_op op db).1 ∧ obs_eq (t_inner (pass op t).2) (do_op op db).2.
Proof.
  intros He. destruct (obs_eq_op op _ _ He) as [Hr Hs]. unfold pass.
  by destruct (do_op op (t_inner t)).
Qed.

Lemma read_slot_inner t a s :
  obs_eq (t_inner (pass (GetState a s) t).2) (t_inner t).
Proof.
  unfold pass. pose proof (get_state_pure (t_inner t) a s). by destruct (do_op _ (t_inner t)).
Qed.

Lemma t_do_sim {A} (op : StateOp A) t (db : DB) :
  obs_eq (t_inner t) db →
  (do_op op t).1 = (do_op op db).1 ∧ obs_eq (t_inner (do_op op t).2) (do_op op db).2.
Proof.
  intros He. change (do_op op t) with (t_do A op t).
  destruct op; try (by apply pass_sim); cbn [t_do].
  - unfold t_GetState; cbv zeta. pose proof (pass_sim (GetState a slot) (recordAccess t a) db He) as Hp.
    by destruct (pass _ _).
  - unfold t_GetStateAndCommittedState; cbv zeta.
    pose proof (pass_sim (GetState a slot) (recordAccess t a) db He) as [Hr Hs].
    pose proof (read_slot_inner (recordAccess t a) a slot) as Hi.
    destruct (pass _ _) as [v t2]. simpl in *.
    rewrite (get_both_spec db), (committed_obs (t_inner t2) db); [|by rewrite Hi].
    split; [by rewrite Hr|]. by rewrite get_both_pure, Hi.
  - unfold t_SetState; cbv zeta. apply pass_sim. simpl. destruct (_ !! slot); [done|].
    pose proof (read_slot_inner (recordAccess t a) a slot) as Hi.
    destruct (pass _ _) as [v t2]. simpl in *. by rewrite Hi.
Qed.

Lemma exec_sim {R} (p : Prog R) t (db : DB) :
  obs_eq (t_inner t) db →
  (exec p t).1 = (exec p db).1 ∧ obs_eq (t_inner (exec p t).2) (exec p db).2.
Proof.
  revert t db. induction p as [r|A op k IH]; intros t db He; [done|].
  simpl. pose proof (t_do_sim op t db He) as [Hr Hs].
  destruct (do_op op t) as [x t'], (do_op op db) as [y db']. simpl in *. subst. by apply IH.
Qed.

(** C33. Tracking is transparent: whatever program the interpreter runs, it gets
    the same answers from the tracking wrapper as from the database it wraps, and
    it leaves the wrapped database indistinguishable from the one it would have
    left without tracking. *)
Theorem tracking_transparent {R} (p : Prog R) (db : DB) (localShardID numShards : Z) :
  let t := NewTrackingStateDB db localShardID numShards in
  (exec p t).1 = (exec p db).1 ∧ obs_eq (t_inner (exec p t).2) (exec p db).2.
Proof. by apply exec_sim. Qed.

(** ** What the recorded sets mean *)

(** The operations that leave storage alone but for [SetState] of a 32-byte
    value: no revert, no account creation or destruction, no finalisation. *)
Definition plain_op {A} (op : StateOp A) : bool :=
  match op with
  | SetState _ _ v => (0 <=? v) && (v <? two256)
  | _ => negb (writes_storage op)
  end.

Fixpoint plain {R} (p : Prog R) : Prop :=
  match p with
  | Ret _ => True
  | Vis A op k => plain_op op = true ∧ ∀ x, plain (k x)
  end.

(** Recorded reads are values of the initial storage [db0], written slots have
    been read and hold 32-byte values, and the current storage is the initial one
    overlaid with the recorded writes. *)
Definition tracks (db0 : DB) t : Prop :=
  (∀ a s v, slot_get (t_storageReads t) a s = Some v → v = storage db0 a s) ∧
  (∀ a s v, slot_get (t_storageWrites t) a s = Some v →
     slot_get (t_storageReads t) a s = Some (storage db0 a s) ∧ is_u256 v) ∧
  (∀ a s, storage (t_inner t) a s = default (storage db0 a s) (slot_get (t_storageWrites t) a s)).

Lemma tracks_new db l n : tracks db (NewTrackingStateDB db l n).
Proof. unfold tracks, slot_get. simpl. split_and!; intros; by rewrite ?lookup_empty in *. Qed.

(** Whatever keeps the maps and the storage keeps the relation. *)
Lemma tracks_same db0 t t' :
  t_storageReads t' = t_storageReads t → t_storageWrites t' = t_storageWrites t →
  (∀ a s, storage (t_inner t') a s = storage (t_inner t) a s) →
  tracks db0 t → tracks db0 t'.
Proof. intros Hr Hw Hs (?&?&?). unfold tracks. rewrite Hr, Hw. setoid_rewrite Hs. done. Qed.

Lemma tracks_pass db0 {A} (op : StateOp A) t :
  writes_storage op = false → tracks db0 t → tracks db0 (pass op t).2.
Proof.
  intros Hw. apply tracks_same; unfold pass;
    pose proof (λ a s, other_ops_storage (t_inner t) A op a s Hw) as Hs;
    by destruct (do_op op (t_inner t)).
Qed.

(** Reading a slot that has not been written shows its initial value. *)
Lemma tracks_recordRead db0 t a s :
  tracks db0 t →
  tracks db0 (recordRead t a s (storage (t_inner t) a s)).
Proof.
  intros (Hr&Hw&Hs). split_and!.
  - intros a' s' v. rewrite slot_get_recordRead. case_decide as Hd; [|apply Hr].
    destruct Hd as (->&->&Hn). intros [= <-]. rewrite Hs.
    destruct (slot_get (t_storageWrites t) a s) eqn:He; [|done]. apply Hw in He as [? _]. congruence.
  - intros a' s' v Hv. rewrite slot_get_recordRead. apply Hw in Hv as [Hr' ?].
    rewrite decide_False; [done|]. intros (->&->&?). congruence.
  - exact Hs.
Qed.

Lemma pass_read t a s : (pass (GetState a s) t).1 = storage (t_inner t) a s.
Proof. unfold pass, storage. by destruct (do_op _ _). Qed.

(** The recording of an untracked slot before it is read or overwritten. *)
Lemma tracks_read_slot db0 t a s :
  tracks db0 t →
  let '(v, t') := pass (GetState a s) t in
  v = storage (t_inner t) a s ∧ tracks db0 (recordRead t' a s v).
Proof.
  intros Ht. pose proof (pass_read t a s) as Hv.
  pose proof (tracks_pass db0 (GetState a s) t eq_refl Ht) as Ht'.
  pose proof (read_slot_inner t a s) as Hi.
  destruct (pass (GetState a s) t) as [v t']. simpl in *. split; [done|].
  apply obs_same_state in Hi. destruct Hi as [_ Hi].
  rewrite Hv, <- Hi. by apply tracks_recordRead.
Qed.

Lemma tracks_write db0 t a s v :
  tracks db0 t → slot_get (t_storageReads t) a s ≠ None → is_u256 v →
  tracks db0 (pass (SetState a s v) (recordWrite t a s v)).2.
Proof.
  intros (Hr&Hw&Hs) Hread Hv.
  pose proof (λ a' s', set_state_spec (t_inner t) a s v a' s') as Hset.
  unfold pass. simpl. destruct (do_op _ (t_inner t)) as [x db]. simpl in *. split_and!; simpl.
  - exact Hr.
  - intros a' s' v'. rewrite slot_get_put. case_decide as Hd; [|apply Hw].
    destruct Hd as [-> ->]. intros [= <-]. split; [|done].
    destruct (slot_get (t_storageReads t) a s) eqn:He; [|done]. f_equal. by apply Hr.
  - intros a' s'. rewrite slot_get_put, Hset. case_decide; [done|apply Hs].
Qed.

Lemma slot_get_inner t a s :
  slot_get (t_storageReads t) a s = (t_storageReads t).[a; ∅] !! s.
Proof. unfold slot_get, map_get. by destruct (t_storageReads t !! a). Qed.

Lemma tracks_op db0 {A} (op : StateOp A) t :
  plain_op op = true → tracks db0 t → tracks db0 (do_op op t).2.
Proof.
  intros Hp Ht. change (do_op op t) with (t_do A op t).
  destruct op; try discriminate Hp; cbn [t_do]; try (by apply tracks_pass).
  - unfold t_GetState; cbv zeta. pose proof (tracks_read_slot db0 (recordAccess t a) a slot Ht) as Hr.
    destruct (pass _ _). apply Hr.
  - unfold t_GetStateAndCommittedState; cbv zeta.
    pose proof (tracks_read_slot db0 (recordAccess t a) a slot Ht) as Hr.
    destruct (pass _ _). apply Hr.
  - simpl in Hp. assert (is_u256 value) as Hv by (unfold is_u256; lia).
    unfold t_SetState; cbv zeta. destruct (_ !! slot) eqn:He.
    + apply tracks_write; [done| |done]. rewrite slot_get_inner. by rewrite He.
    + pose proof (tracks_read_slot db0 (recordAccess t a) a slot Ht) as Hr.
      destruct (pass _ _) as [old t'] eqn:Hpa. apply tracks_write; [apply Hr| |done].
      rewrite slot_get_recordRead. case_decide as Hd; [done|]. intros Hn. apply Hd. done.
Qed.

Lemma tracks_exec db0 {R} (p : Prog R) t :
  plain p → tracks db0 t → tracks db0 (exec p t).2.
Proof.
  revert t. induction p as [r|A op k IH]; intros t; simpl; [done|].
  intros [Ho Hk] Ht. pose proof (tracks_op db0 op t Ho Ht) as Ht'.
  destruct (do_op op t) as [x t']. by apply IH.
Qed.
End lemmas.

(** ** The read/write set built from the records *)

Lemma lookup_mark {V} (l : list (Address * V)) (s : gmap Address bool) a :
  (∃ b, mark_addrs l s !! a = Some b) ↔
  (∃ b, s !! a = Some b) ∨ (∃ v, (a, v) ∈ l).
Proof.
  revert s. induction l as [|[a' v'] l IH]; intros s; simpl.
  { split; [by left|]. intros [?|[v Hv]]; [done|]. by apply not_elem_of_nil in Hv. }
  rewrite IH. destruct (decide (a = a')) as [->|Hne].
  - rewrite lookup_insert_eq. split; [|by left; eauto].
    intros _. right. exists v'. apply list_elem_of_here.
  - rewrite lookup_insert_ne by done. split; intros [?|[v Hv]]; [by left|right|by left|right].
    + exists v. by apply list_elem_of_further.
    + apply elem_of_cons in Hv as [|]; [congruence|by eauto].
Qed.

Section build.
Context {DB : Type} `{Geth} `{MapRange}.
Implicit Types (t : TrackingStateDB DB).

Lemma elem_of_BuildRwSet t ref rw :
  rw ∈ BuildRwSet t ref ↔
  (is_Some (t_storageReads t !! rw_Address rw) ∨ is_Some (t_storageWrites t !! rw_Address rw)) ∧
  rw = mkRwVariable (rw_Address rw) ref (build_reads t (rw_Address rw)) (build_writes t (rw_Address rw)).
Proof.
  unfold BuildRwSet. rewrite (list_elem_of_fmap _ _ rw).
  assert (Hset : ∀ a, (∃ b, mark_addrs (map_range (t_storageWrites t))
      (mark_addrs (map_range (t_storageReads t)) ∅) !! a = Some b) ↔
      (is_Some (t_storageReads t !! a) ∨ is_Some (t_storageWrites t !! a))).
  { intros a. rewrite lookup_mark, lookup_mark. setoid_rewrite elem_of_map_range.
    setoid_rewrite lookup_empty. unfold is_Some. naive_solver. }
  split.
  - intros ([a b]&->&Hin). apply elem_of_map_range in Hin. simpl. split; [|done].
    apply Hset. eauto.
  - intros [Hin ->]. apply Hset in Hin as [b Hb]. exists (rw_Address rw, b).
    split; [done|]. by apply elem_of_map_range.
Qed.

Lemma BuildRwSet_addresses t ref : NoDup (rw_Address <$> BuildRwSet t ref).
Proof.
  unfold BuildRwSet. cbv zeta. rewrite <- (list_fmap_compose _ rw_Address).
  rewrite (list_fmap_ext _ fst); [apply NoDup_map_range|]. by intros ? [a b].
Qed.

Lemma build_writes_slots t a : NoDup (ws_Slot <$> build_writes t a).
Proof.
  unfold build_writes. destruct (t_storageWrites t !! a) as [w|]; [|constructor].
  rewrite <- (list_fmap_compose _ ws_Slot).
  rewrite (list_fmap_ext _ fst); [apply NoDup_map_range|]. by intros ? [? ?].
Qed.

Lemma BuildRwSet_reads t ref a s bs :
  ((a, s), bs) ∈ rw_reads (BuildRwSet t ref) ↔
  ∃ v, slot_get (t_storageReads t) a s = Some v ∧ bs = Hash_Bytes v.
Proof.
  rewrite elem_of_rw_reads. unfold slot_get. split.
  - intros (rw&r&Hrw&Hr&<-&<-&<-). apply elem_of_BuildRwSet in Hrw as [_ He].
    rewrite He in Hr. simpl in Hr. unfold build_reads in Hr.
    destruct (t_storageReads t !! rw_Address rw) as [m|]; [|by apply not_elem_of_nil in Hr].
    apply list_elem_of_fmap in Hr as ([s v]&->&Hin). apply elem_of_map_range in Hin. simpl. eauto.
  - intros (v&Hv&->). destruct (t_storageReads t !! a) as [m|] eqn:Hm; [|done]. simpl in Hv.
    exists (mkRwVariable a ref (build_reads t a) (build_writes t a)), (mkReadSetItem s (Hash_Bytes v) []).
    split_and!; try done.
    + apply elem_of_BuildRwSet. simpl. split; [left; by eexists|done].
    + simpl. unfold build_reads. rewrite Hm. apply list_elem_of_fmap. exists (s, v).
      split; [done|]. by apply elem_of_map_range.
Qed.

Lemma BuildRwSet_writes t ref a s bs :
  ((a, s), bs) ∈ rw_writes (BuildRwSet t ref) ↔
  ∃ v, slot_get (t_storageWrites t) a s = Some v ∧ bs = Hash_Bytes v.
Proof.
  rewrite elem_of_rw_writes. unfold slot_get. split.
  - intros (rw&w&Hrw&Hw&<-&<-&<-). apply elem_of_BuildRwSet in Hrw as [_ He].
    rewrite He in Hw. simpl in Hw. unfold build_writes in Hw.
    destruct (t_storageWrites t !! rw_Address rw) as [m|]; [|by apply not_elem_of_nil in Hw].
    apply list_elem_of_fmap in Hw as ([s v]&->&Hin). apply elem_of_map_range in Hin. simpl. eauto.
  - intros (v&Hv&->). destruct (t_storageWrites t !! a) as [m|] eqn:Hm; [|done]. simpl in Hv.
    eexists (mkRwVariable a ref (build_reads t a) (build_writes t a)), (mkWriteSetItem s _ (Hash_Bytes v)).
    split_and!; try done.
    + apply elem_of_BuildRwSet. simpl. split; [right; by eexists|done].
    + simpl. unfold build_writes. rewrite Hm. apply list_elem_of_fmap. exists (s, v).
      split; [done|]. by apply elem_of_map_range.
Qed.

Lemma BuildRwSet_writes_NoDup t ref : NoDup (rw_writes (BuildRwSet t ref)).*1.
Proof.
  apply rw_writes_NoDup; [apply BuildRwSet_addresses|].
  intros rw [_ ->]%elem_of_BuildRwSet. apply build_writes_slots.
Qed.

Lemma HasCrossShardAccess_loop_spec t l :
  HasCrossShardAccess_loop t l = true ↔
  ∃ a, a ∈ l ∧ shard_of a (t_numShards t) ≠ t_localShardID t.
Proof.
  induction l as [|a l IH]; simpl; [set_solver|].
  case_match eqn:He; [apply Z.eqb_eq in He|apply Z.eqb_neq in He].
  - rewrite IH. set_solver.
  - split; [|done]. intros _. exists a. split; [apply list_elem_of_here|done].
Qed.

Lemma HasCrossShardAccess_spec t :
  HasCrossShardAccess t = true ↔
  ∃ a, is_Some (t_accessedAddrs t !! a) ∧ shard_of a (t_numShards t) ≠ t_localShardID t.
Proof.
  unfold HasCrossShardAccess. rewrite HasCrossShardAccess_loop_spec.
  setoid_rewrite list_elem_of_fmap. split.
  - intros (a&([a' b]&->&Hin)&Hs). exists a'. split; [|done].
    apply elem_of_map_range in Hin. by eexists.
  - intros (a&[b Hb]&Hs). exists a. split; [|done]. exists (a, b). split; [done|].
    by apply elem_of_map_range.
Qed.
End build.

(** On the in-memory database. *)
Lemma tracking_transparent_witness :
  let p := (let! _ := call (SetState 1 2 3) in call (GetState 1 2))%go in
  (exec p (NewTrackingStateDB emptyMem 0 8)).1 = 3.
Proof.
  intros p. destruct (tracking_transparent p emptyMem 0 8) as [Hr _].
  etrans; [exact Hr|vm_compute; reflexivity].
Defined.
