(* ===== verification/EvmState.v ===== *)
(** * EvmState: internal/shard/evm.go

    [EVMState] owns a shard's state database: balances and storage, execution of
    the transactions of a block ([ExecuteTx]), and the simulations that run the
    interpreter on a tracked database and roll it back. *)

From S2P Require Import Prelude Codec Protocol VmState MemDB TrackingDB.

Open Scope Z_scope.

(** The errors of [ExecuteTx] and [Debit]. *)
Inductive evm_error : Type :=
| ErrInsufficientFunds
| ErrCallFailed (gasUsed : Z) (cause : string)
| ErrUnknownTxType (t : TxType).

(** [server.go]: the shard count of a deployment. *)
Definition NumShards : Z := 8.

(** [EVMState], less the handles of the trie database and the chain configuration. *)
Record EVMState (DB : Type) := mkEVMState {
  es_stateDB : DB;
  es_blockNum : Z;
  es_timestamp : Z
}.
Arguments mkEVMState {DB} _ _ _.
Arguments es_stateDB {DB} _.
Arguments es_blockNum {DB} _.
Arguments es_timestamp {DB} _.

(** [AccountState] *)
Record AccountState := mkAccountState {
  as_Balance : Z; as_Nonce : Z; as_Code : list byte; as_CodeHash : Hash }.

(** ** The block context of every execution *)

Definition canTransfer (addr : Address) (amount : Z) : Prog bool :=
  (let! b := call (GetBalance addr) in Ret (amount <=? b))%go.

Definition transfer (from to : Address) (amount : Z) : Prog unit :=
  (let! _ := call (SubBalance from amount) in
   let! _ := call (AddBalance to amount) in Ret tt)%go.

Definition blockCtx (blockNum timestamp : Z) : BlockContext :=
  mkBlockContext canTransfer transfer (λ _, 0) 0 30000000 blockNum timestamp 0 0 (Some 0).

Definition txCtx (caller : Address) : TxContext := mkTxContext caller 0.

Section evm.
Context {DB : Type} `{GethStateDB DB} `{Geth} `{EVM} `{MapRange}.
Implicit Types (e : EVMState DB).

(** The state that [NewMemoryEVMState] and [NewEVMState] return on an open database. *)
Definition fresh_evm (stateDB : DB) : EVMState DB := mkEVMState stateDB 1 1700000000.

Definition with_db e (db : DB) : EVMState DB := mkEVMState db (es_blockNum e) (es_timestamp e).

(** Run a program on the state database. *)
Definition run {R} (p : Prog R) e : R * EVMState DB :=
  let '(r, db) := exec p (es_stateDB e) in (r, with_db e db).

(** On failure the state is the one before the call. *)
Definition Commit e (blockNum : Z) : option Hash * EVMState DB :=
  match sdb_Commit (es_stateDB e) blockNum with
  | Some (root, db) => (Some root, with_db e db)
  | None => (None, e)
  end.

Definition es_GetBalance e (addr : Address) : Z * EVMState DB := run (call (GetBalance addr)) e.
Definition es_GetNonce e (addr : Address) : Z * EVMState DB := run (call (GetNonce addr)) e.
Definition es_GetCode e (addr : Address) : list byte * EVMState DB := run (call (GetCode addr)) e.
Definition es_SetCode e (addr : Address) (code : list byte) : EVMState DB :=
  (run (call (SetCode addr code)) e).2.
Definition es_GetCodeHash e (addr : Address) : Hash * EVMState DB := run (call (GetCodeHash addr)) e.

Definition GetAccountState e (addr : Address) : AccountState * EVMState DB :=
  run (let! b := call (GetBalance addr) in
       let! n := call (GetNonce addr) in
       let! c := call (GetCode addr) in
       let! h := call (GetCodeHash addr) in
       Ret (mkAccountState b n c h))%go e.

Definition GetStateRoot e : Hash := sdb_IntermediateRoot (es_stateDB e).

Definition GetStorageAt e (addr : Address) (slot : Hash) : Hash * EVMState DB :=
  run (call (GetState addr slot)) e.

Definition SetStorageAt e (addr : Address) (slot value : Hash) : EVMState DB :=
  (run (call (SetState addr slot value)) e).2.

Definition es_Snapshot e : Z * EVMState DB := run (call Snapshot) e.
Definition es_RevertToSnapshot e (snapshot : Z) : EVMState DB :=
  (run (call (RevertToSnapshot snapshot)) e).2.

(** ** Balances *)

Definition Credit e (addr : Address) (amount : Z) : panics (EVMState DB) :=
  match MustFromBig amount with
  | None => None
  | Some v => Some (run (call (AddBalance addr v)) e).2
  end.

Definition CanDebit e (addr : Address) (amount lockedAmount : Z) : bool * EVMState DB :=
  let '(bal, e1) := run (call (GetBalance addr)) e in
  let available := bal - lockedAmount in
  (amount <=? available, e1).

Definition Debit e (addr : Address) (amount : Z) : panics (option evm_error * EVMState DB) :=
  let '(bal, e1) := run (call (GetBalance addr)) e in
  match MustFromBig amount with
  | None => None
  | Some amtU256 =>
      if bal <? amtU256 then Some (Some ErrInsufficientFunds, e1)
      else Some (None, (run (call (SubBalance addr amtU256)) e1).2)
  end.

(** ** Executing the transactions of a block *)

Definition executeLocalTx e (tx : Transaction) : panics (option evm_error * EVMState DB) :=
  let value := ToBigInt (tx_Value tx) in
  let gas := if tx_Gas tx =? 0 then 3000000 else tx_Gas tx in
  match MustFromBig value with
  | None => None
  | Some v =>
      match tx_Data tx with
      | _ :: _ =>
          let '(r, e1) := run (evm_Call (blockCtx (es_blockNum e) (es_timestamp e))
            (txCtx (tx_From tx)) (tx_From tx) (tx_To tx) (tx_Data tx) gas v) e in
          match call_err r with
          | Some err => Some (Some (ErrCallFailed (u64_sub gas (call_gasLeft r)) err), e1)
          | None => Some (None, e1)
          end
      | [] =>
          let '(ok, e1) := run (canTransfer (tx_From tx) v) e in
          if ok then Some (None, (run (transfer (tx_From tx) (tx_To tx) v) e1).2)
          else Some (Some ErrInsufficientFunds, e1)
      end
  end.

Definition applyWriteSet e (rwSet : list RwVariable) : EVMState DB :=
  foldl (λ e rw,
    foldl (λ e write, SetStorageAt e (rw_Address rw) (ws_Slot write) (BytesToHash (ws_NewValue write)))
      e (rw_WriteSet rw)) e rwSet.

Definition executeLock e (tx : Transaction) : option evm_error * EVMState DB := (None, e).

Definition ExecuteTx e (tx : Transaction) : panics (option evm_error * EVMState DB) :=
  match tx_TxType tx with
  | TxTypeLocal => executeLocalTx e tx
  | TxTypeCrossDebit => Debit e (tx_From tx) (ToBigInt (tx_Value tx))
  | TxTypeCrossCredit =>
      match Credit e (tx_To tx) (ToBigInt (tx_Value tx)) with
      | Some e' => Some (None, e')
      | None => None
      end
  | TxTypeCrossWriteSet => Some (None, applyWriteSet e (tx_RwSet tx))
  | TxTypeCrossAbort => Some (None, e)
  | TxTypeLock => Some (executeLock e tx)
  | TxTypeUnlock => Some (None, e)
  | TxTypeFinalize => Some (None, applyWriteSet e (tx_RwSet tx))
  | TxTypeSimError => Some (None, e)
  | t => Some (Some (ErrUnknownTxType t), e)
  end.

(** ** Contracts *)

(** Address, output, gas used and logs, or the gas used and the error. *)
Definition DeployContract e (deployer : Address) (bytecode : list byte) (value gas : Z) :
    panics (result (Z * string) (Address * list byte * Z * list Log) * EVMState DB) :=
  match MustFromBig value with
  | None => None
  | Some v =>
      let '(r, e1) := run (evm_Create (blockCtx (es_blockNum e) (es_timestamp e))
        (txCtx deployer) deployer bytecode gas v) e in
      let gasUsed := u64_sub gas (create_gasLeft r) in
      match create_err r with
      | Some err => Some (Err (gasUsed, err), e1)
      | None => Some (Ok (create_addr r, create_ret r, gasUsed, sdb_Logs (es_stateDB e1)), e1)
      end
  end.

Definition DeployContractTracked e (deployer : Address) (bytecode : list byte)
    (value gas numShards : Z) :
    panics (result (Z * string)
              (Address * list byte * Z * list Log * option (gmap Hash Hash)) * EVMState DB) :=
  match MustFromBig value with
  | None => None
  | Some v =>
      let trackingDB := NewTrackingStateDB (es_stateDB e) 0 numShards in
      let '(r, t) := exec (evm_Create (blockCtx (es_blockNum e) (es_timestamp e))
        (txCtx deployer) deployer bytecode gas v) trackingDB in
      let e1 := with_db e (t_inner t) in
      let gasUsed := u64_sub gas (create_gasLeft r) in
      match create_err r with
      | Some err => Some (Err (gasUsed, err), e1)
      | None =>
          Some (Ok (create_addr r, create_ret r, gasUsed, sdb_Logs (es_stateDB e1),
                    GetStorageWritesForAddress t (create_addr r)), e1)
      end
  end.

Definition CallContract e (caller contract : Address) (input : list byte) (value gas : Z) :
    panics (list byte * Z * list Log * option string * EVMState DB) :=
  match MustFromBig value with
  | None => None
  | Some v =>
      let '(r, e1) := run (evm_Call (blockCtx (es_blockNum e) (es_timestamp e))
        (txCtx caller) caller contract input gas v) e in
      Some (call_ret r, u64_sub gas (call_gasLeft r), sdb_Logs (es_stateDB e1), call_err r, e1)
  end.

Definition StaticCall e (caller contract : Address) (input : list byte) (gas : Z) :
    list byte * Z * option string * EVMState DB :=
  let '(r, e1) := run (evm_StaticCall (blockCtx (es_blockNum e) (es_timestamp e))
    (txCtx caller) caller contract input gas) e in
  (call_ret r, u64_sub gas (call_gasLeft r), call_err r, e1).

(** ** Simulation *)

(** Output, accessed addresses, whether one of them is remote, the error. *)
Definition SimulateCall e (caller contract : Address) (input : list byte) (value gas : Z)
    (localShardID numShards : Z) :
    panics (list byte * list Address * bool * option string * EVMState DB) :=
  let '(snapshot, e1) := es_Snapshot e in
  let trackingDB := NewTrackingStateDB (es_stateDB e1) localShardID numShards in
  match MustFromBig value with
  | None => None
  | Some v =>
      let '(r, t) := exec (evm_Call (blockCtx (es_blockNum e) (es_timestamp e))
        (txCtx caller) caller contract input gas v) trackingDB in
      let e2 := es_RevertToSnapshot (with_db e1 (t_inner t)) snapshot in
      Some (call_ret r, GetAccessedAddresses t, HasCrossShardAccess t, call_err r, e2)
  end.

(** The read/write set and the gas used, or the gas used and the error. *)
Definition SimulateCallForRwSet e (caller contract : Address) (input : list byte)
    (value gas : Z) (refBlock : Reference) :
    panics (result (Z * string) (list RwVariable * Z) * EVMState DB) :=
  let '(snapshot, e1) := es_Snapshot e in
  let trackingDB := NewTrackingStateDB (es_stateDB e1) (ref_ShardNum refBlock) NumShards in
  match MustFromBig value with
  | None => None
  | Some v =>
      let '(r, t) := exec (evm_Call (blockCtx (ref_BlockHeight refBlock) (es_timestamp e))
        (txCtx caller) caller contract input gas v) trackingDB in
      let gasUsed := u64_sub gas (call_gasLeft r) in
      let e2 := es_RevertToSnapshot (with_db e1 (t_inner t)) snapshot in
      match call_err r with
      | Some err => Some (Err (gasUsed, err), e2)
      | None => Some (Ok (BuildRwSet t refBlock, gasUsed), e2)
      end
  end.

End evm.

(** ** Lemmas *)

Section evm_lemmas.
Context {DB : Type} `{GethStateDBLaws DB} `{Geth} `{!GethLaws} `{EVM} `{MapRange}.
Implicit Types (e : EVMState DB).

(** Observations of a shard's state. *)
Definition bal e (a : Address) : Z := balance (es_stateDB e) a.
Definition sto e (a : Address) (s : Hash) : Hash := storage (es_stateDB e) a s.

(** Two shard states with the same balances and storage. *)
Definition same_evm e e' : Prop := same_state (es_stateDB e) (es_stateDB e').

#[export] Instance same_evm_equiv : Equivalence same_evm.
Proof.
  split.
  - intros e. unfold same_evm. done.
  - intros x y Hxy. unfold same_evm in *. by symmetry.
  - intros x y z Hxy Hyz. unfold same_evm in *. by etrans.
Qed.

#[export] Instance bal_proper : Proper (same_evm ==> (=) ==> (=)) bal.
Proof. intros x y He a ? <-. apply He. Qed.

#[export] Instance sto_proper : Proper (same_evm ==> (=) ==> (=) ==> (=)) sto.
Proof. intros x y He a ? <- s ? <-. apply He. Qed.

Lemma run_call_db {A} (op : StateOp A) e : es_stateDB (run (call op) e).2 = (do_op op (es_stateDB e)).2.
Proof. unfold run. simpl. by destruct (do_op op (es_stateDB e)). Qed.

Lemma run_get_balance e a :
  let '(b, e') := run (call (GetBalance a)) e in b = bal e a ∧ same_evm e' e.
Proof.
  pose proof (get_balance_pure (es_stateDB e) a) as Hp. apply obs_same_state in Hp.
  unfold run, bal, balance, same_evm. simpl.
  by destruct (do_op (GetBalance a) (es_stateDB e)).
Qed.

Lemma sub_balance_bal e a v a' :
  bal (run (call (SubBalance a v)) e).2 a' = if decide (a' = a) then u256_sub (bal e a) v else bal e a'.
Proof. unfold bal. rewrite run_call_db. apply sub_balance_spec. Qed.

Lemma add_balance_bal e a v a' :
  bal (run (call (AddBalance a v)) e).2 a' = if decide (a' = a) then u256_add (bal e a) v else bal e a'.
Proof. unfold bal. rewrite run_call_db. apply add_balance_spec. Qed.

Lemma other_op_sto {A} (op : StateOp A) e a s :
  writes_storage op = false → sto (run (call op) e).2 a s = sto e a s.
Proof. intros. unfold sto. rewrite run_call_db. by apply other_ops_storage. Qed.

Lemma SetStorageAt_sto e a s v a' s' :
  sto (SetStorageAt e a s v) a' s' = if decide (a' = a ∧ s' = s) then v else sto e a' s'.
Proof. unfold sto, SetStorageAt. rewrite run_call_db. apply set_state_spec. Qed.

Lemma SetStorageAt_bal e a s v a' : bal (SetStorageAt e a s v) a' = bal e a'.
Proof. unfold bal, SetStorageAt. rewrite run_call_db. apply set_state_balance. Qed.

(** *** Write sets *)

Lemma applyWriteSet_flat e rws :
  applyWriteSet e rws
  = foldl (λ e '(k, v), SetStorageAt e k.1 k.2 (BytesToHash v)) e (rw_writes rws).
Proof.
  revert e. induction rws as [|rw rws IH]; intros e; simpl; [done|].
  unfold rw_writes. simpl. rewrite foldl_app, IH. f_equal. clear IH.
  revert e. induction (rw_WriteSet rw) as [|w ws IH]; intros e; simpl; [done|]. apply IH.
Qed.

(** Applying a write set gives each written slot its last value and leaves the
    others alone. *)
Lemma applyWriteSet_sto e rws a s :
  sto (applyWriteSet e rws) a s = default (sto e a s) (BytesToHash <$> last_writes rws !! (a, s)).
Proof.
  rewrite applyWriteSet_flat. unfold last_writes.
  assert (Hg : ∀ l (m : gmap (Address * Slot) (list byte)) e',
    sto e' a s = default (sto e a s) (BytesToHash <$> m !! (a, s)) →
    sto (foldl (λ e '(k, v), SetStorageAt e k.1 k.2 (BytesToHash v)) e' l) a s
    = default (sto e a s) (BytesToHash <$> foldl (λ m '(k, v), <[k := v]> m) m l !! (a, s))).
  { induction l as [|[[a' s'] v] l IH]; intros m e' He'; simpl; [done|]. apply IH.
    rewrite SetStorageAt_sto. case_decide as Hd; simpl in Hd.
    - destruct Hd as [-> ->]. by rewrite lookup_insert_eq.
    - rewrite lookup_insert_ne; [done|]. naive_solver. }
  apply Hg. by rewrite lookup_empty.
Qed.

Lemma applyWriteSet_bal e rws a : bal (applyWriteSet e rws) a = bal e a.
Proof.
  rewrite applyWriteSet_flat. generalize (rw_writes rws). intros l. revert e.
  induction l as [|[k v] l IH]; intros e; simpl; [done|]. by rewrite IH, SetStorageAt_bal.
Qed.

(** *** Balances *)

(** [Debit] of an affordable amount subtracts it from the account and touches
    nothing else; an unaffordable one is refused and changes nothing. *)
Lemma Debit_spec e addr amount :
  is_u256 amount →
  ∃ r e', Debit e addr amount = Some (r, e') ∧
    if amount <=? bal e addr
    then r = None ∧ (∀ a, bal e' a = if decide (a = addr) then bal e addr - amount else bal e a) ∧
         (∀ a s, sto e' a s = sto e a s)
    else r = Some ErrInsufficientFunds ∧ same_evm e' e.
Proof.
  intros Hu. unfold Debit. rewrite (MustFromBig_u256 amount Hu).
  pose proof (run_get_balance e addr) as Hg. destruct (run _ e) as [b e1]. destruct Hg as [-> He1].
  rewrite Z.ltb_antisym. destruct (amount <=? bal e addr) eqn:Hle; simpl.
  - eexists None, _. split; [done|]. split_and!; [done|intros a|intros a s].
    + rewrite sub_balance_bal. case_decide; rewrite He1; [|done].
      apply u256_sub_small; [unfold is_u256 in Hu; lia|apply balance_u256].
    + by rewrite other_op_sto, He1.
  - eexists _, _. split; [done|]. done.
Qed.

Lemma Credit_spec e addr amount :
  is_u256 amount → bal e addr + amount < two256 →
  ∃ e', Credit e addr amount = Some e' ∧
    (∀ a, bal e' a = if decide (a = addr) then bal e addr + amount else bal e a) ∧
    (∀ a s, sto e' a s = sto e a s).
Proof.
  intros Hu Hov. unfold Credit. rewrite (MustFromBig_u256 amount Hu).
  eexists. split; [done|]. split; [intros a|intros a s].
  - rewrite add_balance_bal. case_decide; [|done].
    apply u256_add_small; [apply balance_u256|apply Hu|done].
  - by rewrite other_op_sto.
Qed.

Lemma transfer_run e from to v :
  let e' := (run (transfer from to v) e).2 in
  e' = (run (call (AddBalance to v)) (run (call (SubBalance from v)) e).2).2.
Proof.
  unfold transfer, run. simpl. destruct (do_op (SubBalance from v) (es_stateDB e)). simpl.
  by destruct (do_op (AddBalance to v) _).
Qed.

Lemma transfer_bal e from to v a :
  is_u256 v → v ≤ bal e from → bal e to + v < two256 →
  bal (run (transfer from to v) e).2 a
  = bal e a - (if decide (a = from) then v else 0) + (if decide (a = to) then v else 0).
Proof.
  intros [Hv0 Hv] Hle Hov. rewrite transfer_run, add_balance_bal.
  pose proof (balance_u256 (es_stateDB e)) as Hu.
  pose proof (u256_sub_small (bal e from) v (conj Hv0 Hle) (Hu from)) as Hs.
  pose proof (Hu to) as [Hto ?]. change (balance _ to) with (bal e to) in Hto.
  destruct (decide (a = to)) as [->|]; rewrite !sub_balance_bal; [|case_decide; subst; lia].
  case_decide; subst; rewrite ?Hs, u256_add_small; lia.
Qed.

Lemma transfer_sto e from to v a s : sto (run (transfer from to v) e).2 a s = sto e a s.
Proof. rewrite transfer_run. by rewrite !other_op_sto. Qed.

Lemma local_transfer_spec e tx :
  let v := ToBigInt (tx_Value tx) in
  tx_Data tx = [] → is_u256 v → bal e (tx_To tx) + v < two256 →
  ∃ r e', executeLocalTx e tx = Some (r, e') ∧
    if v <=? bal e (tx_From tx)
    then r = None ∧
         (∀ a, bal e' a = bal e a - (if decide (a = tx_From tx) then v else 0)
                                  + (if decide (a = tx_To tx) then v else 0)) ∧
         (∀ a s, sto e' a s = sto e a s)
    else r = Some ErrInsufficientFunds ∧ same_evm e' e.
Proof.
  intros v Hd Hu Hov. unfold executeLocalTx. rewrite (MustFromBig_u256 _ Hu), Hd. fold v.
  assert (Hc : let '(ok, e1) := run (canTransfer (tx_From tx) v) e in
    ok = (v <=? bal e (tx_From tx)) ∧ same_evm e1 e).
  { pose proof (run_get_balance e (tx_From tx)) as Hg. unfold run in *. simpl in *.
    destruct (do_op _ (es_stateDB e)). by destruct Hg as [-> ?]. }
  destruct (run (canTransfer _ _) e) as [ok e1]. destruct Hc as [-> He1].
  destruct (v <=? bal e (tx_From tx)) eqn:Hle; [|by eauto].
  eexists _, _. split; [done|]. split; [done|]. apply Z.leb_le in Hle. split.
  - intros a. rewrite transfer_bal; rewrite ?He1; done.
  - intros a s. by rewrite transfer_sto, He1.
Qed.

(** A plain value transfer in a block moves exactly its value from the sender
    to the recipient (also when they are the same account) and touches no other
    account and no storage; a transfer of more than the sender has is refused and
    changes nothing. *)
Theorem local_transfer_exact e tx :
  let v := ToBigInt (tx_Value tx) in
  tx_Data tx = [] → is_u256 v → bal e (tx_To tx) + v < two256 →
  ∃ r e', executeLocalTx e tx = Some (r, e') ∧
    if v <=? bal e (tx_From tx)
    then r = None ∧
         (∀ a, bal e' a = bal e a - (if decide (a = tx_From tx) then v else 0)
                                  + (if decide (a = tx_To tx) then v else 0)) ∧
         (∀ a s, sto e' a s = sto e a s)
    else r = Some ErrInsufficientFunds ∧ same_evm e' e.
Proof. apply local_transfer_spec. Qed.

(** *** Simulations leave the state as it was *)

(** What a self-contained program does is a sequence of operations within the
    snapshot taken before it. *)
Lemma exec_within {R} (p : Prog R) (db0 : DB) ids ops :
  let '(r, db1) := do_op Snapshot db0 in
  Forall (within r) ops → Forall (λ i, r < i) ids → own_reverts ids p →
  ∃ ops', Forall (within r) ops' ∧ (exec p (do_ops ops db1)).2 = do_ops ops' db1.
Proof.
  destruct (do_op Snapshot db0) as [r db1] eqn:Hsnap. revert ids ops.
  assert (Hstep : ∀ A (op : StateOp A) ops, Forall (within r) ops → within r (AnyOp A op) →
    Forall (within r) (ops ++ [AnyOp A op]) ∧
    (do_op op (do_ops ops db1)).2 = do_ops (ops ++ [AnyOp A op]) db1).
  { intros A op ops Hops Hop. split; [|unfold do_ops; by rewrite foldl_app].
    apply Forall_app. split; [done|]. by apply Forall_singleton. }
  induction p as [x|A op k IH]; intros ids ops Hops Hids Hp; [by exists ops|].
  simpl. destruct (do_op op (do_ops ops db1)) as [x db2] eqn:Hop.
  assert (Hnext : within r (AnyOp A op) → ∀ ids', Forall (λ i, r < i) ids' →
    own_reverts ids' (k x) → ∃ ops', Forall (within r) ops' ∧ (exec (k x) db2).2 = do_ops ops' db1).
  { intros Hw ids' Hi' Hk. destruct (Hstep A op ops Hops Hw) as [Hf He].
    rewrite Hop in He. simpl in He. subst db2. by apply (IH x ids'). }
  destruct op; simpl in Hp; try (by apply (Hnext I ids)); try done.
  - destruct Hp as [Hin Hk]. apply (Hnext) with ids; [|done|apply Hk].
    simpl. by eapply Forall_forall in Hids.
  - apply (Hnext I (x :: ids)); [|apply Hp]. constructor; [|done].
    pose proof (snapshot_fresh db0 ops) as Hfresh. rewrite Hsnap in Hfresh.
    specialize (Hfresh Hops). by rewrite Hop in Hfresh.
Qed.

(** Snapshot, run the program on the tracking wrapper, revert: nothing changed. *)
Lemma tracked_rollback {R} (p : Prog R) e l n :
  own_reverts [] p →
  let '(snapshot, e1) := es_Snapshot e in
  let t := (exec p (NewTrackingStateDB (es_stateDB e1) l n)).2 in
  same_evm (es_RevertToSnapshot (with_db e1 (t_inner t)) snapshot) e.
Proof.
  intros Hp. unfold es_Snapshot, run. simpl.
  pose proof (exec_within p (es_stateDB e) [] []) as Hw.
  pose proof (revert_spec (es_stateDB e)) as Hrev.
  destruct (do_op Snapshot (es_stateDB e)) as [r db1]. simpl.
  destruct Hw as (ops&Hops&He); [constructor|constructor|done|]. simpl in He.
  destruct (exec_sim p (NewTrackingStateDB db1 l n) db1) as [_ Hsim]; [done|].
  unfold same_evm, es_RevertToSnapshot. rewrite run_call_db. simpl.
  destruct (obs_eq_op (RevertToSnapshot r) _ _ Hsim) as [_ Hobs].
  apply obs_same_state in Hobs. rewrite Hobs, He. by apply Hrev.
Qed.

(** Snapshot, run the program on the database itself, revert. *)
Lemma run_rollback {R} (p : Prog R) e :
  own_reverts [] p →
  let '(snapshot, e1) := es_Snapshot e in
  same_evm (es_RevertToSnapshot (run p e1).2 snapshot) e.
Proof.
  intros Hp. unfold es_Snapshot, run. simpl.
  pose proof (exec_within p (es_stateDB e) [] []) as Hw.
  pose proof (revert_spec (es_stateDB e)) as Hrev.
  destruct (do_op Snapshot (es_stateDB e)) as [r db1]. simpl.
  destruct Hw as (ops&Hops&He); [constructor|constructor|done|]. simpl in He.
  unfold same_evm, es_RevertToSnapshot. rewrite run_call_db. destruct (exec p db1) as [x db2].
  simpl in *. subst db2. by apply Hrev.
Qed.

Lemma es_Snapshot_same e : same_evm (es_Snapshot e).2 e.
Proof.
  unfold es_Snapshot, same_evm. rewrite run_call_db. apply snapshot_pure.
Qed.

Lemma call_own_reverts `{!EVMLaws} n ts caller contract input gas v :
  own_reverts [] (evm_Call (blockCtx n ts) (txCtx caller) caller contract input gas v).
Proof. apply evm_Call_own_reverts; simpl; naive_solver. Qed.

(** What one access to the state does: run a self-contained program on it. *)
Definition own_change e e' : Prop := ∃ R (p : Prog R), own_reverts [] p ∧ e' = (run p e).2.

Lemma own_change_run {R} (p : Prog R) e : own_reverts [] p → own_change e (run p e).2.
Proof. intros Hp. by exists R, p. Qed.

Lemma own_change_refl e : own_change e e.
Proof. exists unit, (Ret tt). split; [done|]. by destruct e. Qed.

(** Reverting to a snapshot undoes all accesses since, of whatever origin. *)
Lemma window_undone e :
  let '(snapshot, e1) := es_Snapshot e in
  ∀ e2, rtc own_change e1 e2 → same_evm (es_RevertToSnapshot e2 snapshot) e.
Proof.
  unfold es_Snapshot, run. simpl. pose proof (revert_spec (es_stateDB e)) as Hrev.
  pose proof (λ R (p : Prog R), exec_within p (es_stateDB e) []) as Hw.
  destruct (do_op Snapshot (es_stateDB e)) as [r db1]. simpl. intros e2 Hch.
  assert (∃ ops, Forall (within r) ops ∧ es_stateDB e2 = do_ops ops db1) as (ops&Hops&He).
  { remember (with_db e db1) as e1 eqn:He1.
    assert (Hstart : ∃ ops, Forall (within r) ops ∧ es_stateDB e1 = do_ops ops db1) by (exists []; by subst).
    clear He1 Hrev. induction Hch as [|e1 e1' e2 (R&p&Hp&->) _ IH]; [done|]. apply IH.
    destruct Hstart as (ops&Hops&He). destruct (Hw R p ops Hops) as (ops'&Hops'&He'); [constructor|done|].
    exists ops'. split; [done|]. unfold run. rewrite He. by destruct (exec p (do_ops ops db1)). }
  unfold same_evm, es_RevertToSnapshot. rewrite run_call_db, He. by apply Hrev.
Qed.

(** A failed execution ends early in a self-contained program. *)
Lemma ExecuteTx_failed `{!EVMLaws} e tx err e' : ExecuteTx e tx = Some (Some err, e') → own_change e e'.
Proof.
  unfold ExecuteTx. destruct (tx_TxType tx); try (intros; simplify_eq; apply own_change_refl).
  - unfold executeLocalTx. destruct (MustFromBig _) as [v|]; [|done]. destruct (tx_Data tx) as [|b data].
    + pose proof (own_change_run (canTransfer (tx_From tx) v) e) as Hr.
      destruct (run (canTransfer _ _) e) as [ok e3]. destruct ok; intros; simplify_eq/=. by apply Hr.
    + set (p := evm_Call _ _ _ _ _ _ _). pose proof (own_change_run p e (call_own_reverts _ _ _ _ _ _ _)) as Hr.
      destruct (run p e) as [x e3]. by destruct (call_err x); intros; simplify_eq/=.
  - unfold Debit. pose proof (own_change_run (call (GetBalance (tx_From tx))) e) as Hr.
    destruct (run _ e) as [b e3]. destruct (MustFromBig _) as [v|]; [|done].
    destruct (b <? v); intros; simplify_eq/=. by apply Hr.
  - by destruct (Credit _ _ _).
Qed.

(** An execution that fails is undone by reverting to the snapshot before it. *)
Lemma ExecuteTx_rollback `{!EVMLaws} e tx err e2 :
  let '(snapshot, e1) := es_Snapshot e in
  ExecuteTx e1 tx = Some (Some err, e2) → same_evm (es_RevertToSnapshot e2 snapshot) e.
Proof.
  pose proof (window_undone e) as Hw. destruct (es_Snapshot e) as [r e1].
  intros Hx%ExecuteTx_failed. apply Hw. by apply rtc_once.
Qed.

(** Simulating a call to find the shards it touches leaves every balance and
    every storage slot of the shard as it was, whether the call succeeds, fails
    or reverts. *)
Theorem SimulateCall_unchanged `{!EVMLaws} e caller contract input value gas l n res e' :
  SimulateCall e caller contract input value gas l n = Some (res, e') → same_evm e' e.
Proof.
  unfold SimulateCall. intros Hs.
  pose proof (λ v, tracked_rollback _ e l n
    (call_own_reverts (es_blockNum e) (es_timestamp e) caller contract input gas v)) as Hr.
  destruct (es_Snapshot e) as [r e1]. destruct (MustFromBig value) as [v|]; [|done].
  specialize (Hr v). destruct (exec _ _) as [x t]. by simplify_eq/=.
Qed.

Lemma SimulateCallForRwSet_same `{!EVMLaws} e caller contract input value gas ref res e' :
  SimulateCallForRwSet e caller contract input value gas ref = Some (res, e') → same_evm e' e.
Proof.
  unfold SimulateCallForRwSet. intros Hs.
  pose proof (λ v, tracked_rollback _ e (ref_ShardNum ref) NumShards
    (call_own_reverts (ref_BlockHeight ref) (es_timestamp e) caller contract input gas v)) as Hr.
  destruct (es_Snapshot e) as [r e1]. destruct (MustFromBig value) as [v|]; [|done].
  specialize (Hr v). destruct (exec _ _) as [x t]. destruct (call_err x); by simplify_eq/=.
Qed.

(** *** The read/write set replays the call *)

(** The writes a tracked run recorded, applied to a state with the storage the run
    started from, give the storage the run ended with. *)
Lemma tracked_writes_replay {R} (p : Prog R) (db0 : DB) e l n ref :
  plain p → (∀ a s, sto e a s = storage db0 a s) →
  let t := (exec p (NewTrackingStateDB db0 l n)).2 in
  ∀ a s, sto (applyWriteSet e (BuildRwSet t ref)) a s = storage (exec p db0).2 a s.
Proof.
  intros Hp He t a s.
  destruct (tracks_exec db0 p (NewTrackingStateDB db0 l n) Hp (tracks_new db0 l n)) as (_&Hw&Hs).
  fold t in Hw, Hs.
  destruct (exec_sim p (NewTrackingStateDB db0 l n) db0) as [_ Hsim]; [done|]. fold t in Hsim.
  apply obs_same_state in Hsim. rewrite <- Hsim, Hs, applyWriteSet_sto, He.
  destruct (slot_get (t_storageWrites t) a s) as [v|] eqn:Hv.
  - assert ((a, s, Hash_Bytes v) ∈ rw_writes (BuildRwSet t ref)) as Hin
      by (apply BuildRwSet_writes; eauto).
    apply last_writes_elem in Hin; [|apply BuildRwSet_writes_NoDup]. rewrite Hin. simpl.
    apply BytesToHash_Bytes. by apply (Hw a s).
  - destruct (last_writes _ !! (a, s)) as [bs|] eqn:Hl; [|done].
    apply last_writes_elem in Hl; [|apply BuildRwSet_writes_NoDup].
    apply BuildRwSet_writes in Hl as (v&Hv'&_). congruence.
Qed.

Lemma tracked_reads_initial {R} (p : Prog R) (db0 : DB) l n ref a s bs :
  plain p → (∀ a s, is_u256 (storage db0 a s)) →
  (a, s, bs) ∈ rw_reads (BuildRwSet (exec p (NewTrackingStateDB db0 l n)).2 ref) →
  BytesToHash bs = storage db0 a s.
Proof.
  intros Hp Hu (v&Hv&->)%BuildRwSet_reads.
  destruct (tracks_exec db0 p (NewTrackingStateDB db0 l n) Hp (tracks_new db0 l n)) as (Hr&_).
  apply Hr in Hv as ->. by apply BytesToHash_Bytes.
Qed.

(** The read/write set a shard returns for a call describes the call: every
    value in its read set is the shard's current value of the slot, and applying
    its write set to the shard produces exactly the storage that running the call
    (on the snapshot the block executor takes before it) produces, for calls that
    neither revert inner frames nor create or destroy accounts. *)
Theorem rwset_describes_call `{!EVMLaws} e caller contract input value gas ref rws gasUsed e' v :
  let p := evm_Call (blockCtx (ref_BlockHeight ref) (es_timestamp e)) (txCtx caller)
             caller contract input gas v in
  MustFromBig value = Some v → plain p → (∀ a s, is_u256 (sto e a s)) →
  SimulateCallForRwSet e caller contract input value gas ref = Some (Ok (rws, gasUsed), e') →
  (∀ a s bs, (a, s, bs) ∈ rw_reads rws → BytesToHash bs = sto e a s) ∧
  (∀ a s, sto (applyWriteSet e' rws) a s = sto (run p (es_Snapshot e).2).2 a s).
Proof.
  intros p Hv Hp Hu Hsim.
  pose proof (SimulateCallForRwSet_same e caller contract input value gas ref _ _ Hsim) as Hsame.
  unfold SimulateCallForRwSet, es_Snapshot, run in *. rewrite Hv in Hsim. simpl in *.
  pose proof (snapshot_pure (es_stateDB e)) as [_ Hpure].
  destruct (do_op Snapshot (es_stateDB e)) as [r db1]. simpl in *. fold p in Hsim.
  assert (He1 : ∀ a s, sto e' a s = storage db1 a s) by (intros; by rewrite Hsame, Hpure).
  pose proof (tracked_writes_replay p db1 e' (ref_ShardNum ref) NumShards ref Hp He1) as Hrep.
  pose proof (λ a s bs, tracked_reads_initial p db1 (ref_ShardNum ref) NumShards ref a s bs Hp) as Hrd.
  destruct (exec p (NewTrackingStateDB db1 _ _)) as [x t]. destruct (call_err x); simplify_eq/=.
  split.
  - intros a s bs Hin. rewrite (Hrd a s bs); [apply Hpure| |done]. intros. rewrite Hpure. apply Hu.
  - intros a s. rewrite Hrep. unfold sto. by destruct (exec p db1).
Qed.

(** A frame that writes a slot and fails, its failure handled by the caller. *)
Definition reverted_write (a : Address) (s v : Hash) : Prog unit :=
  (let! r := call Snapshot in
   let! _ := call (SetState a s v) in
   call (RevertToSnapshot r))%go.

(** A write made in an inner frame that is later reverted leaves the storage of
    the simulated state as it was, but stays in the write set the shard returns:
    the wrapper's records are not rolled back with the database. *)
Theorem reverted_write_reported (db : DB) a s v l n ref :
  let p := reverted_write a s v in
  let t := (exec p (NewTrackingStateDB db l n)).2 in
  (∀ a' s', storage (t_inner t) a' s' = storage db a' s') ∧
  (a, s, Hash_Bytes v) ∈ rw_writes (BuildRwSet t ref).
Proof.
  intros p t. split.
  - intros a' s'. destruct (exec_sim p (NewTrackingStateDB db l n) db) as [_ Hsim]; [done|].
    fold t in Hsim. apply obs_same_state in Hsim. rewrite Hsim.
    pose proof (revert_spec db [AnyOp _ (SetState a s v)]) as Hr. unfold p. simpl.
    destruct (do_op Snapshot db) as [r db1]. simpl in *.
    destruct (do_op (SetState a s v) db1) as [x db2]. simpl in *.
    destruct (do_op (RevertToSnapshot r) db2) as [y db3]. simpl in *.
    apply Hr. by repeat constructor.
  - apply BuildRwSet_writes. exists v. split; [|done].
    unfold t, p, reverted_write. simpl.
    pose proof (pass_writes Snapshot (NewTrackingStateDB db l n)) as Hw1.
    change (do_op Snapshot (NewTrackingStateDB db l n)) with (pass Snapshot (NewTrackingStateDB db l n)).
    destruct (pass Snapshot _) as [r t1].
    pose proof (t_SetState_writes t1 a s v) as Hw2.
    change (do_op (SetState a s v) t1) with (t_SetState t1 a s v).
    destruct (t_SetState t1 a s v) as [x t2].
    pose proof (pass_writes (RevertToSnapshot r) t2) as Hw3.
    change (do_op (RevertToSnapshot r) t2) with (pass (RevertToSnapshot r) t2).
    destruct (pass _ t2) as [y t3]. simpl in *.
    by rewrite Hw3, Hw2, slot_get_put, decide_True.
Qed.
End evm_lemmas.

(** ** Witnesses on the in-memory database *)

#[local] Existing Instance list_range.

Definition fundedState (a v : Z) : EVMState MemDB := fresh_evm (set_bal emptyMem a v).

Definition transferTx (from to v : Z) : Transaction :=
  mkTransaction "t1" 0 from to (NewBigInt (Some v)) 21000 [] false TxTypeLocal "" [] "".

Lemma local_transfer_exact_witness :
  ∃ r e', executeLocalTx (fundedState 1 10) (transferTx 1 2 4) = Some (r, e') ∧
    r = None ∧ bal e' 1 = 6 ∧ bal e' 2 = 4.
Proof.
  destruct (local_transfer_exact (fundedState 1 10) (transferTx 1 2 4)) as (r&e'&He&Hr).
  - reflexivity.
  - concrete_range.
  - vm_compute. reflexivity.
  - exists r, e'. split; [exact He|].
    change (ToBigInt (tx_Value (transferTx 1 2 4)) <=? bal (fundedState 1 10) (tx_From (transferTx 1 2 4)))
      with true in Hr. destruct Hr as (->&Hb&_).
    rewrite (Hb 1), (Hb 2). split_and!; vm_compute; reflexivity.
Defined.

Lemma SimulateCall_unchanged_witness :
  ∃ res e', SimulateCall (fundedState 1 10) 1 2 [] 4 21000 1 8 = Some (res, e') ∧
    same_evm e' (fundedState 1 10).
Proof.
  eexists _, _. split; [vm_compute; reflexivity|].
  eapply (SimulateCall_unchanged (fundedState 1 10) 1 2 [] 4 21000 1 8).
  vm_compute. reflexivity.
Defined.

Lemma counter_plain n ts caller addr gas value :
  plain (evm_Call (blockCtx n ts) (txCtx caller) caller addr [Byte.x01] gas value).
Proof.
  simpl. split; [done|]. intros b. destruct (_ <=? _); [|done]. simpl.
  do 2 (split; [done|]; intros _). split; [done|]. intros x. split; [|done].
  pose proof (Z.mod_pos_bound (x + 1) two256 ltac:(reflexivity)). lia.
Qed.

Definition counterRef : Reference := mkReference 2 0 1.

Lemma rwset_describes_call_witness :
  ∃ rws gasUsed e',
    SimulateCallForRwSet (fundedState 1 10) 1 2 [Byte.x01] 0 21000 counterRef = Some (Ok (rws, gasUsed), e') ∧
    rw_writes rws = [((2, 0), Hash_Bytes 1)] ∧
    (∀ a s bs, (a, s, bs) ∈ rw_reads rws → BytesToHash bs = sto (fundedState 1 10) a s) ∧
    (∀ a s, sto (applyWriteSet e' rws) a s
      = sto (run (evm_Call (blockCtx 1 1700000000) (txCtx 1) 1 2 [Byte.x01] 21000 0)
          (es_Snapshot (fundedState 1 10)).2).2 a s).
Proof.
  eexists _, _, _. split; [vm_compute; reflexivity|]. split; [vm_compute; reflexivity|].
  apply (rwset_describes_call (fundedState 1 10) 1 2 [Byte.x01] 0 21000 counterRef _ 0 _ 0).
  - reflexivity.
  - apply counter_plain.
  - intros a s. unfold sto, storage. simpl. concrete_range.
  - vm_compute. reflexivity.
Defined.

Lemma reverted_write_reported_witness :
  let t := (exec (reverted_write 2 0 7) (NewTrackingStateDB emptyMem 0 8)).2 in
  storage (t_inner t) 2 0 = 0 ∧ (2, 0, Hash_Bytes 7) ∈ rw_writes (BuildRwSet t counterRef).
Proof.
  intros t. destruct (reverted_write_reported emptyMem 2 0 7 0 8 counterRef) as [Hs Hw].
  split; [exact (Hs 2 0)|exact Hw].
Defined.
