(* ===== verification/ShardChain.v ===== *)
(** * ShardChain: internal/shard/chain.go

    A shard's block chain and its two-phase-commit state: queued transactions,
    prepare votes, fund locks with their per-address index, pending credits and
    calls, slot locks with the pending read/write sets, and the crash-recovery
    marks. Every method holds the mutex for its whole body: one call, one step.
    Logging is left out. *)

From S2P Require Import Prelude Codec Protocol VmState MemDB TrackingDB EvmState.

Open Scope Z_scope.

(** ** Data *)

Record LockedFunds := mkLockedFunds { lf_Address : Address; lf_Amount : Z }.
Record PendingCredit := mkPendingCredit { pc_Address : Address; pc_Amount : Z }.
Record lockedEntry := mkLockedEntry { le_txID : string; le_amount : Z }.

(** [slotKey] *)
Abbreviation slotKey := (Address * Hash)%type (only parsing).

Record Chain := mkChain {
  sc_shardID : Z;
  sc_blocks : list StateShardBlock;
  sc_height : Z;
  sc_currentTxs : list Transaction;
  sc_prepareTxs : list Transaction;
  sc_prepares : gmap string bool;
  sc_locked : gmap string LockedFunds;
  sc_lockedByAddr : gmap Address (list lockedEntry);
  sc_pendingCredits : gmap string (list PendingCredit);
  sc_pendingCalls : gmap string CrossShardTx;
  sc_slotLocks : gmap Address (gmap Hash string);
  sc_pendingRwSets : gmap string (list RwVariable);
  sc_lastOrchestratorHeight : Z;
  sc_processedCommits : gmap string bool
}.

(** The errors of slot locking and of read-set validation. *)
Inductive lock_error : Type :=
| SlotLockError (addr : Address) (slot : Hash) (lockedBy : string)
| ReadSetMismatchError (addr : Address) (slot : Hash) (expected : list byte) (actual : Hash).

(** A local transaction blocked by the holder of a slot lock at an address. *)
Inductive conflict_error : Type :=
| LocalTxBlocked (txID : string) (addr : Address) (holder : string).

Inductive apply_error : Type := NoPendingRwSet (txID : string).

(** Field updates. *)
Definition set_currentTxs (c : Chain) v : Chain :=
  mkChain (sc_shardID c) (sc_blocks c) (sc_height c) v (sc_prepareTxs c) (sc_prepares c)
    (sc_locked c) (sc_lockedByAddr c) (sc_pendingCredits c) (sc_pendingCalls c) (sc_slotLocks c)
    (sc_pendingRwSets c) (sc_lastOrchestratorHeight c) (sc_processedCommits c).
Definition set_prepareTxs (c : Chain) v : Chain :=
  mkChain (sc_shardID c) (sc_blocks c) (sc_height c) (sc_currentTxs c) v (sc_prepares c)
    (sc_locked c) (sc_lockedByAddr c) (sc_pendingCredits c) (sc_pendingCalls c) (sc_slotLocks c)
    (sc_pendingRwSets c) (sc_lastOrchestratorHeight c) (sc_processedCommits c).
Definition set_prepares (c : Chain) v : Chain :=
  mkChain (sc_shardID c) (sc_blocks c) (sc_height c) (sc_currentTxs c) (sc_prepareTxs c) v
    (sc_locked c) (sc_lockedByAddr c) (sc_pendingCredits c) (sc_pendingCalls c) (sc_slotLocks c)
    (sc_pendingRwSets c) (sc_lastOrchestratorHeight c) (sc_processedCommits c).
Definition set_funds (c : Chain) l idx : Chain :=
  mkChain (sc_shardID c) (sc_blocks c) (sc_height c) (sc_currentTxs c) (sc_prepareTxs c)
    (sc_prepares c) l idx (sc_pendingCredits c) (sc_pendingCalls c) (sc_slotLocks c)
    (sc_pendingRwSets c) (sc_lastOrchestratorHeight c) (sc_processedCommits c).
Definition set_pendingCredits (c : Chain) v : Chain :=
  mkChain (sc_shardID c) (sc_blocks c) (sc_height c) (sc_currentTxs c) (sc_prepareTxs c)
    (sc_prepares c) (sc_locked c) (sc_lockedByAddr c) v (sc_pendingCalls c) (sc_slotLocks c)
    (sc_pendingRwSets c) (sc_lastOrchestratorHeight c) (sc_processedCommits c).
Definition set_pendingCalls (c : Chain) v : Chain :=
  mkChain (sc_shardID c) (sc_blocks c) (sc_height c) (sc_currentTxs c) (sc_prepareTxs c)
    (sc_prepares c) (sc_locked c) (sc_lockedByAddr c) (sc_pendingCredits c) v (sc_slotLocks c)
    (sc_pendingRwSets c) (sc_lastOrchestratorHeight c) (sc_processedCommits c).
Definition set_slotLocks (c : Chain) v : Chain :=
  mkChain (sc_shardID c) (sc_blocks c) (sc_height c) (sc_currentTxs c) (sc_prepareTxs c)
    (sc_prepares c) (sc_locked c) (sc_lockedByAddr c) (sc_pendingCredits c) (sc_pendingCalls c) v
    (sc_pendingRwSets c) (sc_lastOrchestratorHeight c) (sc_processedCommits c).
Definition set_pendingRwSets (c : Chain) v : Chain :=
  mkChain (sc_shardID c) (sc_blocks c) (sc_height c) (sc_currentTxs c) (sc_prepareTxs c)
    (sc_prepares c) (sc_locked c) (sc_lockedByAddr c) (sc_pendingCredits c) (sc_pendingCalls c)
    (sc_slotLocks c) v (sc_lastOrchestratorHeight c) (sc_processedCommits c).
Definition set_recovery (c : Chain) h marks : Chain :=
  mkChain (sc_shardID c) (sc_blocks c) (sc_height c) (sc_currentTxs c) (sc_prepareTxs c)
    (sc_prepares c) (sc_locked c) (sc_lockedByAddr c) (sc_pendingCredits c) (sc_pendingCalls c)
    (sc_slotLocks c) (sc_pendingRwSets c) h marks.

(** ** Queueing *)

Definition NewChain (shardID now : Z) : Chain :=
  mkChain shardID [mkStateShardBlock shardID 0 0 now 0 [] [] ∅] 0 [] [] ∅ ∅ ∅ ∅ ∅ ∅ ∅ 0 ∅.

Definition AddTx (c : Chain) (tx : Transaction) : Chain :=
  set_currentTxs c (sc_currentTxs c ++ [Transaction_DeepCopy tx]).

(** An invalid type is only logged. *)
Definition RecordPrepareTx (c : Chain) (tx : Transaction) : Chain :=
  set_prepareTxs c (sc_prepareTxs c ++ [Transaction_DeepCopy tx]).

Definition AddPrepareResult (c : Chain) (txID : string) (canCommit : bool) : Chain :=
  set_prepares c (<[txID := canCommit]> (sc_prepares c)).

(** [sort.SliceStable] by priority: an insertion sort that puts a transaction
    before the later ones of the same priority ([stable_sort_unique] below: every
    stable sort gives this list). *)
Fixpoint insert_by_priority (tx : Transaction) (txs : list Transaction) : list Transaction :=
  match txs with
  | [] => [tx]
  | t :: txs' =>
      if Priority (tx_TxType t) <? Priority (tx_TxType tx)
      then t :: insert_by_priority tx txs' else tx :: txs
  end.

Definition sortTransactionsByPriority (txs : list Transaction) : list Transaction :=
  foldr insert_by_priority [] txs.

(** ** Fund locks *)

Definition lockFundsLocked (c : Chain) (txID : string) (addr : Address) (amount : Z) : Chain :=
  set_funds c (<[txID := mkLockedFunds addr amount]> (sc_locked c))
    (<[addr := (sc_lockedByAddr c).[addr; []] ++ [mkLockedEntry txID amount]]> (sc_lockedByAddr c)).

Definition LockFunds (c : Chain) (txID : string) (addr : Address) (amount : Z) : Chain :=
  lockFundsLocked c txID addr amount.

Definition GetLockedFunds (c : Chain) (txID : string) : option LockedFunds := sc_locked c !! txID.

Definition getLockedAmountForAddrLocked (c : Chain) (addr : Address) : Z :=
  foldl (λ total entry, total + le_amount entry) 0 (sc_lockedByAddr c).[addr; []].

Definition GetLockedAmountForAddress (c : Chain) (addr : Address) : Z :=
  getLockedAmountForAddrLocked c addr.

(** The index of the first entry of a transaction. *)
Fixpoint find_entry (txID : string) (entries : list lockedEntry) : option nat :=
  match entries with
  | [] => None
  | e :: entries' =>
      if decide (le_txID e = txID) then Some 0%nat else S <$> find_entry txID entries'
  end.

(** [entries[i] = entries[len-1]; entries[:len-1]] *)
Definition swap_remove (i : nat) (entries : list lockedEntry) : list lockedEntry :=
  match last entries with
  | Some e => take (length entries - 1) (<[i := e]> entries)
  | None => entries
  end.

(** [append(entries[:i], entries[i+1:]...)] *)
Definition slice_remove (i : nat) (entries : list lockedEntry) : list lockedEntry :=
  take i entries ++ drop (S i) entries.

(** [ClearLock] and [clearLockLocked] differ in how they remove the entry. *)
Definition clear_lock_with (remove : nat → list lockedEntry → list lockedEntry)
    (c : Chain) (txID : string) : Chain :=
  match sc_locked c !! txID with
  | None => c
  | Some lock =>
      let addr := lf_Address lock in
      let entries := (sc_lockedByAddr c).[addr; []] in
      let idx := match find_entry txID entries with
                 | Some i => <[addr := remove i entries]> (sc_lockedByAddr c)
                 | None => sc_lockedByAddr c
                 end in
      let idx := match idx.[addr; []] with [] => delete addr idx | _ => idx end in
      set_funds c (delete txID (sc_locked c)) idx
  end.

Definition ClearLock (c : Chain) (txID : string) : Chain := clear_lock_with swap_remove c txID.
Definition clearLockLocked (c : Chain) (txID : string) : Chain := clear_lock_with slice_remove c txID.

(** ** Pending credits and calls *)

Definition StorePendingCredit (c : Chain) (txID : string) (addr : Address) (amount : Z) : Chain :=
  set_pendingCredits c
    (<[txID := (sc_pendingCredits c).[txID; []] ++ [mkPendingCredit addr amount]]> (sc_pendingCredits c)).

Definition GetPendingCredits (c : Chain) (txID : string) : option (list PendingCredit) :=
  sc_pendingCredits c !! txID.

Definition clearPendingCreditLocked (c : Chain) (txID : string) : Chain :=
  set_pendingCredits c (delete txID (sc_pendingCredits c)).

Definition ClearPendingCredit (c : Chain) (txID : string) : Chain := clearPendingCreditLocked c txID.

Definition clearPendingCreditForAddressLocked (c : Chain) (txID : string) (addr : Address) : Chain :=
  match sc_pendingCredits c !! txID with
  | None => c
  | Some credits =>
      let remaining := filter (λ credit, pc_Address credit ≠ addr) credits in
      match remaining with
      | [] => set_pendingCredits c (delete txID (sc_pendingCredits c))
      | _ => set_pendingCredits c (<[txID := remaining]> (sc_pendingCredits c))
      end
  end.

Definition StorePendingCall (c : Chain) (tx : CrossShardTx) : Chain :=
  set_pendingCalls c (<[ct_ID tx := CrossShardTx_DeepCopy tx]> (sc_pendingCalls c)).

Definition GetPendingCall (c : Chain) (txID : string) : option CrossShardTx :=
  CrossShardTx_DeepCopy <$> sc_pendingCalls c !! txID.

Definition clearPendingCallLocked (c : Chain) (txID : string) : Chain :=
  set_pendingCalls c (delete txID (sc_pendingCalls c)).

Definition ClearPendingCall (c : Chain) (txID : string) : Chain := clearPendingCallLocked c txID.

(** ** Slot locks *)

(** The holder of a slot. *)
Definition slot_holder (m : gmap Address (gmap Hash string)) (a : Address) (s : Hash) : option string :=
  m !! a ≫= (.!! s).

Definition lockSlotLocked (c : Chain) (txID : string) (addr : Address) (slot : Hash) :
    option lock_error * Chain :=
  let slots := (sc_slotLocks c).[addr; ∅] in
  let c1 := set_slotLocks c (<[addr := slots]> (sc_slotLocks c)) in
  match slots !! slot with
  | Some existingTxID =>
      if decide (existingTxID = txID) then (None, c1)
      else (Some (SlotLockError addr slot existingTxID), c1)
  | None => (None, set_slotLocks c (<[addr := <[slot := txID]> slots]> (sc_slotLocks c)))
  end.

Definition LockSlot := lockSlotLocked.

Definition unlockSlotLocked (c : Chain) (txID : string) (addr : Address) (slot : Hash) : Chain :=
  match sc_slotLocks c !! addr with
  | None => c
  | Some slots =>
      if decide (slots.[slot; ""%string] = txID) then
        let slots' := delete slot slots in
        set_slotLocks c
          (if decide (slots' = ∅) then delete addr (sc_slotLocks c)
           else <[addr := slots']> (sc_slotLocks c))
      else c
  end.

Definition UnlockSlot := unlockSlotLocked.

Definition IsSlotLocked (c : Chain) (addr : Address) (slot : Hash) : bool :=
  match sc_slotLocks c !! addr with
  | None => false
  | Some slots => bool_decide (is_Some (slots !! slot))
  end.

Definition GetSlotLockHolder (c : Chain) (addr : Address) (slot : Hash) : string :=
  match sc_slotLocks c !! addr with
  | None => ""
  | Some slots => slots.[slot; ""%string]
  end.

(** [len(c.slotLocks[addr]) > 0] *)
Definition isAddressLockedLocked (c : Chain) (addr : Address) : bool :=
  (0 <? size (sc_slotLocks c).[addr; ∅])%nat.

Definition IsAddressLocked := isAddressLockedLocked.

Section with_range.
Context `{MapRange}.

(** The two-phase deletion: collect, delete the slots, drop the empty maps. *)
Definition slots_of (txID : string) (m : gmap Address (gmap Hash string)) : list slotKey :=
  map_range m ≫= λ '(addr, slots),
    (λ '(slot, _), (addr, slot)) <$> filter (λ '(_, holder), holder = txID) (map_range slots).

Definition delete_slot (m : gmap Address (gmap Hash string)) (sk : slotKey) :
    gmap Address (gmap Hash string) :=
  alter (delete sk.2) sk.1 m.

Definition unlockAllSlotsForTxLocked (c : Chain) (txID : string) : Chain :=
  let slotsToDelete := slots_of txID (sc_slotLocks c) in
  let m := foldl delete_slot (sc_slotLocks c) slotsToDelete in
  let addrsToDelete := (filter (λ '(_, slots), slots = ∅) (map_range m)).*1 in
  set_slotLocks c (foldl (λ m addr, delete addr m) m addrsToDelete).

Definition UnlockAllSlotsForTx := unlockAllSlotsForTxLocked.

(** [for _, holder := range c.slotLocks[addr] { return holder }] *)
Definition first_holder (c : Chain) (addr : Address) : option string :=
  (map_range (sc_slotLocks c).[addr; ∅]).*2 !! 0%nat.

Definition GetAddressLockHolder (c : Chain) (addr : Address) : string :=
  default ""%string (first_holder c addr).

Definition check_addr (c : Chain) (txID : string) (addr : Address) : option conflict_error :=
  if isAddressLockedLocked c addr then LocalTxBlocked txID addr <$> first_holder c addr else None.

Definition checkLocalTxLockConflict (c : Chain) (tx : Transaction) : option conflict_error :=
  match tx_TxType tx with
  | TxTypeLocal =>
      match check_addr c (tx_ID tx) (tx_From tx) with
      | Some err => Some err
      | None => check_addr c (tx_ID tx) (tx_To tx)
      end
  | _ => None
  end.

(** ** Read-set validation *)

Definition clearPendingRwSetLocked (c : Chain) (txID : string) : Chain :=
  set_pendingRwSets c (delete txID (sc_pendingRwSets c)).

Definition ClearPendingRwSet := clearPendingRwSetLocked.

Definition GetPendingRwSet (c : Chain) (txID : string) : option (list RwVariable) :=
  map RwVariable_DeepCopy <$> sc_pendingRwSets c !! txID.

Definition rollback (c : Chain) (txID : string) (lockedSlots : list slotKey) : Chain :=
  foldl (λ c '(addr, slot), unlockSlotLocked c txID addr slot) c lockedSlots.

Section with_evm.
Context {DB : Type} `{GethStateDB DB} `{Geth} `{EVM}.
Implicit Types (e : EVMState DB).

(** The two nested loops over the read sets are one loop over their items. *)
Fixpoint validate_loop (txID : string) (items : list (slotKey * list byte))
    (lockedSlots : list slotKey) (c : Chain) e : option lock_error * Chain * EVMState DB :=
  match items with
  | [] => (None, c, e)
  | ((addr, slot), value) :: items' =>
      let '(currentValue, e1) := GetStorageAt e addr slot in
      if decide (currentValue = BytesToHash value) then
        match lockSlotLocked c txID addr slot with
        | (Some err, c1) => (Some err, rollback c1 txID lockedSlots, e1)
        | (None, c1) => validate_loop txID items' (lockedSlots ++ [(addr, slot)]) c1 e1
        end
      else (Some (ReadSetMismatchError addr slot value currentValue), rollback c txID lockedSlots, e1)
  end.

Definition validateAndLockReadSetLocked (c : Chain) (txID : string) (rwSet : list RwVariable) e :
    option lock_error * Chain * EVMState DB :=
  match validate_loop txID (rw_reads rwSet) [] c e with
  | (Some err, c1, e1) => (Some err, c1, e1)
  | (None, c1, e1) => (None, set_pendingRwSets c1 (<[txID := rwSet]> (sc_pendingRwSets c1)), e1)
  end.

Definition ValidateAndLockReadSet := validateAndLockReadSetLocked.

(** The loops of [ApplyWriteSet] are those of [EVMState.applyWriteSet]. *)
Definition ApplyWriteSet (c : Chain) (txID : string) e : option apply_error * EVMState DB :=
  match sc_pendingRwSets c !! txID with
  | None => (Some (NoPendingRwSet txID), e)
  | Some rwSet => (None, applyWriteSet e rwSet)
  end.

(** ** Cleanup *)

Definition clearAllMetadataLocked (c : Chain) (txID : string) : Chain :=
  let c := clearLockLocked c txID in
  let c := clearPendingCreditLocked c txID in
  let c := clearPendingCallLocked c txID in
  let c := unlockAllSlotsForTxLocked c txID in
  clearPendingRwSetLocked c txID.

Definition cleanupAfterExecutionLocked (c : Chain) (tx : Transaction) : Chain :=
  let id := tx_CrossShardTxID tx in
  if decide (id = ""%string) then c
  else match tx_TxType tx with
       | TxTypeCrossDebit => clearLockLocked c id
       | TxTypeCrossCredit => clearPendingCreditForAddressLocked c id (tx_To tx)
       | TxTypeCrossWriteSet => clearPendingCallLocked c id
       | TxTypeCrossAbort => clearAllMetadataLocked c id
       | TxTypeLock => AddPrepareResult c id true
       | TxTypeFinalize => clearPendingRwSetLocked (unlockAllSlotsForTxLocked c id) id
       | TxTypeUnlock =>
           clearAllMetadataLocked (clearPendingRwSetLocked (unlockAllSlotsForTxLocked c id) id) id
       | _ => c
       end.

Definition cleanupAfterFailureLocked (c : Chain) (tx : Transaction) : Chain :=
  match tx_TxType tx with
  | TxTypeLock =>
      AddPrepareResult (clearAllMetadataLocked c (tx_CrossShardTxID tx)) (tx_CrossShardTxID tx) false
  | _ => c
  end.

(** ** Producing a block *)

(** Step 1 of the Lock branch: reserve the value, if there is one. *)
Definition reserve_funds (c : Chain) e (tx : Transaction) : bool * Chain * EVMState DB :=
  let amount := ToBigInt (tx_Value tx) in
  if 0 <? amount then
    let lockedAmount := getLockedAmountForAddrLocked c (tx_From tx) in
    let '(ok, e1) := CanDebit e (tx_From tx) amount lockedAmount in
    if ok then (true, lockFundsLocked c (tx_CrossShardTxID tx) (tx_From tx) amount, e1)
    else (false, c, e1)
  else (true, c, e).

(** The Lock branch of the loop: whether the transaction goes in the block. *)
Definition process_lock (c : Chain) e (tx : Transaction) : bool * Chain * EVMState DB :=
  let id := tx_CrossShardTxID tx in
  match reserve_funds c e tx with
  | (false, c1, e1) => (false, cleanupAfterFailureLocked c1 tx, e1)
  | (true, c1, e1) =>
      match validateAndLockReadSetLocked c1 id (tx_RwSet tx) e1 with
      | (Some err, c2, e2) => (false, cleanupAfterFailureLocked (clearLockLocked c2 id) tx, e2)
      | (None, c2, e2) => (true, cleanupAfterExecutionLocked c2 tx, e2)
      end
  end.

(** The other types: execute on a snapshot, revert on failure. *)
Definition process_exec (c : Chain) e (tx : Transaction) : panics (bool * Chain * EVMState DB) :=
  let '(snapshot, e1) := es_Snapshot e in
  match ExecuteTx e1 tx with
  | None => None
  | Some (Some err, e2) =>
      Some (false, cleanupAfterFailureLocked c tx, es_RevertToSnapshot e2 snapshot)
  | Some (None, e2) => Some (true, cleanupAfterExecutionLocked c tx, e2)
  end.

(** One iteration. *)
Definition process_tx (c : Chain) e (tx : Transaction) : panics (bool * Chain * EVMState DB) :=
  match checkLocalTxLockConflict c tx with
  | Some err => Some (false, c, e)
  | None =>
      if decide (tx_TxType tx = TxTypeLock) then Some (process_lock c e tx)
      else process_exec c e tx
  end.

Fixpoint process_txs (c : Chain) e (txs : list Transaction) (successfulTxs : list Transaction) :
    panics (list Transaction * Chain * EVMState DB) :=
  match txs with
  | [] => Some (successfulTxs, c, e)
  | tx :: txs' =>
      match process_tx c e tx with
      | None => None
      | Some (ok, c1, e1) =>
          process_txs c1 e1 txs' (if ok then successfulTxs ++ [tx] else successfulTxs)
      end
  end.

(** [block.Hash()]: sha256 of the JSON encoding, a function of the block. *)
Context (Hash : StateShardBlock → BlockHash).

(** The block, or nil on a commit error, and the states left behind. *)
Definition ProduceBlock (c : Chain) e (now : Z) :
    panics (option StateShardBlock * Chain * EVMState DB) :=
  let sortedTxs := sortTransactionsByPriority (sc_currentTxs c) in
  match process_txs c e sortedTxs [] with
  | None => None
  | Some (successfulTxs, c1, e1) =>
      let newHeight := u64_add (sc_height c1) 1 in
      match Commit e1 newHeight with
      | (None, e2) => Some (None, c1, e2)
      | (Some stateRoot, e2) =>
          match sc_blocks c1 !! Z.to_nat (sc_height c1) with
          | None => None
          | Some prev =>
              let block := mkStateShardBlock (sc_shardID c1) newHeight (Hash prev) now stateRoot
                             successfulTxs (sc_prepareTxs c1) (sc_prepares c1) in
              Some (Some block,
                mkChain (sc_shardID c1) (sc_blocks c1 ++ [block]) newHeight [] [] ∅
                  (sc_locked c1) (sc_lockedByAddr c1) (sc_pendingCredits c1) (sc_pendingCalls c1)
                  (sc_slotLocks c1) (sc_pendingRwSets c1) (sc_lastOrchestratorHeight c1)
                  (sc_processedCommits c1), e2)
          end
      end
  end.

End with_evm.
End with_range.

(** ** Crash recovery *)

Definition GetLastOrchestratorHeight (c : Chain) : Z := sc_lastOrchestratorHeight c.

Definition SetLastOrchestratorHeight (c : Chain) (height : Z) : Chain :=
  set_recovery c height (sc_processedCommits c).

Definition IsCommitProcessed (c : Chain) (txID : string) : bool := (sc_processedCommits c).[txID; false].

Definition MarkCommitProcessed (c : Chain) (txID : string) : Chain :=
  set_recovery c (sc_lastOrchestratorHeight c) (<[txID := true]> (sc_processedCommits c)).

Definition CheckAndMarkCommitProcessed (c : Chain) (txID : string) : bool * Chain :=
  if (sc_processedCommits c).[txID; false] then (false, c)
  else (true, MarkCommitProcessed c txID).
