(* ===== verification/SlotLocks.v ===== *)
(** * SlotLocks: read-set validation and slot locking of internal/shard/chain.go

    What the slot-lock operations of [ShardChain] do, pointwise on the holder of
    each slot, and the contract of [validateAndLockReadSetLocked]: it locks a
    whole read set that matches the state, or nothing. *)

From S2P Require Import Prelude Codec Protocol VmState MemDB TrackingDB EvmState ShardChain.

Open Scope Z_scope.

Abbreviation holder c := (slot_holder (sc_slotLocks c)) (only parsing).

(** No address is left with an empty map: [len(slotLocks[addr]) > 0] says that
    one of its slots is locked. *)
Definition slots_wf (m : gmap Address (gmap Hash string)) : Prop := map_Forall (λ _ slots, slots ≠ ∅) m.

(** [c'] differs from [c] in the slot locks only. *)
Definition only_slots (c c' : Chain) : Prop := c' = set_slotLocks c (sc_slotLocks c').

Lemma only_slots_refl c : only_slots c c.
Proof. by destruct c. Qed.

Lemma only_slots_trans c c' c'' : only_slots c c' → only_slots c' c'' → only_slots c c''.
Proof. unfold only_slots. intros Hc Hc'. rewrite Hc' at 1. rewrite Hc at 1. done. Qed.

#[export] Hint Resolve only_slots_refl : go.

(** ** One slot *)

Lemma slot_holder_insert m a slots a' s :
  slot_holder (<[a := slots]> m) a' s = if decide (a' = a) then slots !! s else slot_holder m a' s.
Proof.
  unfold slot_holder. case_decide; subst; [by rewrite lookup_insert_eq|by rewrite lookup_insert_ne].
Qed.

Lemma slot_holder_get m a s : m.[a; ∅] !! s = slot_holder m a s.
Proof. unfold slot_holder, map_get. by destruct (m !! a). Qed.

Lemma slot_holder_delete m a a' s :
  slot_holder (delete a m) a' s = if decide (a' = a) then None else slot_holder m a' s.
Proof.
  unfold slot_holder. case_decide; subst; [by rewrite lookup_delete_eq|by rewrite lookup_delete_ne].
Qed.

(** A free slot, or one the transaction holds already, is locked for it and
    nothing else changes; a slot of another transaction is an error that names
    the holder, and no holder changes. *)
Lemma lockSlot_spec c id addr slot :
  let '(err, c') := lockSlotLocked c id addr slot in
  only_slots c c' ∧
  match err with
  | None => (holder c addr slot = None ∨ holder c addr slot = Some id) ∧
      ∀ a s, holder c' a s = if decide (a = addr ∧ s = slot) then Some id else holder c a s
  | Some x => ∃ h, x = SlotLockError addr slot h ∧ h ≠ id ∧ holder c addr slot = Some h ∧
      ∀ a s, holder c' a s = holder c a s
  end.
Proof.
  unfold lockSlotLocked. rewrite slot_holder_get.
  assert (Hre : ∀ a s, slot_holder (<[addr := (sc_slotLocks c).[addr; ∅]]> (sc_slotLocks c)) a s
                       = slot_holder (sc_slotLocks c) a s).
  { intros a s. rewrite slot_holder_insert. case_decide; subst; [apply slot_holder_get|done]. }
  destruct (slot_holder (sc_slotLocks c) addr slot) as [h|] eqn:Hh.
  - case_decide; subst; simpl; (split; [done|]).
    + split; [by right|]. intros a s. rewrite Hre. case_decide as Hd; [|done].
      by destruct Hd as [-> ->].
    + by exists h.
  - simpl. split; [done|]. split; [by left|]. intros a s.
    rewrite slot_holder_insert. destruct (decide (a = addr)) as [->|Ha];
      [|rewrite decide_False; naive_solver].
    destruct (decide (s = slot)) as [->|Hs].
    + by rewrite lookup_insert_eq, decide_True.
    + rewrite lookup_insert_ne, slot_holder_get, decide_False; naive_solver.
Qed.

Lemma unlockSlot_spec c id addr slot :
  only_slots c (unlockSlotLocked c id addr slot) ∧
  ∀ a s, holder (unlockSlotLocked c id addr slot) a s
    = if decide (a = addr ∧ s = slot ∧ holder c a s = Some id) then None else holder c a s.
Proof.
  unfold unlockSlotLocked. destruct (sc_slotLocks c !! addr) as [slots|] eqn:Hm.
  2:{ split; [auto with go|]. intros a s. rewrite decide_False; [done|].
      unfold slot_holder. intros (->&_&Hh). by rewrite Hm in Hh. }
  assert (Hs : ∀ s, slot_holder (sc_slotLocks c) addr s = slots !! s)
    by (intros; unfold slot_holder; by rewrite Hm).
  case_decide as Hid.
  - split; [done|]. intros a s. simpl.
    assert (Hmap : slot_holder (if decide (delete slot slots = ∅) then delete addr (sc_slotLocks c)
                   else <[addr := delete slot slots]> (sc_slotLocks c)) a s
                   = if decide (a = addr) then delete slot slots !! s else slot_holder (sc_slotLocks c) a s).
    { case_decide as He; [rewrite slot_holder_delete|by rewrite slot_holder_insert].
      case_decide; [|done]. by rewrite He, lookup_empty. }
    rewrite Hmap; clear Hmap. destruct (decide (a = addr)) as [->|]; [|rewrite decide_False; naive_solver].
    rewrite Hs. destruct (decide (s = slot)) as [->|].
    + rewrite lookup_delete_eq. case_decide; [done|]. unfold map_get in Hid.
      destruct (slots !! slot); naive_solver.
    + rewrite lookup_delete_ne by done. rewrite decide_False; naive_solver.
  - split; [auto with go|]. intros a s. rewrite decide_False; [done|].
    intros (->&->&Hh). apply Hid. rewrite Hs in Hh. by apply map_get_Some.
Qed.

Lemma rollback_spec c id l :
  only_slots c (rollback c id l) ∧
  ∀ a s, holder (rollback c id l) a s
    = if decide ((a, s) ∈ l ∧ holder c a s = Some id) then None else holder c a s.
Proof.
  revert c. induction l as [|[addr slot] l IH]; intros c.
  { split; [apply only_slots_refl|]. intros a s. rewrite decide_False; [done|set_solver]. }
  destruct (unlockSlot_spec c id addr slot) as [Ho Hh].
  destruct (IH (unlockSlotLocked c id addr slot)) as [Ho' Hh'].
  split; [by eapply only_slots_trans|]. intros a s. rewrite Hh', Hh.
  repeat case_decide; try done; exfalso; set_solver.
Qed.

(** ** Validating and locking a read set *)

Section validate.
Context {DB : Type} `{GethStateDBLaws DB} `{Geth} `{EVM} `{MapRange}.
Implicit Types (e : EVMState DB).

Lemma GetStorageAt_spec e addr slot :
  let '(v, e') := GetStorageAt e addr slot in v = sto e addr slot ∧ same_evm e' e.
Proof.
  unfold GetStorageAt, run, sto, storage, same_evm. simpl.
  pose proof (get_state_pure (es_stateDB e) addr slot) as Hp. apply obs_same_state in Hp.
  by destruct (do_op _ _).
Qed.

Lemma validate_loop_frame id items l c e :
  let '(err, c', e') := validate_loop id items l c e in only_slots c c' ∧ same_evm e' e.
Proof.
  revert l c e. induction items as [|[[addr slot] v] items IH]; intros l c e; cbn [validate_loop].
  { split; [auto with go|done]. }
  pose proof (GetStorageAt_spec e addr slot) as Hg.
  destruct (GetStorageAt e addr slot) as [cur e1]. destruct Hg as [_ He1].
  case_decide; [|by split; [apply rollback_spec|]].
  pose proof (lockSlot_spec c id addr slot) as Hl.
  destruct (lockSlotLocked c id addr slot) as [[err|] c1]; destruct Hl as [Ho _].
  - split; [|done]. eapply only_slots_trans; [done|]. apply rollback_spec.
  - specialize (IH (l ++ [(addr, slot)]) c1 e1).
    destruct (validate_loop _ _ _ _ _) as [[err c'] e']. destruct IH as [Ho' He'].
    split; [by eapply only_slots_trans|by rewrite He'].
Qed.

(** Success: every item matches the state and its slot is now held; a slot not in
    the read set keeps its holder; no slot was taken from another transaction. *)
Lemma validate_loop_ok id items l c e c' e' :
  validate_loop id items l c e = (None, c', e') →
  (∀ a s v, ((a, s), v) ∈ items → sto e a s = BytesToHash v) ∧
  (∀ a s, holder c' a s = if decide ((a, s) ∈ items.*1) then Some id else holder c a s) ∧
  (∀ a s, (a, s) ∈ items.*1 → holder c a s = None ∨ holder c a s = Some id).
Proof.
  revert l c e. induction items as [|[[addr slot] v] items IH]; intros l c e; cbn [validate_loop].
  { intros [= -> ->]. split_and!; [set_solver|intros; by rewrite decide_False by set_solver|set_solver]. }
  pose proof (GetStorageAt_spec e addr slot) as Hg.
  destruct (GetStorageAt e addr slot) as [cur e1]. destruct Hg as [-> He1].
  case_decide as Hval; [|done].
  pose proof (lockSlot_spec c id addr slot) as Hl.
  destruct (lockSlotLocked c id addr slot) as [[err|] c1]; [done|]. destruct Hl as (_&Hfree&Hl).
  intros Hv. destruct (IH _ _ _ Hv) as (Hm&Hh&Hf). split_and!.
  - intros a s w. rewrite elem_of_cons. intros [[= -> -> ->]|Hin]; [done|].
    rewrite <- (Hm a s w Hin). by rewrite He1.
  - intros a s. rewrite Hh, Hl. rewrite fmap_cons.
    repeat case_decide; try done; exfalso; set_solver.
  - intros a s [[= -> ->]|Hin]%elem_of_cons; [done|].
    destruct (decide (a = addr ∧ s = slot)) as [[-> ->]|Hne]; [done|].
    pose proof (Hf a s Hin) as Hf'. rewrite Hl, decide_False in Hf' by done. done.
Qed.

(** A read set that matches the state, on slots that are free or the transaction's
    own, is locked. *)
Lemma validate_loop_succeeds id items l c e :
  (∀ a s v, ((a, s), v) ∈ items → sto e a s = BytesToHash v) →
  (∀ a s, (a, s) ∈ items.*1 → holder c a s = None ∨ holder c a s = Some id) →
  ∃ c' e', validate_loop id items l c e = (None, c', e').
Proof.
  revert l c e. induction items as [|[[addr slot] v] items IH]; intros l c e Hval Hfree; cbn [validate_loop].
  { eauto. }
  pose proof (GetStorageAt_spec e addr slot) as Hg.
  destruct (GetStorageAt e addr slot) as [cur e1]. destruct Hg as [-> He1].
  rewrite decide_True by (apply Hval, list_elem_of_here).
  pose proof (lockSlot_spec c id addr slot) as Hl.
  destruct (lockSlotLocked c id addr slot) as [[err|] c1]; destruct Hl as [_ Hl].
  - destruct Hl as (h&_&Hne&Hh&_). destruct (Hfree addr slot); [apply list_elem_of_here|congruence..].
  - destruct Hl as [_ Hl]. apply IH.
    + intros a s w Hin. rewrite He1. by apply Hval, list_elem_of_further.
    + intros a s Hin. rewrite Hl. case_decide; [by right|]. by apply Hfree, list_elem_of_further.
Qed.

(** Failure: the locks acquired so far are given back. [c0] is the state before
    the loop, in which the transaction held nothing. *)
Lemma validate_loop_fail id items l c0 c e err c' e' :
  (∀ a s, holder c0 a s ≠ Some id) →
  (∀ a s, holder c a s = if decide ((a, s) ∈ l) then Some id else holder c0 a s) →
  (∀ a s, (a, s) ∈ l → holder c0 a s = None) →
  validate_loop id items l c e = (Some err, c', e') →
  ∀ a s, holder c' a s = holder c0 a s.
Proof.
  intros Hnone. revert l c e.
  assert (Hroll : ∀ l c, (∀ a s, holder c a s = if decide ((a, s) ∈ l) then Some id else holder c0 a s) →
    (∀ a s, (a, s) ∈ l → holder c0 a s = None) →
    ∀ a s, holder (rollback c id l) a s = holder c0 a s).
  { intros l c Hc Hl a s. destruct (rollback_spec c id l) as [_ ->]. rewrite Hc.
    destruct (decide ((a, s) ∈ l)) as [Hin|Hnin].
    - rewrite decide_True by done. symmetry. by apply Hl.
    - rewrite decide_False; [done|]. naive_solver. }
  induction items as [|[[addr slot] v] items IH]; intros l c e Hc Hl; simpl; [done|].
  destruct (GetStorageAt e addr slot) as [cur e1].
  case_decide; [|intros [= <- <- <-]; by apply Hroll].
  pose proof (lockSlot_spec c id addr slot) as Hlk.
  destruct (lockSlotLocked c id addr slot) as [[x|] c1]; destruct Hlk as [_ Hlk].
  - intros [= <- <- <-]. apply Hroll; [|done]. destruct Hlk as (_&_&_&_&Hlk). intros. by rewrite Hlk.
  - destruct Hlk as [Hfree Hlk]. apply IH.
    + intros a s. rewrite Hlk, Hc. repeat case_decide; try done; exfalso; set_solver.
    + intros a s [Hin|Heq]%elem_of_app; [by apply Hl|]. apply list_elem_of_singleton in Heq as [= -> ->].
      rewrite Hc in Hfree. destruct (decide ((addr, slot) ∈ l)); [by apply Hl|].
      destruct Hfree; [done|]. by destruct (Hnone addr slot).
Qed.

(** The slots of other transactions stay theirs. *)
Lemma validate_loop_others id items l c e :
  let '(err, c', e') := validate_loop id items l c e in
  ∀ id' a s, id' ≠ id → holder c a s = Some id' → holder c' a s = Some id'.
Proof.
  revert l c e. induction items as [|[[addr slot] v] items IH]; intros l c e; cbn [validate_loop]; [done|].
  assert (Hroll : ∀ c l id' a s, id' ≠ id → holder c a s = Some id' →
    holder (rollback c id l) a s = Some id').
  { intros c1 l1 id' a s Hne Hh. destruct (rollback_spec c1 id l1) as [_ ->].
    rewrite Hh, decide_False; [done|]. intros [_ [= ->]]. done. }
  destruct (GetStorageAt e addr slot) as [cur e1]. case_decide; [|by intros; apply Hroll].
  pose proof (lockSlot_spec c id addr slot) as Hlk.
  destruct (lockSlotLocked c id addr slot) as [[x|] c1]; destruct Hlk as [_ Hlk].
  - destruct Hlk as (_&_&_&_&Hlk). intros id' a s Hne Hh. apply Hroll; [done|]. by rewrite Hlk.
  - destruct Hlk as [Hfree Hlk]. specialize (IH (l ++ [(addr, slot)]) c1 e1).
    destruct (validate_loop _ _ _ _ _) as [[err c'] e']. intros id' a s Hne Hh. apply IH; [done|].
    rewrite Hlk, decide_False; [done|]. intros [-> ->]. destruct Hfree; congruence.
Qed.

Lemma validate_ok c id rwSet e c' e' :
  validateAndLockReadSetLocked c id rwSet e = (None, c', e') →
  (∀ a s v, ((a, s), v) ∈ rw_reads rwSet → sto e a s = BytesToHash v) ∧
  (∀ a s v, ((a, s), v) ∈ rw_reads rwSet → holder c' a s = Some id) ∧
  sc_pendingRwSets c' = <[id := rwSet]> (sc_pendingRwSets c).
Proof.
  unfold validateAndLockReadSetLocked. intros Hv.
  pose proof (validate_loop_frame id (rw_reads rwSet) [] c e) as Hfr.
  destruct (validate_loop id (rw_reads rwSet) [] c e) as [[[x|] c1] e1] eqn:Hloop; simplify_eq/=.
  destruct (validate_loop_ok _ _ _ _ _ _ _ Hloop) as (Hm&Hh&_). destruct Hfr as [Ho _].
  split_and!; [done| |by rewrite Ho]. intros a s v Hin. rewrite Hh, decide_True; [done|].
  by apply (list_elem_of_fmap_2 fst) in Hin.
Qed.

(** C10. Read-set validation is all or nothing. On success every value in the read
    set is the shard's current value of its slot, every slot of the read set is
    held by the transaction, none was taken from another transaction, and the set
    is kept for the commit. On failure, for a transaction that held no slot, no
    slot changes hands and nothing else of the chain changes. Either way the state
    database is as before. *)
Theorem validate_and_lock_atomic c id rwSet e err c' e' :
  validateAndLockReadSetLocked c id rwSet e = (err, c', e') →
  (∀ a s, holder c a s ≠ Some id) →
  same_evm e' e ∧
  match err with
  | None =>
      (∀ a s v, ((a, s), v) ∈ rw_reads rwSet →
         sto e a s = BytesToHash v ∧ holder c a s = None ∧ holder c' a s = Some id) ∧
      (∀ a s, (a, s) ∉ (rw_reads rwSet).*1 → holder c' a s = holder c a s) ∧
      sc_pendingRwSets c' = <[id := rwSet]> (sc_pendingRwSets c)
  | Some _ => only_slots c c' ∧ ∀ a s, holder c' a s = holder c a s
  end.
Proof.
  unfold validateAndLockReadSetLocked. intros Hv Hnone.
  pose proof (validate_loop_frame id (rw_reads rwSet) [] c e) as Hfr.
  destruct (validate_loop id (rw_reads rwSet) [] c e) as [[[x|] c1] e1] eqn:Hloop;
    simplify_eq/=; destruct Hfr as [Ho He]; split; try done.
  - split; [done|]. eapply (validate_loop_fail id _ [] c); try done. set_solver.
  - destruct (validate_loop_ok _ _ _ _ _ _ _ Hloop) as (Hm&Hh&Hf). split_and!.
    + intros a s v Hin. assert (Hk : (a, s) ∈ (rw_reads rwSet).*1)
        by (by apply (list_elem_of_fmap_2 fst) in Hin).
      split; [by apply Hm|]. rewrite Hh, decide_True by done.
      destruct (Hf a s Hk); [done|]. by destruct (Hnone a s).
    + intros a s Hnin. by rewrite Hh, decide_False.
    + rewrite Ho. done.
Qed.
End validate.

(** ** Releasing all the slots of a transaction *)

Section unlock_all.
Context `{MapRange}.

Lemma elem_of_slots_of id m a s : (a, s) ∈ slots_of id m ↔ slot_holder m a s = Some id.
Proof.
  unfold slots_of, slot_holder. rewrite list_elem_of_bind. split.
  - intros ([a' slots]&Hin&Hm). apply elem_of_map_range in Hm.
    apply list_elem_of_fmap in Hin as ([s' h]&[= -> ->]&Hf).
    apply list_elem_of_filter in Hf as [-> Hf]. apply elem_of_map_range in Hf.
    rewrite Hm. exact Hf.
  - intros Hh. destruct (m !! a) as [slots|] eqn:Hm; [|done]. simpl in Hh.
    exists (a, slots). split; [|by apply elem_of_map_range].
    apply list_elem_of_fmap. exists (s, id). split; [done|].
    apply list_elem_of_filter. split; [done|]. by apply elem_of_map_range.
Qed.

Lemma delete_slot_holder m sk a s :
  slot_holder (delete_slot m sk) a s = if decide (sk = (a, s)) then None else slot_holder m a s.
Proof.
  unfold delete_slot, slot_holder. destruct sk as [a' s']. simpl.
  destruct (decide (a' = a)) as [->|Ha].
  - rewrite lookup_alter_eq. destruct (m !! a) as [slots|]; simpl; [|by case_decide].
    destruct (decide (s' = s)) as [->|Hs].
    + by rewrite lookup_delete_eq, decide_True.
    + rewrite lookup_delete_ne, decide_False; naive_solver.
  - rewrite lookup_alter_ne, decide_False; naive_solver.
Qed.

Lemma foldl_delete_slot_holder l m a s :
  slot_holder (foldl delete_slot m l) a s = if decide ((a, s) ∈ l) then None else slot_holder m a s.
Proof.
  revert m. induction l as [|sk l IH]; intros m; cbn [foldl].
  { rewrite decide_False; [done|set_solver]. }
  rewrite IH, delete_slot_holder. repeat case_decide; try done; exfalso; set_solver.
Qed.

Lemma foldl_delete_lookup {V} (l : list Address) (m : gmap Address V) a :
  foldl (λ m addr, delete addr m) m l !! a = if decide (a ∈ l) then None else m !! a.
Proof.
  revert m. induction l as [|x l IH]; intros m; cbn [foldl].
  { rewrite decide_False; [done|set_solver]. }
  rewrite IH. destruct (decide (a = x)) as [->|].
  - rewrite lookup_delete_eq. by repeat case_decide; try set_solver.
  - rewrite lookup_delete_ne by done. repeat case_decide; try done; exfalso; set_solver.
Qed.

(** Exactly the slots the transaction held become free, and no address is left
    with an empty map. *)
Lemma unlockAll_spec c id :
  only_slots c (unlockAllSlotsForTxLocked c id) ∧
  slots_wf (sc_slotLocks (unlockAllSlotsForTxLocked c id)) ∧
  ∀ a s, holder (unlockAllSlotsForTxLocked c id) a s
    = if decide (holder c a s = Some id) then None else holder c a s.
Proof.
  unfold unlockAllSlotsForTxLocked. simpl.
  set (m := foldl delete_slot (sc_slotLocks c) (slots_of id (sc_slotLocks c))).
  set (gone := (filter (λ '(_, slots), slots = ∅) (map_range m)).*1).
  assert (Hgone : ∀ a, a ∈ gone ↔ m !! a = Some ∅).
  { intros a. unfold gone. rewrite list_elem_of_fmap. split.
    - intros ([a' slots]&->&Hf). apply list_elem_of_filter in Hf as [-> Hf].
      by apply elem_of_map_range in Hf.
    - intros Ha. exists (a, ∅). split; [done|]. apply list_elem_of_filter.
      split; [done|]. by apply elem_of_map_range. }
  split_and!; [done| |].
  - intros a slots. rewrite foldl_delete_lookup. case_decide as Hin; [done|].
    intros Ha ->. by apply Hin, Hgone.
  - intros a s.
    assert (He : slot_holder (foldl (λ m addr, delete addr m) m gone) a s = slot_holder m a s).
    { unfold slot_holder at 1. rewrite foldl_delete_lookup. case_decide as Hin; [|done].
      apply Hgone in Hin. unfold slot_holder. rewrite Hin. simpl. by rewrite lookup_empty. }
    rewrite He. unfold m. rewrite foldl_delete_slot_holder.
    repeat case_decide; rewrite ?elem_of_slots_of in *; done.
Qed.

(** A locked address, seen by the check on local transactions. *)
Lemma isAddressLocked_spec c a :
  isAddressLockedLocked c a = true ↔ ∃ s h, holder c a s = Some h.
Proof.
  unfold isAddressLockedLocked. rewrite Nat.ltb_lt. split.
  - intros Hs. destruct (map_choose (sc_slotLocks c).[a; ∅]) as (s&h&Hh).
    { intros He. rewrite He, map_size_empty in Hs. lia. }
    exists s, h. by rewrite <- slot_holder_get.
  - intros (s&h&Hh). rewrite <- slot_holder_get in Hh.
    assert (size (sc_slotLocks c).[a; ∅] ≠ 0%nat); [|lia].
    intros He. apply map_size_empty_inv in He. rewrite He in Hh. by rewrite lookup_empty in Hh.
Qed.

(** An address with a locked slot always has a holder to name. *)
Lemma check_addr_spec c id a :
  is_Some (check_addr c id a) ↔ ∃ s h, holder c a s = Some h.
Proof.
  unfold check_addr. rewrite <- isAddressLocked_spec.
  destruct (isAddressLockedLocked c a) eqn:Hl; [|by split; [intros []|]].
  split; [done|]. intros _. apply isAddressLocked_spec in Hl as (s&h&Hh).
  rewrite <- slot_holder_get in Hh. unfold first_holder.
  destruct (map_range (sc_slotLocks c).[a; ∅]) as [|[s' h'] l] eqn:Hr; [|by eexists].
  apply elem_of_map_range in Hh. rewrite Hr in Hh. by apply not_elem_of_nil in Hh.
Qed.

(** A local transaction is blocked exactly when a slot of its sender or of its
    recipient is locked. *)
Lemma checkLocal_spec c tx :
  is_Some (checkLocalTxLockConflict c tx) ↔
  tx_TxType tx = TxTypeLocal ∧ ∃ a s h, (a = tx_From tx ∨ a = tx_To tx) ∧ holder c a s = Some h.
Proof.
  unfold checkLocalTxLockConflict.
  pose proof (check_addr_spec c (tx_ID tx) (tx_From tx)) as Hf.
  pose proof (check_addr_spec c (tx_ID tx) (tx_To tx)) as Ht.
  destruct (tx_TxType tx); try (split; [by intros []|by intros [? _]]).
  destruct (check_addr c (tx_ID tx) (tx_From tx)) eqn:He.
  - split; [|by eexists]. intros _. destruct Hf as [(s&h&Hh) _]; [by eexists|]. eauto 10.
  - rewrite Ht. split; [intros (s&h&Hh); eauto 10|].
    intros (_&a&s&h&[->| ->]&Hh); [|by eauto]. exfalso.
    assert (is_Some (None : option conflict_error)) as [? ?] by (apply Hf; eauto). done.
Qed.
End unlock_all.

(** ** Witness *)

#[local] Existing Instance list_range.

(** A read of slot 0 of account 2 as zero, and a write of one. *)
Definition sampleRwSet : list RwVariable :=
  [mkRwVariable 2 (mkReference 0 0 0) [mkReadSetItem 0 [Byte.x00] []]
     [mkWriteSetItem 0 [Byte.x00] [Byte.x01]]].

Lemma validate_and_lock_atomic_witness :
  let '(err, c', _) := validateAndLockReadSetLocked (NewChain 0 0) "x" sampleRwSet (fundedState 1 10) in
  err = None ∧ holder c' 2 0 = Some "x"%string.
Proof.
  destruct (validateAndLockReadSetLocked _ _ _ _) as [[err c'] e'] eqn:Hv.
  assert (err = None) as -> by (vm_compute in Hv; by injection Hv).
  split; [reflexivity|].
  destruct (validate_and_lock_atomic _ _ _ _ _ _ _ Hv) as (_&Hok&_); [by intros a s|].
  apply (Hok 2 0 [Byte.x00]). vm_compute. apply list_elem_of_here.
Defined.
