(* ===== verification/StorageProof.v ===== *)
(** * StorageProof: Merkle proofs between shard and orchestrator

    A shard answers a storage request with the value, its state root and the trie
    nodes on the paths to the account and to the slot (internal/shard/evm.go,
    [GetStorageWithProof]); the orchestrator checks the answer against the root
    (internal/orchestrator/statefetcher.go, [VerifyStorageProof]). The tries and
    their codecs are go-ethereum's ([MerkleTrie]). The theorems: an honest answer
    is accepted, two accepted answers for one slot agree, and an answer without
    nodes is accepted unchecked. *)

From S2P Require Import Prelude Codec Protocol VmState MemDB TrackingDB EvmState SlotLocks.

Open Scope Z_scope.

(** ** go-ethereum's tries *)

(** Hashing, proof checking and the RLP decoders: [trie_VerifyProof] reads nodes
    through a key-value reader and yields [[]] for a proven absence;
    [rlp_StateAccount] and [rlp_account] give the storage root of an encoded
    account, by the record types of the shard and of the orchestrator. *)
Class TrieCodec := {
  Keccak256 : list byte → list byte;
  Address_Bytes : Address → list byte;
  EmptyRootHash : Hash;
  trie_VerifyProof : Hash → list byte → (list byte → option (list byte)) → option (list byte);
  rlp_StateAccount : list byte → option Hash;
  rlp_account : list byte → option Hash;
  rlp_Bytes : list byte → option (list byte)
}.

(** Tries opened from the trie database of a state; [trie_Get] yields [[]] for a
    key that is absent. *)
Class MerkleTrie (DB T : Type) := {
  StateTrie : DB → Hash → option T;
  StorageTrie : DB → Hash → Hash → Hash → option T;
  trie_Prove : T → list byte → option (list (list byte));
  trie_Get : T → list byte → option (list byte)
}.

(** [protocol.StorageProofResponse] *)
Record StorageProofResponse := mkStorageProofResponse {
  sp_Address : Address;
  sp_Slot : Slot;
  sp_Value : Hash;
  sp_StateRoot : Hash;
  sp_BlockHeight : Z;
  sp_AccountProof : list (list byte);
  sp_StorageProof : list (list byte)
}.

Inductive proof_error : Type :=
| AccountProofTooLarge (n : Z)
| StorageProofTooLarge (n : Z)
| EmptyRootNonZero
| BadAccountFormat
| BadStorageFormat
| EmptyProofNonZero
| AccountProofFailed
| BadAccount
| EmptyStorageNonZero
| StorageProofFailed
| BadStorageValue
| ValueMismatch (shown claimed : Hash).

(** ** The shard's side *)

Section shard.
Context {DB T : Type} `{GethStateDB DB} `{Geth} `{TrieCodec} `{!MerkleTrie DB T}.
Implicit Types (e : EVMState DB).

(** The collector appends a copy of every node it is given. *)
Definition getAccountProof e (stateRoot : Hash) (addr : Address) : option (list (list byte) * Hash) :=
  match StateTrie (es_stateDB e) stateRoot with
  | None => None
  | Some tr =>
      let accountKey := Keccak256 (Address_Bytes addr) in
      match trie_Prove tr accountKey with
      | None => None
      | Some nodes =>
          let storageRoot :=
            match trie_Get tr accountKey with
            | Some ((_ :: _) as accountData) => default EmptyRootHash (rlp_StateAccount accountData)
            | _ => EmptyRootHash
            end in
          Some (nodes, storageRoot)
      end
  end.

Definition getStorageProof e (addr : Address) (storageRoot slot : Hash) : option (list (list byte)) :=
  if (storageRoot =? 0) || (storageRoot =? EmptyRootHash) then Some []
  else
    match StorageTrie (es_stateDB e) (GetStateRoot e) (Keccak256Hash (Address_Bytes addr)) storageRoot with
    | None => None
    | Some tr => trie_Prove tr (Keccak256 (Hash_Bytes slot))
    end.

Definition GetStorageWithProof e (addr : Address) (slot : Hash) : option StorageProofResponse * EVMState DB :=
  let stateRoot := GetStateRoot e in
  let '(value, e1) := GetStorageAt e addr slot in
  match getAccountProof e1 stateRoot addr with
  | None => (None, e1)
  | Some (accountProof, storageRoot) =>
      match getStorageProof e1 addr storageRoot slot with
      | None => (None, e1)
      | Some storageProof =>
          (Some (mkStorageProofResponse addr slot value stateRoot (es_blockNum e1) accountProof storageProof), e1)
      end
  end.
End shard.

(** [formatProof] of internal/shard/server.go. *)
Definition formatProof `{GethHex} (proof : list (list byte)) : list string :=
  map (λ p, String.append "0x" (Bytes2Hex p)) proof.

(** ** The orchestrator's side *)

Definition HashLength : nat := 32.

Definition newProofDB `{Geth} (proof : list (list byte)) : gmap Hash (list byte) :=
  foldl (λ db node, <[Keccak256Hash node := node]> db) ∅ proof.

Definition proofDB_Has `{Geth} (db : gmap Hash (list byte)) (key : list byte) : bool :=
  if decide (length key ≠ HashLength) then false
  else bool_decide (is_Some (db !! BytesToHash key)).

(** Both errors of [Get] look the same to the verifier. *)
Definition proofDB_Get `{Geth} (db : gmap Hash (list byte)) (key : list byte) : option (list byte) :=
  if decide (length key ≠ HashLength) then None else db !! BytesToHash key.

Fixpoint parseProof (hexProof : list string) : option (list (list byte)) :=
  match hexProof with
  | [] => Some []
  | hexStr :: rest =>
      bytes ← DecodeString (default hexStr (strip_0x hexStr));
      result ← parseProof rest;
      Some (bytes :: result)
  end.

Definition maxProofNodes : Z := 128.

Section verify.
Context `{Geth} `{TrieCodec}.

(** The value of a storage entry: absent and empty are zero. *)
Definition stored_value (valueRLP : list byte) : option Hash :=
  match valueRLP with
  | [] => Some 0
  | _ => match rlp_Bytes valueRLP with
         | None => None
         | Some [] => Some 0
         | Some rawValue => Some (BytesToHash rawValue)
         end
  end.

Definition VerifyStorageProof (stateRoot : Hash) (addr : Address) (slot value : Hash)
    (accountProof storageProof : list string) : option proof_error :=
  if maxProofNodes <? Z.of_nat (length accountProof) then Some (AccountProofTooLarge (Z.of_nat (length accountProof)))
  else if maxProofNodes <? Z.of_nat (length storageProof) then Some (StorageProofTooLarge (Z.of_nat (length storageProof)))
  else if (stateRoot =? EmptyRootHash) || (stateRoot =? 0) then
    if value =? 0 then None else Some EmptyRootNonZero
  else
  match parseProof accountProof with
  | None => Some BadAccountFormat
  | Some accountProofBytes =>
  match parseProof storageProof with
  | None => Some BadStorageFormat
  | Some storageProofBytes =>
      match accountProofBytes with
      | [] => if value =? 0 then None else Some EmptyProofNonZero
      | _ =>
      match trie_VerifyProof stateRoot (Keccak256 (Address_Bytes addr)) (proofDB_Get (newProofDB accountProofBytes)) with
      | None => Some AccountProofFailed
      | Some accountRLP =>
      match (match accountRLP with [] => Some EmptyRootHash | _ => rlp_account accountRLP end) with
      | None => Some BadAccount
      | Some storageRoot =>
          if (storageRoot =? EmptyRootHash) || (storageRoot =? 0) then
            if value =? 0 then None else Some EmptyStorageNonZero
          else
          match trie_VerifyProof storageRoot (Keccak256 (Hash_Bytes slot)) (proofDB_Get (newProofDB storageProofBytes)) with
          | None => Some StorageProofFailed
          | Some valueRLP =>
              match stored_value valueRLP with
              | None => Some BadStorageValue
              | Some storedValue =>
                  if storedValue =? value then None else Some (ValueMismatch storedValue value)
              end
          end
      end
      end
      end
  end
  end.
End verify.

(** ** Laws *)

(** Documented: a proof that checks contains the value of the key in the trie of
    that root, and a root fixes the trie. *)
Class TrieCodecLaws `{Geth} `{TrieCodec} := {
  commits : Hash → list byte → list byte → Prop;
  commits_functional r k v v' : commits r k v → commits r k v' → v = v';
  verify_sound r k nodes v :
    trie_VerifyProof r k (proofDB_Get (newProofDB nodes)) = Some v → commits r k v
}.

(** Documented: the nodes [Prove] collects in a non-empty trie prove what [Get]
    finds; in a committed state the state trie holds the accounts by hashed address
    and each storage trie the slots by hashed slot. Reading a slot does not touch
    the trie database. *)
Class MerkleTrieLaws (DB T : Type) `{GethStateDB DB} `{Geth} `{TrieCodec} `{!MerkleTrie DB T} := {
  committed_state : DB → Prop;
  read_root (db : DB) a s : sdb_IntermediateRoot (do_op (GetState a s) db).2 = sdb_IntermediateRoot db;
  read_StateTrie (db : DB) a s r : StateTrie (do_op (GetState a s) db).2 r = StateTrie db r;
  read_StorageTrie (db : DB) a s r h r' :
    StorageTrie (do_op (GetState a s) db).2 r h r' = StorageTrie db r h r';
  prove_account (db : DB) r (t : T) k nodes v :
    StateTrie db r = Some t → r ≠ EmptyRootHash → r ≠ 0 → trie_Prove t k = Some nodes → trie_Get t k = Some v →
    nodes ≠ [] ∧ trie_VerifyProof r k (proofDB_Get (newProofDB nodes)) = Some v;
  prove_slot (db : DB) r h r' (t : T) k nodes v :
    StorageTrie db r h r' = Some t → r' ≠ EmptyRootHash → r' ≠ 0 → trie_Prove t k = Some nodes → trie_Get t k = Some v →
    trie_VerifyProof r' k (proofDB_Get (newProofDB nodes)) = Some v;
  empty_root_content (db : DB) a s :
    0 ≤ a < 2 ^ 160 → is_u256 s → committed_state db →
    sdb_IntermediateRoot db = EmptyRootHash ∨ sdb_IntermediateRoot db = 0 → storage db a s = 0;
  account_content (db : DB) (t : T) a :
    0 ≤ a < 2 ^ 160 → committed_state db → StateTrie db (sdb_IntermediateRoot db) = Some t →
    ∃ v, trie_Get t (Keccak256 (Address_Bytes a)) = Some v ∧
      match v with
      | [] => ∀ s, is_u256 s → storage db a s = 0
      | _ => ∃ r, rlp_StateAccount v = Some r ∧ rlp_account v = Some r ∧
          (r = EmptyRootHash ∨ r = 0 → ∀ s, is_u256 s → storage db a s = 0) ∧
          (∀ h (t' : T) s, is_u256 s → StorageTrie db (sdb_IntermediateRoot db) h r = Some t' →
             ∃ w, trie_Get t' (Keccak256 (Hash_Bytes s)) = Some w ∧ stored_value w = Some (storage db a s))
      end
}.

(** ** Theorems *)

Lemma parse_format `{GethHexLaws} (proof : list (list byte)) : parseProof (formatProof proof) = Some proof.
Proof.
  induction proof as [|p proof IH]; [done|]. unfold formatProof in *. cbn [map parseProof].
  rewrite IH. change (default _ (strip_0x _)) with (Bytes2Hex p). by rewrite DecodeString_Bytes2Hex.
Qed.

Section soundness.
Context `{TrieCodecLaws}.

(** What an accepted proof with nodes says about the value. *)
Definition committed_value (stateRoot : Hash) (addr : Address) (slot value : Hash) : Prop :=
  if (stateRoot =? EmptyRootHash) || (stateRoot =? 0) then value = 0
  else ∃ acc r, commits stateRoot (Keccak256 (Address_Bytes addr)) acc ∧
    (match acc with [] => Some EmptyRootHash | _ => rlp_account acc end) = Some r ∧
    (if (r =? EmptyRootHash) || (r =? 0) then value = 0
     else ∃ w, commits r (Keccak256 (Hash_Bytes slot)) w ∧ stored_value w = Some value).

Lemma committed_value_unique r a s v v' :
  committed_value r a s v → committed_value r a s v' → v = v'.
Proof.
  unfold committed_value. destruct (_ || _); [by intros -> ->|].
  intros (acc&q&Hc&Hq&Hv) (acc'&q'&Hc'&Hq'&Hv').
  rewrite (commits_functional _ _ _ _ Hc' Hc) in Hq'. simplify_eq.
  destruct ((_ =? _) || _); [by subst|]. destruct Hv as (w&Hw&Hs), Hv' as (w'&Hw'&Hs').
  rewrite (commits_functional _ _ _ _ Hw' Hw) in Hs'. congruence.
Qed.

Lemma accepted_committed r a s v ap sp :
  VerifyStorageProof r a s v ap sp = None → ap ≠ [] → committed_value r a s v.
Proof.
  unfold VerifyStorageProof, committed_value. intros Hv Hap.
  destruct (maxProofNodes <? _); [done|]. destruct (maxProofNodes <? _); [done|].
  destruct ((r =? _) || _). { destruct (v =? 0) eqn:He; [lia|done]. }
  destruct (parseProof ap) as [apb|] eqn:Hp; [|done]. destruct (parseProof sp) as [spb|]; [|done].
  destruct apb as [|n apb].
  { destruct ap as [|x ap]; [done|]. simpl in Hp. destruct (DecodeString _); [|done]. simpl in Hp.
    by destruct (parseProof ap). }
  destruct (trie_VerifyProof _ _ _) as [acc|] eqn:Hacc; [|done]. apply verify_sound in Hacc.
  destruct (match acc with [] => _ | _ => _ end) as [q|] eqn:Hq; [|done].
  exists acc, q. split; [done|]. split; [done|].
  destruct ((q =? _) || _). { destruct (v =? 0) eqn:He; [lia|done]. }
  destruct (trie_VerifyProof q _ _) as [w|] eqn:Hw; [|done]. apply verify_sound in Hw.
  destruct (stored_value w) as [x|] eqn:Hx; [|done].
  destruct (x =? v) eqn:He; [|done]. apply Z.eqb_eq in He as ->. eauto.
Qed.

(** C23. Accepted proofs agree: under one state root, two answers for the same slot
    that both carry account nodes and are both accepted claim the same value,
    whoever produced them. *)
Theorem accepted_proofs_agree r a s v ap sp v' ap' sp' :
  VerifyStorageProof r a s v ap sp = None → ap ≠ [] →
  VerifyStorageProof r a s v' ap' sp' = None → ap' ≠ [] →
  v = v'.
Proof. intros Hv Hap Hv' Hap'. eapply committed_value_unique; by eapply accepted_committed. Qed.

(** An answer without nodes is accepted unchecked: under any state root, and
    whatever the slot holds, the claim of zero with an empty account proof passes. *)
Theorem missing_proof_accepted r a s : VerifyStorageProof r a s 0 [] [] = None.
Proof. unfold VerifyStorageProof. simpl. by destruct ((r =? _) || _). Qed.
End soundness.

Section completeness.
Context {DB T : Type} `{GethStateDBLaws DB} `{Geth} `{TrieCodec} `{!MerkleTrie DB T} `{!MerkleTrieLaws DB T} `{GethHexLaws}.
Implicit Types (e : EVMState DB).

(** The answer, with the tries read in the state before the request. *)
Lemma GetStorageWithProof_inv e addr slot resp e' :
  GetStorageWithProof e addr slot = (Some resp, e') →
  ∃ tr nodes storageProof,
    StateTrie (es_stateDB e) (GetStateRoot e) = Some tr ∧
    trie_Prove tr (Keccak256 (Address_Bytes addr)) = Some nodes ∧
    (let storageRoot := match trie_Get tr (Keccak256 (Address_Bytes addr)) with
                        | Some ((_ :: _) as accountData) => default EmptyRootHash (rlp_StateAccount accountData)
                        | _ => EmptyRootHash
                        end in
     getStorageProof e addr storageRoot slot = Some storageProof) ∧
    resp = mkStorageProofResponse addr slot (sto e addr slot) (GetStateRoot e) (es_blockNum e) nodes storageProof.
Proof.
  unfold GetStorageWithProof, GetStorageAt, run, getAccountProof, getStorageProof, GetStateRoot, sto, storage.
  cbn [exec call]. pose proof (read_root (es_stateDB e) addr slot) as Hr.
  pose proof (read_StateTrie (es_stateDB e) addr slot) as Ht.
  pose proof (read_StorageTrie (es_stateDB e) addr slot) as Hs.
  destruct (do_op _ _) as [v db]. simpl in *. rewrite Ht.
  destruct (StateTrie (es_stateDB e) _) as [tr|]; [|done].
  destruct (trie_Prove tr _) as [nodes|] eqn:Hp; [|done].
  rewrite Hr, Hs. destruct (if _ || _ then _ else _) as [sp|] eqn:Hsp; [|done].
  intros [= <- <-]. exists tr, nodes, sp. by rewrite Hp.
Qed.

(** The verifier accepts zero for an account that is not there, and goes on to the
    storage trie otherwise. *)
Lemma verify_steps r addr slot value (ap sp : list (list byte)) acc root :
  Z.of_nat (length ap) ≤ maxProofNodes → Z.of_nat (length sp) ≤ maxProofNodes →
  r ≠ EmptyRootHash → r ≠ 0 → ap ≠ [] →
  trie_VerifyProof r (Keccak256 (Address_Bytes addr)) (proofDB_Get (newProofDB ap)) = Some acc →
  (match acc with [] => Some EmptyRootHash | _ => rlp_account acc end) = Some root →
  (if (root =? EmptyRootHash) || (root =? 0) then value = 0
   else ∃ w, trie_VerifyProof root (Keccak256 (Hash_Bytes slot)) (proofDB_Get (newProofDB sp)) = Some w ∧
             stored_value w = Some value) →
  VerifyStorageProof r addr slot value (formatProof ap) (formatProof sp) = None.
Proof.
  intros Ha Hs Hr1 Hr2 Hap Hacc Hroot Hval. unfold VerifyStorageProof.
  rewrite !parse_format. unfold formatProof at 1 2 3. rewrite !length_map.
  rewrite (proj2 (Z.ltb_ge _ _) Ha), (proj2 (Z.ltb_ge _ _) Hs).
  rewrite (proj2 (Z.eqb_neq _ _) Hr1), (proj2 (Z.eqb_neq _ _) Hr2). cbn [orb].
  destruct ap as [|n ap]; [done|]. rewrite Hacc, Hroot.
  destruct (_ || _); [by subst|]. destruct Hval as (w&->&->). by rewrite Z.eqb_refl.
Qed.

(** C22. An honest answer is accepted: on a committed state, whatever account and slot
    are asked for, the answer a shard builds passes the orchestrator's check after
    the trip through hexadecimal strings. *)
Theorem honest_proof_accepted e addr slot resp e' :
  0 ≤ addr < 2 ^ 160 → is_u256 slot → committed_state (es_stateDB e) →
  GetStorageWithProof e addr slot = (Some resp, e') →
  Z.of_nat (length (sp_AccountProof resp)) ≤ maxProofNodes →
  Z.of_nat (length (sp_StorageProof resp)) ≤ maxProofNodes →
  sp_Value resp = sto e addr slot ∧
  VerifyStorageProof (sp_StateRoot resp) addr slot (sp_Value resp)
    (formatProof (sp_AccountProof resp)) (formatProof (sp_StorageProof resp)) = None.
Proof.
  intros Haddr Hslot Hc Hg Hla Hls. apply GetStorageWithProof_inv in Hg as (tr&nodes&sp&Ht&Hp&Hsp&->). simpl in *.
  split; [done|]. unfold GetStateRoot in *.
  destruct (decide (sdb_IntermediateRoot (es_stateDB e) = EmptyRootHash ∨ sdb_IntermediateRoot (es_stateDB e) = 0))
    as [Hempty|Hne].
  { pose proof (empty_root_content _ addr slot Haddr Hslot Hc Hempty) as Hz. unfold VerifyStorageProof, sto. rewrite Hz.
    unfold formatProof at 1 2 3. rewrite !length_map.
    rewrite (proj2 (Z.ltb_ge _ _) Hla), (proj2 (Z.ltb_ge _ _) Hls).
    assert ((sdb_IntermediateRoot (es_stateDB e) =? EmptyRootHash) || (sdb_IntermediateRoot (es_stateDB e) =? 0) = true)
      as -> by (destruct Hempty; lia). done. }
  apply Decidable.not_or in Hne as [Hne1 Hne2].
  destruct (account_content (es_stateDB e) tr addr Haddr Hc Ht) as (acc&Hget&Hacc).
  destruct (prove_account (es_stateDB e) _ tr _ nodes acc Ht Hne1 Hne2 Hp Hget) as [Hn Hv].
  rewrite Hget in Hsp. destruct acc as [|b acc].
  { eapply verify_steps; [done..|]. rewrite Z.eqb_refl. simpl. by apply Hacc. }
  destruct Hacc as (root&Hr1&Hr2&Hzero&Hslots). rewrite Hr1 in Hsp. simpl in Hsp.
  eapply verify_steps; [done..|]. unfold getStorageProof in Hsp.
  rewrite orb_comm in Hsp. destruct ((root =? EmptyRootHash) || (root =? 0)) eqn:Hz.
  { apply Hzero; [|done]. apply orb_true_iff in Hz. lia. }
  apply orb_false_iff in Hz as [Hz1%Z.eqb_neq Hz2%Z.eqb_neq].
  destruct (StorageTrie _ _ _ _) as [t'|] eqn:Ht'; [|done].
  destruct (Hslots _ t' slot Hslot Ht') as (w&Hw&Hsv). exists w. split; [|exact Hsv].
  by eapply prove_slot.
Qed.
End completeness.

(** ** Witnesses *)

(** A codec and tries with a fixed content: under root 7, account 2 has storage root
    5; under root 5, slot 0 holds 9. The one node of a proof is the root itself. *)
Definition toy_content (r : Hash) (key : list byte) : list byte :=
  if (r =? 7) && bool_decide (key = be_bytes 20 2) then be_bytes 1 5
  else if (r =? 5) && bool_decide (key = be_bytes 32 0) then be_bytes 1 9
  else [].

#[local] Instance toy_codec : TrieCodec := {
  Keccak256 := id;
  Address_Bytes := be_bytes 20;
  EmptyRootHash := 1;
  trie_VerifyProof r k get := match get (be_bytes 32 r) with Some _ => Some (toy_content r k) | None => None end;
  rlp_StateAccount bs := Some (be_val bs);
  rlp_account bs := Some (be_val bs);
  rlp_Bytes bs := Some bs
}.

#[local] Instance toy_codec_laws : TrieCodecLaws.
Proof.
  refine {| commits r k v := v = toy_content r k |}.
  - by intros r k v v' -> ->.
  - intros r k nodes v. simpl. by destruct (proofDB_Get _ _); intros [= <-].
Defined.

#[local] Instance toy_tries : MerkleTrie MemDB Z := {
  StateTrie db r := Some r;
  StorageTrie db r h r' := Some r';
  trie_Prove t k := Some [be_bytes 32 t];
  trie_Get t k := Some (toy_content t k)
}.

Lemma be_bytes_length n z : length (be_bytes n z) = n.
Proof.
  revert z. induction n as [|n IH]; intros z; [done|].
  simpl. rewrite length_app, IH. simpl. lia.
Qed.

Lemma be_bytes_inj n x y :
  0 ≤ x < 256 ^ Z.of_nat n → 0 ≤ y < 256 ^ Z.of_nat n → be_bytes n x = be_bytes n y → x = y.
Proof.
  intros Hx Hy He. rewrite <- (Z.mod_small x _ Hx), <- (Z.mod_small y _ Hy), <- !be_val_bytes. by f_equal.
Qed.

Lemma toy_proves r k : trie_VerifyProof r k (proofDB_Get (newProofDB [be_bytes 32 r])) = Some (toy_content r k).
Proof.
  cbn [trie_VerifyProof toy_codec]. unfold newProofDB, proofDB_Get. rewrite decide_False.
  - cbn [foldl Keccak256Hash BytesToHash mem_geth]. by rewrite lookup_insert_eq.
  - intros Hl. apply Hl. apply be_bytes_length.
Qed.

Lemma toy_account a : 0 ≤ a < 2 ^ 160 → toy_content 7 (be_bytes 20 a) = if decide (a = 2) then be_bytes 1 5 else [].
Proof.
  intros Ha. unfold toy_content. cbn [Z.eqb Pos.eqb andb]. case_decide as Hd.
  { subst. by rewrite bool_decide_eq_true_2. }
  rewrite bool_decide_eq_false_2; [done|]. intros He. apply Hd.
  apply (be_bytes_inj 20); [exact Ha|split; lia|exact He].
Qed.

Lemma toy_slot s : is_u256 s → toy_content 5 (be_bytes 32 s) = if decide (s = 0) then be_bytes 1 9 else [].
Proof.
  intros Hs. unfold toy_content. cbn [Z.eqb Pos.eqb andb]. case_decide as Hd.
  { subst. by rewrite bool_decide_eq_true_2. }
  rewrite bool_decide_eq_false_2; [done|]. intros He. apply Hd.
  apply (be_bytes_inj 32); [exact Hs|split; lia|exact He].
Qed.

(** The committed state of this content. *)
Definition proofState : MemDB := set_sto emptyMem 2 0 9.

#[local] Instance toy_tries_laws : MerkleTrieLaws MemDB Z.
Proof.
  refine {| committed_state db := ∀ a s, storage db a s = storage proofState a s |}; try done.
  - intros db r t k nodes v Ht _ _ Hp Hg. apply Some_inj in Ht, Hp, Hg. subst t nodes v.
    split; [discriminate|]. apply toy_proves.
  - intros db r h r' t k nodes v Ht _ _ Hp Hg. apply Some_inj in Ht, Hp, Hg. subst t nodes v. apply toy_proves.
  - intros db a s _ _ _ [Hr|Hr]; vm_compute in Hr; done.
  - intros db t a Ha Hc Ht. apply Some_inj in Ht. subst t.
    change (sdb_IntermediateRoot db) with 7. cbn [trie_Get toy_tries Keccak256 Address_Bytes toy_codec id].
    eexists. split; [done|]. rewrite (toy_account a Ha). case_decide as Hd.
    + subst a. exists 5. split_and!; [done..|by intros [?|?]|]. intros h t' s Hs Ht. apply Some_inj in Ht. subst t'. eexists. split; [done|].
      cbn [Keccak256 toy_codec id Hash_Bytes mem_geth]. rewrite (toy_slot s Hs), Hc.
      unfold storage. simpl. unfold get_sto, proofState, set_sto, map_get. simpl.
      case_decide as Hd; [by subst|]. simpl. rewrite lookup_insert_ne by congruence. done.
    + intros s Hs. rewrite Hc. unfold storage. simpl. unfold get_sto, proofState, set_sto, map_get. simpl.
      rewrite lookup_insert_ne by congruence. done.
Defined.

Definition proofResponse : StorageProofResponse :=
  mkStorageProofResponse 2 0 9 7 1 [be_bytes 32 7] [be_bytes 32 5].

Lemma honest_proof_accepted_witness :
  VerifyStorageProof 7 2 0 9 (formatProof [be_bytes 32 7]) (formatProof [be_bytes 32 5]) = None.
Proof.
  destruct (honest_proof_accepted (fresh_evm proofState) 2 0 proofResponse (fresh_evm proofState)) as [_ Hv].
  - lia.
  - concrete_range.
  - by intros a s.
  - vm_compute. reflexivity.
  - vm_compute. discriminate.
  - vm_compute. discriminate.
  - exact Hv.
Defined.

(** With 9 accepted for the slot, a claim of 8 is not. *)
Lemma accepted_proofs_agree_witness :
  VerifyStorageProof 7 2 0 8 (formatProof [be_bytes 32 7]) (formatProof [be_bytes 32 5]) ≠ None.
Proof.
  intros Hv. assert (9 = 8); [|discriminate].
  apply (accepted_proofs_agree 7 2 0 9 (formatProof [be_bytes 32 7]) (formatProof [be_bytes 32 5])
    8 (formatProof [be_bytes 32 7]) (formatProof [be_bytes 32 5])).
  - vm_compute. reflexivity.
  - discriminate.
  - exact Hv.
  - discriminate.
Defined.
