(* ===== verification/TxOrder.v ===== *)
(** * TxOrder: the order of execution in a shard's block

    [sortTransactionsByPriority] of internal/shard/chain.go sorts stably, and a
    stable sort is unique: whatever algorithm [sort.SliceStable] uses, the block
    executes the transactions in the order of the model. *)

From S2P Require Import Prelude Codec Protocol VmState EvmState ShardChain.

Open Scope Z_scope.

Abbreviation prio tx := (Priority (tx_TxType tx)) (only parsing).

Definition prio_le (a b : Transaction) : Prop := prio a ≤ prio b.

(** The transactions of one priority, in order. *)
Definition of_prio (p : Z) (txs : list Transaction) : list Transaction :=
  filter (λ tx, prio tx = p) txs.

(** [l'] is [l] sorted by priority with the order inside each priority kept. *)
Definition stable_sort_of (l l' : list Transaction) : Prop :=
  StronglySorted prio_le l' ∧ ∀ p, of_prio p l' = of_prio p l.

Lemma insert_by_priority_perm tx txs : insert_by_priority tx txs ≡ₚ tx :: txs.
Proof.
  induction txs as [|t txs IH]; simpl; [done|]. case_match; [|done].
  rewrite IH. apply Permutation_swap.
Qed.

Lemma sort_perm txs : sortTransactionsByPriority txs ≡ₚ txs.
Proof. induction txs as [|tx txs IH]; simpl; [done|]. by rewrite insert_by_priority_perm, IH. Qed.

Lemma insert_by_priority_sorted tx txs :
  StronglySorted prio_le txs → StronglySorted prio_le (insert_by_priority tx txs).
Proof.
  induction txs as [|t txs IH]; intros Hs; simpl; [by repeat constructor|].
  inv Hs. case_match eqn:Hp; [apply Z.ltb_lt in Hp|apply Z.ltb_ge in Hp].
  - constructor; [by apply IH|]. rewrite insert_by_priority_perm.
    constructor; [unfold prio_le; lia|done].
  - constructor; [by constructor|]. constructor; [done|].
    eapply Forall_impl; [done|]. unfold prio_le. intros; lia.
Qed.

Lemma insert_by_priority_of_prio p tx txs :
  of_prio p (insert_by_priority tx txs) = of_prio p (tx :: txs).
Proof.
  induction txs as [|t txs IH]; [done|]. simpl. case_match eqn:Hp; [|done].
  apply Z.ltb_lt in Hp. unfold of_prio in *. rewrite (filter_cons _ t), IH, !filter_cons.
  repeat case_decide; try done; lia.
Qed.

Lemma sort_is_stable txs : stable_sort_of txs (sortTransactionsByPriority txs).
Proof.
  split.
  - induction txs as [|tx txs IH]; simpl; [constructor|]. by apply insert_by_priority_sorted.
  - intros p. induction txs as [|tx txs IH]; [done|]. simpl.
    rewrite insert_by_priority_of_prio. unfold of_prio in *. by rewrite !filter_cons, IH.
Qed.

(** The head of a sorted list is the first of the lowest priority there is. *)
Lemma stable_sort_det l1 l2 :
  StronglySorted prio_le l1 → StronglySorted prio_le l2 →
  (∀ p, of_prio p l1 = of_prio p l2) → l1 = l2.
Proof.
  revert l2. induction l1 as [|x l1 IH]; intros [|y l2] H1 H2 Hp; [done| | |].
  - specialize (Hp (prio y)). unfold of_prio in Hp. rewrite filter_cons, decide_True in Hp; done.
  - specialize (Hp (prio x)). unfold of_prio in Hp. rewrite filter_cons, decide_True in Hp; done.
  - apply StronglySorted_inv in H1 as [H1 Hx], H2 as [H2 Hy]. rewrite Forall_forall in Hx, Hy.
    assert (Hsub : ∀ l x0, x0 ∈ of_prio (prio x0) l ↔ x0 ∈ l).
    { intros l x0. unfold of_prio. rewrite list_elem_of_filter. naive_solver. }
    assert (Hxy : prio x = prio y).
    { assert (x ∈ y :: l2) as Hin by (apply Hsub; rewrite <- Hp; apply Hsub; apply list_elem_of_here).
      assert (y ∈ x :: l1) as Hin' by (apply Hsub; rewrite Hp; apply Hsub; apply list_elem_of_here).
      unfold prio_le in *. apply elem_of_cons in Hin as [->|Hin], Hin' as [Heq|Hin']; try done;
        [by subst|]. specialize (Hx _ Hin'). specialize (Hy _ Hin). lia. }
    assert (x = y) as ->.
    { specialize (Hp (prio x)). unfold of_prio in Hp. rewrite !filter_cons in Hp.
      rewrite decide_True, decide_True in Hp by done. by simplify_eq. }
    f_equal. apply IH; [done|done|]. intros p. specialize (Hp p). unfold of_prio in *.
    rewrite !filter_cons in Hp. by case_decide; simplify_eq.
Qed.

(** The execution order of a block: the queued transactions, each exactly once,
    by ascending priority (commits, then releases, then locks, then local
    transactions), in arrival order inside one priority; and it is the only such
    order, so it does not depend on the sorting algorithm. *)
Theorem execution_order_stable txs :
  sortTransactionsByPriority txs ≡ₚ txs ∧
  stable_sort_of txs (sortTransactionsByPriority txs) ∧
  ∀ l, stable_sort_of txs l → l = sortTransactionsByPriority txs.
Proof.
  split; [apply sort_perm|]. split; [apply sort_is_stable|].
  intros l [Hs Hp]. destruct (sort_is_stable txs) as [Hs' Hp'].
  apply stable_sort_det; [done|done|]. intros p. by rewrite Hp, Hp'.
Qed.
