(* ===== verification/ShardBlock.v ===== *)
(** * ShardBlock: block production of internal/shard/chain.go

    What one iteration of the loop of [ProduceBlock] may change, and what a
    produced block means: failed transactions leave no trace in the state, the
    state is that of the transactions in the block, and a YES vote in the block is
    backed by the locks that the chain holds afterwards. *)

From S2P Require Import Prelude Codec Protocol VmState MemDB TrackingDB EvmState ShardChain SlotLocks TxOrder.

Open Scope Z_scope.

(** ** Fields the cleanup leaves alone *)

(** Everything but the two-phase-commit maps. *)
Definition same_blocks (c c' : Chain) : Prop :=
  sc_shardID c' = sc_shardID c ∧ sc_blocks c' = sc_blocks c ∧ sc_height c' = sc_height c ∧
  sc_currentTxs c' = sc_currentTxs c ∧ sc_prepareTxs c' = sc_prepareTxs c ∧
  sc_lastOrchestratorHeight c' = sc_lastOrchestratorHeight c ∧
  sc_processedCommits c' = sc_processedCommits c.

#[export] Instance same_blocks_preorder : PreOrder same_blocks.
Proof.
  split; [by intros c|]. intros x y z (?&?&?&?&?&?&?) (?&?&?&?&?&?&?).
  unfold same_blocks. split_and!; congruence.
Qed.

(** What transaction [id] holds in [c] it still holds in [c']: its vote, its
    pending set, its fund lock and its slots. *)
Definition kept (id : string) (c c' : Chain) : Prop :=
  sc_prepares c' !! id = sc_prepares c !! id ∧
  sc_pendingRwSets c' !! id = sc_pendingRwSets c !! id ∧
  sc_locked c' !! id = sc_locked c !! id ∧
  ∀ a s, holder c a s = Some id → holder c' a s = Some id.

#[export] Instance kept_preorder id : PreOrder (kept id).
Proof.
  split; [by intros c|]. intros x y z (?&?&?&Hs) (?&?&?&Hs').
  unfold kept. split_and!; try congruence. intros. by apply Hs', Hs.
Qed.

Lemma only_slots_kept id c c' :
  only_slots c c' → (∀ a s, holder c a s = Some id → holder c' a s = Some id) →
  kept id c c' ∧ same_blocks c c'.
Proof. intros Ho Hs. rewrite Ho. done. Qed.

Section frame.
Context `{MapRange}.

Lemma clear_lock_frame remove c id :
  let c' := clear_lock_with remove c id in
  same_blocks c c' ∧ (∀ id', id' ≠ id → kept id' c c') ∧
  sc_prepares c' = sc_prepares c ∧ sc_slotLocks c' = sc_slotLocks c ∧
  sc_pendingRwSets c' = sc_pendingRwSets c ∧ sc_locked c' !! id = None.
Proof.
  unfold clear_lock_with. destruct (sc_locked c !! id) eqn:Hl; simpl; [|done].
  split_and!; try done.
  - intros id' Hne. unfold kept. simpl. by rewrite lookup_delete_ne.
  - apply lookup_delete_eq.
Qed.

Lemma unlockAll_frame c id :
  let c' := unlockAllSlotsForTxLocked c id in
  same_blocks c c' ∧ (∀ id', id' ≠ id → kept id' c c') ∧ sc_prepares c' = sc_prepares c.
Proof.
  destruct (unlockAll_spec c id) as (Ho&_&Hh). cbv zeta. split_and!.
  - by rewrite Ho.
  - intros id' Hne. apply only_slots_kept; [done|]. intros a s Hs. rewrite Hh, Hs.
    rewrite decide_False; [done|]. congruence.
  - by rewrite Ho.
Qed.

Lemma clearRw_frame c id :
  let c' := clearPendingRwSetLocked c id in
  same_blocks c c' ∧ (∀ id', id' ≠ id → kept id' c c') ∧ sc_prepares c' = sc_prepares c.
Proof.
  split_and!; try done. intros id' Hne. unfold kept. simpl. by rewrite lookup_delete_ne.
Qed.

Lemma clearAll_frame c id :
  let c' := clearAllMetadataLocked c id in
  same_blocks c c' ∧ (∀ id', id' ≠ id → kept id' c c') ∧ sc_prepares c' = sc_prepares c.
Proof.
  unfold clearAllMetadataLocked. cbv zeta.
  destruct (clear_lock_frame slice_remove c id) as (Hb1&Hk1&Hp1&_).
  set (c1 := clearLockLocked c id) in *.
  set (c2 := clearPendingCallLocked (clearPendingCreditLocked c1 id) id).
  destruct (unlockAll_frame c2 id) as (Hb3&Hk3&Hp3).
  destruct (clearRw_frame (unlockAllSlotsForTxLocked c2 id) id) as (Hb4&Hk4&Hp4).
  split_and!.
  - transitivity c1; [done|]. by transitivity c2; [done|]; etrans.
  - intros id' Hne. transitivity c1; [by apply Hk1|].
    transitivity c2; [done|]. etrans; [by apply Hk3|by apply Hk4].
  - by rewrite Hp4, Hp3.
Qed.

(** The transaction types that change what their cross-shard transaction holds. *)
Definition releases (tx : Transaction) : bool :=
  match tx_TxType tx with
  | TxTypeCrossDebit | TxTypeLock | TxTypeFinalize | TxTypeUnlock | TxTypeCrossAbort => true
  | _ => false
  end.

Lemma cleanupAfterExecution_frame c tx :
  let c' := cleanupAfterExecutionLocked c tx in
  same_blocks c c' ∧
  ∀ id, releases tx = false ∨ id ≠ tx_CrossShardTxID tx → kept id c c'.
Proof.
  unfold cleanupAfterExecutionLocked, releases. cbv zeta.
  case_decide; [done|]. set (i := tx_CrossShardTxID tx) in *.
  destruct (tx_TxType tx); try done.
  - destruct (clear_lock_frame slice_remove c i) as (?&Hk&_). split; [done|].
    intros id [?|?]; [done|by apply Hk].
  - unfold clearPendingCreditForAddressLocked.
    destruct (sc_pendingCredits c !! i); [|done]. by case_match.
  - destruct (clearAll_frame c i) as (?&Hk&_). split; [done|]. intros id [?|?]; [done|by apply Hk].
  - split; [done|]. intros id [?|?]; [done|]. unfold kept, AddPrepareResult. simpl.
    by rewrite lookup_insert_ne.
  - destruct (unlockAll_frame c i) as (Hb1&Hk1&_).
    destruct (clearRw_frame (unlockAllSlotsForTxLocked c i) i) as (Hb2&Hk2&_).
    destruct (clearAll_frame (clearPendingRwSetLocked (unlockAllSlotsForTxLocked c i) i) i) as (Hb3&Hk3&_).
    split; [by etrans; [|etrans]|]. intros id [?|?]; [done|].
    etrans; [by apply Hk1|]. etrans; [by apply Hk2|by apply Hk3].
  - destruct (unlockAll_frame c i) as (Hb1&Hk1&_).
    destruct (clearRw_frame (unlockAllSlotsForTxLocked c i) i) as (Hb2&Hk2&_).
    split; [by etrans|]. intros id [?|?]; [done|]. etrans; [by apply Hk1|by apply Hk2].
Qed.

Lemma cleanupAfterFailure_frame c tx :
  let c' := cleanupAfterFailureLocked c tx in
  same_blocks c c' ∧
  (∀ id, releases tx = false ∨ id ≠ tx_CrossShardTxID tx → kept id c c') ∧
  (tx_TxType tx = TxTypeLock → sc_prepares c' !! tx_CrossShardTxID tx = Some false).
Proof.
  unfold cleanupAfterFailureLocked, releases. cbv zeta. destruct (tx_TxType tx); try done.
  set (i := tx_CrossShardTxID tx). destruct (clearAll_frame c i) as (Hb&Hk&Hp).
  generalize dependent (clearAllMetadataLocked c i). intros c1 Hb Hk Hp. unfold AddPrepareResult. split_and!.
  - exact Hb.
  - intros id [?|Hne]; [done|]. etrans; [by apply Hk|]. unfold kept. simpl. by rewrite lookup_insert_ne.
  - intros _. simpl. apply lookup_insert_eq.
Qed.
End frame.

(** ** One iteration of the loop *)

Section step.
Context {DB : Type} `{GethStateDBLaws DB} `{Geth} `{!GethLaws} `{EVM} `{!EVMLaws} `{MapRange}.
Implicit Types (e : EVMState DB).

Lemma validate_frame c id rwSet e :
  let '(err, c', e') := validateAndLockReadSetLocked c id rwSet e in
  same_blocks c c' ∧ same_evm e' e ∧ sc_locked c' = sc_locked c ∧
  (∀ id', id' ≠ id → kept id' c c').
Proof.
  unfold validateAndLockReadSetLocked.
  pose proof (validate_loop_frame id (rw_reads rwSet) [] c e) as Hfr.
  pose proof (validate_loop_others id (rw_reads rwSet) [] c e) as Hoth.
  destruct (validate_loop id (rw_reads rwSet) [] c e) as [[[x|] c1] e1];
    destruct Hfr as [Ho He].
  - split_and!; [by rewrite Ho|done|by rewrite Ho|].
    intros id' Hne. apply only_slots_kept; [done|]. intros. by apply Hoth.
  - split_and!; [by rewrite Ho|done|by rewrite Ho|].
    intros id' Hne. destruct (only_slots_kept id' c c1 Ho) as [Hk _]; [intros; by apply Hoth|].
    etrans; [done|]. unfold kept. simpl. by rewrite lookup_insert_ne.
Qed.

Lemma CanDebit_spec e a amount locked :
  let '(ok, e') := CanDebit e a amount locked in
  ok = (amount <=? bal e a - locked) ∧ same_evm e' e.
Proof.
  unfold CanDebit. pose proof (run_get_balance e a) as Hg. destruct (run _ e) as [b e1].
  by destruct Hg as [-> He].
Qed.

(** The reservation is checked against the balance net of the other reservations. *)
Lemma reserve_funds_spec c e tx :
  let i := tx_CrossShardTxID tx in
  let amount := ToBigInt (tx_Value tx) in
  let '(funded, c1, e1) := reserve_funds c e tx in
  same_blocks c c1 ∧ same_evm e1 e ∧ (∀ id, id ≠ i → kept id c c1) ∧
  (funded = true → 0 < amount →
     c1 = lockFundsLocked c i (tx_From tx) amount ∧
     getLockedAmountForAddrLocked c (tx_From tx) + amount ≤ bal e (tx_From tx)) ∧
  (funded = false ∨ amount ≤ 0 → c1 = c).
Proof.
  cbv zeta. unfold reserve_funds. cbv zeta. set (amount := ToBigInt (tx_Value tx)).
  destruct (0 <? amount) eqn:Hpos; [|split_and!; try done; lia].
  pose proof (CanDebit_spec e (tx_From tx) amount (getLockedAmountForAddrLocked c (tx_From tx))) as Hc.
  destruct (CanDebit _ _ _ _) as [b e1]. destruct Hc as [-> He].
  destruct (amount <=? _) eqn:Hle; split_and!; try done.
  - intros id Hne. unfold kept, lockFundsLocked. simpl. by rewrite lookup_insert_ne.
  - intros _ _. split; [done|lia].
  - intros [?|?]; [done|lia].
Qed.

(** A Lock leaves the state database alone. *)
Lemma process_lock_evm c e tx : same_evm (process_lock c e tx).2 e.
Proof.
  unfold process_lock. pose proof (reserve_funds_spec c e tx) as Hf.
  destruct (reserve_funds c e tx) as [[[|] c1] e1]; destruct Hf as (_&He1&_); [|done].
  pose proof (validate_frame c1 (tx_CrossShardTxID tx) (tx_RwSet tx) e1) as Hv.
  destruct (validateAndLockReadSetLocked _ _ _ _) as [[[x|] c2] e2];
    destruct Hv as (_&He2&_); simpl; by rewrite He2.
Qed.

(** An accepted Lock votes YES and holds its funds, its slots and its set. *)
Lemma process_lock_ok c e tx c' e' :
  tx_TxType tx = TxTypeLock → tx_CrossShardTxID tx ≠ ""%string →
  process_lock c e tx = (true, c', e') →
  sc_prepares c' !! tx_CrossShardTxID tx = Some true ∧
  (∀ a s v, ((a, s), v) ∈ rw_reads (tx_RwSet tx) →
     sto e a s = BytesToHash v ∧ holder c' a s = Some (tx_CrossShardTxID tx)) ∧
  sc_pendingRwSets c' !! tx_CrossShardTxID tx = Some (tx_RwSet tx) ∧
  (0 < ToBigInt (tx_Value tx) →
     sc_locked c' !! tx_CrossShardTxID tx = Some (mkLockedFunds (tx_From tx) (ToBigInt (tx_Value tx))) ∧
     getLockedAmountForAddrLocked c (tx_From tx) + ToBigInt (tx_Value tx) ≤ bal e (tx_From tx)).
Proof.
  intros Ht Hid. unfold process_lock. cbv zeta.
  pose proof (reserve_funds_spec c e tx) as Hf. cbv zeta in Hf.
  destruct (reserve_funds c e tx) as [[[|] c1] e1]; [|done]. destruct Hf as (_&He1&_&Hf1&_).
  pose proof (validate_frame c1 (tx_CrossShardTxID tx) (tx_RwSet tx) e1) as Hv.
  pose proof (validate_ok c1 (tx_CrossShardTxID tx) (tx_RwSet tx) e1) as Hok.
  destruct (validateAndLockReadSetLocked _ _ _ _) as [[[x|] c2] e2]; [done|].
  destruct Hv as (_&He2&Hl2&_). intros [= <- <-]. destruct (Hok c2 e2 eq_refl) as (Hm&Hh&Hp).
  unfold cleanupAfterExecutionLocked. rewrite Ht, decide_False by done. simpl. split_and!.
  - apply lookup_insert_eq.
  - intros a s v Hin. split; [|by eapply Hh]. rewrite <- (Hm _ _ _ Hin). by rewrite He1.
  - by rewrite Hp, lookup_insert_eq.
  - intros Hpos. destruct (Hf1 eq_refl Hpos) as [-> Hle]. rewrite Hl2. simpl.
    by rewrite lookup_insert_eq.
Qed.

Lemma process_lock_fail c e tx c' e' :
  tx_TxType tx = TxTypeLock → process_lock c e tx = (false, c', e') →
  sc_prepares c' !! tx_CrossShardTxID tx = Some false.
Proof.
  intros Ht. unfold process_lock. cbv zeta.
  destruct (reserve_funds c e tx) as [[[|] c1] e1]; [|intros [= <- <-]; by apply cleanupAfterFailure_frame].
  destruct (validateAndLockReadSetLocked _ _ _ _) as [[[x|] c2] e2]; [|done].
  intros [= <- <-]. by apply cleanupAfterFailure_frame.
Qed.

(** What the other transactions hold, they keep. *)
Lemma process_lock_frame c e tx ok c' e' :
  tx_TxType tx = TxTypeLock → process_lock c e tx = (ok, c', e') →
  same_blocks c c' ∧ ∀ id, id ≠ tx_CrossShardTxID tx → kept id c c'.
Proof.
  intros Ht. unfold process_lock. cbv zeta.
  pose proof (reserve_funds_spec c e tx) as Hf. cbv zeta in Hf.
  destruct (reserve_funds c e tx) as [[[|] c1] e1]; destruct Hf as (Hb1&_&Hk1&_).
  2:{ intros [= <- <- <-]. destruct (cleanupAfterFailure_frame c1 tx) as (Hb2&Hk2&_).
      split; [by etrans|]. intros id Hne. etrans; [by apply Hk1|]. apply Hk2. by right. }
  pose proof (validate_frame c1 (tx_CrossShardTxID tx) (tx_RwSet tx) e1) as Hv.
  destruct (validateAndLockReadSetLocked _ _ _ _) as [[[x|] c2] e2]; destruct Hv as (Hb2&_&_&Hk2);
    intros [= <- <- <-].
  - destruct (clear_lock_frame slice_remove c2 (tx_CrossShardTxID tx)) as (Hb3&Hk3&_).
    destruct (cleanupAfterFailure_frame (clearLockLocked c2 (tx_CrossShardTxID tx)) tx) as (Hb4&Hk4&_).
    split; [etrans; [done|]; etrans; [done|]; by etrans|].
    intros id Hne. etrans; [by apply Hk1|]. etrans; [by apply Hk2|].
    etrans; [by apply Hk3|]. apply Hk4. by right.
  - destruct (cleanupAfterExecution_frame c2 tx) as (Hb3&Hk3).
    split; [etrans; [done|]; by etrans|].
    intros id Hne. etrans; [by apply Hk1|]. etrans; [by apply Hk2|]. apply Hk3. by right.
Qed.

Lemma process_exec_frame c e tx ok c' e' :
  tx_TxType tx ≠ TxTypeLock →
  process_exec c e tx = Some (ok, c', e') →
  same_blocks c c' ∧ (∀ id, releases tx = false ∨ id ≠ tx_CrossShardTxID tx → kept id c c') ∧
  (ok = false → same_evm e' e) ∧
  (ok = true → ExecuteTx (es_Snapshot e).2 tx = Some (None, e')).
Proof.
  intros Ht. unfold process_exec.
  pose proof (λ err e2, ExecuteTx_rollback e tx err e2) as Hr.
  destruct (es_Snapshot e) as [r e1]. simpl.
  destruct (ExecuteTx e1 tx) as [[[err|] e2]|] eqn:Hx; [| |done]; intros; simplify_eq/=.
  - destruct (cleanupAfterFailure_frame c tx) as (?&?&_). split_and!; try done.
    intros _. by eapply Hr.
  - destruct (cleanupAfterExecution_frame c tx) as (?&?). done.
Qed.

Lemma process_tx_frame c e tx ok c' e' :
  process_tx c e tx = Some (ok, c', e') →
  same_blocks c c' ∧ (∀ id, releases tx = false ∨ id ≠ tx_CrossShardTxID tx → kept id c c') ∧
  (ok = false → same_evm e' e).
Proof.
  unfold process_tx. destruct (checkLocalTxLockConflict c tx).
  { intros. simplify_eq. done. }
  case_decide as Ht.
  - intros [= Hl]. pose proof (process_lock_evm c e tx) as He. rewrite Hl in He.
    apply process_lock_frame in Hl as (Hb&Hk); [|done]. split_and!; [done| |done].
    intros id [Hr|Hne]; [|by apply Hk]. unfold releases in Hr. by rewrite Ht in Hr.
  - intros Hx. apply process_exec_frame in Hx as (?&?&?&_); done.
Qed.

(** A transaction that the block excludes leaves no trace in the state: every
    balance and storage slot is as before it, whether it was blocked by a lock,
    failed to lock, or failed in the interpreter. *)
Theorem excluded_tx_no_trace c e tx c' e' :
  process_tx c e tx = Some (false, c', e') → same_evm e' e.
Proof. intros Hp. apply process_tx_frame in Hp as (_&_&He). by apply He. Qed.

(** ** The whole loop *)

(** The state [e'] is what [e] becomes by executing the transactions of a list in
    order, each on a snapshot and successfully; Locks execute nothing. *)
Inductive replays : list Transaction → EVMState DB → EVMState DB → Prop :=
| replays_nil e e' : same_evm e' e → replays [] e e'
| replays_lock tx txs e e' :
    tx_TxType tx = TxTypeLock → replays txs e e' → replays (tx :: txs) e e'
| replays_exec tx txs e e0 e1 e' :
    tx_TxType tx ≠ TxTypeLock → same_evm e0 e →
    ExecuteTx (es_Snapshot e0).2 tx = Some (None, e1) → replays txs e1 e' →
    replays (tx :: txs) e e'.

Lemma replays_proper txs e1 e2 e' : same_evm e1 e2 → replays txs e1 e' → replays txs e2 e'.
Proof.
  intros He Hr. revert e2 He.
  induction Hr as [e e' Hs|tx txs e e' Ht _ IH|tx txs e e0 e1' e' Ht Hs Hx Hr IH]; intros e2 He.
  - constructor. by rewrite Hs.
  - apply replays_lock; [done|]. by apply IH.
  - apply (replays_exec _ _ _ e0 e1'); [done|by rewrite Hs|done|done].
Qed.

Lemma process_txs_acc c e txs acc :
  process_txs c e txs acc
  = (λ '(ok, c', e'), (acc ++ ok, c', e')) <$> process_txs c e txs [].
Proof.
  revert c e acc. induction txs as [|tx txs IH]; intros c e acc; cbn [process_txs].
  { simpl. by rewrite app_nil_r. }
  destruct (process_tx c e tx) as [[[b c1] e1]|]; [|done].
  rewrite IH, (IH _ _ (if b then _ else _)).
  destruct (process_txs c1 e1 txs []) as [[[l c2] e2]|]; [|done]. simpl.
  destruct b; simpl; by rewrite <- ?app_assoc.
Qed.

(** One iteration, then the rest. *)
Lemma process_txs_cons c e tx txs r :
  process_txs c e (tx :: txs) [] = Some r ↔
  ∃ ok c1 e1 l c' e', process_tx c e tx = Some (ok, c1, e1) ∧
    process_txs c1 e1 txs [] = Some (l, c', e') ∧ r = ((if ok then [tx] else []) ++ l, c', e').
Proof.
  cbn [process_txs]. destruct (process_tx c e tx) as [[[b c1] e1]|].
  - rewrite process_txs_acc. destruct (process_txs c1 e1 txs []) as [[[l c'] e']|] eqn:Hr; simpl.
    + split; [intros [= <-]; do 6 eexists; by split_and!|].
      intros (?&?&?&?&?&?&[= <- <- <-]&Hr'&->). rewrite Hr in Hr'. by injection Hr' as <- <- <-.
    + split; [done|]. intros (?&?&?&?&?&?&[= <- <- <-]&?&_). congruence.
  - split; [done|]. by intros (?&?&?&?&?&?&?&_).
Qed.

Lemma process_tx_replay c e tx c' e' :
  process_tx c e tx = Some (true, c', e') →
  (tx_TxType tx = TxTypeLock ∧ same_evm e' e) ∨
  (tx_TxType tx ≠ TxTypeLock ∧ ExecuteTx (es_Snapshot e).2 tx = Some (None, e')).
Proof.
  unfold process_tx. destruct (checkLocalTxLockConflict c tx); [done|]. case_decide as Ht.
  - intros [= Hl]. left. split; [done|]. pose proof (process_lock_evm c e tx) as He. by rewrite Hl in He.
  - intros Hx. right. apply process_exec_frame in Hx as (_&_&_&Hx); [|done]. by split; [|apply Hx].
Qed.

Lemma process_txs_replays c e txs l c' e' :
  process_txs c e txs [] = Some (l, c', e') → replays l e e' ∧ sublist l txs ∧ same_blocks c c'.
Proof.
  revert c e l. induction txs as [|tx txs IH]; intros c e l.
  { cbn [process_txs]. intros [= <- <- <-]. split_and!; [by constructor|constructor|done]. }
  rewrite process_txs_cons. intros (ok&c1&e1&l'&c2&e2&Hp&Hrest&[= -> -> ->]).
  destruct (IH _ _ _ Hrest) as (Hr&Hs&Hb). apply process_tx_frame in Hp as Hf.
  destruct Hf as (Hb1&_&Hfail). destruct ok; simpl.
  - split_and!; [|by constructor|by etrans].
    apply process_tx_replay in Hp as [[Ht He]|[Ht Hx]].
    + apply replays_lock; [done|]. by eapply replays_proper.
    + by eapply (replays_exec _ _ e e e1).
  - split_and!; [|by constructor|by etrans]. eapply replays_proper; [by apply Hfail|done].
Qed.

Lemma process_txs_kept c e txs l c' e' id :
  process_txs c e txs [] = Some (l, c', e') →
  Forall (λ tx, releases tx = false ∨ id ≠ tx_CrossShardTxID tx) txs → kept id c c'.
Proof.
  revert c e l. induction txs as [|tx txs IH]; intros c e l.
  { cbn [process_txs]. by intros [= <- <- <-]. }
  rewrite process_txs_cons. intros (ok&c1&e1&l'&c2&e2&Hp&Hrest&[= -> -> ->]) [Hx Ht]%Forall_cons.
  apply process_tx_frame in Hp as (_&Hk&_). etrans; [by apply Hk|by eapply IH].
Qed.

Lemma process_txs_app c e txs1 txs2 r :
  process_txs c e (txs1 ++ txs2) [] = Some r →
  ∃ l1 c1 e1 l2 c' e', process_txs c e txs1 [] = Some (l1, c1, e1) ∧
    process_txs c1 e1 txs2 [] = Some (l2, c', e') ∧ r = (l1 ++ l2, c', e').
Proof.
  revert c e r. induction txs1 as [|tx txs1 IH]; intros c e r.
  { cbn [process_txs app]. destruct r as [[l c'] e']. by eauto 10. }
  cbn [app]. rewrite process_txs_cons. intros (ok&c1&e1&l&c'&e'&Hp&Hrest&->).
  destruct (IH _ _ _ Hrest) as (l1&c2&e2&l2&c3&e3&Hl1&Hl2&[= -> -> ->]).
  eexists _, c2, e2, l2, c3, e3. split_and!; [|done|].
  - apply process_txs_cons. by eauto 10.
  - by rewrite app_assoc.
Qed.

(** ** The produced block *)

Context (Hash : StateShardBlock → BlockHash).

(** A block was produced: the loop ran to the end, the commit succeeded. *)
Lemma ProduceBlock_inv c e now b c' e' :
  ProduceBlock Hash c e now = Some (Some b, c', e') →
  ∃ l c1 e1 root prev,
    process_txs c e (sortTransactionsByPriority (sc_currentTxs c)) [] = Some (l, c1, e1) ∧
    Commit e1 (u64_add (sc_height c1) 1) = (Some root, e') ∧
    sc_blocks c1 !! Z.to_nat (sc_height c1) = Some prev ∧
    b = mkStateShardBlock (sc_shardID c1) (u64_add (sc_height c1) 1) (Hash prev) now root l
          (sc_prepareTxs c1) (sc_prepares c1) ∧
    c' = mkChain (sc_shardID c1) (sc_blocks c1 ++ [b]) (u64_add (sc_height c1) 1) [] [] ∅
           (sc_locked c1) (sc_lockedByAddr c1) (sc_pendingCredits c1) (sc_pendingCalls c1)
           (sc_slotLocks c1) (sc_pendingRwSets c1) (sc_lastOrchestratorHeight c1)
           (sc_processedCommits c1).
Proof.
  unfold ProduceBlock. destruct (process_txs _ _ _ _) as [[[l c1] e1]|]; [|done].
  destruct (Commit _ _) as [[root|] e2] eqn:Hc; [|done].
  destruct (sc_blocks c1 !! _) as [prev|] eqn:Hp; [|done].
  intros [= <- <- <-]. eauto 10.
Qed.

Lemma Commit_same e n root e' : Commit e n = (Some root, e') → same_evm e' e.
Proof.
  unfold Commit. destruct (sdb_Commit _ _) as [[r db]|] eqn:Hc; [|done].
  intros [= _ <-]. by apply commit_same in Hc.
Qed.


(** The Lock transactions of a queue, by cross-shard id. *)
Definition lock_ids (txs : list Transaction) : list string :=
  tx_CrossShardTxID <$> filter (λ tx, tx_TxType tx = TxTypeLock) txs.

(** After a Lock, no transaction of the same cross-shard id that could release
    what it holds is left in the execution order. *)
Lemma after_lock_no_release txs l1 tx l2 :
  sortTransactionsByPriority txs = l1 ++ tx :: l2 →
  tx_TxType tx = TxTypeLock → NoDup (lock_ids txs) →
  (∀ t, t ∈ txs → tx_TxType t = TxTypeCrossAbort → tx_CrossShardTxID t ≠ tx_CrossShardTxID tx) →
  Forall (λ t, releases t = false ∨ tx_CrossShardTxID tx ≠ tx_CrossShardTxID t) l2.
Proof.
  intros Hs Ht Hnd Hab. apply Forall_forall. intros t Hin.
  destruct (decide (tx_CrossShardTxID tx = tx_CrossShardTxID t)) as [Heq|]; [|by right]. left.
  pose proof (sort_perm txs) as Hperm. destruct (sort_is_stable txs) as [Hsorted _].
  rewrite Hs in Hsorted, Hperm.
  assert (Hprio : prio tx ≤ prio t).
  { change (prio_le tx t). apply (StronglySorted_app_1_elem_of prio_le (l1 ++ [tx]) l2);
      [by rewrite <- app_assoc|set_solver|done]. }
  unfold releases. rewrite Ht in Hprio. destruct (tx_TxType t) eqn:Htt; simpl in Hprio; try lia; try done.
  - exfalso. apply (Hab t); [|done|done]. rewrite <- Hperm. set_solver.
  - exfalso. unfold lock_ids in Hnd. rewrite <- Hperm in Hnd.
    rewrite filter_app, filter_cons, decide_True, fmap_app, fmap_cons in Hnd by done.
    apply NoDup_app in Hnd as (_&_&Hnd). apply NoDup_cons in Hnd as [Hn _]. apply Hn.
    rewrite Heq. apply list_elem_of_fmap_2. by apply list_elem_of_filter.
Qed.

Lemma process_txs_elem c e txs l c' e' t :
  process_txs c e txs [] = Some (l, c', e') → t ∈ l → t ∈ txs.
Proof.
  intros Hp Hin. apply process_txs_replays in Hp as (_&Hs&_).
  by eapply elem_of_sublist.
Qed.

(** C6. Votes and locks agree: for every Lock queued for a block, the produced
    block carries the shard's vote, YES exactly when the Lock is part of the block,
    and after a YES the chain still holds, at the end of the block, every slot of
    the read set, the pending write set and the reserved funds of the transaction. *)
Theorem yes_vote_backed c e now b c' e' tx :
  ProduceBlock Hash c e now = Some (Some b, c', e') →
  tx ∈ sc_currentTxs c → tx_TxType tx = TxTypeLock → tx_CrossShardTxID tx ≠ ""%string →
  NoDup (lock_ids (sc_currentTxs c)) →
  (∀ t, t ∈ sc_currentTxs c → tx_TxType t = TxTypeCrossAbort →
     tx_CrossShardTxID t ≠ tx_CrossShardTxID tx) →
  ∃ v, sb_TpcPrepare b !! tx_CrossShardTxID tx = Some v ∧
    (v = true ↔ tx ∈ sb_TxOrdering b) ∧
    (v = true →
       (∀ a s bs, ((a, s), bs) ∈ rw_reads (tx_RwSet tx) → holder c' a s = Some (tx_CrossShardTxID tx)) ∧
       sc_pendingRwSets c' !! tx_CrossShardTxID tx = Some (tx_RwSet tx) ∧
       (0 < ToBigInt (tx_Value tx) →
          sc_locked c' !! tx_CrossShardTxID tx
          = Some (mkLockedFunds (tx_From tx) (ToBigInt (tx_Value tx))))).
Proof.
  intros (l&c1&e1&root&prev&Hp&_&_&->&->)%ProduceBlock_inv Hin Ht Hid Hnd Hab. simpl.
  pose proof (sort_perm (sc_currentTxs c)) as Hperm. rewrite <- Hperm in Hin.
  apply list_elem_of_split in Hin as (l1&l2&Hs). rewrite Hs in Hp, Hperm. apply process_txs_app in Hp as (p1&d1&f1&p2&d2&f2&Hp1&Hp2&[= -> -> ->]).
  apply process_txs_cons in Hp2 as (ok&d3&f3&p3&d4&f4&Htx&Hp3&[= -> -> ->]).
  pose proof (process_txs_kept _ _ _ _ _ _ (tx_CrossShardTxID tx) Hp3
    (after_lock_no_release _ _ _ _ Hs Ht Hnd Hab)) as (Hkv&Hkr&Hkl&Hks).
  assert (Honce : tx ∉ l1 ++ l2).
  { unfold lock_ids in Hnd. rewrite <- Hperm in Hnd.
    rewrite <- Permutation_middle, filter_cons, decide_True, fmap_cons in Hnd by done.
    apply NoDup_cons in Hnd as [Hn _]. intros Hin. apply Hn.
    apply list_elem_of_fmap_2. by apply list_elem_of_filter. }
  assert (Hord : ok = true ↔ tx ∈ p1 ++ (if ok then [tx] else []) ++ p3).
  { split; [intros ->; set_solver|]. destruct ok; [done|]. intros Hin. exfalso. apply Honce.
    apply elem_of_app in Hin as [Hin|Hin]; apply elem_of_app;
      [left|right]; by eapply process_txs_elem. }
  unfold process_tx, checkLocalTxLockConflict in Htx. rewrite Ht, decide_True in Htx by done.
  injection Htx as Hlock. exists ok. rewrite Hkv. split_and!; [|done|].
  - destruct ok; [by apply process_lock_ok in Hlock as [? _]|by apply process_lock_fail in Hlock].
  - intros ->. apply process_lock_ok in Hlock as (_&Hsl&Hrw&Hf); [|done|done].
    rewrite Hkr, Hkl. split_and!; [|done|intros ?; by apply Hf].
    intros a s bs Hrd. apply Hks. by eapply Hsl.
Qed.

(** The chain of blocks: heights count from the genesis block, every block carries
    the hash of its predecessor and the shard's id. *)
Definition chain_linked (c : Chain) : Prop :=
  length (sc_blocks c) = S (Z.to_nat (sc_height c)) ∧ 0 ≤ sc_height c ∧
  (∀ i b, sc_blocks c !! i = Some b → sb_Height b = Z.of_nat i ∧ sb_ShardID b = sc_shardID c) ∧
  (∀ i p b, sc_blocks c !! i = Some p → sc_blocks c !! S i = Some b → sb_PrevHash b = Hash p).

Lemma NewChain_linked shardID now : chain_linked (NewChain shardID now).
Proof.
  split_and!; [done|done| |].
  - intros [|i] b Hb; simplify_eq/=; done.
  - intros i p b Hp Hb. destruct i; simplify_eq/=.
Qed.

(** Producing a block extends the chain by one block linked to the last one:
    the chain stays a hash chain with consecutive heights, the blocks already in
    it are untouched, the queue and the votes are taken over by the block and
    start empty again. *)
Theorem ProduceBlock_extends c e now b c' e' :
  chain_linked c → sc_height c + 1 < two64 →
  ProduceBlock Hash c e now = Some (Some b, c', e') →
  chain_linked c' ∧ sc_blocks c' = sc_blocks c ++ [b] ∧ sc_height c' = sc_height c + 1 ∧
  sb_PrepareTxs b = sc_prepareTxs c ∧
  sc_currentTxs c' = [] ∧ sc_prepareTxs c' = [] ∧ sc_prepares c' = ∅.
Proof.
  intros (Hlen&Hpos&Hh&Hl) Hov (l&c1&e1&root&prev&Hp&_&Hprev&->&->)%ProduceBlock_inv.
  apply process_txs_replays in Hp as (_&_&Hid&Hb&Hht&_&Hpt&_).
  rewrite Hb, Hht in Hprev. unfold chain_linked. simpl. rewrite Hb, Hht, Hid, Hpt.
  rewrite u64_add_small by (unfold two64 in *; lia).
  assert (Hsucc : Z.to_nat (sc_height c + 1) = S (Z.to_nat (sc_height c))) by lia.
  split_and!; try done.
  - rewrite length_app, Hlen, Hsucc. simpl. lia.
  - lia.
  - intros i b. rewrite lookup_app_Some. intros [Hi|[Hi Hs]]; [by apply Hh|].
    apply list_lookup_singleton_Some in Hs as [? <-]. simpl. rewrite Hlen in *. split; [lia|done].
  - intros i p b Hip. rewrite (lookup_app_Some _ _ (S i)). intros [Hi|[Hi Hs]].
    + apply Hl with i; [|done]. rewrite lookup_app_l in Hip; [done|].
      apply lookup_lt_Some in Hi. lia.
    + apply list_lookup_singleton_Some in Hs as [? <-]. simpl.
      rewrite lookup_app_l in Hip by lia. rewrite Hlen in *.
      replace i with (Z.to_nat (sc_height c)) in Hip by lia. congruence.
Qed.
End step.

(** ** Witnesses *)

#[local] Existing Instance list_range.

Definition lockTx : Transaction :=
  mkTransaction "l" 0 1 2 (NewBigInt (Some 4)) 0 [] true TxTypeLock "x" sampleRwSet "".

Definition queuedChain : Chain := AddTx (AddTx (NewChain 0 0) (transferTx 1 3 20)) lockTx.

Definition sampleHash (b : StateShardBlock) : BlockHash := sb_Height b + 100.

Lemma excluded_tx_no_trace_witness :
  ∃ c' e', process_tx (NewChain 0 0) (fundedState 1 10) (transferTx 1 3 20) = Some (false, c', e') ∧
    same_evm e' (fundedState 1 10).
Proof.
  eexists _, _. split; [vm_compute; reflexivity|].
  eapply (excluded_tx_no_trace (NewChain 0 0) (fundedState 1 10) (transferTx 1 3 20)).
  vm_compute. reflexivity.
Defined.


Lemma yes_vote_backed_witness :
  ∃ b c' e', ProduceBlock sampleHash queuedChain (fundedState 1 10) 7 = Some (Some b, c', e') ∧
    sb_TpcPrepare b !! "x"%string = Some true ∧ holder c' 2 0 = Some "x"%string.
Proof.
  eexists _, _, _. split; [vm_compute; reflexivity|]. split; [vm_compute; reflexivity|].
  edestruct (yes_vote_backed sampleHash queuedChain (fundedState 1 10) 7) with (tx := lockTx)
    as (v&Hv&_&Hyes).
  - vm_compute. reflexivity.
  - apply list_elem_of_further, list_elem_of_here.
  - reflexivity.
  - discriminate.
  - vm_compute. apply NoDup_singleton.
  - intros t Hin. repeat (apply elem_of_cons in Hin as [->|Hin]; [discriminate|]).
    by apply not_elem_of_nil in Hin.
  - vm_compute in Hv. injection Hv as <-. destruct (Hyes eq_refl) as [Hs _].
    apply (Hs 2 0 [Byte.x00]). apply list_elem_of_here.
Defined.

Lemma ProduceBlock_extends_witness :
  ∃ b c' e', ProduceBlock sampleHash queuedChain (fundedState 1 10) 7 = Some (Some b, c', e') ∧
    chain_linked sampleHash c'.
Proof.
  eexists _, _, _. split; [vm_compute; reflexivity|].
  eapply (ProduceBlock_extends sampleHash queuedChain (fundedState 1 10) 7).
  - apply NewChain_linked.
  - reflexivity.
  - vm_compute. reflexivity.
Defined.
