(* ===== verification/FundLocks.v ===== *)
(** * FundLocks: reservations of internal/shard/chain.go

    The per-address index of the fund locks agrees with the locks, the sum
    reserved at an address never exceeds its balance while the block executor runs
    the commit protocol, and a reserved debit then always succeeds. Local
    transactions are outside this protection: the last theorem shows one spending
    a reservation. *)

From S2P Require Import Prelude Codec Protocol VmState MemDB TrackingDB EvmState ShardChain SlotLocks TxOrder ShardBlock.

Open Scope Z_scope.

Abbreviation entries c a := ((sc_lockedByAddr c).[a; []]) (only parsing).

(** The index lists, under each address, exactly the locks of that address. *)
Definition funds_wf (c : Chain) : Prop :=
  (∀ a, NoDup (le_txID <$> entries c a)) ∧
  (∀ a en, en ∈ entries c a → sc_locked c !! le_txID en = Some (mkLockedFunds a (le_amount en))) ∧
  (∀ id lf, sc_locked c !! id = Some lf → mkLockedEntry id (lf_Amount lf) ∈ entries c (lf_Address lf)).

(** ** The sum of the reservations *)

Lemma foldl_sum_acc (l : list lockedEntry) z :
  foldl (λ total entry, total + le_amount entry) z l = z + sumZ le_amount l.
Proof. revert z. induction l as [|x l IH]; intros z; simpl; [lia|]. rewrite IH. lia. Qed.

Lemma locked_amount_sum c a : getLockedAmountForAddrLocked c a = sumZ le_amount (entries c a).
Proof. unfold getLockedAmountForAddrLocked. by rewrite foldl_sum_acc. Qed.

Lemma lockFunds_entries c id addr amount a :
  entries (lockFundsLocked c id addr amount) a
  = entries c a ++ (if decide (a = addr) then [mkLockedEntry id amount] else []).
Proof.
  simpl. case_decide; subst; [by rewrite map_get_insert_eq|].
  by rewrite map_get_insert_ne, app_nil_r.
Qed.

(** A reservation under a new id is added to the sum of its address. *)
Lemma lockFunds_wf c id addr amount :
  funds_wf c → sc_locked c !! id = None →
  funds_wf (lockFundsLocked c id addr amount) ∧
  ∀ a, getLockedAmountForAddrLocked (lockFundsLocked c id addr amount) a
    = getLockedAmountForAddrLocked c a + (if decide (a = addr) then amount else 0).
Proof.
  intros (Hnd&Hin&Hout) Hfresh. split.
  - unfold funds_wf. setoid_rewrite lockFunds_entries. split_and!.
    + intros a. rewrite fmap_app. apply NoDup_app. split; [done|]. case_decide; simpl.
      * split; [|apply NoDup_singleton]. intros x Hx ->%list_elem_of_singleton.
        apply list_elem_of_fmap in Hx as (en&->&Hen). apply Hin in Hen. congruence.
      * split; [set_solver|constructor].
    + intros a en [Hen|Hen]%elem_of_app.
      * simpl. rewrite lookup_insert_ne; [by apply Hin|]. intros ->. apply Hin in Hen. congruence.
      * case_decide; [|by apply not_elem_of_nil in Hen]. apply list_elem_of_singleton in Hen as ->.
        subst. simpl. by rewrite lookup_insert_eq.
    + intros id' lf. simpl. destruct (decide (id' = id)) as [->|].
      * rewrite lookup_insert_eq. intros [= <-]. simpl. rewrite decide_True by done. set_solver.
      * rewrite lookup_insert_ne by done. intros Hlf. apply elem_of_app. left. by apply Hout.
  - intros a. rewrite !locked_amount_sum, lockFunds_entries, sumZ_app.
    case_decide; simpl; lia.
Qed.

(** ** Releasing a reservation *)

Lemma find_entry_spec id l :
  match find_entry id l with
  | Some i => ∃ en, l !! i = Some en ∧ le_txID en = id
  | None => id ∉ le_txID <$> l
  end.
Proof.
  induction l as [|x l IH]; simpl; [set_solver|]. case_decide; [by eauto|].
  destruct (find_entry id l); simpl; [done|]. set_solver.
Qed.

Lemma slice_remove_perm i l en : l !! i = Some en → l ≡ₚ en :: slice_remove i l.
Proof.
  intros Hi. unfold slice_remove. rewrite <- (take_drop_middle l i en Hi) at 1.
  symmetry. apply Permutation_middle.
Qed.

Lemma swap_remove_perm i l en : l !! i = Some en → l ≡ₚ en :: swap_remove i l.
Proof.
  intros Hi. unfold swap_remove. destruct (last l) as [x|] eqn:Hlast.
  2:{ apply last_None in Hlast. by subst. }
  apply last_Some in Hlast as [l' ->]. rewrite length_app. simpl.
  replace (length l' + 1 - 1)%nat with (length l') by lia.
  destruct (decide (i < length l')%nat) as [Hlt|Hge].
  - rewrite insert_app_l by done. rewrite lookup_app_l in Hi by done.
    rewrite take_app_length' by by rewrite length_insert.
    rewrite insert_take_drop by done. rewrite <- (take_drop_middle l' i en Hi) at 1.
    rewrite <- app_assoc. etrans; [symmetry; apply Permutation_middle|]. constructor.
    apply Permutation_app_head. symmetry; apply Permutation_cons_append.
  - apply lookup_lt_Some in Hi as Hlt. rewrite length_app in Hlt. simpl in Hlt.
    replace i with (length l') in * by lia.
    rewrite lookup_app_r, Nat.sub_diag in Hi by done. injection Hi as ->.
    rewrite insert_app_r_alt, Nat.sub_diag by done. simpl.
    rewrite take_app_length. by rewrite Permutation_app_comm.
Qed.

Lemma get_cleanup (m : gmap Address (list lockedEntry)) addr a :
  (match m.[addr; []] with [] => delete addr m | _ => m end).[a; []] = m.[a; []].
Proof.
  destruct (m.[addr; []]) eqn:He; [|done]. destruct (decide (a = addr)) as [->|].
  - by rewrite map_get_delete_eq.
  - by rewrite map_get_delete_ne.
Qed.

(** The reservation of [id] at [a]. *)
Definition reserved (c : Chain) (id : string) (a : Address) : Z :=
  match sc_locked c !! id with
  | Some lf => if decide (a = lf_Address lf) then lf_Amount lf else 0
  | None => 0
  end.

Section clear.
Context (remove : nat → list lockedEntry → list lockedEntry).
Context (remove_perm : ∀ i l en, l !! i = Some en → l ≡ₚ en :: remove i l).

(** Under the address of the lock, its entry goes; elsewhere nothing changes. *)
Lemma clear_lock_entries c id lf :
  funds_wf c → sc_locked c !! id = Some lf →
  (entries c (lf_Address lf) ≡ₚ
     mkLockedEntry id (lf_Amount lf) :: entries (clear_lock_with remove c id) (lf_Address lf)) ∧
  ∀ a, a ≠ lf_Address lf → entries (clear_lock_with remove c id) a = entries c a.
Proof using remove_perm.
  intros (Hnd&Hin&Hout) Hl. unfold clear_lock_with. rewrite Hl. simpl.
  pose proof (Hout _ _ Hl) as Hen.
  pose proof (find_entry_spec id (entries c (lf_Address lf))) as Hf.
  destruct (find_entry id _) as [i|].
  - destruct Hf as (en&Hi&Hid). split; [|intros a Hne; by rewrite get_cleanup, map_get_insert_ne].
    rewrite get_cleanup, map_get_insert_eq. rewrite (remove_perm i _ en Hi) at 1.
    apply list_elem_of_lookup_2 in Hi. apply Hin in Hi. rewrite Hid, Hl in Hi.
    injection Hi as Hi. destruct en as [x y]. simpl in *. subst. by rewrite Hi.
  - exfalso. apply Hf. apply (list_elem_of_fmap_2 le_txID) in Hen. exact Hen.
Qed.

Lemma clear_lock_wf c id :
  funds_wf c →
  funds_wf (clear_lock_with remove c id) ∧
  ∀ a, getLockedAmountForAddrLocked (clear_lock_with remove c id) a
    = getLockedAmountForAddrLocked c a - reserved c id a.
Proof using remove_perm.
  intros Hwf. unfold reserved. destruct (sc_locked c !! id) as [lf|] eqn:Hl.
  2:{ unfold clear_lock_with. rewrite Hl. split; [done|]. intros; lia. }
  destruct (clear_lock_entries c id lf Hwf Hl) as [Hp Hne]. destruct Hwf as (Hnd&Hin&Hout).
  set (c' := clear_lock_with remove c id) in *.
  assert (Hlk : sc_locked c' = delete id (sc_locked c)) by (unfold c', clear_lock_with; by rewrite Hl).
  assert (Hnd' : NoDup (id :: (le_txID <$> entries c' (lf_Address lf)))).
  { specialize (Hnd (lf_Address lf)). by rewrite Hp in Hnd. }
  split; [split_and!|].
  - intros a. destruct (decide (a = lf_Address lf)) as [->|]; [by apply NoDup_cons in Hnd' as [_ ?]|].
    by rewrite Hne.
  - intros a en Hen. rewrite Hlk.
    assert (Hc : en ∈ entries c a ∧ le_txID en ≠ id).
    { destruct (decide (a = lf_Address lf)) as [->|Ha].
      - rewrite Hp. split; [set_solver|]. intros <-. apply NoDup_cons in Hnd' as [Hn _].
        apply Hn. by apply list_elem_of_fmap_2.
      - rewrite Hne in Hen by done. split; [done|]. intros <-. apply Hin in Hen. naive_solver. }
    destruct Hc as [Hc Hid]. rewrite lookup_delete_ne by done. by apply Hin.
  - intros id' lf'. rewrite Hlk. intros [Hid Hlf]%lookup_delete_Some. apply Hout in Hlf as Hen.
    destruct (decide (lf_Address lf' = lf_Address lf)) as [Heq|]; [|by rewrite Hne].
    rewrite Heq, Hp in Hen. rewrite Heq. set_solver.
  - intros a. rewrite !locked_amount_sum. case_decide; [subst|rewrite Hne by done; lia].
    rewrite Hp. simpl. lia.
Qed.
End clear.

(** The two implementations of releasing a reservation agree: [ClearLock] (swap
    with the last entry and truncate) and [clearLockLocked] (close the gap) leave
    the same locks, the same entries under every address up to their order, and
    the same amount reserved at every address: the amount before, less the
    reservation released. *)
Theorem clear_lock_variants_agree c id :
  funds_wf c →
  sc_locked (ClearLock c id) = sc_locked (clearLockLocked c id) ∧
  (∀ a, entries (ClearLock c id) a ≡ₚ entries (clearLockLocked c id) a) ∧
  (∀ a, GetLockedAmountForAddress (ClearLock c id) a = GetLockedAmountForAddress c a - reserved c id a) ∧
  (∀ a, GetLockedAmountForAddress (clearLockLocked c id) a = GetLockedAmountForAddress c a - reserved c id a) ∧
  funds_wf (ClearLock c id) ∧ funds_wf (clearLockLocked c id).
Proof.
  intros Hwf.
  destruct (clear_lock_wf swap_remove swap_remove_perm c id Hwf) as [Hw1 Ha1].
  destruct (clear_lock_wf slice_remove slice_remove_perm c id Hwf) as [Hw2 Ha2].
  split_and!; try done.
  - unfold ClearLock, clearLockLocked, clear_lock_with. by destruct (sc_locked c !! id).
  - intros a. unfold ClearLock, clearLockLocked. destruct (sc_locked c !! id) as [lf|] eqn:Hl.
    + destruct (clear_lock_entries _ swap_remove_perm c id lf Hwf Hl) as [Hp1 Hn1].
      destruct (clear_lock_entries _ slice_remove_perm c id lf Hwf Hl) as [Hp2 Hn2].
      destruct (decide (a = lf_Address lf)) as [->|]; [|by rewrite Hn1, Hn2].
      rewrite Hp1 in Hp2. by apply Permutation_cons_inv in Hp2.
    + unfold clear_lock_with. by rewrite Hl.
Qed.

(** ** Reservations are covered by balances *)

Abbreviation same_funds c c' := (sc_locked c' = sc_locked c ∧ sc_lockedByAddr c' = sc_lockedByAddr c)
  (only parsing).

Section solvent.
Context {DB : Type} `{GethStateDBLaws DB} `{Geth} `{!GethLaws} `{EVM} `{!EVMLaws} `{MapRange}.
Implicit Types (e : EVMState DB).

Definition solvent (c : Chain) e : Prop :=
  funds_wf c ∧ (∀ id lf, sc_locked c !! id = Some lf → 0 ≤ lf_Amount lf) ∧
  ∀ a, getLockedAmountForAddrLocked c a ≤ bal e a.

Lemma solvent_same c c' e e' :
  same_funds c c' → (∀ a, bal e a ≤ bal e' a) → solvent c e → solvent c' e'.
Proof.
  intros [Hl Hi] Hb (Hwf&Hpos&Hcov). unfold solvent, funds_wf, getLockedAmountForAddrLocked in *.
  rewrite Hl, Hi. split_and!; [apply Hwf..|done|]. intros a. etrans; [apply Hcov|done].
Qed.

Lemma same_evm_bal e e' : same_evm e' e → ∀ a, bal e a ≤ bal e' a.
Proof. intros He a. by rewrite He. Qed.

Lemma reserved_nonneg c e id a : solvent c e → 0 ≤ reserved c id a.
Proof.
  intros (_&Hpos&_). unfold reserved. destruct (sc_locked c !! id) eqn:Hl; [|done].
  case_decide; [by eapply Hpos|done].
Qed.

(** Releasing a reservation only frees funds. *)
Lemma solvent_clear c e id : solvent c e → solvent (clearLockLocked c id) e.
Proof.
  intros Hs. pose proof (λ a, reserved_nonneg c e id a Hs) as Hr. destruct Hs as (Hwf&Hpos&Hcov).
  destruct (clear_lock_wf slice_remove slice_remove_perm c id Hwf) as [Hw Ha]. split_and!.
  - done.
  - intros id' lf. unfold clearLockLocked, clear_lock_with.
    destruct (sc_locked c !! id) eqn:Hl; [|apply Hpos]. simpl.
    intros [_ Hlf]%lookup_delete_Some. by eapply Hpos.
  - intros a. unfold clearLockLocked. rewrite Ha. specialize (Hr a). specialize (Hcov a). lia.
Qed.

Lemma unlockAll_funds c id : same_funds c (unlockAllSlotsForTxLocked c id).
Proof. destruct (unlockAll_spec c id) as (Ho&_). by rewrite Ho. Qed.

Lemma clearAll_funds c id : same_funds (clearLockLocked c id) (clearAllMetadataLocked c id).
Proof.
  unfold clearAllMetadataLocked. cbv zeta.
  set (c1 := clearPendingCallLocked _ _). destruct (unlockAll_funds c1 id) as [Hl Hi].
  split; [exact Hl|exact Hi].
Qed.

Lemma solvent_clearAll c e id : solvent c e → solvent (clearAllMetadataLocked c id) e.
Proof.
  intros Hs. eapply solvent_same; [apply clearAll_funds|done|by apply solvent_clear].
Qed.

Lemma solvent_failure c e tx : solvent c e → solvent (cleanupAfterFailureLocked c tx) e.
Proof.
  intros Hs. unfold cleanupAfterFailureLocked. destruct (tx_TxType tx); try done.
  eapply solvent_same; [split; reflexivity|done|by apply solvent_clearAll].
Qed.

Lemma solvent_execution c e tx :
  solvent c e → solvent (cleanupAfterExecutionLocked c tx) e.
Proof.
  intros Hs. unfold cleanupAfterExecutionLocked. case_decide; [done|].
  destruct (tx_TxType tx); try done.
  - by apply solvent_clear.
  - eapply solvent_same; [|done|done]. unfold clearPendingCreditForAddressLocked.
    destruct (_ !! _); [|done]. by case_match.
  - by apply solvent_clearAll.
  - apply solvent_clearAll. eapply solvent_same; [|done|done]. apply unlockAll_funds.
Qed.

Lemma validate_funds c id rwSet e :
  let '(err, c', e') := validateAndLockReadSetLocked c id rwSet e in
  same_funds c c' ∧ same_evm e' e.
Proof.
  unfold validateAndLockReadSetLocked. pose proof (validate_loop_frame id (rw_reads rwSet) [] c e) as Hf.
  destruct (validate_loop _ _ _ _ _) as [[[x|] c1] e1]; destruct Hf as [Ho He]; by rewrite Ho.
Qed.

(** A Lock under a fresh id keeps the shard solvent. *)
Lemma solvent_lock c e tx :
  sc_locked c !! tx_CrossShardTxID tx = None → solvent c e →
  let '(ok, c', e') := process_lock c e tx in solvent c' e'.
Proof.
  intros Hfresh Hs. unfold process_lock. cbv zeta.
  pose proof (reserve_funds_spec c e tx) as Hr. cbv zeta in Hr.
  set (i := tx_CrossShardTxID tx) in *.
  assert (Hs1 : let '(funded, c1, e1) := reserve_funds c e tx in solvent c1 e1).
  { destruct (reserve_funds c e tx) as [[f c1] e1]. destruct Hr as (_&He&_&Hok&Hno).
    destruct f; [|rewrite Hno by (by left); eapply solvent_same; [done|by apply same_evm_bal|done]].
    destruct (decide (0 < ToBigInt (tx_Value tx))) as [Hpos|];
      [|rewrite Hno by (right; lia); eapply solvent_same; [done|by apply same_evm_bal|done]].
    destruct (Hok eq_refl Hpos) as [-> Hle]. destruct Hs as (Hwf&Hnn&Hcov).
    destruct (lockFunds_wf c i (tx_From tx) (ToBigInt (tx_Value tx)) Hwf Hfresh) as [Hwf' Ha].
    split_and!; [done| |].
    - intros id lf. simpl. destruct (decide (id = i)) as [->|].
      + rewrite lookup_insert_eq. intros [= <-]. simpl. lia.
      + rewrite lookup_insert_ne by done. apply Hnn.
    - intros a. rewrite Ha, He. specialize (Hcov a). case_decide; subst; lia. }
  destruct (reserve_funds c e tx) as [[[|] c1] e1]; [|by apply solvent_failure].
  pose proof (validate_funds c1 i (tx_RwSet tx) e1) as Hv.
  destruct (validateAndLockReadSetLocked _ _ _ _) as [[[x|] c2] e2]; destruct Hv as [Hf He].
  - apply solvent_failure, solvent_clear. eapply solvent_same; [done|by apply same_evm_bal|done].
  - apply solvent_execution. eapply solvent_same; [done|by apply same_evm_bal|done].
Qed.

(** The transactions of the commit protocol: Locks under a fresh id, debits of
    what was reserved, credits and transfers that do not overflow, and local
    transfers from accounts without reservations. *)
Definition protocol_tx (c : Chain) e (tx : Transaction) : Prop :=
  let v := ToBigInt (tx_Value tx) in
  match tx_TxType tx with
  | TxTypeLock => sc_locked c !! tx_CrossShardTxID tx = None
  | TxTypeCrossDebit =>
      tx_CrossShardTxID tx ≠ ""%string ∧ is_u256 v ∧
      sc_locked c !! tx_CrossShardTxID tx = Some (mkLockedFunds (tx_From tx) v)
  | TxTypeCrossCredit => is_u256 v ∧ bal e (tx_To tx) + v < two256
  | TxTypeLocal =>
      tx_Data tx = [] ∧ is_u256 v ∧ bal e (tx_To tx) + v < two256 ∧ entries c (tx_From tx) = []
  | _ => True
  end.

(** A reserved debit is affordable, and takes its reservation with it. *)
Lemma solvent_debit c e tx :
  solvent c e → tx_TxType tx = TxTypeCrossDebit → protocol_tx c e tx →
  ∃ e', ExecuteTx e tx = Some (None, e') ∧ solvent (cleanupAfterExecutionLocked c tx) e'.
Proof.
  intros (Hwf&Hpos&Hcov) Ht Hp. unfold protocol_tx in Hp. cbv zeta in Hp. rewrite Ht in Hp.
  destruct Hp as (Hid&Hu&Hl). unfold ExecuteTx, cleanupAfterExecutionLocked. rewrite Ht.
  rewrite decide_False by done. set (v := ToBigInt (tx_Value tx)) in *.
  destruct (clear_lock_wf slice_remove slice_remove_perm c (tx_CrossShardTxID tx) Hwf) as [Hwf' Ha].
  destruct (clear_lock_entries slice_remove slice_remove_perm c (tx_CrossShardTxID tx) _ Hwf Hl) as [Hperm _].
  assert (Hnn : ∀ a, 0 ≤ getLockedAmountForAddrLocked (clearLockLocked c (tx_CrossShardTxID tx)) a).
  { intros a. rewrite locked_amount_sum. apply sumZ_nonneg. intros en Hen.
    destruct Hwf' as (_&Hin&_). apply Hin in Hen. unfold clear_lock_with in Hen. rewrite Hl in Hen.
    simpl in Hen. apply lookup_delete_Some in Hen as [_ Hen]. by apply Hpos in Hen. }
  unfold clearLockLocked in *. unfold reserved in Ha. rewrite Hl in Ha. simpl in *.
  assert (Hle : v ≤ bal e (tx_From tx)).
  { specialize (Hnn (tx_From tx)). specialize (Hcov (tx_From tx)). rewrite Ha in Hnn.
    rewrite decide_True in Hnn by done. lia. }
  destruct (Debit_spec e (tx_From tx) v Hu) as (r&e'&Hd&Hr).
  replace (v <=? bal e (tx_From tx)) with true in Hr by lia. destruct Hr as (->&Hb&_).
  exists e'. split; [done|]. split_and!; [done| |].
  - intros id' lf. unfold clear_lock_with. rewrite Hl. simpl.
    intros [_ Hlf]%lookup_delete_Some. by eapply Hpos.
  - intros a. rewrite Ha, Hb. specialize (Hcov a). case_decide; subst; lia.
Qed.

(** The other types do not lower the balance of an account with reservations. *)
Lemma solvent_other c e tx e' :
  solvent c e → tx_TxType tx ≠ TxTypeCrossDebit → tx_TxType tx ≠ TxTypeLock → protocol_tx c e tx →
  ExecuteTx e tx = Some (None, e') → solvent c e'.
Proof.
  intros Hs Hd Hl Hp. unfold protocol_tx in Hp. cbv zeta in Hp. unfold ExecuteTx.
  assert (Hrw : ∀ rws, solvent c (applyWriteSet e rws)).
  { intros rws. eapply solvent_same; [done| |done]. intros a. by rewrite applyWriteSet_bal. }
  destruct (tx_TxType tx); try done; try (intros; by simplify_eq).
  - destruct Hp as (Hdata&Hu&Hov&Hnone).
    destruct (local_transfer_spec e tx Hdata Hu Hov) as (r&e2&Hx&Hr). rewrite Hx.
    intros [= -> ->]. case_match eqn:Hle; [|by destruct Hr]. destruct Hr as (_&Hb&_).
    destruct Hs as (Hwf&Hpos&Hcov). split_and!; [done|done|]. intros a. rewrite Hb.
    specialize (Hcov a). pose proof Hu as [Hv0 _].
    destruct (decide (a = tx_From tx)) as [->|]; [|case_decide; lia].
    rewrite locked_amount_sum, Hnone in *. simpl in *. case_decide; lia.
  - destruct Hp as (Hu&Hov). destruct (Credit_spec e (tx_To tx) _ Hu Hov) as (e2&Hc&Hb&_).
    rewrite Hc. intros [= <-]. eapply solvent_same; [done| |done]. intros a. rewrite Hb.
    pose proof Hu as [Hv0 _]. case_decide; subst; lia.
Qed.

Lemma protocol_tx_same c e e' tx : same_evm e' e → protocol_tx c e tx → protocol_tx c e' tx.
Proof.
  intros He. unfold protocol_tx. cbv zeta.
  destruct (tx_TxType tx); try done; by rewrite (bal_proper _ _ He _ _ eq_refl).
Qed.

Lemma process_tx_solvent c e tx ok c' e' :
  solvent c e → protocol_tx c e tx → process_tx c e tx = Some (ok, c', e') →
  solvent c' e' ∧ (tx_TxType tx = TxTypeCrossDebit → ok = true).
Proof.
  intros Hs Hp. unfold process_tx.
  destruct (checkLocalTxLockConflict c tx) as [err|] eqn:Hchk.
  { intros [= <- <- <-]. split; [done|]. intros Ht. unfold checkLocalTxLockConflict in Hchk.
    by rewrite Ht in Hchk. }
  case_decide as Hlk.
  { intros [= Hl]. unfold protocol_tx in Hp. cbv zeta in Hp. rewrite Hlk in Hp.
    pose proof (solvent_lock c e tx Hp Hs) as Hs'. rewrite Hl in Hs'. split; [done|congruence]. }
  unfold process_exec. pose proof (es_Snapshot_same e) as Hsame.
  pose proof (λ err e2, ExecuteTx_rollback e tx err e2) as Hroll.
  destruct (es_Snapshot e) as [r e1]. simpl in Hsame.
  assert (Hs1 : solvent c e1) by (eapply solvent_same; [done|by apply same_evm_bal|done]).
  apply (protocol_tx_same _ _ e1) in Hp; [|done].
  destruct (decide (tx_TxType tx = TxTypeCrossDebit)) as [Ht|Ht].
  - destruct (solvent_debit c e1 tx Hs1 Ht Hp) as (e2&Hx&Hs2). rewrite Hx. by intros [= <- <- <-].
  - destruct (ExecuteTx e1 tx) as [[[err|] e2]|] eqn:Hx; [| |done]; intros [= <- <- <-]; split; try done.
    + apply solvent_failure. apply (solvent_same c c e); [done| |done].
      apply same_evm_bal. by eapply Hroll.
    + apply solvent_execution. by eapply solvent_other.
Qed.

(** Every transaction of a run is one of the protocol when its turn comes. *)
Fixpoint protocol_run (c : Chain) e (txs : list Transaction) : Prop :=
  match txs with
  | [] => True
  | tx :: txs' =>
      protocol_tx c e tx ∧
      match process_tx c e tx with
      | Some (_, c1, e1) => protocol_run c1 e1 txs'
      | None => True
      end
  end.

(** C9. No overdraft: as long as a block runs transactions of the commit protocol,
    the amounts reserved at each address stay within its balance, the index of
    reservations stays consistent, and no debit of reserved funds is ever refused:
    every queued cross-shard debit is part of the block. *)
Theorem reservations_covered txs : ∀ c e l c' e',
  solvent c e → protocol_run c e txs → process_txs c e txs [] = Some (l, c', e') →
  solvent c' e' ∧ ∀ tx, tx ∈ txs → tx_TxType tx = TxTypeCrossDebit → tx ∈ l.
Proof.
  induction txs as [|tx txs IH]; intros c e l c' e' Hs Hp.
  { cbn [process_txs]. intros [= <- <- <-]. set_solver. }
  rewrite process_txs_cons. intros (ok&c1&e1&l'&c2&e2&Htx&Hrest&[= -> -> ->]).
  destruct Hp as [Hp Hrun]. rewrite Htx in Hrun.
  destruct (process_tx_solvent _ _ _ _ _ _ Hs Hp Htx) as [Hs1 Hok].
  destruct (IH _ _ _ _ _ Hs1 Hrun Hrest) as [Hs2 Hin]. split; [done|].
  intros t [->|Ht]%elem_of_cons Htt; [rewrite Hok by done; set_solver|].
  apply elem_of_app. right. by apply Hin.
Qed.
End solvent.

(** ** What the reservations do not protect against *)

(** Reserving twice under one id leaks: the second reservation replaces the lock
    but is added to the index, so releasing the id (once; the lock is then gone)
    leaves an amount reserved at the address that no transaction can release. *)
Theorem relock_leaks_reservation c id a v w :
  funds_wf c → sc_locked c !! id = None →
  let c' := clearLockLocked (LockFunds (LockFunds c id a v) id a w) id in
  GetLockedFunds c' id = None ∧
  GetLockedAmountForAddress c' a = GetLockedAmountForAddress c a + w.
Proof.
  intros (Hnd&Hin&Hout) Hfresh c'.
  assert (Hfind : ∀ l k, id ∉ le_txID <$> l →
    find_entry id (l ++ mkLockedEntry id v :: k) = Some (length l)).
  { induction l as [|x l IH]; intros k Hn; simpl; [by rewrite decide_True|].
    rewrite decide_False by set_solver. rewrite IH by set_solver. done. }
  assert (Hn : id ∉ le_txID <$> entries c a).
  { intros (en&->&Hen)%list_elem_of_fmap. apply Hin in Hen. congruence. }
  unfold c', clearLockLocked, clear_lock_with, LockFunds, GetLockedFunds,
    GetLockedAmountForAddress, lockFundsLocked. simpl.
  rewrite !map_get_insert_eq, lookup_insert_eq. simpl. rewrite map_get_insert_eq.
  rewrite <- app_assoc. simpl. rewrite Hfind by done. simpl. rewrite lookup_delete_eq. split; [done|].
  rewrite !locked_amount_sum. simpl. rewrite get_cleanup, map_get_insert_eq. unfold slice_remove.
  rewrite take_app_length, drop_app_ge by lia.
  replace (S (length (entries c a)) - length (entries c a))%nat with 1%nat by lia.
  rewrite sumZ_app. simpl. lia.
Qed.

Lemma NewChain_funds_wf shardID now : funds_wf (NewChain shardID now).
Proof.
  split_and!.
  - intros a. constructor.
  - intros a en Hen. by apply not_elem_of_nil in Hen.
  - intros id lf. change (sc_locked (NewChain shardID now)) with (∅ : gmap string LockedFunds).
    by rewrite lookup_empty.
Qed.

Lemma relock_leaks_reservation_witness :
  GetLockedAmountForAddress
    (clearLockLocked (LockFunds (LockFunds (NewChain 0 0) "x" 1 5) "x" 1 5) "x") 1 = 5.
Proof.
  destruct (relock_leaks_reservation (NewChain 0 0) "x" 1 5 5) as [_ Ha];
    [apply NewChain_funds_wf|reflexivity|exact Ha].
Defined.

#[local] Existing Instance list_range.

Definition reservedChain : Chain := LockFunds (NewChain 0 0) "x" 1 10.

Definition debitTx : Transaction :=
  mkTransaction "d" 0 1 2 (NewBigInt (Some 10)) 0 [] true TxTypeCrossDebit "x" [] "".

Lemma reservedChain_solvent : solvent reservedChain (fundedState 1 10).
Proof.
  destruct (lockFunds_wf (NewChain 0 0) "x" 1 10 (NewChain_funds_wf 0 0) eq_refl) as [Hwf Ha].
  split_and!; [exact Hwf| |].
  - intros id lf. simpl. intros [[_ <-]|[_ Hl]]%lookup_insert_Some; [done|].
    by change (sc_locked (NewChain 0 0)) with (∅ : gmap string LockedFunds) in Hl.
  - intros a. unfold reservedChain, LockFunds. rewrite Ha. case_decide as Hd.
    + subst a. vm_compute. done.
    + pose proof (balance_u256 (es_stateDB (fundedState 1 10)) a) as [? _].
      change (getLockedAmountForAddrLocked (NewChain 0 0) a) with 0. unfold bal. lia.
Qed.


Lemma reservations_covered_witness :
  ∃ l c' e', process_txs reservedChain (fundedState 1 10) [debitTx] [] = Some (l, c', e') ∧
    solvent c' e' ∧ debitTx ∈ l.
Proof.
  eexists _, _, _. split; [vm_compute; reflexivity|].
  edestruct (reservations_covered [debitTx] reservedChain (fundedState 1 10)) as [Hs Hin].
  - apply reservedChain_solvent.
  - split; [|vm_compute; exact I]. split_and!; [done|concrete_range|reflexivity].
  - vm_compute. reflexivity.
  - split; [exact Hs|]. apply Hin; [apply list_elem_of_here|reflexivity].
Defined.

Lemma clear_lock_variants_agree_witness :
  GetLockedAmountForAddress (ClearLock reservedChain "x") 1 = 0.
Proof.
  destruct (clear_lock_variants_agree reservedChain "x") as (_&_&Ha&_).
  - apply lockFunds_wf; [apply NewChain_funds_wf|reflexivity].
  - etrans; [exact (Ha 1)|vm_compute; reflexivity].
Defined.
