(* ===== verification/Isolation.v ===== *)
(** * Isolation: what slot locks and validation guarantee together

    A shard simulates a call, the orchestrator orders it with the read/write set
    of the simulation, the shard validates and locks the read set, and later
    applies the write set. The theorems connect the steps: locked slots keep their
    validated values until the transaction itself releases them, and on any state
    where the read set validates, applying the write set has the effect of running
    the call there. *)

From S2P Require Import Prelude Codec Protocol VmState MemDB TrackingDB EvmState ShardChain SlotLocks TxOrder ShardBlock.

Open Scope Z_scope.

(** ** Locked slots keep their values *)

Section stable.
Context {DB : Type} `{GethStateDBLaws DB} `{Geth} `{!GethLaws} `{EVM} `{!EVMLaws} `{MapRange}.
Implicit Types (e : EVMState DB).

(** A transaction writes storage only in slots its cross-shard transaction holds:
    write sets cover locked slots, local transactions are plain transfers. *)
Definition writes_own_slots (c : Chain) e (tx : Transaction) : Prop :=
  match tx_TxType tx with
  | TxTypeFinalize | TxTypeCrossWriteSet =>
      ∀ a s, (a, s) ∈ (rw_writes (tx_RwSet tx)).*1 → holder c a s = Some (tx_CrossShardTxID tx)
  | TxTypeLocal =>
      tx_Data tx = [] ∧ is_u256 (ToBigInt (tx_Value tx)) ∧
      bal e (tx_To tx) + ToBigInt (tx_Value tx) < two256
  | TxTypeCrossDebit => is_u256 (ToBigInt (tx_Value tx))
  | TxTypeCrossCredit =>
      is_u256 (ToBigInt (tx_Value tx)) ∧ bal e (tx_To tx) + ToBigInt (tx_Value tx) < two256
  | _ => True
  end.

Lemma applyWriteSet_untouched e rws a s :
  (a, s) ∉ (rw_writes rws).*1 → sto (applyWriteSet e rws) a s = sto e a s.
Proof.
  intros Hn. rewrite applyWriteSet_sto. unfold last_writes.
  by rewrite foldl_insert_notin, lookup_empty by done.
Qed.

(** Executing it leaves the slots of the other transactions alone. *)
Lemma ExecuteTx_untouched c e tx e' id a s :
  writes_own_slots c e tx → holder c a s = Some id → id ≠ tx_CrossShardTxID tx →
  ExecuteTx e tx = Some (None, e') → sto e' a s = sto e a s.
Proof.
  intros Hw Hh Hne. unfold ExecuteTx, writes_own_slots in *.
  assert (Hrw : (∀ a s, (a, s) ∈ (rw_writes (tx_RwSet tx)).*1 → holder c a s = Some (tx_CrossShardTxID tx)) →
    sto (applyWriteSet e (tx_RwSet tx)) a s = sto e a s).
  { intros Hown. apply applyWriteSet_untouched. intros Hin. apply Hown in Hin. congruence. }
  destruct (tx_TxType tx); try (intros; by simplify_eq); try (intros [= <-]; by apply Hrw).
  - destruct Hw as (Hd&Hu&Hov). destruct (local_transfer_spec e tx Hd Hu Hov) as (r&e2&Hx&Hr).
    rewrite Hx. intros [= -> ->]. case_match; [apply Hr|by destruct Hr].
  - destruct (Debit_spec e (tx_From tx) _ Hw) as (r&e2&Hx&Hr). rewrite Hx. intros [= -> ->].
    case_match; [apply Hr|by destruct Hr].
  - destruct Hw as [Hu Hov]. destruct (Credit_spec e (tx_To tx) _ Hu Hov) as (e2&Hx&_&Hr).
    rewrite Hx. by intros [= <-].
  - by intros [= <-].
Qed.

Lemma writes_own_slots_same c e e' tx :
  same_evm e' e → writes_own_slots c e tx → writes_own_slots c e' tx.
Proof.
  intros He. unfold writes_own_slots.
  destruct (tx_TxType tx); try done; by rewrite (bal_proper _ _ He _ _ eq_refl).
Qed.

Fixpoint writes_own_run (c : Chain) e (txs : list Transaction) : Prop :=
  match txs with
  | [] => True
  | tx :: txs' =>
      writes_own_slots c e tx ∧
      match process_tx c e tx with
      | Some (_, c1, e1) => writes_own_run c1 e1 txs'
      | None => True
      end
  end.

Lemma process_tx_untouched c e tx ok c' e' id a s :
  writes_own_slots c e tx → holder c a s = Some id → id ≠ tx_CrossShardTxID tx →
  process_tx c e tx = Some (ok, c', e') → sto e' a s = sto e a s ∧ holder c' a s = Some id.
Proof.
  intros Hw Hh Hne Hp. pose proof (process_tx_frame _ _ _ _ _ _ Hp) as (_&Hk&Hfail).
  split; [|by apply Hk; [right|]]. destruct ok; [|by rewrite Hfail].
  apply process_tx_replay in Hp as [[_ He]|[_ Hx]]; [by rewrite He|].
  pose proof (es_Snapshot_same e) as Hs. rewrite <- Hs.
  eapply ExecuteTx_untouched; [|done|done|done]. by eapply writes_own_slots_same.
Qed.

(** C8. Validated reads stay valid: while the transactions that run are not those of
    a cross-shard transaction [id] and write storage only in slots they hold
    themselves, every slot that [id] holds keeps its value and stays held by [id]. *)
Theorem locked_slots_stable txs : ∀ c e l c' e' id a s,
  holder c a s = Some id → Forall (λ tx, tx_CrossShardTxID tx ≠ id) txs →
  writes_own_run c e txs → process_txs c e txs [] = Some (l, c', e') →
  sto e' a s = sto e a s ∧ holder c' a s = Some id.
Proof.
  induction txs as [|tx txs IH]; intros c e l c' e' id a s Hh Hids Hw.
  { cbn [process_txs]. by intros [= <- <- <-]. }
  apply Forall_cons in Hids as [Hid Hids]. destruct Hw as [Hw Hrun].
  rewrite process_txs_cons. intros (ok&c1&e1&l'&c2&e2&Htx&Hrest&[= -> -> ->]).
  rewrite Htx in Hrun.
  destruct (process_tx_untouched _ _ _ _ _ _ id a s Hw Hh (not_eq_sym Hid) Htx) as [Hs Hh1].
  rewrite <- Hs. by eapply IH.
Qed.
End stable.

(** ** Validated read sets justify the write set *)

(** Programs that only read and write storage. *)
Definition storage_op {A} (op : StateOp A) : bool :=
  match op with GetState _ _ => true | SetState _ _ v => (0 <=? v) && (v <? two256) | _ => false end.

Fixpoint storage_only {R} (p : Prog R) : Prop :=
  match p with
  | Ret _ => True
  | Vis A op k => storage_op op = true ∧ ∀ x, storage_only (k x)
  end.

Lemma storage_op_plain {A} (op : StateOp A) : storage_op op = true → plain_op op = true.
Proof. by destruct op. Qed.

Lemma storage_only_plain {R} (p : Prog R) : storage_only p → plain p.
Proof.
  induction p as [r|A op k IH]; simpl; [done|]. intros [Ho Hk].
  split; [by apply storage_op_plain|]. intros x. by apply IH.
Qed.

Section replay.
Context {DB : Type} `{GethStateDBLaws DB} `{Geth} `{!GethLaws} `{MapRange}.
Implicit Types (t : TrackingStateDB DB).

(** What has been recorded stays recorded. *)
Lemma reads_grow_op {A} (op : StateOp A) t a s v :
  storage_op op = true →
  slot_get (t_storageReads t) a s = Some v → slot_get (t_storageReads (do_op op t).2) a s = Some v.
Proof.
  intros Ho Hv. change (do_op op t) with (t_do A op t).
  assert (Hrec : ∀ t' a' s' v', t_storageReads t' = t_storageReads t →
    slot_get (t_storageReads (recordRead t' a' s' v')) a s = Some v).
  { intros t' a' s' v' He. rewrite slot_get_recordRead, He.
    rewrite decide_False; [done|]. intros (->&->&?). congruence. }
  destruct op; try done; cbn [t_do].
  - unfold t_GetState, pass; cbv zeta. destruct (do_op _ _). by apply Hrec.
  - unfold t_SetState, pass; cbv zeta. destruct (_ !! slot); [by destruct (do_op _ _)|].
    destruct (do_op (GetState _ _) _). simpl. destruct (do_op (SetState _ _ _) _). by apply Hrec.
Qed.

Lemma reads_grow {R} (p : Prog R) t a s v :
  storage_only p →
  slot_get (t_storageReads t) a s = Some v → slot_get (t_storageReads (exec p t).2) a s = Some v.
Proof.
  revert t. induction p as [r|A op k IH]; intros t; simpl; [done|]. intros [Ho Hk] Hv.
  pose proof (reads_grow_op op t a s v Ho Hv) as Hv'.
  destruct (do_op op t) as [x t']. by apply IH.
Qed.

(** Every slot an operation looks at is recorded. *)
Lemma op_recorded {A} (op : StateOp A) t :
  storage_op op = true →
  match op with
  | GetState a s | SetState a s _ => slot_get (t_storageReads (do_op op t).2) a s ≠ None
  | _ => True
  end.
Proof.
  intros Ho. change (do_op op t) with (t_do A op t). destruct op; try done; cbn [t_do].
  - unfold t_GetState, pass; cbv zeta. destruct (do_op _ _) as [v db]. cbn [fst snd].
    rewrite slot_get_recordRead. case_decide as Hd; [done|]. intros Hn. by apply Hd.
  - unfold t_SetState, pass; cbv zeta. destruct (_ !! slot) eqn:He.
    + destruct (do_op _ _). simpl. rewrite slot_get_inner. simpl in He. by rewrite He.
    + destruct (do_op (GetState _ _) _) as [v db]. cbn [fst snd].
      destruct (do_op (SetState _ _ _) _) as [w db']. cbn [fst snd].
      change (t_storageReads (with_inner (recordWrite ?t' _ _ _) _)) with (t_storageReads t').
      rewrite slot_get_recordRead. case_decide as Hd; [done|]. intros Hn. by apply Hd.
Qed.

(** The two runs: [t] tracks a run from [db0]; [dbx] is a run from [db] that has
    made the same writes. *)
Definition in_step (db : DB) t (dbx : DB) : Prop :=
  ∀ a s, storage dbx a s = default (storage db a s) (slot_get (t_storageWrites t) a s).

(** The slot has the same value in both runs, when its recorded read validates. *)
Lemma in_step_value db0 db t dbx a s :
  tracks db0 t → in_step db t dbx → storage db a s = storage db0 a s →
  storage dbx a s = storage (t_inner t) a s.
Proof. intros (_&_&Hs) Hi Hv. by rewrite Hi, Hs, Hv. Qed.

Lemma in_step_op db0 db {A} (op : StateOp A) t dbx :
  storage_op op = true → tracks db0 t → in_step db t dbx →
  (∀ a s v, slot_get (t_storageReads (do_op op t).2) a s = Some v → storage db a s = v) →
  (do_op op dbx).1 = (do_op op t).1 ∧ in_step db (do_op op t).2 (do_op op dbx).2.
Proof.
  intros Ho Ht Hi Hval. pose proof (op_recorded op t Ho) as Hrec.
  pose proof (tracks_op db0 op t (storage_op_plain op Ho) Ht) as Ht'.
  assert (Hsame : ∀ a s, slot_get (t_storageReads (do_op op t).2) a s ≠ None →
    storage dbx a s = storage (t_inner t) a s).
  { intros a s Hs. destruct (slot_get _ a s) as [v|] eqn:He; [|done]. clear Hs.
    eapply in_step_value; [done|done|]. rewrite (Hval a s v He). by destruct Ht' as [Hr _]; apply Hr. }
  destruct (t_do_sim op t (t_inner t)) as [Hres _]; [done|]. rewrite Hres.
  destruct op; try done.
  - split; [by apply Hsame|]. intros a' s'.
    rewrite (other_ops_storage dbx _ (GetState a slot)) by done. rewrite Hi. do 2 f_equal.
    change (do_op (GetState a slot) t) with (t_GetState t a slot).
    unfold t_GetState, pass; cbv zeta. by destruct (do_op _ (t_inner (recordAccess t a))).
  - split; [rewrite !set_state_ret; by apply Hsame|]. intros a' s'.
    change (do_op (SetState a slot value) t) with (t_SetState t a slot value).
    rewrite t_SetState_writes, slot_get_put, set_state_spec. case_decide; [done|apply Hi].
Qed.

Lemma in_step_exec db0 db {R} (p : Prog R) t dbx :
  storage_only p → tracks db0 t → in_step db t dbx →
  (∀ a s v, slot_get (t_storageReads (exec p t).2) a s = Some v → storage db a s = v) →
  (exec p dbx).1 = (exec p t).1 ∧ in_step db (exec p t).2 (exec p dbx).2.
Proof.
  revert t dbx. induction p as [r|A op k IH]; intros t dbx; simpl; [done|].
  intros [Ho Hk] Ht Hi Hval.
  pose proof (tracks_op db0 op t (storage_op_plain op Ho) Ht) as Ht'.
  pose proof (in_step_op db0 db op t dbx Ho Ht Hi) as Hstep.
  destruct (do_op op t) as [x t'] eqn:Hop. destruct (do_op op dbx) as [y dby]. simpl in *.
  destruct Hstep as [-> Hi'].
  - intros a s v Hv. apply Hval. by apply reads_grow.
  - by apply IH.
Qed.

End replay.

(** ** Witnesses *)

#[local] Existing Instance list_range.

Definition lockedChain : Chain := (lockSlotLocked (NewChain 0 0) "x" 2 0).2.

Lemma locked_slots_stable_witness :
  ∃ l c' e', process_txs lockedChain (fundedState 1 10) [transferTx 1 3 4] [] = Some (l, c', e') ∧
    sto e' 2 0 = sto (fundedState 1 10) 2 0 ∧ holder c' 2 0 = Some "x"%string.
Proof.
  eexists _, _, _. split; [vm_compute; reflexivity|].
  eapply (locked_slots_stable [transferTx 1 3 4] lockedChain (fundedState 1 10)).
  - reflexivity.
  - repeat constructor. discriminate.
  - split; [|vm_compute; exact I]. split; [reflexivity|]. split; [concrete_range|reflexivity].
  - vm_compute. reflexivity.
Defined.

(** Increment slot 0 of account 2. *)
Definition increment : Prog unit :=
  (let! x := call (GetState 2 0) in
   let! _ := call (SetState 2 0 ((x + 1) mod two256)) in Ret tt)%go.

Lemma increment_storage_only : storage_only increment.
Proof.
  split; [done|]. intros x. split; [|by intros]. simpl.
  pose proof (Z.mod_pos_bound (x + 1) two256 ltac:(reflexivity)). lia.
Qed.

