(* ===== verification/Receipts.v ===== *)
(** * Receipts: internal/shard/receipt.go

    The receipts of transactions sent through the JSON-RPC front end, by
    transaction hash. The store copies what it is given and what it gives out. *)

From S2P Require Import Prelude Codec Protocol VmState.

Open Scope Z_scope.

Record Receipt := mkReceipt {
  rc_TxHash : Hash;
  rc_TransactionIndex : Z;
  rc_BlockHash : Hash;
  rc_BlockNumber : option Z;
  rc_From : Address;
  rc_To : option Address;
  rc_CumulativeGasUsed : Z;
  rc_GasUsed : Z;
  rc_ContractAddress : option Address;
  rc_Logs : list (option Log);
  rc_LogsBloom : list byte;
  rc_Status : Z;
  rc_ReturnData : list byte
}.

(** A log pointer that is nil stays nil. *)
Definition Log_copy (l : option Log) : option Log :=
  match l with
  | Some log => Some (mkLog (log_Address log) (log_Topics log) (log_Data log))
  | None => None
  end.

Definition Receipt_DeepCopy (r : Receipt) : Receipt :=
  mkReceipt (rc_TxHash r) (rc_TransactionIndex r) (rc_BlockHash r) (rc_BlockNumber r) (rc_From r)
    (rc_To r) (rc_CumulativeGasUsed r) (rc_GasUsed r) (rc_ContractAddress r) (map Log_copy (rc_Logs r))
    (rc_LogsBloom r) (rc_Status r) (rc_ReturnData r).

Abbreviation ReceiptStore := (gmap Hash Receipt) (only parsing).

Definition NewReceiptStore : ReceiptStore := ∅.

Definition AddReceipt (s : ReceiptStore) (r : Receipt) : ReceiptStore :=
  <[rc_TxHash r := Receipt_DeepCopy r]> s.

Definition GetReceipt (s : ReceiptStore) (hash : Hash) : option Receipt := Receipt_DeepCopy <$> (s !! hash).

Lemma Receipt_DeepCopy_id r : Receipt_DeepCopy r = r.
Proof.
  unfold Receipt_DeepCopy. replace (map Log_copy (rc_Logs r)) with (rc_Logs r); [by destruct r|].
  induction (rc_Logs r) as [|[[]|] l IH]; simpl; by rewrite <- ?IH.
Qed.

(** What was added is found under its hash; the other receipts stay. *)
Lemma GetReceipt_Add s r h :
  GetReceipt (AddReceipt s r) h = if decide (h = rc_TxHash r) then Some r else GetReceipt s h.
Proof.
  unfold GetReceipt, AddReceipt. case_decide; subst.
  - rewrite lookup_insert_eq. simpl. by rewrite !Receipt_DeepCopy_id.
  - by rewrite lookup_insert_ne.
Qed.
