(* ===== verification/ShardServer.v ===== *)
(** * ShardServer: internal/shard/server.go

    A shard node: the handlers change the shard's state database, its chain and
    its block buffer, and answer with a response value. HTTP, logging and the
    timer of the block producer are left out: a handler takes the decoded request
    and returns the response and the new state; a message to another node is part
    of the response. Handlers run one at a time here. *)

From S2P Require Import Prelude Codec Protocol BlockBuffer VmState MemDB TrackingDB EvmState ShardChain Receipts.

Open Scope Z_scope.

Definition MaxBlockBuffer : Z := 100.
Definition MinGasLimit : Z := 21000.
Definition DefaultGasLimit : Z := 1000000.
Definition MaxGasLimit : Z := 30000000.
Definition SimulationGasLimit : Z := 3000000.

(** ** State *)

(** [Server], with the number of identifiers drawn from [uuid.New()] so far. *)
Record Server (DB : Type) := mkServer {
  sv_shardID : Z;
  sv_evmState : EVMState DB;
  sv_chain : Chain;
  sv_blockBuffer : BlockBuffer;
  sv_uuids : nat;
  sv_receipts : ReceiptStore
}.
Arguments mkServer {DB} _ _ _ _ _ _.
Arguments sv_shardID {DB} _.
Arguments sv_evmState {DB} _.
Arguments sv_chain {DB} _.
Arguments sv_blockBuffer {DB} _.
Arguments sv_uuids {DB} _.
Arguments sv_receipts {DB} _.

(** ** Requests *)

Record TransferRequest := mkTransferRequest { tr_From : string; tr_To : string; tr_Amount : string }.
Record FaucetRequest := mkFaucetRequest { fr_Address : string; fr_Amount : string }.
Record CreditRequest := mkCreditRequest { cd_TxID : string; cd_Address : string; cd_Amount : string }.
Record CrossShardTransferRequest := mkCrossShardTransferRequest {
  xr_From : string; xr_To : string; xr_ToShard : Z; xr_Amount : string }.
Record DeployRequest := mkDeployRequest {
  dr_From : string; dr_Bytecode : string; dr_Value : string; dr_Gas : Z }.
Record SetCodeRequest := mkSetCodeRequest {
  sr_Address : string; sr_Code : string; sr_Storage : gmap string string }.
Record CallRequest := mkCallRequest {
  ca_From : string; ca_To : string; ca_Data : string; ca_Value : string; ca_Gas : Z }.
Record TxSubmitRequest := mkTxSubmitRequest {
  ts_From : string; ts_To : string; ts_Value : string; ts_Data : string; ts_Gas : Z }.
Record StateFetchResponse := mkStateFetchResponse {
  sf_Success : bool; sf_Error : string; sf_Balance : Z; sf_Nonce : Z; sf_Code : list byte; sf_CodeHash : Hash }.

(** ** Responses *)

Inductive response : Type :=
| BadRequest (msg : string)
| Success
| SuccessFlag (ok : bool)
| Failure (msg : string) (gasUsed : Z)
| Prepared (r : PrepareResponse)
| Buffered
| Returned (ret : list byte) (gasUsed : Z)
| Deployed (addr : Address) (ret : list byte) (gasUsed targetShard : Z) (slots : nat)
| DeployNotForwarded (addr : Address) (gasUsed targetShard : Z)
| RwSetResult (r : RwSetReply)
| StateFetched (r : StateFetchResponse)
| Queued (txID : string)
| Refused (msg : string)
| ForwardedToOrchestrator (tx : CrossShardTx).

Section server.
Context {DB : Type} `{GethStateDB DB} `{Geth} `{EVM} `{MapRange} `{GethHex}.
(** The identifiers [uuid.New()] gives, in order. *)
Context (uuid : nat → string).
Implicit Types (s : Server DB).

Definition with_evm s e : Server DB :=
  mkServer (sv_shardID s) e (sv_chain s) (sv_blockBuffer s) (sv_uuids s) (sv_receipts s).
Definition with_chain s c : Server DB :=
  mkServer (sv_shardID s) (sv_evmState s) c (sv_blockBuffer s) (sv_uuids s) (sv_receipts s).

(** The server that [NewServer] and [NewServerForTest] build on an open database. *)
Definition fresh_server (shardID : Z) (db : DB) (now : Z) : Server DB :=
  mkServer shardID (fresh_evm db) (NewChain shardID now) (NewBlockBuffer shardID 1 MaxBlockBuffer) 0 NewReceiptStore.

(** [s.chain.AddTx(protocol.Transaction{ID: uuid.New().String(), ...})] *)
Definition queue s (txType : TxType) (crossID : string) (from to : Address) (value : option BigInt)
    (rwSet : list RwVariable) : Server DB :=
  mkServer (sv_shardID s) (sv_evmState s)
    (AddTx (sv_chain s)
      (mkTransaction (uuid (sv_uuids s)) 0 from to value 0 [] true txType crossID rwSet ""))
    (sv_blockBuffer s) (S (sv_uuids s)) (sv_receipts s).

(** The entries of a read/write set that belong to this shard. *)
Definition local_rwset (shardID : Z) (rws : list RwVariable) : list RwVariable :=
  map RwVariable_DeepCopy (filter (λ rw, ref_ShardNum (rw_ReferenceBlock rw) = shardID) rws).

(** *** Phase 1: results of earlier transactions *)

Definition queue_commit s (txID : string) : Server DB :=
  let s := match GetLockedFunds (sv_chain s) txID with
           | Some lock => queue s TxTypeCrossDebit txID (lf_Address lock) 0 (NewBigInt (Some (lf_Amount lock))) []
           | None => s
           end in
  let s := match GetPendingCredits (sv_chain s) txID with
           | Some credits =>
               foldl (λ s credit, queue s TxTypeCrossCredit txID 0 (pc_Address credit)
                        (NewBigInt (Some (pc_Amount credit))) []) s credits
           | None => s
           end in
  let s := match GetPendingCall (sv_chain s) txID with
           | Some pendingCall =>
               let localRwSet := local_rwset (sv_shardID s) (ct_RwSet pendingCall) in
               match localRwSet with
               | [] => s
               | _ => queue s TxTypeCrossWriteSet txID 0 0 None localRwSet
               end
           | None => s
           end in
  match GetPendingRwSet (sv_chain s) txID with
  | Some rwSet =>
      match rwSet with
      | [] => s
      | _ => queue s TxTypeFinalize txID 0 0 None rwSet
      end
  | None => s
  end.

Definition queue_abort s (txID : string) : Server DB :=
  let c := sv_chain s in
  let hasData := bool_decide (is_Some (GetLockedFunds c txID)) || bool_decide (is_Some (GetPendingCredits c txID))
                 || bool_decide (is_Some (GetPendingCall c txID)) || bool_decide (is_Some (GetPendingRwSet c txID)) in
  if hasData then queue s TxTypeCrossAbort txID 0 0 None [] else s.

Definition process_result s (txID : string) (committed : bool) : Server DB :=
  let '(fresh, c) := CheckAndMarkCommitProcessed (sv_chain s) txID in
  let s := with_chain s c in
  if negb fresh then s
  else
    let s := if committed then queue_commit s txID else queue_abort s txID in
    queue s TxTypeUnlock txID 0 0 None [].

(** *** Phase 2: new transactions *)

Definition store_credit s (tx : CrossShardTx) : Server DB :=
  let toShard := shard_of (ct_To tx) NumShards in
  if (0 <? ToBigInt (ct_Value tx)) && (toShard =? sv_shardID s)
  then with_chain s (StorePendingCredit (sv_chain s) (ct_ID tx) (ct_To tx) (ToBigInt (ct_Value tx)))
  else s.

Definition order_tx s (tx : CrossShardTx) : Server DB :=
  let localRwSet := local_rwset (sv_shardID s) (ct_RwSet tx) in
  if ct_FromShard tx =? sv_shardID s then
    let s := store_credit s tx in
    queue s TxTypeLock (ct_ID tx) (ct_From tx) (ct_To tx) (ct_Value tx) localRwSet
  else
    match localRwSet with
    | [] => s
    | _ =>
        let s := store_credit s tx in
        let s := match ct_Data tx with
                 | [] => s
                 | _ => with_chain s (StorePendingCall (sv_chain s) tx)
                 end in
        queue s TxTypeLock (ct_ID tx) (ct_From tx) (ct_To tx) None localRwSet
    end.

Definition processOrchestratorBlock s (block : OrchestratorShardBlock) : Server DB :=
  let lastProcessed := GetLastOrchestratorHeight (sv_chain s) in
  if ob_Height block <=? lastProcessed then s
  else
    let s := foldl (λ s '(txID, committed), process_result s txID committed) s
               (map_range (ob_TpcResult block)) in
    let s := foldl order_tx s (ob_CtToOrder block) in
    with_chain s (SetLastOrchestratorHeight (sv_chain s) (ob_Height block)).

Definition handleOrchestratorShardBlock s (block : OrchestratorShardBlock) : response * Server DB :=
  let '(blocksToProcess, buf) := ProcessBlock (sv_blockBuffer s) block in
  let s := mkServer (sv_shardID s) (sv_evmState s) (sv_chain s) buf (sv_uuids s) (sv_receipts s) in
  match blocksToProcess with
  | None => (Buffered, s)
  | Some blocks => (Success, foldl processOrchestratorBlock s blocks)
  end.

(** The heights of the recovery loop; [fetch] is what the orchestrator answers for
    a height ([None]: an error or not found, the loop goes on). The loop variable is
    a uint64; heights stay below its maximum. *)
Definition recoverFromOrchestrator s (latest : option Z) (fetch : Z → option OrchestratorShardBlock) : Server DB :=
  match latest with
  | None => s
  | Some orchestratorHeight =>
      let lastHeight := GetLastOrchestratorHeight (sv_chain s) in
      if orchestratorHeight <=? lastHeight then s
      else foldl (λ s height, match fetch height with
                              | None => s
                              | Some block => processOrchestratorBlock s block
                              end) s (seqZ (lastHeight + 1) (orchestratorHeight - lastHeight))
  end.


(** *** Value handlers *)

(** A panic of a conversion is recovered by net/http and drops the request. *)
Definition handleLocalTransfer s (req : TransferRequest) : panics (response * Server DB) :=
  let from := HexToAddress (tr_From req) in
  let to := HexToAddress (tr_To req) in
  match SetString (tr_Amount req) 10 with
  | None => Some (BadRequest "invalid amount", s)
  | Some amount =>
      match Debit (sv_evmState s) from amount with
      | None => None
      | Some (Some err, e) => Some (BadRequest "insufficient funds", with_evm s e)
      | Some (None, e) =>
          match Credit e to amount with
          | None => None
          | Some e' => Some (Success, with_evm s e')
          end
      end
  end.

Definition handleFaucet s (req : FaucetRequest) : panics (response * Server DB) :=
  let addr := HexToAddress (fr_Address req) in
  match SetString (fr_Amount req) 10 with
  | None => Some (BadRequest "invalid amount", s)
  | Some amount =>
      match Credit (sv_evmState s) addr amount with
      | None => None
      | Some e => Some (Success, with_evm s e)
      end
  end.

Definition handlePrepare s (req : PrepareRequest) : response * Server DB :=
  let lockedAmount := GetLockedAmountForAddress (sv_chain s) (pr_Address req) in
  let '(canCommit, e) := CanDebit (sv_evmState s) (pr_Address req) (pr_Amount req) lockedAmount in
  let s := with_evm s e in
  let s := if canCommit
           then with_chain s (LockFunds (sv_chain s) (pr_TxID req) (pr_Address req) (pr_Amount req))
           else s in
  (Prepared (mkPrepareResponse (pr_TxID req) canCommit
     (if canCommit then "" else "insufficient available balance")), s).

(** The error of [Debit] is not looked at. *)
Definition handleCommit s (req : CommitRequest) : panics (response * Server DB) :=
  match GetLockedFunds (sv_chain s) (cr_TxID req) with
  | Some lock =>
      match Debit (sv_evmState s) (lf_Address lock) (lf_Amount lock) with
      | None => None
      | Some (_, e) =>
          Some (SuccessFlag true, with_chain (with_evm s e) (ClearLock (sv_chain s) (cr_TxID req)))
      end
  | None => Some (SuccessFlag false, s)
  end.

Definition handleAbort s (req : CommitRequest) : response * Server DB :=
  match GetLockedFunds (sv_chain s) (cr_TxID req) with
  | Some _ => (SuccessFlag true, with_chain s (ClearLock (sv_chain s) (cr_TxID req)))
  | None => (SuccessFlag false, s)
  end.

Definition handleCredit s (req : CreditRequest) : panics (response * Server DB) :=
  let addr := HexToAddress (cd_Address req) in
  match SetString (cd_Amount req) 10 with
  | None => Some (BadRequest "invalid amount", s)
  | Some amount =>
      match Credit (sv_evmState s) addr amount with
      | None => None
      | Some e => Some (SuccessFlag true, with_evm s e)
      end
  end.

(** The transaction posted to the orchestrator. *)
Definition handleCrossShardTransfer s (req : CrossShardTransferRequest) : response * Server DB :=
  match SetString (xr_Amount req) 10 with
  | None => (BadRequest "invalid amount", s)
  | Some amount =>
      let toAddr := HexToAddress (xr_To req) in
      let tx := mkCrossShardTx (uuid (sv_uuids s)) 0 (sv_shardID s) (HexToAddress (xr_From req)) toAddr
                  (NewBigInt (Some amount)) 0 []
                  [mkRwVariable toAddr (mkReference (xr_ToShard req) 0 0) [] []]
                  TxNoStatus SimNoStatus "" in
      (ForwardedToOrchestrator tx,
       mkServer (sv_shardID s) (sv_evmState s) (sv_chain s) (sv_blockBuffer s) (S (sv_uuids s)) (sv_receipts s))
  end.

(** *** Contract handlers *)

(** The value of a request: absent is zero. *)
Definition parse_value (v : string) : option Z := if decide (v = ""%string) then Some 0 else SetString v 10.

(** The request to the shard of the new contract's address. *)
Definition setcode_request (addr : Address) (code : list byte) (writes : gmap Hash Hash) : SetCodeRequest :=
  mkSetCodeRequest (Address_Hex addr) (Bytes2Hex code)
    (foldl (λ m '(slot, value), <[Hash_Hex slot := Hash_Hex value]> m) ∅ (map_range writes)).

(** [sent]: whether the other shard could be reached. *)
Definition handleDeploy s (req : DeployRequest) (sent : bool) :
    panics (response * option (Z * SetCodeRequest) * Server DB) :=
  let from := HexToAddress (dr_From req) in
  let bytecode := FromHex (dr_Bytecode req) in
  match parse_value (dr_Value req) with
  | None => Some (BadRequest "invalid value", None, s)
  | Some value =>
      let gas := if dr_Gas req =? 0 then 3000000 else dr_Gas req in
      match DeployContractTracked (sv_evmState s) from bytecode value gas NumShards with
      | None => None
      | Some (Err (gasUsed, err), e) => Some (Failure err gasUsed, None, with_evm s e)
      | Some (Ok (contractAddr, returnData, gasUsed, _, storageWrites), e) =>
          let targetShard := shard_of contractAddr NumShards in
          let '(deployedCode, e1) := es_GetCode e contractAddr in
          let writes := default ∅ storageWrites in
          let s1 := with_evm s e1 in
          let done := Deployed contractAddr returnData gasUsed targetShard (size writes) in
          if targetShard =? sv_shardID s then Some (done, None, s1)
          else
            let msg := Some (targetShard, setcode_request contractAddr deployedCode writes) in
            if sent then Some (done, msg, s1)
            else Some (DeployNotForwarded contractAddr gasUsed targetShard, msg, s1)
      end
  end.

Definition handleSetCode s (req : SetCodeRequest) : response * Server DB :=
  let addr := HexToAddress (sr_Address req) in
  let code := FromHex (sr_Code req) in
  let targetShard := shard_of addr NumShards in
  if targetShard =? sv_shardID s then
    let e := es_SetCode (sv_evmState s) addr code in
    let e := foldl (λ e '(slotHex, valueHex),
               SetStorageAt e addr (HexToHash slotHex) (HexToHash valueHex)) e (map_range (sr_Storage req)) in
    (Success, with_evm s e)
  else (BadRequest "address belongs to another shard", s).

Definition handleCall s (req : CallRequest) : panics (response * Server DB) :=
  match parse_value (ca_Value req) with
  | None => Some (BadRequest "invalid value", s)
  | Some value =>
      let gas := if ca_Gas req =? 0 then 1000000 else ca_Gas req in
      match CallContract (sv_evmState s) (HexToAddress (ca_From req)) (HexToAddress (ca_To req))
              (FromHex (ca_Data req)) value gas with
      | None => None
      | Some (ret, gasUsed, _, Some err, e) => Some (Failure err gasUsed, with_evm s e)
      | Some (ret, gasUsed, _, None, e) => Some (Returned ret gasUsed, with_evm s e)
      end
  end.

Definition handleStaticCall s (req : CallRequest) : response * Server DB :=
  let gas := if ca_Gas req =? 0 then 1000000 else ca_Gas req in
  match EvmState.StaticCall (sv_evmState s) (HexToAddress (ca_From req)) (HexToAddress (ca_To req))
          (FromHex (ca_Data req)) gas with
  | (ret, gasUsed, Some err, e) => (Failure err gasUsed, with_evm s e)
  | (ret, gasUsed, None, e) => (Returned ret gasUsed, with_evm s e)
  end.

Definition handleStateFetch s (addr : Address) : response * Server DB :=
  let '(a, e) := GetAccountState (sv_evmState s) addr in
  (StateFetched (mkStateFetchResponse true "" (as_Balance a) (as_Nonce a) (as_Code a) (as_CodeHash a)),
   with_evm s e).

Definition handleRwSet s (req : RwSetRequest) : panics (response * Server DB) :=
  let targetShard := shard_of (rq_Address req) NumShards in
  if targetShard =? sv_shardID s then
    let value := ToBigInt (rq_Value req) in
    let refBlock := mkReference (sv_shardID s) (ref_BlockHash (rq_ReferenceBlock req))
                      (ref_BlockHeight (rq_ReferenceBlock req)) in
    match SimulateCallForRwSet (sv_evmState s) (rq_Caller req) (rq_Address req) (rq_Data req)
            value 1000000 refBlock with
    | None => None
    | Some (Err (gasUsed, err), e) => Some (RwSetResult (mkRwSetReply false [] err gasUsed), with_evm s e)
    | Some (Ok (rwSet, gasUsed), e) => Some (RwSetResult (mkRwSetReply true rwSet "" gasUsed), with_evm s e)
    end
  else Some (RwSetResult (mkRwSetReply false [] "address belongs to another shard" 0), s).

(** *** Transaction submission *)

(** [strings.ToLower] and [strings.Contains] on the ASCII messages of the EVM. *)
Definition lower_ascii (c : Ascii.ascii) : Ascii.ascii :=
  let n := Ascii.nat_of_ascii c in
  if ((65 <=? n) && (n <=? 90))%nat then Ascii.ascii_of_nat (n + 32) else c.

Fixpoint ToLower (str : string) : string :=
  match str with
  | EmptyString => EmptyString
  | String c rest => String (lower_ascii c) (ToLower rest)
  end.

Fixpoint Contains (str substr : string) : bool :=
  String.prefix substr str ||
  match str with
  | EmptyString => false
  | String _ rest => Contains rest substr
  end.

Definition containsIgnoreCase (str substr : string) : bool := Contains (ToLower str) (ToLower substr).

Definition localErrors : list string :=
  ["insufficient balance"; "insufficient funds"; "nonce too low"; "nonce too high"]%string.

Definition isDefiniteLocalError (errStr : string) : bool :=
  existsb (λ e, (String.length e <=? String.length errStr)%nat && containsIgnoreCase errStr e) localErrors.

Definition forwardToOrchestrator s (from to : Address) (value : Z) (data : list byte) (gas : Z)
    (crossShardAddrs : gmap Address Z) : response * Server DB :=
  let rwSet := map (λ '(addr, shardID), mkRwVariable addr (mkReference shardID 0 0) [] [])
                 (map_range crossShardAddrs) in
  let tx := mkCrossShardTx (uuid (sv_uuids s)) 0 (sv_shardID s) from to (NewBigInt (Some value)) gas data rwSet
              TxNoStatus SimNoStatus "" in
  (ForwardedToOrchestrator tx,
   mkServer (sv_shardID s) (sv_evmState s) (sv_chain s) (sv_blockBuffer s) (S (sv_uuids s)) (sv_receipts s)).

(** Where a transaction goes. *)
Inductive route : Type :=
| RouteLocal
| RouteCross (addrs : gmap Address Z)
| RouteFail (err : string).

(** The remote addresses of an access list. *)
Definition remote_addrs (shardID : Z) (addrs : list Address) : gmap Address Z :=
  foldl (λ m addr, let addrShard := shard_of addr NumShards in
                   if addrShard =? shardID then m else <[addr := addrShard]> m) ∅ addrs.

Definition route_tx s (from to : Address) (value : Z) (data : list byte) (gas : Z) :
    panics (route * EVMState DB) :=
  let toShard := shard_of to NumShards in
  let '(toCode, e) := es_GetCode (sv_evmState s) to in
  let isContract := match toCode with [] => false | _ => true end in
  let hasData := match data with [] => false | _ => true end in
  if negb (toShard =? sv_shardID s) then Some (RouteCross {[to := toShard]}, e)
  else if isContract && hasData then
    let simGas := if gas <? SimulationGasLimit then SimulationGasLimit else gas in
    match SimulateCall e from to data value simGas (sv_shardID s) NumShards with
    | None => None
    | Some (_, _, _, Some simErr, e1) =>
        if isDefiniteLocalError simErr then Some (RouteFail simErr, e1)
        else Some (RouteCross {[to := toShard]}, e1)
    | Some (_, accessedAddrs, hasCrossShard, None, e1) =>
        if hasCrossShard then Some (RouteCross (remote_addrs (sv_shardID s) accessedAddrs), e1)
        else Some (RouteLocal, e1)
    end
  else Some (RouteLocal, e).

(** A local transaction: a check of the balance, then the queue. *)
Definition submit_local s (from to : Address) (value : Z) (data : list byte) (gas : Z) : response * Server DB :=
  let e := sv_evmState s in
  let lockedAmount := GetLockedAmountForAddress (sv_chain s) from in
  let '(ok, e1) := if 0 <? value then CanDebit e from value lockedAmount else (true, e) in
  if ok then
    let txID := uuid (sv_uuids s) in
    let c := AddTx (sv_chain s)
      (mkTransaction txID 0 from to (NewBigInt (Some value)) gas data false TxTypeLocal "" [] "") in
    (Queued txID, mkServer (sv_shardID s) e1 c (sv_blockBuffer s) (S (sv_uuids s)) (sv_receipts s))
  else (Refused "insufficient balance", with_evm s e1).

Definition handleTxSubmit s (req : TxSubmitRequest) : panics (response * Server DB) :=
  let from := HexToAddress (ts_From req) in
  let to := HexToAddress (ts_To req) in
  let data := FromHex (ts_Data req) in
  match parse_value (ts_Value req) with
  | None => Some (BadRequest "invalid value", s)
  | Some value =>
      let gas := if ts_Gas req =? 0 then DefaultGasLimit else ts_Gas req in
      if gas <? MinGasLimit then Some (Refused "gas limit below minimum", s)
      else if MaxGasLimit <? gas then Some (Refused "gas limit exceeds maximum", s)
      else if negb (shard_of from NumShards =? sv_shardID s) then
        Some (BadRequest "sender belongs to another shard", s)
      else
        match route_tx s from to value data gas with
        | None => None
        | Some (RouteFail err, e) => Some (Refused err, with_evm s e)
        | Some (RouteCross addrs, e) =>
            Some (forwardToOrchestrator (with_evm s e) from to value data gas addrs)
        | Some (RouteLocal, e) => Some (submit_local (with_evm s e) from to value data gas)
        end
  end.

End server.

(** ** The shard's block producer *)

Section tick.
Context {DB : Type} `{GethStateDB DB} `{Geth} `{EVM} `{MapRange}.
Context (SHash : StateShardBlock → BlockHash).

Definition with_parts (s : Server DB) (c : Chain) (e : EVMState DB) : Server DB := with_chain (with_evm s e) c.

(** A tick of [blockProducer]: the block, if there is one, is sent to the
    orchestrator. *)
Definition shardTick (s : Server DB) (now : Z) : panics (option StateShardBlock * Server DB) :=
  '(b, c, e) ← ShardChain.ProduceBlock SHash (sv_chain s) (sv_evmState s) now; Some (b, with_parts s c e).
End tick.
