(* ===== verification/ServerBlocks.v ===== *)
(** * ServerBlocks: how a shard follows the orchestrator

    Properties of [processOrchestratorBlock], [handleOrchestratorShardBlock] and
    [recoverFromOrchestrator] of internal/shard/server.go: arrival order does not
    matter, every decision is acted on at most once, every involved shard queues
    the Lock that makes it vote, a commit queues exactly what was reserved. *)

From S2P Require Import Prelude Codec Protocol BlockBuffer VmState MemDB TrackingDB EvmState ShardChain SlotLocks TxOrder ShardBlock FundLocks ShardServer.

Open Scope Z_scope.

Section blocks.
Context {DB : Type} `{GethStateDB DB} `{MapRange}.
Context (uuid : nat → string).
Implicit Types (s : Server DB).

(** ** The buffer is independent of the processing *)

Definition set_buf s (b : BlockBuffer) : Server DB :=
  mkServer (sv_shardID s) (sv_evmState s) (sv_chain s) b (sv_uuids s) (sv_receipts s).

Lemma foldl_set_buf {A} (f : Server DB → A → Server DB) (b : BlockBuffer) :
  (∀ s x, f (set_buf s b) x = set_buf (f s x) b) →
  ∀ l s, foldl f (set_buf s b) l = set_buf (foldl f s l) b.
Proof. intros Hf l. induction l as [|x l IH]; intros s; simpl; [done|]. by rewrite Hf, IH. Qed.

Lemma queue_commit_buf s b txID :
  queue_commit uuid (set_buf s b) txID = set_buf (queue_commit uuid s txID) b.
Proof.
  unfold queue_commit. cbv zeta. simpl.
  set (s1 := match GetLockedFunds (sv_chain s) txID with Some _ => _ | None => s end).
  replace (match GetLockedFunds (sv_chain s) txID with Some _ => _ | None => set_buf s b end)
    with (set_buf s1 b) by (unfold s1; by destruct (GetLockedFunds _ _)).
  simpl. set (s2 := match GetPendingCredits (sv_chain s1) txID with Some _ => _ | None => s1 end).
  replace (match GetPendingCredits (sv_chain s1) txID with Some _ => _ | None => set_buf s1 b end)
    with (set_buf s2 b) by (unfold s2; destruct (GetPendingCredits _ _); [|done]; by rewrite foldl_set_buf).
  simpl. destruct (GetPendingCall (sv_chain s2) txID) as [call|]; [destruct (local_rwset _ _)|]; simpl;
    destruct (GetPendingRwSet _ txID) as [[|]|]; done.
Qed.

Lemma process_result_buf s b txID committed :
  process_result uuid (set_buf s b) txID committed = set_buf (process_result uuid s txID committed) b.
Proof.
  unfold process_result. simpl. destruct (CheckAndMarkCommitProcessed _ _) as [fresh c].
  change (with_chain (set_buf s b) c) with (set_buf (with_chain s c) b).
  destruct fresh; [|done]. simpl. destruct committed.
  - by rewrite queue_commit_buf.
  - unfold queue_abort. simpl. by destruct (_ || _).
Qed.

Lemma order_tx_buf s b tx : order_tx uuid (set_buf s b) tx = set_buf (order_tx uuid s tx) b.
Proof.
  unfold order_tx, store_credit. simpl.
  destruct (ct_FromShard tx =? sv_shardID s); [by destruct (_ && _)|].
  destruct (local_rwset _ _); [done|]. destruct (_ && _), (ct_Data tx); done.
Qed.

Lemma processBlock_buf s b block :
  processOrchestratorBlock uuid (set_buf s b) block = set_buf (processOrchestratorBlock uuid s block) b.
Proof.
  unfold processOrchestratorBlock. simpl. destruct (_ <=? _); [done|].
  rewrite (foldl_set_buf (λ s '(txID, committed), process_result uuid s txID committed))
    by (intros ? [??]; apply process_result_buf).
  rewrite (foldl_set_buf (order_tx uuid)) by (intros; apply order_tx_buf). done.
Qed.

(** Handling a sequence of arrivals processes what the buffer releases. *)
Lemma handle_deliver arrivals : ∀ s,
  foldl (λ s b, (handleOrchestratorShardBlock uuid s b).2) s arrivals
  = (let '(rel, buf) := deliver (sv_blockBuffer s) arrivals in
     set_buf (foldl (processOrchestratorBlock uuid) s rel) buf).
Proof.
  induction arrivals as [|blk rest IH]; intros s; simpl; [by destruct s|].
  rewrite IH. unfold handleOrchestratorShardBlock.
  destruct (ProcessBlock (sv_blockBuffer s) blk) as [r buf].
  change (mkServer _ _ _ buf _ _) with (set_buf s buf).
  destruct r as [blocks|]; simpl.
  - rewrite foldl_set_buf by (intros; apply processBlock_buf). simpl.
    destruct (deliver buf rest) as [rel buf']. rewrite foldl_app.
    rewrite foldl_set_buf by (intros; apply processBlock_buf). done.
  - destruct (deliver buf rest) as [rel buf'].
    rewrite foldl_set_buf by (intros; apply processBlock_buf). done.
Qed.

(** C12. Arrival order does not matter: when the orchestrator blocks of consecutive
    heights (as many as the buffer holds) reach a shard in any order, the shard ends
    in exactly the state it reaches by processing them in height order, and waits
    for the next height. *)
Theorem arrival_order_irrelevant s (blocks arrivals : list OrchestratorShardBlock) start :
  sv_blockBuffer s = NewBlockBuffer (sv_shardID s) start MaxBlockBuffer → 0 ≤ start →
  (∀ i x, blocks !! i = Some x → ob_Height x = start + Z.of_nat i) →
  arrivals ≡ₚ blocks → Z.of_nat (length blocks) ≤ MaxBlockBuffer →
  start + Z.of_nat (length blocks) < two64 →
  ∃ buf, foldl (λ s b, (handleOrchestratorShardBlock uuid s b).2) s arrivals
         = set_buf (foldl (processOrchestratorBlock uuid) s blocks) buf ∧
    GetExpected buf = start + Z.of_nat (length blocks).
Proof.
  intros Hbuf Hpos Hh Hperm Hcap Hb. rewrite handle_deliver, Hbuf.
  destruct (deliver_all (sv_shardID s) start MaxBlockBuffer blocks arrivals Hpos Hh Hperm Hcap Hb)
    as (b'&Hd&He&_). rewrite Hd. by exists b'.
Qed.

(** ** Every decision is acted on at most once *)

(** The queued transactions of a type for a cross-shard transaction. *)
Definition queued (ty : TxType) (txID : string) s : nat :=
  length (filter (λ tx, tx_TxType tx = ty ∧ tx_CrossShardTxID tx = txID) (sc_currentTxs (sv_chain s))).

(** The types that carry out a decision, one transaction each. *)
Definition decision_type (ty : TxType) : Prop :=
  ty = TxTypeCrossDebit ∨ ty = TxTypeCrossWriteSet ∨ ty = TxTypeFinalize ∨
  ty = TxTypeCrossAbort ∨ ty = TxTypeUnlock.

Lemma queued_queue ty id s ty' id' from to v rws :
  queued ty id (queue uuid s ty' id' from to v rws)
  = (queued ty id s + if decide (ty' = ty ∧ id' = id) then 1 else 0)%nat.
Proof.
  unfold queued, queue. simpl. rewrite filter_app, length_app, filter_cons. simpl. by case_decide.
Qed.

(** Queueing changes nothing else of the chain. *)
Lemma queue_chain s ty id from to v rws :
  let s' := queue uuid s ty id from to v rws in
  sc_processedCommits (sv_chain s') = sc_processedCommits (sv_chain s) ∧
  sv_shardID s' = sv_shardID s ∧ sv_evmState s' = sv_evmState s ∧
  (∀ i, GetLockedFunds (sv_chain s') i = GetLockedFunds (sv_chain s) i) ∧
  (∀ i, GetPendingCredits (sv_chain s') i = GetPendingCredits (sv_chain s) i) ∧
  (∀ i, GetPendingCall (sv_chain s') i = GetPendingCall (sv_chain s) i) ∧
  (∀ i, GetPendingRwSet (sv_chain s') i = GetPendingRwSet (sv_chain s) i).
Proof. done. Qed.

Lemma queue_credits_queued ty id s txID credits :
  ty ≠ TxTypeCrossCredit →
  let s' := foldl (λ s credit, queue uuid s TxTypeCrossCredit txID 0 (pc_Address credit)
                     (NewBigInt (Some (pc_Amount credit))) []) s credits in
  queued ty id s' = queued ty id s ∧
  sc_processedCommits (sv_chain s') = sc_processedCommits (sv_chain s).
Proof.
  intros Hty. revert s. induction credits as [|x l IH]; intros s; [done|]. cbn [foldl].
  destruct (IH (queue uuid s TxTypeCrossCredit txID 0 (pc_Address x) (NewBigInt (Some (pc_Amount x))) []))
    as [-> ->].
  rewrite queued_queue, decide_False; [|naive_solver]. split; [lia|done].
Qed.

Lemma queue_commit_queued ty id s txID :
  decision_type ty →
  (queued ty id (queue_commit uuid s txID)
   ≤ queued ty id s + if decide (id = txID ∧ ty ≠ TxTypeUnlock ∧ ty ≠ TxTypeCrossAbort) then 1 else 0)%nat ∧
  sc_processedCommits (sv_chain (queue_commit uuid s txID)) = sc_processedCommits (sv_chain s).
Proof.
  intros Hty. assert (Hc : ty ≠ TxTypeCrossCredit) by (by intros ->; destruct Hty as [|[|[|[|]]]]).
  unfold queue_commit. cbv zeta.
  set (s1 := match GetLockedFunds (sv_chain s) txID with Some _ => _ | None => s end).
  assert (Hq1 : (queued ty id s1 ≤ queued ty id s + if decide (ty = TxTypeCrossDebit ∧ id = txID) then 1 else 0)%nat
    ∧ sc_processedCommits (sv_chain s1) = sc_processedCommits (sv_chain s)).
  { unfold s1. destruct (GetLockedFunds _ _); [|split; [lia|done]].
    rewrite queued_queue. split; [|done]. repeat case_decide; naive_solver lia. }
  clearbody s1. destruct Hq1 as [Hq1 Hp1].
  set (s2 := match GetPendingCredits (sv_chain s1) txID with Some _ => _ | None => s1 end).
  assert (Hq2 : queued ty id s2 = queued ty id s1 ∧
    sc_processedCommits (sv_chain s2) = sc_processedCommits (sv_chain s1)).
  { unfold s2. destruct (GetPendingCredits _ _); [|done]. by apply queue_credits_queued. }
  clearbody s2. destruct Hq2 as [Hq2 Hp2].
  set (s3 := match GetPendingCall (sv_chain s2) txID with Some _ => _ | None => s2 end).
  assert (Hq3 : (queued ty id s3 ≤ queued ty id s2 + if decide (ty = TxTypeCrossWriteSet ∧ id = txID) then 1 else 0)%nat
    ∧ sc_processedCommits (sv_chain s3) = sc_processedCommits (sv_chain s2)).
  { unfold s3. destruct (GetPendingCall _ _); [|split; [lia|done]].
    destruct (local_rwset _ _); [split; [lia|done]|].
    rewrite queued_queue. split; [|done]. repeat case_decide; naive_solver lia. }
  clearbody s3. destruct Hq3 as [Hq3 Hp3].
  destruct (GetPendingRwSet (sv_chain s3) txID) as [[|x l]|]; rewrite ?queued_queue; simpl;
    (split; [|congruence]); repeat case_decide; destruct Hty as [|[|[|[|]]]]; naive_solver lia.
Qed.

(** One more transaction at most, and none when the decision is marked. *)
Definition budget (txID : string) s : nat := if IsCommitProcessed (sv_chain s) txID then 0 else 1.

Lemma process_result_queued ty id s txID committed :
  decision_type ty →
  let s' := process_result uuid s txID committed in
  (queued ty id s' + budget id s' ≤ queued ty id s + budget id s)%nat.
Proof.
  intros Hty s'. unfold s', process_result, CheckAndMarkCommitProcessed.
  destruct ((sc_processedCommits (sv_chain s)).[txID; false]) eqn:Hm; [done|]. simpl.
  set (s1 := with_chain s (MarkCommitProcessed (sv_chain s) txID)).
  assert (Hs1 : queued ty id s1 = queued ty id s) by done.
  set (s2 := if committed then queue_commit uuid s1 txID else queue_abort uuid s1 txID).
  assert (Hs2 : (queued ty id s2 ≤ queued ty id s + if decide (id = txID ∧ ty ≠ TxTypeUnlock) then 1 else 0)%nat ∧
    sc_processedCommits (sv_chain s2) = <[txID := true]> (sc_processedCommits (sv_chain s))).
  { unfold s2. destruct committed.
    - destruct (queue_commit_queued ty id s1 txID Hty) as [Hq ->]. split; [|done].
      rewrite Hs1 in Hq. repeat case_decide; naive_solver lia.
    - unfold queue_abort. destruct (_ || _); [|split; [lia|done]].
      rewrite queued_queue. split; [|done]. repeat case_decide; naive_solver lia. }
  clearbody s2. destruct Hs2 as [Hq Hp].
  rewrite queued_queue. unfold budget, IsCommitProcessed.
  change (sc_processedCommits (sv_chain (queue uuid s2 _ _ _ _ _ _))) with (sc_processedCommits (sv_chain s2)).
  rewrite Hp. destruct (decide (id = txID)) as [->|Hne].
  - rewrite map_get_insert_eq, Hm. repeat case_decide; naive_solver lia.
  - rewrite map_get_insert_ne by done.
    rewrite (decide_False (P := TxTypeUnlock = ty ∧ txID = id)) by naive_solver.
    rewrite decide_False in Hq by naive_solver. destruct (_.[id; false]); lia.
Qed.

Lemma order_tx_queued ty id s tx :
  decision_type ty →
  queued ty id (order_tx uuid s tx) = queued ty id s ∧ budget id (order_tx uuid s tx) = budget id s.
Proof.
  intros Hty. assert (Hl : ty ≠ TxTypeLock) by (by intros ->; destruct Hty as [|[|[|[|]]]]).
  assert (Hs : ∀ s', sc_currentTxs (sv_chain s') = sc_currentTxs (sv_chain s) →
    sc_processedCommits (sv_chain s') = sc_processedCommits (sv_chain s) →
    ∀ i from to v rws, queued ty id (queue uuid s' TxTypeLock i from to v rws) = queued ty id s ∧
      budget id (queue uuid s' TxTypeLock i from to v rws) = budget id s).
  { intros s' Hc Hp i from to v rws. rewrite queued_queue, decide_False by naive_solver.
    unfold queued, budget, IsCommitProcessed. simpl. rewrite Hc, Hp. split; [lia|done]. }
  unfold order_tx, store_credit. cbv zeta.
  destruct (ct_FromShard tx =? sv_shardID s); [apply Hs; by destruct (_ && _)|].
  destruct (local_rwset _ _); [done|].
  apply Hs; destruct (_ && _), (ct_Data tx); done.
Qed.

Lemma processBlock_queued ty id s block :
  decision_type ty →
  let s' := processOrchestratorBlock uuid s block in
  (queued ty id s' + budget id s' ≤ queued ty id s + budget id s)%nat.
Proof.
  intros Hty. cbv zeta. unfold processOrchestratorBlock. destruct (_ <=? _); [done|].
  set (s1 := foldl _ s (map_range (ob_TpcResult block))).
  set (s2 := foldl (order_tx uuid) s1 (ob_CtToOrder block)).
  assert (Hs1 : (queued ty id s1 + budget id s1 ≤ queued ty id s + budget id s)%nat).
  { unfold s1. generalize (map_range (ob_TpcResult block)). intros l. clear s1 s2. revert s.
    induction l as [|[txID b] l IH]; intros s; simpl; [done|].
    etrans; [apply IH|]. by apply process_result_queued. }
  assert (Hs2 : queued ty id s2 = queued ty id s1 ∧ budget id s2 = budget id s1).
  { unfold s2. generalize (ob_CtToOrder block). intros l. clear s2 Hs1. clearbody s1. revert s1.
    induction l as [|tx l IH]; intros s1; simpl; [done|].
    destruct (IH (order_tx uuid s1 tx)) as [-> ->]. by apply order_tx_queued. }
  change (queued ty id s2 + budget id s2 ≤ queued ty id s + budget id s)%nat.
  destruct Hs2 as [-> ->]. done.
Qed.


(** ** The involved shards vote *)

Lemma local_rwset_nonempty shardID rws :
  local_rwset shardID rws ≠ [] ↔ ∃ rw, rw ∈ rws ∧ ref_ShardNum (rw_ReferenceBlock rw) = shardID.
Proof.
  unfold local_rwset. rewrite RwSet_DeepCopy_id. split.
  - destruct (filter _ rws) as [|rw l] eqn:Hf; [done|]. intros _. exists rw.
    assert (rw ∈ filter (λ rw, ref_ShardNum (rw_ReferenceBlock rw) = shardID) rws) as Hin
      by (rewrite Hf; apply list_elem_of_here).
    apply list_elem_of_filter in Hin. naive_solver.
  - intros (rw&Hin&Hs) Hf. exact (filter_nil_not_elem_of _ rws rw Hf Hs Hin).
Qed.

(** Exactly the shards the orchestrator expects votes from queue a Lock: an
    involved shard queues one Lock for an ordered transaction, with the entries of
    the read/write set that are its own, and reserves the value on the source shard
    only; a shard that is not involved does nothing. *)
Theorem involved_shards_lock s tx :
  if decide (sv_shardID s ∈ InvolvedShards tx)
  then ∃ t, sc_currentTxs (sv_chain (order_tx uuid s tx)) = sc_currentTxs (sv_chain s) ++ [t] ∧
         tx_TxType t = TxTypeLock ∧ tx_CrossShardTxID t = ct_ID tx ∧ tx_From t = ct_From tx ∧
         tx_RwSet t = filter (λ rw, ref_ShardNum (rw_ReferenceBlock rw) = sv_shardID s) (ct_RwSet tx) ∧
         ToBigInt (tx_Value t) = (if sv_shardID s =? ct_FromShard tx then ToBigInt (ct_Value tx) else 0)
  else order_tx uuid s tx = s.
Proof.
  unfold order_tx. cbv zeta.
  assert (Hrw : map RwVariable_DeepCopy (local_rwset (sv_shardID s) (ct_RwSet tx))
    = filter (λ rw, ref_ShardNum (rw_ReferenceBlock rw) = sv_shardID s) (ct_RwSet tx))
    by (unfold local_rwset; by rewrite !RwSet_DeepCopy_id).
  assert (Hin : sv_shardID s ∈ InvolvedShards tx ↔
    sv_shardID s = ct_FromShard tx ∨ local_rwset (sv_shardID s) (ct_RwSet tx) ≠ []).
  { by rewrite elem_of_InvolvedShards, elem_of_TargetShards, local_rwset_nonempty. }
  destruct (ct_FromShard tx =? sv_shardID s) eqn:Hf.
  - apply Z.eqb_eq in Hf. rewrite decide_True by (apply Hin; by left).
    replace (sv_shardID s =? ct_FromShard tx) with true by lia.
    eexists. split_and!; [by unfold store_credit; destruct (_ && _)|done|done|done|exact Hrw|].
    apply ToBigInt_DeepCopy.
  - apply Z.eqb_neq in Hf. replace (sv_shardID s =? ct_FromShard tx) with false by lia.
    destruct (local_rwset _ _) as [|rw l] eqn:Hl.
    + rewrite decide_False; [done|]. rewrite Hin. naive_solver.
    + rewrite decide_True by (apply Hin; by right).
      eexists. split_and!; [by unfold store_credit; destruct (_ && _), (ct_Data tx)|done..|exact Hrw|done].
Qed.

(** ** What a commit queues *)

Lemma queue_credits_txs s txID credits :
  let s' := foldl (λ s credit, queue uuid s TxTypeCrossCredit txID 0 (pc_Address credit)
                     (NewBigInt (Some (pc_Amount credit))) []) s credits in
  (∃ l, sc_currentTxs (sv_chain s') = sc_currentTxs (sv_chain s) ++ l ∧
     (λ t, (tx_TxType t, tx_CrossShardTxID t, tx_To t, ToBigInt (tx_Value t))) <$> l
     = (λ c, (TxTypeCrossCredit, txID, pc_Address c, pc_Amount c)) <$> credits) ∧
  sv_chain s' = set_currentTxs (sv_chain s) (sc_currentTxs (sv_chain s')) ∧
  sv_shardID s' = sv_shardID s.
Proof.
  revert s. induction credits as [|x l IH]; intros s; cbn [foldl].
  { split_and!; [exists []; by rewrite app_nil_r|by destruct s as [? ? []]|done]. }
  set (s1 := queue uuid s TxTypeCrossCredit txID 0 (pc_Address x) (NewBigInt (Some (pc_Amount x))) []).
  destruct (IH s1) as ((k&Hk&Hmap)&Hc&Hid). split_and!.
  - eexists. rewrite Hk. unfold s1 at 1. simpl. rewrite <- app_assoc. split; [done|].
    change ([?t] ++ k) with (t :: k). rewrite !fmap_cons, Hmap. done.
  - rewrite Hc. done.
  - exact Hid.
Qed.

(** A commit queues exactly what the transaction holds: acting on the first
    commit decision for a transaction that has reserved funds and pending credits
    (and no contract call) appends, in this order, one debit of exactly the reserved
    amount from the reserving account, one credit per pending credit, the
    finalisation of the validated write set if there is one, and the unlock. *)
Theorem commit_queues_holdings s txID lock credits rws :
  IsCommitProcessed (sv_chain s) txID = false →
  GetLockedFunds (sv_chain s) txID = Some lock →
  GetPendingCredits (sv_chain s) txID = Some credits →
  GetPendingCall (sv_chain s) txID = None →
  GetPendingRwSet (sv_chain s) txID = Some rws →
  ∃ d l f u,
    sc_currentTxs (sv_chain (process_result uuid s txID true)) = sc_currentTxs (sv_chain s) ++ d :: l ++ f ++ [u] ∧
    (tx_TxType d, tx_CrossShardTxID d, tx_From d, ToBigInt (tx_Value d))
      = (TxTypeCrossDebit, txID, lf_Address lock, lf_Amount lock) ∧
    (λ t, (tx_TxType t, tx_CrossShardTxID t, tx_To t, ToBigInt (tx_Value t))) <$> l
      = (λ c, (TxTypeCrossCredit, txID, pc_Address c, pc_Amount c)) <$> credits ∧
    (λ t, (tx_TxType t, tx_CrossShardTxID t, tx_RwSet t)) <$> f
      = (if decide (rws = []) then [] else [(TxTypeFinalize, txID, rws)]) ∧
    (tx_TxType u, tx_CrossShardTxID u) = (TxTypeUnlock, txID).
Proof.
  intros Hm Hl Hcr Hcall Hrw. unfold process_result, CheckAndMarkCommitProcessed, IsCommitProcessed in *.
  rewrite Hm. cbn [negb]. set (s1 := with_chain s (MarkCommitProcessed (sv_chain s) txID)).
  unfold queue_commit. cbv zeta.
  change (GetLockedFunds (sv_chain s1) txID) with (GetLockedFunds (sv_chain s) txID). rewrite Hl.
  set (s2 := queue uuid s1 TxTypeCrossDebit txID (lf_Address lock) 0 (NewBigInt (Some (lf_Amount lock))) []).
  change (GetPendingCredits (sv_chain s2) txID) with (GetPendingCredits (sv_chain s) txID). rewrite Hcr.
  destruct (queue_credits_txs s2 txID credits) as ((l&Hcur&Hmap)&Hc&_).
  set (s3 := foldl _ s2 credits) in *.
  assert (GetPendingCall (sv_chain s3) txID = None) as -> by (rewrite Hc; exact Hcall).
  assert (GetPendingRwSet (sv_chain s3) txID = Some rws) as -> by (rewrite Hc; exact Hrw).
  assert (Hfin : ∃ f, sc_currentTxs (sv_chain (match rws with [] => s3
      | _ => queue uuid s3 TxTypeFinalize txID 0 0 None rws end)) = sc_currentTxs (sv_chain s3) ++ f ∧
      (λ t, (tx_TxType t, tx_CrossShardTxID t, tx_RwSet t)) <$> f
      = (if decide (rws = []) then [] else [(TxTypeFinalize, txID, rws)])).
  { destruct rws as [|rw rws']; [exists []; by rewrite app_nil_r|]. eexists. split; [done|].
    rewrite decide_False by done. cbn. by rewrite RwSet_DeepCopy_id, RwVariable_DeepCopy_id. }
  destruct Hfin as (f&Hf&Hfm). eexists _, l, f, _. split.
  { cbn [sc_currentTxs sv_chain queue AddTx set_currentTxs]. rewrite Hf, Hcur. unfold s2.
    cbn [sc_currentTxs sv_chain queue AddTx set_currentTxs]. rewrite <- !app_assoc. reflexivity. }
  by split_and!.
Qed.
End blocks.

(** ** Recovery and the block buffer *)

Section recovery.
Context {DB : Type} `{GethStateDB DB} `{MapRange}.
Context (uuid : nat → string).
Implicit Types (s : Server DB).

Lemma processBlock_keeps_buffer s block :
  sv_blockBuffer (processOrchestratorBlock uuid s block) = sv_blockBuffer s.
Proof.
  pose proof (processBlock_buf uuid s (sv_blockBuffer s) block) as Hb.
  replace (set_buf s (sv_blockBuffer s)) with s in Hb by (by destruct s). by rewrite Hb.
Qed.

(** Blocks of the orchestrator queue transactions; the state waits for the next
    block of the shard. *)
Lemma queue_commit_evm s id : sv_evmState (queue_commit uuid s id) = sv_evmState s.
Proof.
  assert (Hcredits : ∀ l s, sv_evmState (foldl (λ s credit, queue uuid s TxTypeCrossCredit id 0 (pc_Address credit)
    (NewBigInt (Some (pc_Amount credit))) []) s l) = sv_evmState s)
    by (induction l as [|x l IH]; intros s0; [done|]; simpl; by rewrite IH).
  unfold queue_commit. repeat (case_match; cbn [sv_evmState queue]); by rewrite ?Hcredits.
Qed.

Lemma process_result_evm s id v : sv_evmState (process_result uuid s id v) = sv_evmState s.
Proof.
  unfold process_result, queue_abort. destruct (CheckAndMarkCommitProcessed _ _) as [fresh c]. destruct (negb fresh); [done|].
  cbn [sv_evmState queue]. destruct v; [by rewrite queue_commit_evm|]. by case_match.
Qed.

Lemma order_tx_evm s tx : sv_evmState (order_tx uuid s tx) = sv_evmState s.
Proof.
  assert (Hcredit : ∀ s, sv_evmState (store_credit s tx) = sv_evmState s)
    by (intros s0; unfold store_credit; by case_match).
  unfold order_tx. case_match; [apply Hcredit|]. case_match; [done|].
  cbn [sv_evmState queue]. destruct (ct_Data tx); apply Hcredit.
Qed.

Lemma processBlock_evm s block : sv_evmState (processOrchestratorBlock uuid s block) = sv_evmState s.
Proof.
  unfold processOrchestratorBlock. destruct (_ <=? _); [done|]. cbn [sv_evmState with_chain].
  assert (Hall : ∀ l s, sv_evmState (foldl (order_tx uuid) s l) = sv_evmState s)
    by (induction l as [|x l IH]; intros s0; [done|]; simpl; by rewrite IH, order_tx_evm).
  rewrite Hall. generalize (map_range (ob_TpcResult block)) as l. intros l. revert s.
  induction l as [|[id v] l IH]; intros s; [done|]. simpl. by rewrite IH, process_result_evm.
Qed.

Lemma recover_evm s latest fetch : sv_evmState (recoverFromOrchestrator uuid s latest fetch) = sv_evmState s.
Proof.
  unfold recoverFromOrchestrator. destruct latest as [h|]; [|done]. destruct (_ <=? _); [done|].
  generalize (seqZ (GetLastOrchestratorHeight (sv_chain s) + 1) (h - GetLastOrchestratorHeight (sv_chain s))) as l.
  intros l. revert s. induction l as [|x l IH]; intros s; [done|]. simpl. rewrite IH.
  destruct (fetch x); [apply processBlock_evm|done].
Qed.

(** Recovery leaves the block buffer behind: a restarted shard replays the blocks
    the orchestrator has, but its buffer still waits for the first block, so the
    next block the orchestrator sends is only buffered and never processed. *)
Theorem recovery_leaves_buffer_behind shardID (db : DB) now h fetch block :
  0 < h → ob_Height block = h + 1 →
  let s := recoverFromOrchestrator uuid (fresh_server shardID db now) (Some h) fetch in
  let '(r, s') := handleOrchestratorShardBlock uuid s block in
  r = Buffered ∧ sv_chain s' = sv_chain s ∧ GetExpected (sv_blockBuffer s') = 1.
Proof.
  intros Hh Hb s.
  assert (Hbuf : sv_blockBuffer s = NewBlockBuffer shardID 1 MaxBlockBuffer).
  { unfold s, recoverFromOrchestrator. destruct (_ <=? _); [done|].
    set (s0 := fresh_server shardID db now). change (NewBlockBuffer _ _ _) with (sv_blockBuffer s0).
    generalize (seqZ (GetLastOrchestratorHeight (sv_chain s0) + 1)
      (h - GetLastOrchestratorHeight (sv_chain s0))). intros l. generalize s0. clear s s0.
    induction l as [|x l IH]; intros s0; simpl; [done|]. rewrite IH.
    destruct (fetch x); [apply processBlock_keeps_buffer|done]. }
  unfold handleOrchestratorShardBlock, ProcessBlock. rewrite Hbuf, Hb. simpl.
  replace (h + 1 =? 1) with false by lia. replace (1 <? h + 1) with true by lia.
  by rewrite decide_False by (rewrite lookup_empty; by intros []).
Qed.
End recovery.

(** ** Witnesses *)

#[local] Existing Instance list_range.

Definition sampleUuid (n : nat) : string := "u".

Definition sampleServer : Server MemDB := fresh_server 0 emptyMem 0.

Definition sampleBlock (h : Z) (results : gmap string bool) : OrchestratorShardBlock :=
  mkOrchestratorShardBlock h 0 0 results [].

Lemma arrival_order_irrelevant_witness :
  ∃ buf, foldl (λ s b, (handleOrchestratorShardBlock sampleUuid s b).2) sampleServer
           [sampleBlock 2 {["x" := true]}; sampleBlock 1 ∅]
         = set_buf (foldl (processOrchestratorBlock sampleUuid) sampleServer
             [sampleBlock 1 ∅; sampleBlock 2 {["x" := true]}]) buf ∧ GetExpected buf = 3.
Proof.
  apply (arrival_order_irrelevant sampleUuid sampleServer
    [sampleBlock 1 ∅; sampleBlock 2 {["x" := true]}] _ 1).
  - reflexivity.
  - discriminate.
  - intros [|[|i]] x Hx; simplify_eq/=; done.
  - apply Permutation_swap.
  - discriminate.
  - reflexivity.
Defined.


(** A server that holds a reservation, a credit and a write set for "x". *)
Definition holdingServer : Server MemDB :=
  with_chain sampleServer
    (set_pendingRwSets (StorePendingCredit (LockFunds (NewChain 0 0) "x" 1 10) "x" 8 10)
       {["x" := sampleRwSet]}).

Lemma commit_queues_holdings_witness :
  ∃ d l f u, sc_currentTxs (sv_chain (process_result sampleUuid holdingServer "x" true)) = d :: l ++ f ++ [u] ∧
    ToBigInt (tx_Value d) = 10 ∧ length l = 1%nat ∧ length f = 1%nat.
Proof.
  destruct (commit_queues_holdings sampleUuid holdingServer "x" (mkLockedFunds 1 10)
    [mkPendingCredit 8 10] sampleRwSet) as (d&l&f&u&Hq&Hd&Hl&Hf&_).
  - reflexivity.
  - reflexivity.
  - reflexivity.
  - reflexivity.
  - vm_compute. reflexivity.
  - exists d, l, f, u. split; [exact Hq|]. split; [by injection Hd|].
    rewrite <- (length_fmap (λ t, (tx_TxType t, tx_CrossShardTxID t, tx_To t, ToBigInt (tx_Value t))) l), Hl.
    rewrite <- (length_fmap (λ t, (tx_TxType t, tx_CrossShardTxID t, tx_RwSet t)) f), Hf.
    split; reflexivity.
Defined.

Lemma recovery_leaves_buffer_behind_witness :
  let s := recoverFromOrchestrator sampleUuid sampleServer (Some 1) (λ h, Some (sampleBlock h ∅)) in
  GetLastOrchestratorHeight (sv_chain s) = 1 ∧
  (handleOrchestratorShardBlock sampleUuid s (sampleBlock 2 ∅)).1 = Buffered.
Proof.
  intros s. split; [vm_compute; reflexivity|].
  pose proof (recovery_leaves_buffer_behind sampleUuid 0 emptyMem 0 1
    (λ h, Some (sampleBlock h ∅)) (sampleBlock 2 ∅)) as Hr.
  cbv zeta in Hr. fold sampleServer in Hr. fold s in Hr.
  destruct (handleOrchestratorShardBlock sampleUuid s (sampleBlock 2 ∅)) as [r s'].
  apply Hr; reflexivity.
Defined.
