(* ===== verification/ServerHandlers.v ===== *)
(** * ServerHandlers: the request handlers of internal/shard/server.go

    Reservation by request (prepare, commit, abort) keeps the shard solvent, a
    submitted transaction is queued locally only when everything about it is local
    and well formed, and contract code forwarded between shards arrives with its
    storage. *)

From S2P Require Import Prelude Codec Protocol BlockBuffer VmState MemDB TrackingDB EvmState ShardChain SlotLocks TxOrder ShardBlock FundLocks ShardServer.

Open Scope Z_scope.

Section handlers.
Context {DB : Type} `{GethStateDBLaws DB} `{Geth} `{!GethLaws} `{EVM} `{!EVMLaws} `{MapRange} `{GethHex}.
Context (uuid : nat → string).
Implicit Types (s : Server DB).

Definition solvent_server s : Prop := solvent (sv_chain s) (sv_evmState s).

(** ** Prepare, commit, abort *)

Lemma prepare_cases s req :
  let reserved := GetLockedAmountForAddress (sv_chain s) (pr_Address req) in
  let ok := pr_Amount req <=? bal (sv_evmState s) (pr_Address req) - reserved in
  ∃ e', same_evm e' (sv_evmState s) ∧
    handlePrepare s req
    = (Prepared (mkPrepareResponse (pr_TxID req) ok (if ok then "" else "insufficient available balance")),
       with_chain (with_evm s e')
         (if ok then LockFunds (sv_chain s) (pr_TxID req) (pr_Address req) (pr_Amount req) else sv_chain s)).
Proof.
  cbv zeta. unfold handlePrepare.
  pose proof (CanDebit_spec (sv_evmState s) (pr_Address req) (pr_Amount req)
    (GetLockedAmountForAddress (sv_chain s) (pr_Address req))) as Hc.
  destruct (CanDebit _ _ _ _) as [ok e']. destruct Hc as [-> He]. exists e'. split; [done|].
  by destruct (_ <=? _).
Qed.

Lemma solvent_LockFunds c (e : EVMState DB) id a amount :
  solvent c e → sc_locked c !! id = None → 0 ≤ amount →
  getLockedAmountForAddrLocked c a + amount ≤ bal e a → solvent (LockFunds c id a amount) e.
Proof.
  intros (Hwf&Hpos&Hcov) Hn Ha Hle. destruct (lockFunds_wf c id a amount Hwf Hn) as [Hwf' Hs].
  split_and!; [done| |].
  - intros id' lf. simpl. intros [[_ <-]|[_ Hl]]%lookup_insert_Some; [done|by eapply Hpos].
  - intros a'. unfold LockFunds. rewrite Hs. specialize (Hcov a'). case_decide; subst; lia.
Qed.

(** [ClearLock] and [clearLockLocked] leave the same sums. *)
Lemma solvent_ClearLock c (e : EVMState DB) id : solvent c e → solvent (ClearLock c id) e.
Proof.
  intros Hs. pose proof (λ a, reserved_nonneg c e id a Hs) as Hr. destruct Hs as (Hwf&Hpos&Hcov).
  destruct (clear_lock_wf swap_remove swap_remove_perm c id Hwf) as [Hwf' Ha]. split_and!.
  - done.
  - intros id' lf. unfold ClearLock, clear_lock_with. destruct (sc_locked c !! id); [|apply Hpos].
    simpl. intros [_ Hl]%lookup_delete_Some. by eapply Hpos.
  - intros a. unfold ClearLock. rewrite Ha. specialize (Hr a). specialize (Hcov a). lia.
Qed.

(** A reservation is within the balance of its account. *)
Lemma reservation_affordable c (e : EVMState DB) id lock :
  solvent c e → sc_locked c !! id = Some lock → lf_Amount lock ≤ bal e (lf_Address lock).
Proof.
  intros (Hwf&Hpos&Hcov) Hl. specialize (Hcov (lf_Address lock)). rewrite locked_amount_sum in Hcov.
  destruct (clear_lock_entries slice_remove slice_remove_perm c id lock Hwf Hl) as [Hp _].
  rewrite Hp in Hcov. simpl in Hcov.
  enough (0 ≤ sumZ le_amount (entries (clear_lock_with slice_remove c id) (lf_Address lock))) by lia.
  apply sumZ_nonneg. intros en Hen. destruct Hwf as (_&Hin&_).
  assert (en ∈ entries c (lf_Address lock)) as Hen' by (rewrite Hp; by apply list_elem_of_further).
  apply Hin in Hen'. by apply Hpos in Hen'.
Qed.

(** Committing a reservation debits it and keeps the shard solvent. *)
Lemma commit_debits s req lock :
  solvent_server s → GetLockedFunds (sv_chain s) (cr_TxID req) = Some lock → is_u256 (lf_Amount lock) →
  ∃ s', handleCommit s req = Some (SuccessFlag true, s') ∧ solvent_server s' ∧
    GetLockedFunds (sv_chain s') (cr_TxID req) = None ∧
    ∀ a, bal (sv_evmState s') a
      = bal (sv_evmState s) a - (if decide (a = lf_Address lock) then lf_Amount lock else 0).
Proof.
  intros Hs Hl Hu. pose proof (reservation_affordable _ _ _ _ Hs Hl) as Hle.
  unfold handleCommit. rewrite Hl.
  destruct (Debit_spec (sv_evmState s) (lf_Address lock) _ Hu) as (r&e'&Hd&Hr). rewrite Hd.
  rewrite (proj2 (Z.leb_le _ _) Hle) in Hr. destruct Hr as (_&Hb&_).
  eexists. split; [done|]. destruct Hs as (Hwf&Hpos&Hcov).
  destruct (clear_lock_wf swap_remove swap_remove_perm _ (cr_TxID req) Hwf) as [Hwf' Ha].
  unfold reserved in Ha. unfold GetLockedFunds in *. rewrite Hl in Ha.
  assert (Hlk : sc_locked (ClearLock (sv_chain s) (cr_TxID req)) = delete (cr_TxID req) (sc_locked (sv_chain s)))
    by (unfold ClearLock, clear_lock_with; by rewrite Hl).
  split; [split_and!|split].
  - exact Hwf'.
  - intros id' lf. cbn [sv_chain with_chain]. rewrite Hlk.
    intros [_ Hlf]%lookup_delete_Some. by eapply Hpos.
  - intros a. simpl. unfold ClearLock. rewrite Ha, Hb. specialize (Hcov a). case_decide; subst; lia.
  - cbn [sv_chain with_chain]. rewrite Hlk. apply lookup_delete_eq.
  - intros a. simpl. rewrite Hb. case_decide; subst; lia.
Qed.


(** ** Submission *)

Lemma route_local s from to value data gas e :
  route_tx s from to value data gas = Some (RouteLocal, e) → shard_of to NumShards = sv_shardID s.
Proof.
  unfold route_tx. destruct (es_GetCode _ _) as [code e0].
  destruct (shard_of to NumShards =? sv_shardID s) eqn:Ht; [by apply Z.eqb_eq in Ht|done].
Qed.

(** What the submission endpoint queues locally is local and well formed: the
    sender and the recipient belong to this shard, the gas limit is within the
    bounds (so the executor's fallback limit is never used), a positive value was
    covered by the balance net of reservations, and the queued transaction carries
    exactly the submitted fields. *)
Theorem submitted_local_tx_valid s req txID s' :
  handleTxSubmit uuid s req = Some (Queued txID, s') →
  ∃ tx value,
    sc_currentTxs (sv_chain s') = sc_currentTxs (sv_chain s) ++ [tx] ∧
    parse_value (ts_Value req) = Some value ∧
    tx_TxType tx = TxTypeLocal ∧ tx_ID tx = txID ∧
    tx_From tx = HexToAddress (ts_From req) ∧ tx_To tx = HexToAddress (ts_To req) ∧
    tx_Data tx = FromHex (ts_Data req) ∧ ToBigInt (tx_Value tx) = value ∧
    shard_of (tx_From tx) NumShards = sv_shardID s ∧ shard_of (tx_To tx) NumShards = sv_shardID s ∧
    MinGasLimit ≤ tx_Gas tx ≤ MaxGasLimit.
Proof.
  unfold handleTxSubmit, submit_local. destruct (parse_value (ts_Value req)) as [value|]; [|done].
  set (gas := if ts_Gas req =? 0 then DefaultGasLimit else ts_Gas req).
  destruct (gas <? MinGasLimit) eqn:Hmin; [done|]. destruct (MaxGasLimit <? gas) eqn:Hmax; [done|].
  destruct (shard_of (HexToAddress (ts_From req)) NumShards =? sv_shardID s) eqn:Hf; [|done].
  cbn [negb]. destruct (route_tx _ _ _ _ _ _) as [[[] e]|] eqn:Hr; [|done|done|done].
  destruct (if 0 <? value then _ else _) as [[|] e1]; [|done].
  intros [= <- <-]. apply route_local in Hr. eexists _, value.
  split; [reflexivity|]. cbn. split_and!; try done; lia.
Qed.

(** ** Forwarding contract code *)

Lemma set_all_sto (l : list (Hash * Hash)) (e : EVMState DB) addr a slot :
  NoDup l.*1 →
  sto (foldl (λ e '(k, v), SetStorageAt e addr k v) e l) a slot
  = if decide (a = addr) then default (sto e a slot) ((list_to_map l : gmap Hash Hash) !! slot)
    else sto e a slot.
Proof.
  revert e. induction l as [|[k v] l IH]; intros e Hnd; simpl; [by case_decide|].
  apply NoDup_cons in Hnd as [Hn Hnd]. rewrite IH, SetStorageAt_sto by done.
  destruct (decide (a = addr)) as [->|Ha]; [|by rewrite decide_False by naive_solver].
  destruct (decide (slot = k)) as [->|Hk].
  - rewrite lookup_insert_eq, decide_True by done.
    by rewrite (not_elem_of_list_to_map_1 l k Hn).
  - rewrite lookup_insert_ne, decide_False by naive_solver. done.
Qed.

(** The entries of the printed storage map are the printed writes. *)
Lemma setcode_entries `{!GethHexLaws} addr code writes sh vh :
  (∀ k v, writes !! k = Some v → is_u256 k) →
  (sh, vh) ∈ map_range (sr_Storage (setcode_request addr code writes)) ↔
  ∃ k v, writes !! k = Some v ∧ sh = Hash_Hex k ∧ vh = Hash_Hex v.
Proof.
  intros Hu. rewrite elem_of_map_range. simpl.
  set (l := (λ '(k, v), (Hash_Hex k, Hash_Hex v)) <$> map_range writes).
  assert (Hfold : foldl (λ m '(slot, value), <[Hash_Hex slot := Hash_Hex value]> m) ∅ (map_range writes)
    = foldl (λ (m : gmap string string) '(k, v), <[k := v]> m) ∅ l).
  { unfold l. generalize (∅ : gmap string string). induction (map_range writes) as [|[k v] r IH];
      intros m; simpl; [done|]. apply IH. }
  rewrite Hfold. assert (Hnd : NoDup l.*1).
  { unfold l. rewrite <- list_fmap_compose.
    rewrite (list_fmap_ext _ (Hash_Hex ∘ fst)) by (by intros ? [? ?]).
    rewrite list_fmap_compose. apply NoDup_fmap_2_strong; [|apply NoDup_map_range].
    intros x y ([k v]&->&Hk)%list_elem_of_fmap ([k' v']&->&Hk')%list_elem_of_fmap Heq.
    apply elem_of_map_range in Hk, Hk'. simpl in *.
    by rewrite <- (HexToHash_Hex k), <- (HexToHash_Hex k'), Heq by eauto. }
  assert (Hl : (sh, vh) ∈ l ↔ ∃ k v, writes !! k = Some v ∧ sh = Hash_Hex k ∧ vh = Hash_Hex v).
  { unfold l. rewrite list_elem_of_fmap. split.
    - intros ([k v]&[= -> ->]&Hin). apply elem_of_map_range in Hin. eauto.
    - intros (k&v&Hw&->&->). exists (k, v). split; [done|]. by apply elem_of_map_range. }
  rewrite <- Hl. split; [|by apply foldl_insert_elem]. intros Hm.
  destruct (decide (sh ∈ l.*1)) as [Hin|Hn].
  - apply list_elem_of_fmap in Hin as ([k v]&->&Hin).
    rewrite (foldl_insert_elem _ _ _ _ Hnd Hin) in Hm. by injection Hm as ->.
  - by rewrite foldl_insert_notin, lookup_empty in Hm.
Qed.

(** A deployed contract arrives with its storage: when a shard forwards the code
    and the constructor's storage writes of a new contract to the shard of its
    address, that shard accepts the request and ends with exactly those values in
    the contract's slots, and no other slot changes. *)
Theorem forwarded_storage_arrives `{!GethHexLaws} s addr code writes :
  0 ≤ addr < 2 ^ 160 → shard_of addr NumShards = sv_shardID s →
  (∀ k v, writes !! k = Some v → is_u256 k ∧ is_u256 v) →
  let '(r, s') := handleSetCode s (setcode_request addr code writes) in
  r = Success ∧
  ∀ a slot, sto (sv_evmState s') a slot
    = if decide (a = addr) then default (sto (sv_evmState s) a slot) (writes !! slot)
      else sto (sv_evmState s) a slot.
Proof.
  intros Ha Hs Hu. unfold handleSetCode. simpl. rewrite HexToAddress_Hex, Hs, Z.eqb_refl by done.
  split; [done|]. intros a slot. simpl.
  set (m := foldl _ ∅ (map_range writes)).
  assert (Hent : ∀ sh vh, (sh, vh) ∈ map_range m ↔ ∃ k v, writes !! k = Some v ∧ sh = Hash_Hex k ∧ vh = Hash_Hex v).
  { intros sh vh. apply (setcode_entries addr code writes). intros k v Hk. by apply (Hu k v). }
  set (l := (λ '(sh, vh), (HexToHash sh, HexToHash vh)) <$> map_range m).
  assert (Hfold : ∀ e, foldl (λ e '(sh, vh), SetStorageAt e addr (HexToHash sh) (HexToHash vh)) e (map_range m)
    = foldl (λ e '(k, v), SetStorageAt e addr k v) e l).
  { unfold l. generalize (map_range m). intros r. induction r as [|[sh vh] r IH]; intros e; simpl; [done|]. apply IH. }
  assert (Hl : ∀ k v, (k, v) ∈ l ↔ writes !! k = Some v).
  { intros k v. unfold l. rewrite list_elem_of_fmap. split.
    - intros ([sh vh]&[= -> ->]&Hin). apply Hent in Hin as (k&v&Hw&->&->).
      by rewrite !HexToHash_Hex by apply (Hu k v Hw).
    - intros Hw. exists (Hash_Hex k, Hash_Hex v). rewrite !HexToHash_Hex by apply (Hu k v Hw).
      split; [done|]. apply Hent. eauto. }
  assert (Hnd : NoDup l.*1).
  { unfold l. rewrite <- list_fmap_compose.
    rewrite (list_fmap_ext _ (HexToHash ∘ fst)) by (by intros ? [? ?]).
    rewrite list_fmap_compose. apply NoDup_fmap_2_strong; [|apply NoDup_map_range].
    intros x y ([sh vh]&->&Hk)%list_elem_of_fmap ([sh' vh']&->&Hk')%list_elem_of_fmap Heq.
    apply Hent in Hk as (k&v&Hw&->&->), Hk' as (k'&v'&Hw'&->&->). simpl in *.
    destruct (Hu k v Hw) as [Hk _], (Hu k' v' Hw') as [Hk' _].
    rewrite (HexToHash_Hex k Hk), (HexToHash_Hex k' Hk') in Heq. by subst. }
  rewrite Hfold, set_all_sto by done. unfold es_SetCode. rewrite !other_op_sto by done.
  destruct (decide (a = addr)); [|done]. f_equal.
  destruct (writes !! slot) as [v|] eqn:Hw.
  - apply elem_of_list_to_map_1; [done|]. by apply Hl.
  - apply not_elem_of_list_to_map_1. intros ([k v]&->&Hin)%list_elem_of_fmap. apply Hl in Hin. simpl in *. congruence.
Qed.

(** ** Read/write sets for the orchestrator *)

(** A read/write-set request is answered for the shard's own addresses only, and
    whatever it simulates, the shard's balances, storage and chain stay as they
    were. *)
Theorem rwset_request_read_only s req r s' :
  handleRwSet s req = Some (r, s') →
  same_evm (sv_evmState s') (sv_evmState s) ∧ sv_chain s' = sv_chain s ∧
  (∀ reply, r = RwSetResult reply → rr_Success reply = true →
     shard_of (rq_Address req) NumShards = sv_shardID s).
Proof.
  unfold handleRwSet. destruct (shard_of (rq_Address req) NumShards =? sv_shardID s) eqn:Hsh.
  - apply Z.eqb_eq in Hsh. destruct (SimulateCallForRwSet _ _ _ _ _ _ _) as [[[[rws g]|[g err]] e]|] eqn:Hsim;
      [| |done]; intros [= <- <-]; apply SimulateCallForRwSet_same in Hsim; done.
  - intros [= <- <-]. split_and!; [done|done|]. by intros ? [= <-].
Qed.
End handlers.

(** ** Witnesses *)

#[local] Existing Instance list_range.

Definition handlerUuid (n : nat) : string := "u".

Definition fundedServer (a v : Z) : Server MemDB :=
  with_evm (fresh_server 1 emptyMem 0) (fundedState a v).

Lemma fundedServer_solvent a v : solvent_server (fundedServer a v).
Proof.
  split_and!.
  - apply NewChain_funds_wf.
  - intros id lf Hl. by change (sc_locked _) with (∅ : gmap string LockedFunds) in Hl.
  - intros x. pose proof (balance_u256 (es_stateDB (fundedState a v)) x) as [Hx _]. exact Hx.
Qed.


Definition sampleSubmit : TxSubmitRequest := mkTxSubmitRequest "1" "9" "4" "" 0.

Lemma submitted_local_tx_valid_witness :
  ∃ txID s', handleTxSubmit handlerUuid (fundedServer 1 10) sampleSubmit = Some (Queued txID, s') ∧
    length (sc_currentTxs (sv_chain s')) = 1%nat.
Proof.
  eexists _, _. split; [vm_compute; reflexivity|].
  edestruct (submitted_local_tx_valid handlerUuid (fundedServer 1 10) sampleSubmit) as (tx&v&Hq&_).
  - vm_compute. reflexivity.
  - etrans; [exact (f_equal length Hq)|]. reflexivity.
Defined.

Lemma forwarded_storage_arrives_witness :
  let '(r, s') := handleSetCode (fundedServer 1 10) (setcode_request 9 [] {[3 := 5]}) in
  r = Success ∧ sto (sv_evmState s') 9 3 = 5.
Proof.
  pose proof (forwarded_storage_arrives (fundedServer 1 10) 9 [] {[3 := 5]}) as Hf.
  destruct (handleSetCode _ _) as [r s']. destruct Hf as [Hr Hs].
  - split; [discriminate|reflexivity].
  - reflexivity.
  - intros k v Hk. apply lookup_singleton_Some in Hk as [<- <-]. split; concrete_range.
  - split; [exact Hr|]. etrans; [exact (Hs 9 3)|]. reflexivity.
Defined.

Lemma rwset_request_read_only_witness :
  ∃ r s', handleRwSet (fundedServer 1 10)
      (mkRwSetRequest 9 [Byte.x01] None 1 (mkReference 1 0 1) "q") = Some (r, s') ∧
    same_evm (sv_evmState s') (sv_evmState (fundedServer 1 10)).
Proof.
  eexists _, _. split; [vm_compute; reflexivity|].
  eapply (rwset_request_read_only (fundedServer 1 10)
    (mkRwSetRequest 9 [Byte.x01] None 1 (mkReference 1 0 1) "q")).
  vm_compute. reflexivity.
Defined.

(** A reservation whose funds are gone. *)
Definition brokeServer : Server MemDB :=
  with_chain (fundedServer 1 4) (LockFunds (NewChain 1 0) "x" 1 10).

(** The commit handler reports success whatever the debit does: when the reserved
    funds are no longer there, the debit is refused, nothing is taken from the
    account, and the answer is still success with the reservation gone. *)
Theorem commit_ignores_failed_debit :
  ∃ e' s', Debit (sv_evmState brokeServer) 1 10 = Some (Some ErrInsufficientFunds, e') ∧
    handleCommit brokeServer (mkCommitRequest "x") = Some (SuccessFlag true, s') ∧
    bal (sv_evmState s') 1 = 4 ∧ GetLockedFunds (sv_chain s') "x" = None.
Proof.
  eexists _, _. split; [vm_compute; reflexivity|]. split; [vm_compute; reflexivity|].
  split; vm_compute; reflexivity.
Qed.
