(* ===== verification/Races.v ===== *)
(** * Races: what runs concurrently on a shard

    The block producer and every HTTP handler run in goroutines of their own.
    [Chain.mu] makes each method of the chain atomic and is held by [ProduceBlock]
    from beginning to end, but the state of internal/shard/evm.go has no such lock:
    [EVMState.mu] is taken by [handlePrepare] alone. The first part is [handlePrepare]
    as a small-step program and proves that its lock does what it is for. The second
    part cuts [ProduceBlock] at its accesses to the state, lets handlers run in
    between, and shows what they can lose. A single access is taken to be atomic. *)

From S2P Require Import Prelude Codec Protocol VmState MemDB EvmState ShardChain SlotLocks ShardBlock TxOrder FundLocks ShardServer ServerHandlers.

Open Scope Z_scope.

(** ** [handlePrepare] *)

(** Where a goroutine that serves a prepare request is: before [mu.Lock], before
    reading the locked amount, before [CanDebit], before [LockFunds], before
    [mu.Unlock], and done. *)
Inductive prepare_pc : Type :=
| PrepareStart
| PrepareRead
| PrepareCheck (lockedAmount : Z)
| PrepareReserve
| PrepareUnlock (canCommit : bool)
| PrepareDone (canCommit : bool).

(** The state, and the goroutine that holds [evmState.mu]. *)
Record preparing (DB : Type) := mkPreparing {
  pg_chain : Chain;
  pg_evm : EVMState DB;
  pg_mu : option nat;
  pg_threads : list (PrepareRequest * prepare_pc)
}.
Arguments mkPreparing {DB} _ _ _ _.
Arguments pg_chain {DB} _.
Arguments pg_evm {DB} _.
Arguments pg_mu {DB} _.
Arguments pg_threads {DB} _.

Section prepare.
Context {DB : Type} `{GethStateDBLaws DB} `{Geth} `{!GethLaws} `{EVM} `{!EVMLaws} `{MapRange}.
Implicit Types (e : EVMState DB) (c : Chain).

(** The next action of goroutine [i]; blocked while another one holds the lock. *)
Definition prepare_action (i : nat) (req : PrepareRequest) (pc : prepare_pc) c e (mu : option nat) :
    option (prepare_pc * Chain * EVMState DB * option nat) :=
  match pc with
  | PrepareStart => match mu with None => Some (PrepareRead, c, e, Some i) | Some _ => None end
  | PrepareRead => Some (PrepareCheck (GetLockedAmountForAddress c (pr_Address req)), c, e, mu)
  | PrepareCheck lockedAmount =>
      let '(canCommit, e) := CanDebit e (pr_Address req) (pr_Amount req) lockedAmount in
      Some (if canCommit then PrepareReserve else PrepareUnlock false, c, e, mu)
  | PrepareReserve =>
      Some (PrepareUnlock true, LockFunds c (pr_TxID req) (pr_Address req) (pr_Amount req), e, mu)
  | PrepareUnlock canCommit => Some (PrepareDone canCommit, c, e, None)
  | PrepareDone _ => None
  end.

(** The goroutines, and around them abort requests and credits of balances. *)
Inductive prepare_step : preparing DB → preparing DB → Prop :=
| PrepareThread c e mu ths i req pc pc' c' e' mu' :
    ths !! i = Some (req, pc) → prepare_action i req pc c e mu = Some (pc', c', e', mu') →
    prepare_step (mkPreparing c e mu ths) (mkPreparing c' e' mu' (<[i := (req, pc')]> ths))
| PrepareAbort c e mu ths id :
    prepare_step (mkPreparing c e mu ths) (mkPreparing (ClearLock c id) e mu ths)
| PrepareCredit c e mu ths a v e' :
    is_u256 v → bal e a + v < two256 → Credit e a v = Some e' →
    prepare_step (mkPreparing c e mu ths) (mkPreparing c e' mu ths).

(** Goroutines that have not reserved their funds yet. *)
Definition unreserved (pc : prepare_pc) : bool :=
  match pc with PrepareUnlock _ | PrepareDone _ => false | _ => true end.

(** What a goroutine inside the critical section knows. *)
Definition knows c e (req : PrepareRequest) (pc : prepare_pc) : Prop :=
  match pc with
  | PrepareCheck lockedAmount => getLockedAmountForAddrLocked c (pr_Address req) ≤ lockedAmount
  | PrepareReserve => getLockedAmountForAddrLocked c (pr_Address req) + pr_Amount req ≤ bal e (pr_Address req)
  | _ => True
  end.

Definition inside (pc : prepare_pc) : bool :=
  match pc with PrepareStart | PrepareDone _ => false | _ => true end.

(** Reservations are covered, requests are for distinct transactions that have none
    yet, and only the holder of the lock is inside. *)
Record prepare_ok (p : preparing DB) : Prop := {
  po_solvent : solvent (pg_chain p) (pg_evm p);
  po_once : NoDup (map (λ t, pr_TxID t.1) (pg_threads p));
  po_fresh : ∀ i req pc, pg_threads p !! i = Some (req, pc) →
    0 ≤ pr_Amount req ∧ (unreserved pc = true → sc_locked (pg_chain p) !! pr_TxID req = None) ∧
    (inside pc = true → pg_mu p = Some i) ∧ knows (pg_chain p) (pg_evm p) req pc;
  po_held : ∀ i, pg_mu p = Some i → ∃ req pc, pg_threads p !! i = Some (req, pc) ∧ inside pc = true
}.

(** Aborts and credits only make room. *)
Lemma knows_mono c c' e e' req pc :
  (∀ a, getLockedAmountForAddrLocked c' a ≤ getLockedAmountForAddrLocked c a) → (∀ a, bal e a ≤ bal e' a) →
  knows c e req pc → knows c' e' req pc.
Proof. intros Hl Hb. specialize (Hl (pr_Address req)). specialize (Hb (pr_Address req)). destruct pc; simpl; lia. Qed.

Lemma ClearLock_locked c e id :
  solvent c e →
  (∀ a, getLockedAmountForAddrLocked (ClearLock c id) a ≤ getLockedAmountForAddrLocked c a) ∧
  ∀ id', sc_locked c !! id' = None → sc_locked (ClearLock c id) !! id' = None.
Proof.
  intros Hs. pose proof (λ a, reserved_nonneg c e id a Hs) as Hr. destruct Hs as (Hwf&_).
  destruct (clear_lock_wf swap_remove swap_remove_perm c id Hwf) as [_ Ha]. split.
  - intros a. unfold ClearLock. rewrite Ha. specialize (Hr a). lia.
  - intros id' Hn. unfold ClearLock, clear_lock_with. destruct (sc_locked c !! id); [|done]. simpl.
    by rewrite lookup_delete_None; right.
Qed.

Lemma Credit_grows e a v e' :
  is_u256 v → bal e a + v < two256 → Credit e a v = Some e' → ∀ a', bal e a' ≤ bal e' a'.
Proof.
  intros Hu Hov Hc. destruct (Credit_spec e a v Hu Hov) as (e2&Hc2&Hb&_). assert (e2 = e') as -> by congruence.
  intros a'. rewrite Hb. destruct Hu. case_decide; subst; lia.
Qed.

(** Another goroutine's entry is unchanged by the update of goroutine [i]. *)
Lemma update_threads ths i req pc pc' :
  ths !! i = Some (req, pc) →
  map (λ t, pr_TxID t.1) (<[i := (req, pc')]> ths : list (PrepareRequest * prepare_pc)) = map (λ t, pr_TxID t.1) ths.
Proof.
  intros Hi. apply list_eq. intros j. change (@map ?A ?B) with (@fmap list _ A B). rewrite !list_lookup_fmap.
  destruct (decide (i = j)) as [<-|Hne]; [|by rewrite list_lookup_insert_ne].
  rewrite list_lookup_insert_eq by (by eapply lookup_lt_Some). by rewrite Hi.
Qed.

(** What an action does to its own goroutine and to the shared state. *)
Lemma prepare_action_ok i req pc pc' c c' e e' mu mu' :
  solvent c e → 0 ≤ pr_Amount req → (unreserved pc = true → sc_locked c !! pr_TxID req = None) → knows c e req pc →
  (inside pc = true → mu = Some i) → prepare_action i req pc c e mu = Some (pc', c', e', mu') →
  solvent c' e' ∧ (unreserved pc' = true → sc_locked c' !! pr_TxID req = None) ∧ knows c' e' req pc' ∧
  mu' = (if inside pc' then Some i else None) ∧ (∀ j, j ≠ i → mu ≠ Some j) ∧
  ∀ id, id ≠ pr_TxID req → sc_locked c !! id = None → sc_locked c' !! id = None.
Proof.
  intros Hs Hpos Hfr Hk Hin Hact. destruct pc as [| |la| |ok|ok]; simpl in Hk, Hin, Hfr, Hact.
  - destruct mu; [done|]. by injection Hact as <- <- <- <-.
  - specialize (Hin eq_refl). subst mu. injection Hact as <- <- <- <-. split_and!; auto; [simpl; reflexivity|naive_solver].
  - specialize (Hin eq_refl). subst mu. pose proof (CanDebit_spec e (pr_Address req) (pr_Amount req) la) as Hc.
    destruct (CanDebit _ _ _ _) as [ok e1]. destruct Hc as [-> He]. injection Hact as <- <- <- <-.
    split; [by eapply solvent_same; [done|by apply same_evm_bal|]|].
    destruct (Z.leb_spec (pr_Amount req) (bal e (pr_Address req) - la)); split_and!; auto; try naive_solver.
    simpl. rewrite He. lia.
  - specialize (Hin eq_refl). subst mu. injection Hact as <- <- <- <-.
    split; [by apply solvent_LockFunds; auto|]. split_and!; try done; [naive_solver|].
    intros id Hne Hn. simpl. by rewrite lookup_insert_ne.
  - specialize (Hin eq_refl). subst mu. injection Hact as <- <- <- <-. split_and!; auto. naive_solver.
  - done.
Qed.

Lemma prepare_step_ok p p' : prepare_ok p → prepare_step p p' → prepare_ok p'.
Proof.
  intros [Hs Hnd Hf Hh] Hstep. destruct Hstep as [c e mu ths i req pc pc' c' e' mu' Hi Hact|c e mu ths id|c e mu ths a v e' Hu Hov Hc].
  - cbn in Hs, Hnd, Hf, Hh. destruct (Hf i req pc Hi) as (Hpos&Hfr&Hin&Hk).
    destruct (prepare_action_ok i req pc pc' c c' e e' mu mu' Hs Hpos Hfr Hk Hin Hact) as (Hs'&Hfr'&Hk'&Hmu&Hex&Hoth).
    assert (Hlen : (i < length ths)%nat) by (by eapply lookup_lt_Some).
    split; cbn; [done|by rewrite (update_threads _ _ _ _ _ Hi)| |].
    + intros j reqj pcj Hj. destruct (decide (j = i)) as [->|Hne].
      * rewrite list_lookup_insert_eq in Hj by done. injection Hj as <- <-. split_and!; auto. intros Hi'. by rewrite Hmu, Hi'.
      * rewrite list_lookup_insert_ne in Hj by done. destruct (Hf j reqj pcj Hj) as (Hposj&Hfrj&Hinj&_).
        assert (Hout : inside pcj = false) by (destruct (inside pcj); [by destruct (Hex j Hne); apply Hinj|done]).
        split_and!; [done| |by rewrite Hout|by destruct pcj].
        intros Hun. apply Hoth; [|by apply Hfrj]. intros Heq. apply Hne.
        apply (NoDup_lookup _ j i (pr_TxID req) Hnd); change (@map ?A ?B) with (@fmap list _ A B); rewrite list_lookup_fmap;
          [rewrite Hj; simpl; by rewrite Heq|by rewrite Hi].
    + intros j Hj. rewrite Hmu in Hj. destruct (inside pc') eqn:Hi'; [|done]. injection Hj as <-.
      exists req, pc'. by rewrite list_lookup_insert_eq.
  - destruct (ClearLock_locked c e id Hs) as [Hl Hn]. cbn in *. split; cbn; [by apply solvent_ClearLock|done| |done].
    intros i req pc Hi. destruct (Hf i req pc Hi) as (Hpos&Hfr&Hin&Hk). split_and!; [done|auto|done|].
    by eapply knows_mono.
  - pose proof (Credit_grows e a v e' Hu Hov Hc) as Hg. cbn in *. split; cbn; [by eapply solvent_same|done| |done].
    intros i req pc Hi. destruct (Hf i req pc Hi) as (Hpos&Hfr&Hin&Hk). split_and!; [done..|].
    by eapply knows_mono.
Qed.

(** Goroutines for a number of requests that have just arrived. *)
Definition arrived c e (reqs : list PrepareRequest) : preparing DB :=
  mkPreparing c e None (map (λ req, (req, PrepareStart)) reqs).

Lemma arrived_ok c e reqs :
  solvent c e → NoDup (map pr_TxID reqs) → Forall (λ req, 0 ≤ pr_Amount req ∧ sc_locked c !! pr_TxID req = None) reqs →
  prepare_ok (arrived c e reqs).
Proof.
  intros Hs Hnd Hall. split; cbn; [done| | |done].
  { rewrite map_map. exact Hnd. }
  intros i req pc. change (@map ?A ?B) with (@fmap list _ A B). rewrite list_lookup_fmap. intros (req0&Hl&[= -> ->])%fmap_Some.
  destruct (Forall_lookup_1 _ _ _ _ Hall Hl). by split_and!.
Qed.

(** C11. Prepare requests that run concurrently never promise more than there is. With
    any number of requests for distinct transactions served at the same time, in any
    interleaving of their single steps, with aborts and credits in between, the
    reservations of every account stay covered by its balance; at most one goroutine
    is between its check and its reservation, and as long as one is not done some
    goroutine can go on, so the lock cannot be left held. *)
Theorem prepares_race_free c e reqs p :
  solvent c e → NoDup (map pr_TxID reqs) → Forall (λ req, 0 ≤ pr_Amount req ∧ sc_locked c !! pr_TxID req = None) reqs →
  rtc prepare_step (arrived c e reqs) p →
  solvent (pg_chain p) (pg_evm p) ∧
  (∀ i j ti tj, pg_threads p !! i = Some ti → pg_threads p !! j = Some tj →
     inside ti.2 = true → inside tj.2 = true → i = j) ∧
  (∀ i req pc, pg_threads p !! i = Some (req, pc) → (∀ ok, pc ≠ PrepareDone ok) →
     ∃ j reqj pcj, pg_threads p !! j = Some (reqj, pcj) ∧
       is_Some (prepare_action j reqj pcj (pg_chain p) (pg_evm p) (pg_mu p))).
Proof.
  intros Hs Hnd Hall Hrun. assert (Hok : prepare_ok p).
  { pose proof (arrived_ok c e reqs Hs Hnd Hall) as Hok. clear Hs Hnd Hall.
    induction Hrun as [|p1 p2 p3 Hstep _ IH]; [done|]. by eapply IH, prepare_step_ok. }
  destruct Hok as [Hs' _ Hf Hh]. split; [done|]. split.
  - intros i j [ri pi] [rj pj] Hi Hj Hpi Hpj. destruct (Hf i ri pi Hi) as (_&_&Hmi&_), (Hf j rj pj Hj) as (_&_&Hmj&_).
    cbn in Hpi, Hpj. specialize (Hmi Hpi). specialize (Hmj Hpj). congruence.
  - assert (Hgo : ∀ i req pc, inside pc = true → is_Some (prepare_action i req pc (pg_chain p) (pg_evm p) (pg_mu p))).
    { intros i req [| | | | |]; try done; intros _; simpl; try by eexists. destruct (CanDebit _ _ _ _). by eexists. }
    intros i req pc Hi Hnot. destruct (pg_mu p) as [j|] eqn:Hmu.
    + destruct (Hh j eq_refl) as (reqj&pcj&Hj&Hin). exists j, reqj, pcj. split; [done|]. by apply Hgo.
    + exists i, req, pc. split; [done|]. destruct (inside pc) eqn:Hin; [by apply Hgo|].
      destruct pc; try done. by destruct (Hnot canCommit).
Qed.
End prepare.

(** ** Block production *)

(** Where the producer is: between two blocks, at the head of the loop, after
    [CanDebit] said yes, before [validateAndLockReadSetLocked], after [Snapshot],
    after a failed [ExecuteTx], before [Commit]. [rest] are the transactions to come,
    [ok] those that succeeded. *)
Inductive producer_pc : Type :=
| AtIdle
| AtNext (rest ok : list Transaction)
| AtReserve (tx : Transaction) (rest ok : list Transaction)
| AtValidate (tx : Transaction) (rest ok : list Transaction)
| AtExecute (tx : Transaction) (snapshot : Z) (rest ok : list Transaction)
| AtRevert (tx : Transaction) (snapshot : Z) (rest ok : list Transaction)
| AtCommit (ok : list Transaction).

Record racing (DB : Type) := mkRacing { ra_chain : Chain; ra_evm : EVMState DB; ra_pc : producer_pc }.
Arguments mkRacing {DB} _ _ _.
Arguments ra_chain {DB} _.
Arguments ra_evm {DB} _.
Arguments ra_pc {DB} _.

Section production.
Context {DB : Type} `{GethStateDBLaws DB} `{Geth} `{!GethLaws} `{EVM} `{!EVMLaws} `{MapRange}.
Context (BHash : StateShardBlock → BlockHash).
Implicit Types (e : EVMState DB) (c : Chain) (r : racing DB).

(** From [Commit] to the end of [ProduceBlock]. *)
Definition seal_block c e (now : Z) (ok : list Transaction) : panics (option StateShardBlock * Chain * EVMState DB) :=
  let newHeight := u64_add (sc_height c) 1 in
  match Commit e newHeight with
  | (None, e2) => Some (None, c, e2)
  | (Some stateRoot, e2) =>
      match sc_blocks c !! Z.to_nat (sc_height c) with
      | None => None
      | Some prev =>
          let block := mkStateShardBlock (sc_shardID c) newHeight (BHash prev) now stateRoot
                         ok (sc_prepareTxs c) (sc_prepares c) in
          Some (Some block,
            mkChain (sc_shardID c) (sc_blocks c ++ [block]) newHeight [] [] ∅
              (sc_locked c) (sc_lockedByAddr c) (sc_pendingCredits c) (sc_pendingCalls c)
              (sc_slotLocks c) (sc_pendingRwSets c) (sc_lastOrchestratorHeight c)
              (sc_processedCommits c), e2)
      end
  end.

(** The producer up to its next access to the state; a block when it is done. *)
Definition producer_step (now : Z) r : panics (racing DB * option StateShardBlock) :=
  let c := ra_chain r in
  let e := ra_evm r in
  match ra_pc r with
  | AtIdle => Some (mkRacing c e (AtNext (sortTransactionsByPriority (sc_currentTxs c)) []), None)
  | AtNext [] ok => Some (mkRacing c e (AtCommit ok), None)
  | AtNext (tx :: rest) ok =>
      match checkLocalTxLockConflict c tx with
      | Some _ => Some (mkRacing c e (AtNext rest ok), None)
      | None =>
          if decide (tx_TxType tx = TxTypeLock) then
            let amount := ToBigInt (tx_Value tx) in
            if 0 <? amount then
              let '(can, e1) := CanDebit e (tx_From tx) amount (getLockedAmountForAddrLocked c (tx_From tx)) in
              if can then Some (mkRacing c e1 (AtReserve tx rest ok), None)
              else Some (mkRacing (cleanupAfterFailureLocked c tx) e1 (AtNext rest ok), None)
            else Some (mkRacing c e (AtValidate tx rest ok), None)
          else
            let '(snapshot, e1) := es_Snapshot e in
            Some (mkRacing c e1 (AtExecute tx snapshot rest ok), None)
      end
  | AtReserve tx rest ok =>
      Some (mkRacing (lockFundsLocked c (tx_CrossShardTxID tx) (tx_From tx) (ToBigInt (tx_Value tx))) e
              (AtValidate tx rest ok), None)
  | AtValidate tx rest ok =>
      let id := tx_CrossShardTxID tx in
      match validateAndLockReadSetLocked c id (tx_RwSet tx) e with
      | (Some _, c2, e2) =>
          Some (mkRacing (cleanupAfterFailureLocked (clearLockLocked c2 id) tx) e2 (AtNext rest ok), None)
      | (None, c2, e2) => Some (mkRacing (cleanupAfterExecutionLocked c2 tx) e2 (AtNext rest (ok ++ [tx])), None)
      end
  | AtExecute tx snapshot rest ok =>
      match ExecuteTx e tx with
      | None => None
      | Some (Some _, e2) => Some (mkRacing c e2 (AtRevert tx snapshot rest ok), None)
      | Some (None, e2) => Some (mkRacing (cleanupAfterExecutionLocked c tx) e2 (AtNext rest (ok ++ [tx])), None)
      end
  | AtRevert tx snapshot rest ok =>
      Some (mkRacing (cleanupAfterFailureLocked c tx) (es_RevertToSnapshot e snapshot) (AtNext rest ok), None)
  | AtCommit ok => '(b, c', e') ← seal_block c e now ok; Some (mkRacing c' e' AtIdle, b)
  end.

(** The producer alone, for at most [fuel] steps: [None] when they do not suffice;
    then the result of the block, where a panic is [None]. *)
Fixpoint produce (fuel : nat) (now : Z) r : option (panics (option StateShardBlock * Chain * EVMState DB)) :=
  match fuel with
  | O => None
  | S fuel' =>
      match producer_step now r with
      | None => Some None
      | Some (mkRacing c e AtIdle, b) => Some (Some (b, c, e))
      | Some (r', _) => produce fuel' now r'
      end
  end.

(** The rest of the loop and the end of the block. *)
Lemma produce_txs now rest : ∀ fuel c e ok,
  (3 * length rest + 2 ≤ fuel)%nat →
  produce fuel now (mkRacing c e (AtNext rest ok)) = Some ('(ok', c', e') ← process_txs c e rest ok; seal_block c' e' now ok').
Proof.
  induction rest as [|tx rest IH]; intros fuel c e ok Hf; cbn [length] in Hf.
  - destruct fuel as [|[|fuel]]; [lia..|]. cbn. by destruct (seal_block c e now ok) as [[[b c'] e']|].
  - destruct fuel as [|[|[|fuel]]]; [lia..|]. cbn [process_txs]. unfold process_tx.
    change (produce (S (S (S fuel))) now ?r) with
      (match producer_step now r with
       | None => Some None
       | Some (mkRacing c e AtIdle, b) => Some (Some (b, c, e))
       | Some (r', _) => produce (S (S fuel)) now r'
       end).
    cbn [producer_step ra_pc ra_chain ra_evm]. destruct (checkLocalTxLockConflict c tx); [apply IH; lia|].
    destruct (decide (tx_TxType tx = TxTypeLock)) as [Hty|Hty].
    + unfold process_lock, reserve_funds. destruct (0 <? ToBigInt (tx_Value tx)).
      * destruct (CanDebit _ _ _ _) as [[] e1]; [|apply IH; lia]. cbn [produce producer_step ra_pc ra_chain ra_evm].
        destruct (validateAndLockReadSetLocked _ _ _ _) as [[[err|] c2] e2]; apply IH; lia.
      * change (produce (S (S fuel)) now (mkRacing c e (AtValidate tx rest ok))) with
          (match producer_step now (mkRacing c e (AtValidate tx rest ok)) with
           | None => Some None
           | Some (mkRacing c e AtIdle, b) => Some (Some (b, c, e))
           | Some (r', _) => produce (S fuel) now r'
           end). cbn [producer_step ra_pc ra_chain ra_evm].
        destruct (validateAndLockReadSetLocked _ _ _ _) as [[[err|] c2] e2]; apply IH; lia.
    + unfold process_exec. destruct (es_Snapshot e) as [snap e1].
      change (produce (S (S fuel)) now (mkRacing c e1 (AtExecute tx snap rest ok))) with
        (match producer_step now (mkRacing c e1 (AtExecute tx snap rest ok)) with
         | None => Some None
         | Some (mkRacing c e AtIdle, b) => Some (Some (b, c, e))
         | Some (r', _) => produce (S fuel) now r'
         end). cbn [producer_step ra_pc ra_chain ra_evm].
      destruct (ExecuteTx e1 tx) as [[[err|] e2]|]; [|apply IH; lia|done].
      cbn [produce producer_step ra_pc ra_chain ra_evm]. apply IH; lia.
Qed.


(** *** Handlers in between *)

(** One access of a handler to the state. *)
Inductive handler_access e : EVMState DB → Prop :=
| AccessCredit a v e' : Credit e a v = Some e' → handler_access e e'
| AccessDebit a v err e' : Debit e a v = Some (err, e') → handler_access e e'
| AccessBalance a : handler_access e (es_GetBalance e a).2
| AccessSetCode a code : handler_access e (es_SetCode e a code)
| AccessSetStorage a k v : handler_access e (SetStorageAt e a k v)
| AccessCall caller contract input value gas ret used logs err e' :
    CallContract e caller contract input value gas = Some (ret, used, logs, err, e') → handler_access e e'.

(** The producer steps, or a handler accesses the state: no lock keeps it out. *)
Inductive race_step (now : Z) r : racing DB → Prop :=
| RaceProducer r' b : producer_step now r = Some (r', b) → race_step now r r'
| RaceHandler e' : handler_access (ra_evm r) e' → race_step now r (mkRacing (ra_chain r) e' (ra_pc r)).

Lemma handler_access_own e e' : handler_access e e' → own_change e e'.
Proof.
  destruct 1 as [a v e1 Hc|a v err e1 Hd|a|a code|a k v|caller contract input value gas ret used logs err e1 Hc]; try by apply own_change_run.
  - unfold Credit in Hc. destruct (MustFromBig v); [|done]. injection Hc as <-. by apply own_change_run.
  - unfold Debit in Hd. destruct (MustFromBig v) as [w|]; [|destruct (run _ e); done].
    pose proof (own_change_run (let! b := call (GetBalance a) in if b <? w then Ret tt else (let! _ := call (SubBalance a w) in Ret tt))%go e) as Hr.
    specialize (Hr ltac:(cbn; intros x; by destruct (x <? w))). unfold run in *. cbn in *. destruct (do_op (GetBalance a) (es_stateDB e)) as [b db].
    destruct (b <? w); cbn in *; injection Hd as _ <-; [done|].
    by destruct (do_op (SubBalance a w) db) as [x db2].
  - unfold CallContract in Hc. destruct (MustFromBig value) as [w|]; [|done].
    pose proof (own_change_run _ e (call_own_reverts (es_blockNum e) (es_timestamp e) caller contract input gas w)) as Hr.
    destruct (run _ e) as [x e2]. by injection Hc as _ _ _ _ <-.
Qed.

Definition handler_step r r' : Prop :=
  ∃ e', handler_access (ra_evm r) e' ∧ r' = mkRacing (ra_chain r) e' (ra_pc r).

Lemma handlers_only r r' :
  rtc handler_step r r' → ra_chain r' = ra_chain r ∧ ra_pc r' = ra_pc r ∧ rtc own_change (ra_evm r) (ra_evm r').
Proof.
  induction 1 as [|r1 r2 r3 (e'&Ha&->) _ (Hc&Hp&He)]; [by split_and!|]. cbn in *. split_and!; [done|done|].
  eapply rtc_l; [by apply handler_access_own|done].
Qed.

(** C40. What a handler changes while the producer executes a transaction is lost if
    that transaction fails. The producer takes a snapshot, handlers (any number, for
    instance a faucet that has answered success) change the state, the transaction
    fails, more handlers change the state, the producer reverts: balances and
    storage are those before the snapshot, and the loop goes on. *)
Theorem changes_in_window_lost now c e tx rest ok r1 r2 r3 r4 r5 b1 b3 b5 snapshot :
  producer_step now (mkRacing c e (AtNext (tx :: rest) ok)) = Some (r1, b1) → ra_pc r1 = AtExecute tx snapshot rest ok →
  rtc handler_step r1 r2 →
  producer_step now r2 = Some (r3, b3) → ra_pc r3 = AtRevert tx snapshot rest ok →
  rtc handler_step r3 r4 →
  producer_step now r4 = Some (r5, b5) →
  rtc (race_step now) (mkRacing c e (AtNext (tx :: rest) ok)) r5 ∧
  same_evm (ra_evm r5) e ∧ ra_pc r5 = AtNext rest ok.
Proof.
  intros Hst1 Hp1 Hst2 Hst3 Hp3 Hst4 Hst5.
  assert (Hrace : ∀ r r', rtc handler_step r r' → rtc (race_step now) r r').
  { induction 1 as [|r1' r2' r3' (e'&Ha&->) _ IH]; [done|]. eapply rtc_l; [by apply RaceHandler|done]. }
  split.
  { eapply rtc_l; [by eapply RaceProducer|]. etrans; [by apply Hrace|]. eapply rtc_l; [by eapply RaceProducer|].
    etrans; [by apply Hrace|]. eapply rtc_once. by eapply RaceProducer. }
  apply handlers_only in Hst2 as (_&Hp2&He2), Hst4 as (_&Hp4&He4). rewrite Hp1 in Hp2. rewrite Hp3 in Hp4.
  unfold producer_step in Hst5. rewrite Hp4 in Hst5. injection Hst5 as <- _. cbn. split; [|done].
  unfold producer_step in Hst3. rewrite Hp2 in Hst3.
  assert (He3 : own_change (ra_evm r2) (ra_evm r3)).
  { destruct (ExecuteTx (ra_evm r2) tx) as [[[err|] e2]|] eqn:Hx; [|by injection Hst3 as <- _|done].
    injection Hst3 as <- _. by eapply ExecuteTx_failed. }
  assert (Hsnap : es_Snapshot e = (snapshot, ra_evm r1)).
  { cbn in Hst1. destruct (checkLocalTxLockConflict c tx); [by injection Hst1 as <- _|].
    destruct (decide _).
    - destruct (0 <? _); [|by injection Hst1 as <- _]. destruct (CanDebit _ _ _ _) as [[] e1]; by injection Hst1 as <- _.
    - destruct (es_Snapshot e) as [snap e1]. injection Hst1 as <- _. cbn in Hp1 |- *. by injection Hp1 as ->. }
  pose proof (window_undone e) as Hw. rewrite Hsnap in Hw. apply Hw.
  etrans; [done|]. eapply rtc_l; done.
Qed.
End production.

(** ** Witnesses *)

#[local] Existing Instance list_range.

(** Two requests for one account that can afford only one of them. *)
Definition prepare_a : PrepareRequest := mkPrepareRequest "a" 1 7.
Definition prepare_b : PrepareRequest := mkPrepareRequest "b" 1 7.

Lemma prepares_race_free_witness :
  let p0 := arrived (NewChain 0 0) (fundedState 1 10) [prepare_a; prepare_b] in
  ∃ p, rtc prepare_step p0 p ∧ solvent (pg_chain p) (pg_evm p) ∧
    sc_locked (pg_chain p) !! "a"%string = Some (mkLockedFunds 1 7).
Proof.
  intros p0.
  assert (∃ p, rtc prepare_step p0 p ∧ sc_locked (pg_chain p) !! "a"%string = Some (mkLockedFunds 1 7)) as (p&Hrun&Hl).
  { eexists. split; [|shelve]. do 4 (eapply rtc_l; [eapply (PrepareThread _ _ _ _ 0); reflexivity|]). apply rtc_refl.
    Unshelve. reflexivity. }
  exists p. split; [exact Hrun|]. split; [|exact Hl].
  apply (prepares_race_free (NewChain 0 0) (fundedState 1 10) [prepare_a; prepare_b] _); [| | |exact Hrun].
  - split; [apply NewChain_funds_wf|]. split; [intros id lf [=]|]. intros a. apply balance_u256.
  - apply (bool_decide_unpack _). reflexivity.
  - repeat constructor; discriminate.
Defined.

(** A transfer of 5 by account 1, which has nothing; a faucet gives account 3 its 9
    while the transfer fails. *)
Definition failingTx : Transaction :=
  mkTransaction "t" 0 1 2 (Some (Some 5)) 21000 [] false TxTypeLocal "" [] "".

Lemma changes_in_window_lost_witness :
  ∃ e2 snapshot r5 b5, Credit (es_Snapshot (fundedState 4 1)).2 3 9 = Some e2 ∧
    bal e2 3 = 9 ∧
    producer_step (λ _, 0) 0 (mkRacing (NewChain 0 0) e2 (AtRevert failingTx snapshot [] [])) = Some (r5, b5) ∧
    bal (ra_evm r5) 3 = 0.
Proof.
  eexists _, _, _, _. split; [reflexivity|]. split; [reflexivity|]. split; [reflexivity|].
  match goal with |- bal (ra_evm ?r) 3 = 0 => assert (Hw : same_evm (ra_evm r) (fundedState 4 1)) end.
  - eapply (changes_in_window_lost (λ _, 0) 0 (NewChain 0 0) (fundedState 4 1) failingTx [] []).
    + reflexivity.
    + reflexivity.
    + apply rtc_once. eexists. split; [eapply (AccessCredit _ 3 9); reflexivity|reflexivity].
    + reflexivity.
    + reflexivity.
    + apply rtc_refl.
    + reflexivity.
  - destruct Hw as [Hb _]. etrans; [apply Hb|reflexivity].
Defined.

