(* ===== verification/BytecodeStore.v ===== *)
(** * BytecodeStore: internal/orchestrator/bytecode_store.go

    A cache of contract code over a key-value database of go-ethereum ([EthDB]).
    The mutex makes every method atomic. Opening the database is the class's. *)

From S2P Require Import Prelude Codec Protocol VmState MemDB StorageProof.

From Stdlib Require Strings.Byte.

Open Scope Z_scope.

(** ** ethdb.Database *)

(** [None] of [ed_Get]: not found, or an error. *)
Class EthDB (D : Type) := {
  ed_Get : D → list byte → option (list byte);
  ed_Put : D → list byte → list byte → option string * D;
  ed_Has : D → list byte → bool;
  ed_Close : D → option string * D
}.

(** Documented: a write that succeeds is read back and touches no other key; one
    that fails changes nothing that is read. *)
Class EthDBLaws (D : Type) `{EthDB D} := {
  put_get (d : D) k v k' :
    let '(err, d') := ed_Put d k v in
    ed_Get d' k' = if decide (err = None ∧ k' = k) then Some v else ed_Get d k';
  has_get (d : D) k : ed_Has d k = bool_decide (is_Some (ed_Get d k))
}.

(** ** The store *)

Record BytecodeStore (D : Type) := mkBytecodeStore { bs_db : D; bs_closed : bool }.
Arguments mkBytecodeStore {D} _ _.
Arguments bs_db {D} _.
Arguments bs_closed {D} _.

Inductive store_error : Type := StoreClosed | StoreFailed (msg : string).

Section store.
Context {D : Type} `{EthDB D} `{TrieCodec}.
Implicit Types (bs : BytecodeStore D).

Definition NewBytecodeStore (db : D) : BytecodeStore D := mkBytecodeStore db false.

(** The bytes of ["code:"]. *)
Definition code_prefix : list byte := [Byte.x63; Byte.x6f; Byte.x64; Byte.x65; Byte.x3a].

Definition codeKey (addr : Address) : list byte := code_prefix ++ Address_Bytes addr.

(** [None] is nil. *)
Definition bs_Get bs (addr : Address) : option (list byte) :=
  if bs_closed bs then None
  else match ed_Get (bs_db bs) (codeKey addr) with
       | None | Some [] => None
       | Some data => Some data
       end.

Definition bs_Put bs (addr : Address) (code : list byte) : option store_error * BytecodeStore D :=
  if bs_closed bs then (Some StoreClosed, bs)
  else match code with
       | [] => (None, bs)
       | _ =>
           let '(err, db) := ed_Put (bs_db bs) (codeKey addr) code in
           (StoreFailed <$> err, mkBytecodeStore db false)
       end.

Definition bs_Has bs (addr : Address) : bool :=
  if bs_closed bs then false else ed_Has (bs_db bs) (codeKey addr).

Definition bs_Close bs : option string * BytecodeStore D :=
  if bs_closed bs then (None, bs)
  else let '(err, db) := ed_Close (bs_db bs) in (err, mkBytecodeStore db true).
End store.

Section lemmas.
Context {D : Type} `{EthDBLaws D} `{TrieCodec}.
Implicit Types (bs : BytecodeStore D).

(** Stored code is found again: after a successful [Put] of non-empty code, [Get]
    returns it for its address, every other address reads as before, and [Has]
    agrees; after [Close] nothing is found and nothing can be stored. *)
Theorem stored_code_found bs addr code bs' :
  (∀ a b, 0 ≤ a < 2 ^ 160 → 0 ≤ b < 2 ^ 160 → Address_Bytes a = Address_Bytes b → a = b) →
  0 ≤ addr < 2 ^ 160 → bs_Put bs addr code = (None, bs') → code ≠ [] →
  bs_Has bs' addr = true ∧
  (∀ a, 0 ≤ a < 2 ^ 160 → bs_Get bs' a = if decide (a = addr) then Some code else bs_Get bs a) ∧
  (∀ a c, bs_Get (bs_Close bs').2 a = None ∧ (bs_Put (bs_Close bs').2 a c).1 = Some StoreClosed).
Proof.
  intros Hinj Ha Hp Hc. unfold bs_Put in Hp. destruct (bs_closed bs) eqn:Hcl; [done|].
  destruct code as [|b code]; [done|]. pose proof (λ k', put_get (bs_db bs) (codeKey addr) (b :: code) k') as Hg.
  destruct (ed_Put _ _ _) as [[err|] db]; [done|]. injection Hp as <-. split_and!.
  - unfold bs_Has. simpl. rewrite has_get, Hg, decide_True by done. done.
  - intros a Har. unfold bs_Get. rewrite Hcl. simpl. rewrite Hg. case_decide as Hd; case_decide as Hd'; try done.
    + destruct Hd as [_ Hd%app_inv_head]. by apply Hinj in Hd.
    + subst. by destruct Hd.
  - intros a c. unfold bs_Close. simpl. by destruct (ed_Close db).
Qed.
End lemmas.

(** ** Witness *)

#[export] Instance byte_eq_dec : EqDecision byte.
Proof. intros x y. destruct (Byte.byte_eq_dec x y); [by left|by right]. Defined.

#[export] Instance byte_countable : Countable byte :=
  inj_countable Byte.to_N Byte.of_N Byte.of_to_N.

(** A table in memory. *)
#[export] Instance mem_ethdb : EthDB (gmap (list byte) (list byte)) := {
  ed_Get d k := d !! k;
  ed_Put d k v := (None, <[k := v]> d);
  ed_Has d k := bool_decide (is_Some (d !! k));
  ed_Close d := (None, d)
}.

#[export] Instance mem_ethdb_laws : EthDBLaws (gmap (list byte) (list byte)).
Proof.
  split; [|done]. intros d k v k'. simpl. case_decide as Hd.
  - destruct Hd as [_ ->]. apply lookup_insert_eq.
  - rewrite lookup_insert_ne; [done|]. intros ->. by destruct Hd.
Qed.

#[local] Instance byte_codec : TrieCodec := {
  Keccak256 := id;
  Address_Bytes := be_bytes 20;
  EmptyRootHash := 1;
  trie_VerifyProof r k get := None;
  rlp_StateAccount bs := None;
  rlp_account bs := None;
  rlp_Bytes bs := None
}.

Lemma stored_code_found_witness :
  bs_Get (bs_Put (NewBytecodeStore (∅ : gmap (list byte) (list byte))) 5 [Byte.x5f]).2 5 = Some [Byte.x5f].
Proof.
  destruct (stored_code_found (NewBytecodeStore (∅ : gmap (list byte) (list byte))) 5 [Byte.x5f]
    (bs_Put (NewBytecodeStore ∅) 5 [Byte.x5f]).2) as (_&Hg&_).
  - intros a b Ha Hb He. apply (be_bytes_inj 20); [exact Ha|exact Hb|exact He].
  - lia.
  - reflexivity.
  - discriminate.
  - rewrite (Hg 5); [reflexivity|lia].
Defined.
