(* ===== verification/SimStateDB.v ===== *)
(** * SimStateDB: internal/orchestrator/statedb.go

    [SimulationStateDB] is the database the orchestrator simulates a cross-shard
    call on: it fetches accounts and storage slots from the state shards on first
    access, keeps the simulation's own changes on top, and builds the read/write
    set of the call. The fetcher is an interface ([Fetcher]). *)

From S2P Require Import Prelude Codec Protocol VmState MemDB TrackingDB StorageProof.

Open Scope Z_scope.

(** ** The fetcher, as its client sees it *)

(** [FetchStateResponse] of internal/orchestrator/statefetcher.go. *)
Record FetchStateResponse := mkFetchStateResponse {
  fs_Success : bool;
  fs_Error : string;
  fs_Balance : option Z;
  fs_Nonce : Z;
  fs_Code : list byte;
  fs_CodeHash : Hash
}.

Inductive fetch_error : Type :=
| InvalidShard (shardID : Z)
| FetchTransport (msg : string)
| FetchRefused (msg : string)
| FetchStatus (code : Z)
| FetchDecode (msg : string)
| FetchAddressState (e : fetch_error)
| ProofInvalid (e : proof_error).

Class Fetcher (F : Type) := {
  f_AddressToShard : F → Address → Z;
  f_FetchState : F → string → Z → Address → result fetch_error FetchStateResponse * F;
  f_GetStorageAt : F → string → Z → Address → Hash → result fetch_error Hash * F
}.

(** The addresses and slots there are: 20 and 32 bytes. *)
Definition in_range (a : Address) (k : Hash) : bool :=
  (0 <=? a) && (a <? 2 ^ 160) && (0 <=? k) && (k <? two256).

(** What a client relies on: the fetcher serves a storage [σ] of [n] shards, and
    goes on serving it. *)
Class FetcherLaws (F : Type) `{Fetcher F} := {
  serves : F → Z → (Address → Hash → Hash) → Prop;
  serves_shard f n σ a : serves f n σ → f_AddressToShard f a = shard_of a n;
  serves_fetch f n σ tx i a : serves f n σ → serves (f_FetchState f tx i a).2 n σ;
  serves_storage f n σ tx a s : serves f n σ → in_range a s = true →
    let '(r, f') := f_GetStorageAt f tx (shard_of a n) a s in r = Ok (σ a s) ∧ serves f' n σ
}.

(** ** Data *)

Record accountState := mkAccount {
  ac_Balance : Z;
  ac_OriginalBalance : Z;
  ac_Nonce : Z;
  ac_Code : list byte;
  ac_CodeHash : Hash;
  ac_ShardID : Z;
  ac_Destructed : bool;
  ac_Created : bool
}.

Record snapshot := mkSnapshot {
  sn_accounts : gmap Address accountState;
  sn_reads : Slots;
  sn_writes : Slots;
  sn_refund : Z;
  sn_logsLen : nat
}.

(** [accessList]: -1 marks an address without slots. *)
Record accessList := mkAccessList {
  al_addresses : gmap Address Z;
  al_slots : list (gset Hash)
}.

Definition newAccessList : accessList := mkAccessList ∅ [].

Definition AddAddress (al : accessList) (addr : Address) : bool * accessList :=
  match al_addresses al !! addr with
  | Some _ => (false, al)
  | None => (true, mkAccessList (<[addr := -1]> (al_addresses al)) (al_slots al))
  end.

(** A new slot map for an address. *)
Definition add_slot_map (al : accessList) (addr : Address) (slot : Hash) : accessList :=
  mkAccessList (<[addr := Z.of_nat (length (al_slots al))]> (al_addresses al)) (al_slots al ++ [{[slot]}]).

Definition AddSlot (al : accessList) (addr : Address) (slot : Hash) : (bool * bool) * accessList :=
  match al_addresses al !! addr with
  | None => ((true, true), add_slot_map al addr slot)
  | Some idx =>
      if idx =? -1 then ((false, true), add_slot_map al addr slot)
      else
        let slots := default ∅ (al_slots al !! Z.to_nat idx) in
        if decide (slot ∈ slots) then ((false, false), al)
        else ((false, true),
              mkAccessList (al_addresses al) (<[Z.to_nat idx := {[slot]} ∪ slots]> (al_slots al)))
  end.

Definition ContainsAddress (al : accessList) (addr : Address) : bool :=
  bool_decide (is_Some (al_addresses al !! addr)).

Definition al_Contains (al : accessList) (addr : Address) (slot : Hash) : bool * bool :=
  match al_addresses al !! addr with
  | None => (false, false)
  | Some idx =>
      if idx =? -1 then (true, false)
      else (true, bool_decide (slot ∈ default ∅ (al_slots al !! Z.to_nat idx)))
  end.

(** [ss_panicked]: a conversion of a fetched balance or an index panicked, which
    ends the simulation without a result. *)
Record SimulationStateDB (F : Type) := mkSimulationStateDB {
  ss_txID : string;
  ss_fetcher : F;
  ss_accounts : gmap Address accountState;
  ss_reads : Slots;
  ss_writes : Slots;
  ss_writeOlds : Slots;
  ss_accessList : accessList;
  ss_logs : list Log;
  ss_refund : Z;
  ss_snapshots : list snapshot;
  ss_transient : Slots;
  ss_fetchErrors : list fetch_error;
  ss_panicked : bool
}.
Arguments mkSimulationStateDB {F} _ _ _ _ _ _ _ _ _ _ _ _ _.
Arguments ss_txID {F} _.
Arguments ss_fetcher {F} _.
Arguments ss_accounts {F} _.
Arguments ss_reads {F} _.
Arguments ss_writes {F} _.
Arguments ss_writeOlds {F} _.
Arguments ss_accessList {F} _.
Arguments ss_logs {F} _.
Arguments ss_refund {F} _.
Arguments ss_snapshots {F} _.
Arguments ss_transient {F} _.
Arguments ss_fetchErrors {F} _.
Arguments ss_panicked {F} _.

Section sim.
Context {F : Type} `{Fetcher F} `{Geth}.
Implicit Types (s : SimulationStateDB F).

Definition NewSimulationStateDB (txID : string) (fetcher : F) : SimulationStateDB F :=
  mkSimulationStateDB txID fetcher ∅ ∅ ∅ ∅ newAccessList [] 0 [] ∅ [] false.

(** Field updates. *)
Definition with_accounts s v : SimulationStateDB F :=
  mkSimulationStateDB (ss_txID s) (ss_fetcher s) v (ss_reads s) (ss_writes s) (ss_writeOlds s)
    (ss_accessList s) (ss_logs s) (ss_refund s) (ss_snapshots s) (ss_transient s) (ss_fetchErrors s)
    (ss_panicked s).
Definition with_fetch s f errs p : SimulationStateDB F :=
  mkSimulationStateDB (ss_txID s) f (ss_accounts s) (ss_reads s) (ss_writes s) (ss_writeOlds s)
    (ss_accessList s) (ss_logs s) (ss_refund s) (ss_snapshots s) (ss_transient s) errs p.
Definition with_reads s v : SimulationStateDB F :=
  mkSimulationStateDB (ss_txID s) (ss_fetcher s) (ss_accounts s) v (ss_writes s) (ss_writeOlds s)
    (ss_accessList s) (ss_logs s) (ss_refund s) (ss_snapshots s) (ss_transient s) (ss_fetchErrors s)
    (ss_panicked s).
Definition with_writes s v olds : SimulationStateDB F :=
  mkSimulationStateDB (ss_txID s) (ss_fetcher s) (ss_accounts s) (ss_reads s) v olds
    (ss_accessList s) (ss_logs s) (ss_refund s) (ss_snapshots s) (ss_transient s) (ss_fetchErrors s)
    (ss_panicked s).
Definition with_misc s al logs refund snaps transient : SimulationStateDB F :=
  mkSimulationStateDB (ss_txID s) (ss_fetcher s) (ss_accounts s) (ss_reads s) (ss_writes s) (ss_writeOlds s)
    al logs refund snaps transient (ss_fetchErrors s) (ss_panicked s).
Definition with_accessList s al := with_misc s al (ss_logs s) (ss_refund s) (ss_snapshots s) (ss_transient s).
Definition with_logs s l := with_misc s (ss_accessList s) l (ss_refund s) (ss_snapshots s) (ss_transient s).
Definition with_refund s g := with_misc s (ss_accessList s) (ss_logs s) g (ss_snapshots s) (ss_transient s).
Definition with_transient s t := with_misc s (ss_accessList s) (ss_logs s) (ss_refund s) (ss_snapshots s) t.

(** A fresh account of an address. *)
Definition empty_account (shardID : Z) (created : bool) : accountState :=
  mkAccount 0 0 0 [] 0 shardID false created.

(** The account, cached or fetched; an account that could not be fetched is empty
    and not cached. *)
Definition getOrFetchAccount s (addr : Address) : accountState * SimulationStateDB F :=
  match ss_accounts s !! addr with
  | Some acct => (acct, s)
  | None =>
      let shardID := f_AddressToShard (ss_fetcher s) addr in
      match f_FetchState (ss_fetcher s) (ss_txID s) shardID addr with
      | (Err err, f) =>
          (empty_account shardID false, with_fetch s f (ss_fetchErrors s ++ [err]) (ss_panicked s))
      | (Ok resp, f) =>
          let '(balance, panicked) :=
            match fs_Balance resp with
            | None => (0, false)
            | Some b => match MustFromBig b with Some v => (v, false) | None => (0, true) end
            end in
          let codeHash :=
            match fs_Code resp with
            | [] => 0
            | code => if fs_CodeHash resp =? 0 then Keccak256Hash code else fs_CodeHash resp
            end in
          let acct := mkAccount balance balance (fs_Nonce resp) (fs_Code resp) codeHash shardID false false in
          (acct, with_accounts (with_fetch s f (ss_fetchErrors s) (ss_panicked s || panicked))
                   (<[addr := acct]> (ss_accounts s)))
      end
  end.

(** The account is a pointer: a change is seen through the cache, and is lost when
    the account could not be fetched. *)
Definition update_account s (addr : Address) (acct : accountState) : SimulationStateDB F :=
  match ss_accounts s !! addr with
  | Some _ => with_accounts s (<[addr := acct]> (ss_accounts s))
  | None => s
  end.

Definition set_balance (a : accountState) (b : Z) : accountState :=
  mkAccount b (ac_OriginalBalance a) (ac_Nonce a) (ac_Code a) (ac_CodeHash a) (ac_ShardID a)
    (ac_Destructed a) (ac_Created a).
Definition set_nonce (a : accountState) (n : Z) : accountState :=
  mkAccount (ac_Balance a) (ac_OriginalBalance a) n (ac_Code a) (ac_CodeHash a) (ac_ShardID a)
    (ac_Destructed a) (ac_Created a).
Definition set_code (a : accountState) (code : list byte) (h : Hash) : accountState :=
  mkAccount (ac_Balance a) (ac_OriginalBalance a) (ac_Nonce a) code h (ac_ShardID a)
    (ac_Destructed a) (ac_Created a).
Definition destruct_account (a : accountState) : accountState :=
  mkAccount 0 (ac_OriginalBalance a) (ac_Nonce a) (ac_Code a) (ac_CodeHash a) (ac_ShardID a)
    true (ac_Created a).

(** ** Methods *)

Definition s_CreateAccount s (addr : Address) : SimulationStateDB F :=
  with_accounts s (<[addr := empty_account (f_AddressToShard (ss_fetcher s) addr) true]> (ss_accounts s)).

Definition s_CreateContract s (addr : Address) : SimulationStateDB F := s_CreateAccount s addr.

Definition s_GetBalance s (addr : Address) : Z * SimulationStateDB F :=
  let '(acct, s1) := getOrFetchAccount s addr in (ac_Balance acct, s1).

Definition s_SubBalance s (addr : Address) (amount : Z) : Z * SimulationStateDB F :=
  let '(acct, s1) := getOrFetchAccount s addr in
  (ac_Balance acct, update_account s1 addr (set_balance acct (u256_sub (ac_Balance acct) amount))).

Definition s_AddBalance s (addr : Address) (amount : Z) : Z * SimulationStateDB F :=
  let '(acct, s1) := getOrFetchAccount s addr in
  (ac_Balance acct, update_account s1 addr (set_balance acct (u256_add (ac_Balance acct) amount))).

Definition s_GetNonce s (addr : Address) : Z * SimulationStateDB F :=
  let '(acct, s1) := getOrFetchAccount s addr in (ac_Nonce acct, s1).

Definition s_SetNonce s (addr : Address) (nonce : Z) : SimulationStateDB F :=
  let '(acct, s1) := getOrFetchAccount s addr in update_account s1 addr (set_nonce acct nonce).

Definition s_GetCode s (addr : Address) : list byte * SimulationStateDB F :=
  let '(acct, s1) := getOrFetchAccount s addr in (ac_Code acct, s1).

Definition s_GetCodeHash s (addr : Address) : Hash * SimulationStateDB F :=
  let '(acct, s1) := getOrFetchAccount s addr in
  (match ac_Code acct with [] => 0 | _ => ac_CodeHash acct end, s1).

Definition s_SetCode s (addr : Address) (code : list byte) : list byte * SimulationStateDB F :=
  let '(acct, s1) := getOrFetchAccount s addr in
  let h := match code with [] => 0 | _ => Keccak256Hash code end in
  (ac_Code acct, update_account s1 addr (set_code acct code h)).

Definition s_GetCodeSize s (addr : Address) : Z * SimulationStateDB F :=
  let '(code, s1) := s_GetCode s addr in (Z.of_nat (length code), s1).

Definition s_AddRefund s (gas : Z) : SimulationStateDB F := with_refund s (u64_add (ss_refund s) gas).

Definition s_SubRefund s (gas : Z) : SimulationStateDB F :=
  with_refund s (if ss_refund s <? gas then 0 else ss_refund s - gas).

Definition s_GetState s (addr : Address) (slot : Hash) : Hash * SimulationStateDB F :=
  match slot_get (ss_writes s) addr slot with
  | Some val => (val, s)
  | None =>
      match slot_get (ss_reads s) addr slot with
      | Some val => (val, s)
      | None =>
          let '(acct, s1) := getOrFetchAccount s addr in
          let '(r, f) := f_GetStorageAt (ss_fetcher s1) (ss_txID s1) (ac_ShardID acct) addr slot in
          let s2 := with_fetch s1 f (ss_fetchErrors s1) (ss_panicked s1) in
          let val := match r with Ok v => v | Err _ => 0 end in
          (val, with_reads s2 (slot_put (ss_reads s2) addr slot val))
      end
  end.

Definition s_GetStateAndCommittedState s (addr : Address) (slot : Hash) :
    (Hash * Hash) * SimulationStateDB F :=
  let '(current, s1) := s_GetState s addr slot in
  match slot_get (ss_reads s1) addr slot with
  | Some committed => ((current, committed), s1)
  | None => ((current, current), s1)
  end.

Definition s_SetState s (addr : Address) (slot value : Hash) : Hash * SimulationStateDB F :=
  let '(prev, s1) := s_GetState s addr slot in
  let olds := (ss_writeOlds s1).[addr; ∅] in
  let olds' := match olds !! slot with Some _ => olds | None => <[slot := prev]> olds end in
  (prev, with_writes s1 (slot_put (ss_writes s1) addr slot value) (<[addr := olds']> (ss_writeOlds s1))).

Definition s_GetTransientState s (addr : Address) (key : Hash) : Hash :=
  default 0 (slot_get (ss_transient s) addr key).

Definition s_SetTransientState s (addr : Address) (key value : Hash) : SimulationStateDB F :=
  with_transient s (slot_put (ss_transient s) addr key value).

Definition s_SelfDestruct s (addr : Address) : Z * SimulationStateDB F :=
  let '(acct, s1) := getOrFetchAccount s addr in
  (ac_Balance acct, update_account s1 addr (destruct_account acct)).

Definition s_SelfDestruct6780 s (addr : Address) : (Z * bool) * SimulationStateDB F :=
  let '(acct, s1) := getOrFetchAccount s addr in
  if ac_Created acct then ((ac_Balance acct, true), update_account s1 addr (destruct_account acct))
  else ((ac_Balance acct, false), s1).

Definition s_HasSelfDestructed s (addr : Address) : bool :=
  match ss_accounts s !! addr with Some acct => ac_Destructed acct | None => false end.

Definition has_code (acct : accountState) : bool := match ac_Code acct with [] => false | _ => true end.

Definition s_Exist s (addr : Address) : bool * SimulationStateDB F :=
  let '(acct, s1) := getOrFetchAccount s addr in
  ((0 <? ac_Nonce acct) || (0 <? ac_Balance acct) || has_code acct, s1).

Definition s_Empty s (addr : Address) : bool * SimulationStateDB F :=
  let '(acct, s1) := getOrFetchAccount s addr in
  ((ac_Nonce acct =? 0) && (ac_Balance acct =? 0) && negb (has_code acct), s1).

Definition s_Prepare s (sender coinbase : Address) (dest : option Address)
    (precompiles : list Address) (txAccesses : list (Address * list Hash)) : SimulationStateDB F :=
  let al := (AddAddress newAccessList sender).2 in
  let al := match dest with Some d => (AddAddress al d).2 | None => al end in
  let al := (AddAddress al coinbase).2 in
  let al := foldl (λ al addr, (AddAddress al addr).2) al precompiles in
  let al := foldl (λ al '(addr, keys),
              foldl (λ al key, (AddSlot al addr key).2) (AddAddress al addr).2 keys) al txAccesses in
  with_accessList s al.

(** A revision past the end is ignored; a negative one is out of range. *)
Definition s_RevertToSnapshot s (revid : Z) : SimulationStateDB F :=
  if Z.of_nat (length (ss_snapshots s)) <=? revid then s
  else if revid <? 0 then with_fetch s (ss_fetcher s) (ss_fetchErrors s) true
  else
    match ss_snapshots s !! Z.to_nat revid with
    | None => s
    | Some snap =>
        mkSimulationStateDB (ss_txID s) (ss_fetcher s) (sn_accounts snap) (sn_reads snap) (sn_writes snap)
          (ss_writeOlds s) (ss_accessList s) (take (sn_logsLen snap) (ss_logs s)) (sn_refund snap)
          (take (Z.to_nat revid) (ss_snapshots s)) (ss_transient s) (ss_fetchErrors s) (ss_panicked s)
    end.

(** The copies of the source are the values themselves. *)
Definition s_Snapshot s : Z * SimulationStateDB F :=
  let snap := mkSnapshot (ss_accounts s) (ss_reads s) (ss_writes s) (ss_refund s) (length (ss_logs s)) in
  (Z.of_nat (length (ss_snapshots s)),
   with_misc s (ss_accessList s) (ss_logs s) (ss_refund s) (ss_snapshots s ++ [snap]) (ss_transient s)).

Definition s_AddLog s (log : Log) : SimulationStateDB F := with_logs s (ss_logs s ++ [log]).

(** The methods of the interface. *)
Definition s_do (A : Type) (op : StateOp A) (s : SimulationStateDB F) : A * SimulationStateDB F :=
  match op in StateOp A return A * SimulationStateDB F with
  | CreateAccount a => (tt, s_CreateAccount s a)
  | CreateContract a => (tt, s_CreateContract s a)
  | SubBalance a v => s_SubBalance s a v
  | AddBalance a v => s_AddBalance s a v
  | GetBalance a => s_GetBalance s a
  | GetNonce a => s_GetNonce s a
  | SetNonce a n => (tt, s_SetNonce s a n)
  | GetCodeHash a => s_GetCodeHash s a
  | GetCode a => s_GetCode s a
  | SetCode a c => s_SetCode s a c
  | GetCodeSize a => s_GetCodeSize s a
  | AddRefund g => (tt, s_AddRefund s g)
  | SubRefund g => (tt, s_SubRefund s g)
  | GetRefund => (ss_refund s, s)
  | GetState a k => s_GetState s a k
  | GetStateAndCommittedState a k => s_GetStateAndCommittedState s a k
  | SetState a k v => s_SetState s a k v
  | GetStorageRoot a => (0, s)
  | GetTransientState a k => (s_GetTransientState s a k, s)
  | SetTransientState a k v => (tt, s_SetTransientState s a k v)
  | SelfDestruct a => s_SelfDestruct s a
  | HasSelfDestructed a => (s_HasSelfDestructed s a, s)
  | SelfDestruct6780 a => s_SelfDestruct6780 s a
  | Exist a => s_Exist s a
  | Empty a => s_Empty s a
  | AddressInAccessList a => (ContainsAddress (ss_accessList s) a, s)
  | SlotInAccessList a k => (al_Contains (ss_accessList s) a k, s)
  | AddAddressToAccessList a => (tt, with_accessList s (AddAddress (ss_accessList s) a).2)
  | AddSlotToAccessList a k => (tt, with_accessList s (AddSlot (ss_accessList s) a k).2)
  | Prepare snd cb dest ps txa => (tt, s_Prepare s snd cb dest ps txa)
  | RevertToSnapshot r => (tt, s_RevertToSnapshot s r)
  | Snapshot => s_Snapshot s
  | AddLog l => (tt, s_AddLog s l)
  | AddPreimage h p => (tt, s)
  | Finalise b => (tt, s)
  end.

#[export] Instance sim_db : StateDB (SimulationStateDB F) := s_do.

(** ** Results *)

Definition GetLogs s : list Log := ss_logs s.
Definition HasFetchErrors s : bool := match ss_fetchErrors s with [] => false | _ => true end.
Definition GetFetchErrors s : list fetch_error := ss_fetchErrors s.

Context `{MapRange}.

Definition sim_reads s (addr : Address) : list ReadSetItem :=
  match ss_reads s !! addr with
  | Some reads => map (λ '(slot, value), mkReadSetItem slot (Hash_Bytes value) []) (map_range reads)
  | None => []
  end.

Definition sim_writes s (addr : Address) : list WriteSetItem :=
  match ss_writes s !! addr with
  | Some writes =>
      map (λ '(slot, newVal),
        mkWriteSetItem slot (Hash_Bytes (default 0 (slot_get (ss_writeOlds s) addr slot))) (Hash_Bytes newVal))
        (map_range writes)
  | None => []
  end.

(** The accounts whose balance changed. *)
Definition changed_balances s : list (Address * accountState) :=
  filter (λ '(_, acct), ac_Balance acct ≠ ac_OriginalBalance acct) (map_range (ss_accounts s)).

Definition sim_addrSet s : gmap Address bool :=
  mark_addrs (changed_balances s)
    (mark_addrs (map_range (ss_writes s)) (mark_addrs (map_range (ss_reads s)) ∅)).

Definition sim_shard s (addr : Address) : Z :=
  match ss_accounts s !! addr with
  | Some acct => ac_ShardID acct
  | None => f_AddressToShard (ss_fetcher s) addr
  end.

Definition sim_BuildRwSet s : list RwVariable :=
  map (λ '(addr, _), mkRwVariable addr (mkReference (sim_shard s addr) 0 0) (sim_reads s addr) (sim_writes s addr))
    (map_range (sim_addrSet s)).

End sim.
