(* ===== verification/StateFetcher.v ===== *)
(** * StateFetcher: internal/orchestrator/statefetcher.go

    The orchestrator's client of the shards: accounts are fetched over HTTP and
    cached per transaction, code is kept in the bytecode store, storage slots are
    fetched one by one, with or without a Merkle proof. What the network answers is
    an interface ([Net]). The file ends with the instance of [Fetcher] that the
    simulation database is proved against. *)

From S2P Require Import Prelude Codec Protocol VmState MemDB TrackingDB StorageProof BytecodeStore SimStateDB.

Open Scope Z_scope.

(** ** The network *)

(** A GET: the transport failed, a status other than 200, a body that does not
    decode, or the decoded body. *)
Inductive http_reply (A : Type) : Type :=
| TransportError (msg : string)
| StatusCode (code : Z)
| DecodeError (msg : string)
| Decoded (a : A).
Arguments TransportError {A} msg.
Arguments StatusCode {A} code.
Arguments DecodeError {A} msg.
Arguments Decoded {A} a.

(** The fields of the proof answer the client looks at. *)
Record ProofReply := mkProofReply {
  rp_Value : string;
  rp_StateRoot : string;
  rp_AccountProof : list string;
  rp_StorageProof : list string
}.

(** Requests to the shard of a number: POST /state/fetch (whose status is not looked
    at), GET /evm/storage/{address}/{slot} without and with proof. *)
Class Net (N : Type) := {
  net_fetch : N → Z → Address → result string FetchStateResponse * N;
  net_storage : N → Z → string → string → http_reply string * N;
  net_proof : N → Z → string → string → http_reply ProofReply * N
}.

(** ** State *)

Record cachedState := mkCachedState {
  ca_ShardID : Z;
  ca_Balance : option Z;
  ca_Nonce : Z;
  ca_Code : list byte;
  ca_CodeHash : Hash
}.

Record StateFetcher (N D : Type) := mkStateFetcher {
  sf_numShards : Z;
  sf_net : N;
  sf_bytecodeStore : BytecodeStore D;
  sf_stateCache : gmap string (gmap Address cachedState)
}.
Arguments mkStateFetcher {N D} _ _ _ _.
Arguments sf_numShards {N D} _.
Arguments sf_net {N D} _.
Arguments sf_bytecodeStore {N D} _.
Arguments sf_stateCache {N D} _.

Section fetcher.
Context {N D : Type} `{Net N} `{EthDB D} `{Geth} `{GethHex} `{TrieCodec}.
Implicit Types (sf : StateFetcher N D).

Definition NewStateFetcher (numShards : Z) (net : N) (db : D) : StateFetcher N D :=
  mkStateFetcher numShards net (NewBytecodeStore db) ∅.

Definition with_net sf n : StateFetcher N D :=
  mkStateFetcher (sf_numShards sf) n (sf_bytecodeStore sf) (sf_stateCache sf).

(** The cached state of an address for a transaction. *)
Definition cache_get sf (txID : string) (addr : Address) : option cachedState :=
  sf_stateCache sf !! txID ≫= (.!! addr).

(** The answer is cached for the transaction, and its code stored; a failure to
    store is only logged. *)
Definition remember sf (txID : string) (shardID : Z) (addr : Address) (resp : FetchStateResponse) :
    StateFetcher N D :=
  let txCache := (sf_stateCache sf).[txID; ∅] in
  let cached := mkCachedState shardID (fs_Balance resp) (fs_Nonce resp) (fs_Code resp) (fs_CodeHash resp) in
  let store := match fs_Code resp with
               | [] => sf_bytecodeStore sf
               | code => (bs_Put (sf_bytecodeStore sf) addr code).2
               end in
  mkStateFetcher (sf_numShards sf) (sf_net sf) store (<[txID := <[addr := cached]> txCache]> (sf_stateCache sf)).

Definition FetchState sf (txID : string) (shardID : Z) (addr : Address) :
    result fetch_error FetchStateResponse * StateFetcher N D :=
  if (shardID <? 0) || (sf_numShards sf <=? shardID) then (Err (InvalidShard shardID), sf)
  else
    let '(reply, n) := net_fetch (sf_net sf) shardID addr in
    let sf := with_net sf n in
    match reply with
    | Err msg => (Err (FetchTransport msg), sf)
    | Ok resp =>
        if negb (fs_Success resp) then (Err (FetchRefused (fs_Error resp)), sf)
        else (Ok resp, remember sf txID shardID addr resp)
    end.

(** The pointer read from the cache after a fetch. *)
Definition getState sf (txID : string) (shardID : Z) (addr : Address) :
    result fetch_error (option cachedState) * StateFetcher N D :=
  match cache_get sf txID addr with
  | Some cached => (Ok (Some cached), sf)
  | None =>
      match FetchState sf txID shardID addr with
      | (Err err, sf1) => (Err err, sf1)
      | (Ok _, sf1) => (Ok (cache_get sf1 txID addr), sf1)
      end
  end.

Definition ClearCache sf (txID : string) : StateFetcher N D :=
  mkStateFetcher (sf_numShards sf) (sf_net sf) (sf_bytecodeStore sf) (delete txID (sf_stateCache sf)).

Definition sf_Close sf : option string * StateFetcher N D :=
  let '(err, store) := bs_Close (sf_bytecodeStore sf) in
  (err, mkStateFetcher (sf_numShards sf) (sf_net sf) store (sf_stateCache sf)).

Definition getStorageAtWithProof sf (txID : string) (shardID : Z) (addr : Address) (slot : Hash)
    (verifyProof : bool) : result fetch_error Hash * StateFetcher N D :=
  match getState sf txID shardID addr with
  | (Err err, sf1) => (Err (FetchAddressState err), sf1)
  | (Ok _, sf1) =>
      if verifyProof then
        let '(reply, n) := net_proof (sf_net sf1) shardID (Address_Hex addr) (Hash_Hex slot) in
        let sf2 := with_net sf1 n in
        match reply with
        | TransportError msg => (Err (FetchTransport msg), sf2)
        | StatusCode code => (Err (FetchStatus code), sf2)
        | DecodeError msg => (Err (FetchDecode msg), sf2)
        | Decoded r =>
            let value := HexToHash (rp_Value r) in
            match VerifyStorageProof (HexToHash (rp_StateRoot r)) addr slot value
                    (rp_AccountProof r) (rp_StorageProof r) with
            | Some err => (Err (ProofInvalid err), sf2)
            | None => (Ok value, sf2)
            end
        end
      else
        let '(reply, n) := net_storage (sf_net sf1) shardID (Address_Hex addr) (Hash_Hex slot) in
        let sf2 := with_net sf1 n in
        match reply with
        | TransportError msg => (Err (FetchTransport msg), sf2)
        | StatusCode code => (Err (FetchStatus code), sf2)
        | DecodeError msg => (Err (FetchDecode msg), sf2)
        | Decoded value => (Ok (HexToHash value), sf2)
        end
  end.

Definition GetStorageAtWithProof := getStorageAtWithProof.
Definition sf_GetStorageAt sf txID shardID addr slot := getStorageAtWithProof sf txID shardID addr slot false.

(** [None] of [panics]: the state is not in the cache, a nil dereference. *)
Definition sf_GetBalance sf (txID : string) (shardID : Z) (addr : Address) :
    panics (result fetch_error (option Z) * StateFetcher N D) :=
  match getState sf txID shardID addr with
  | (Err err, sf1) => Some (Err err, sf1)
  | (Ok None, sf1) => None
  | (Ok (Some state), sf1) => Some (Ok (ca_Balance state), sf1)
  end.

Definition sf_GetNonce sf (txID : string) (shardID : Z) (addr : Address) :
    panics (result fetch_error Z * StateFetcher N D) :=
  match getState sf txID shardID addr with
  | (Err err, sf1) => Some (Err err, sf1)
  | (Ok None, sf1) => None
  | (Ok (Some state), sf1) => Some (Ok (ca_Nonce state), sf1)
  end.

Definition sf_GetCode sf (txID : string) (shardID : Z) (addr : Address) :
    panics (result fetch_error (list byte) * StateFetcher N D) :=
  match bs_Get (sf_bytecodeStore sf) addr with
  | Some code => Some (Ok code, sf)
  | None =>
      match getState sf txID shardID addr with
      | (Err err, sf1) => Some (Err err, sf1)
      | (Ok None, sf1) => None
      | (Ok (Some state), sf1) => Some (Ok (ca_Code state), sf1)
      end
  end.

Definition sf_AddressToShard sf (addr : Address) : Z := shard_of addr (sf_numShards sf).

#[export] Instance state_fetcher : Fetcher (StateFetcher N D) := {
  f_AddressToShard := sf_AddressToShard;
  f_FetchState := FetchState;
  f_GetStorageAt := sf_GetStorageAt
}.
End fetcher.

(** ** The fetcher is a [Fetcher] *)

(** A network whose [n] shards answer for a storage [σ], and go on doing so. *)
Class NetLaws (N : Type) `{Net N} `{GethHex} := {
  net_serves : N → Z → (Address → Hash → Hash) → Prop;
  fetch_serves nt n σ i a : net_serves nt n σ → net_serves (net_fetch nt i a).2 n σ;
  fetch_ok nt n σ a : 0 < n → net_serves nt n σ →
    ∃ resp, (net_fetch nt (shard_of a n) a).1 = Ok resp ∧ fs_Success resp = true;
  storage_ok nt n σ a k : 0 < n → net_serves nt n σ → in_range a k = true →
    let '(r, nt') := net_storage nt (shard_of a n) (Address_Hex a) (Hash_Hex k) in
    net_serves nt' n σ ∧ ∃ v, r = Decoded v ∧ HexToHash v = σ a k
}.

Section laws.
Context {N D : Type} `{GethHex} `{Net N} `{!NetLaws N} `{EthDB D} `{Geth} `{TrieCodec}.
Implicit Types (sf : StateFetcher N D).

Definition sf_serves sf (n : Z) (σ : Address → Hash → Hash) : Prop :=
  sf_numShards sf = n ∧ 0 < n ∧ net_serves (sf_net sf) n σ.

Lemma FetchState_serves sf n σ tx i a : sf_serves sf n σ → sf_serves (FetchState sf tx i a).2 n σ.
Proof.
  intros (Hn&Hp&Hs). unfold FetchState. destruct (_ || _); [done|].
  pose proof (fetch_serves _ _ _ i a Hs) as Hs'. destruct (net_fetch _ _ _) as [[resp|msg] nt]; [|done].
  by destruct (negb _).
Qed.

Lemma getState_serves sf n σ tx a :
  sf_serves sf n σ →
  let '(r, sf') := getState sf tx (shard_of a n) a in
  sf_serves sf' n σ ∧ ∃ c, r = Ok c.
Proof.
  intros Hs. pose proof Hs as (Hn&Hp&Hnet). unfold getState. destruct (cache_get sf tx a) as [c|]; [eauto|].
  pose proof (FetchState_serves sf n σ tx (shard_of a n) a Hs) as Hs'.
  destruct (fetch_ok _ _ _ a Hp Hnet) as (resp&Hr&Hok). pose proof (shard_of_range a n Hp) as Hrange.
  revert Hs'. unfold FetchState. rewrite Hn.
  replace ((shard_of a n <? 0) || (n <=? shard_of a n)) with false by lia.
  destruct (net_fetch _ _ _) as [r nt]. simpl in Hr. subst r. rewrite Hok. simpl. eauto.
Qed.

#[export] Instance state_fetcher_laws : FetcherLaws (StateFetcher N D).
Proof.
  refine {| serves := sf_serves |}.
  - by intros f n σ a (<-&_).
  - intros f n σ tx i a. apply FetchState_serves.
  - intros f n σ tx a s Hs Hrange. unfold f_GetStorageAt, state_fetcher, sf_GetStorageAt, getStorageAtWithProof.
    pose proof (getState_serves f n σ tx a Hs) as Hg.
    destruct (getState _ _ _ _) as [r sf1]. destruct Hg as [(Hn&Hp&Hnet) (c&->)].
    pose proof (storage_ok _ _ _ a s Hp Hnet Hrange) as Hst.
    destruct (net_storage _ _ _ _) as [r nt]. destruct Hst as (Hnet'&v&->&<-). done.
Defined.
End laws.

(** ** Repeatable reads *)

Section cache.
Context {N D : Type} `{Net N} `{EthDB D} `{Geth} `{GethHex} `{TrieCodec}.
Implicit Types (sf : StateFetcher N D).

(** The reads of account state and storage, of any transaction. *)
Inductive read_op : Type :=
| ReadBalance (txID : string) (shardID : Z) (addr : Address)
| ReadNonce (txID : string) (shardID : Z) (addr : Address)
| ReadCode (txID : string) (shardID : Z) (addr : Address)
| ReadStorage (txID : string) (shardID : Z) (addr : Address) (slot : Hash) (verifyProof : bool).

Definition do_read (op : read_op) sf : panics (StateFetcher N D) :=
  match op with
  | ReadBalance tx i a => snd <$> sf_GetBalance sf tx i a
  | ReadNonce tx i a => snd <$> sf_GetNonce sf tx i a
  | ReadCode tx i a => snd <$> sf_GetCode sf tx i a
  | ReadStorage tx i a k p => Some (getStorageAtWithProof sf tx i a k p).2
  end.

Fixpoint do_reads (ops : list read_op) sf : panics (StateFetcher N D) :=
  match ops with
  | [] => Some sf
  | op :: ops' => sf' ← do_read op sf; do_reads ops' sf'
  end.

Lemma cache_remember sf tx i a resp tx' a' :
  cache_get (remember sf tx i a resp) tx' a'
  = if decide (tx' = tx ∧ a' = a)
    then Some (mkCachedState i (fs_Balance resp) (fs_Nonce resp) (fs_Code resp) (fs_CodeHash resp))
    else cache_get sf tx' a'.
Proof.
  unfold cache_get, remember, map_get. simpl. destruct (decide (tx' = tx)) as [->|Hne].
  - rewrite lookup_insert_eq. simpl. destruct (decide (a' = a)) as [->|Ha].
    + rewrite lookup_insert_eq, decide_True by done. done.
    + rewrite lookup_insert_ne, decide_False by naive_solver. by destruct (sf_stateCache sf !! tx).
  - rewrite lookup_insert_ne, decide_False by naive_solver. done.
Qed.

(** A fetch of another entry, or one that finds the entry, leaves it. *)
Lemma getState_keeps sf tx i a tx' a' c :
  cache_get sf tx' a' = Some c → cache_get (getState sf tx i a).2 tx' a' = Some c.
Proof.
  intros Hc. unfold getState. destruct (cache_get sf tx a) eqn:Hca; [done|].
  unfold FetchState. destruct (_ || _); [done|]. destruct (net_fetch _ _ _) as [[resp|msg] nt]; [|done].
  destruct (negb _); [done|]. cbn [snd]. rewrite cache_remember, decide_False; [done|].
  intros [-> ->]. congruence.
Qed.

Lemma getState_cached sf tx i a r sf' :
  getState sf tx i a = (Ok r, sf') → r = cache_get sf' tx a.
Proof.
  unfold getState. destruct (cache_get sf tx a) eqn:Hca; [by intros [= <- <-]|].
  destruct (FetchState _ _ _ _) as [[resp|err] sf1]; [|done]. by intros [= <- <-].
Qed.

Lemma do_read_keeps op sf sf' tx a c :
  do_read op sf = Some sf' → cache_get sf tx a = Some c → cache_get sf' tx a = Some c.
Proof.
  intros Hd Hc. destruct op as [tx' i a'|tx' i a'|tx' i a'|tx' i a' k p]; simpl in Hd;
    pose proof (getState_keeps sf tx' i a' tx a c Hc) as Hk;
    unfold sf_GetBalance, sf_GetNonce, sf_GetCode, getStorageAtWithProof in Hd;
    try (destruct (bs_Get _ _); [by simplify_eq/=|]);
    destruct (getState sf tx' i a') as [[[s|]|err] sf1]; simplify_eq/=; try done;
    destruct p; [destruct (net_proof _ _ _ _) as [reply nt]|destruct (net_storage _ _ _ _) as [reply nt]
                |destruct (net_proof _ _ _ _) as [reply nt]|destruct (net_storage _ _ _ _) as [reply nt]];
    destruct reply; try done; by case_match.
Qed.

Lemma do_reads_keeps ops sf sf' tx a c :
  do_reads ops sf = Some sf' → cache_get sf tx a = Some c → cache_get sf' tx a = Some c.
Proof.
  revert sf. induction ops as [|op ops IH]; intros sf; simpl; [by intros [= ->]|].
  intros (sf1&Hd&Hr)%bind_Some Hc. eapply IH; [done|]. by eapply do_read_keeps.
Qed.

End cache.

(** ** Witness *)

(** A network that counts the requests: the balance it reports is their number. *)
#[local] Instance counting_net : Net Z := {
  net_fetch nt i a := (Ok (mkFetchStateResponse true "" (Some nt) 0 [] 0), nt + 1);
  net_storage nt i a k := (Decoded "0"%string, nt + 1);
  net_proof nt i a k := (TransportError "refused", nt + 1)
}.

Definition countingFetcher : StateFetcher Z (gmap (list byte) (list byte)) := NewStateFetcher 2 7 ∅.

#[local] Existing Instance toy_codec.

