(* ===== verification/ShardQueries.v ===== *)
(** * ShardQueries: the read-only endpoints of internal/shard/server.go

    What a shard answers about its state: balances, code, storage (with a Merkle
    proof on request), the state root. Together with [handleStateFetch] this is the
    service the orchestrator simulates on; [ShardNet] makes the shards of a
    deployment a network for the state fetcher, which discharges its laws. *)

From S2P Require Import Prelude Codec Protocol BlockBuffer VmState MemDB TrackingDB EvmState ShardChain SlotLocks StorageProof ShardServer SimStateDB StateFetcher BytecodeStore.

Open Scope Z_scope.

(** ** The endpoints *)

Section queries.
Context {DB T : Type} `{GethStateDB DB} `{Geth} `{GethHex} `{TrieCodec} `{!MerkleTrie DB T}.
Implicit Types (s : Server DB).

Inductive storage_reply : Type :=
| StorageValue (address slot value : string)
| StorageProofReply (address slot : string) (height : Z) (r : ProofReply)
| ProofGenerationFailed.

Definition handleGetBalance s (address : string) : (string * Z) * Server DB :=
  let addr := HexToAddress address in
  let '(balance, e) := es_GetBalance (sv_evmState s) addr in
  ((Address_Hex addr, balance), with_evm s e).

Definition handleGetCode s (address : string) : (string * string) * Server DB :=
  let addr := HexToAddress address in
  let '(code, e) := es_GetCode (sv_evmState s) addr in
  ((Address_Hex addr, Bytes2Hex code), with_evm s e).

Definition handleGetStorage s (address slot : string) (includeProof : bool) : storage_reply * Server DB :=
  let addr := HexToAddress address in
  let slot := HexToHash slot in
  if includeProof then
    match GetStorageWithProof (sv_evmState s) addr slot with
    | (None, e) => (ProofGenerationFailed, with_evm s e)
    | (Some p, e) =>
        (StorageProofReply (Address_Hex (sp_Address p)) (Hash_Hex (sp_Slot p)) (sp_BlockHeight p)
           (mkProofReply (Hash_Hex (sp_Value p)) (Hash_Hex (sp_StateRoot p))
              (formatProof (sp_AccountProof p)) (formatProof (sp_StorageProof p))),
         with_evm s e)
    end
  else
    let '(value, e) := GetStorageAt (sv_evmState s) addr slot in
    (StorageValue (Address_Hex addr) (Hash_Hex slot) (Hash_Hex value), with_evm s e).

Definition handleGetStateRoot s : string := Hash_Hex (GetStateRoot (sv_evmState s)).

Definition handleInfo s : Z := sv_shardID s.
End queries.

(** ** A deployment as a network *)

(** The shards by number. JSON carries the fields of the answers unchanged. *)
Record ShardNet (DB : Type) := mkShardNet { sn_shard : Z → Server DB }.
Arguments mkShardNet {DB} _.
Arguments sn_shard {DB} _.

Definition set_shard {DB} (net : ShardNet DB) (i : Z) (s : Server DB) : ShardNet DB :=
  mkShardNet (λ j, if decide (j = i) then s else sn_shard net j).

Section net.
Context {DB T : Type} `{GethStateDB DB} `{Geth} `{GethHex} `{TrieCodec} `{!MerkleTrie DB T}.
Implicit Types (net : ShardNet DB).

Definition to_fetch_response (r : response) : result string FetchStateResponse :=
  match r with
  | StateFetched f =>
      Ok (mkFetchStateResponse (sf_Success f) (sf_Error f) (Some (sf_Balance f)) (sf_Nonce f) (sf_Code f) (sf_CodeHash f))
  | _ => Err "unmarshal fetch response"%string
  end.

#[export] Instance shard_net : Net (ShardNet DB) := {
  net_fetch net i a :=
    let '(r, s) := handleStateFetch (sn_shard net i) a in (to_fetch_response r, set_shard net i s);
  net_storage net i a k :=
    let '(r, s) := handleGetStorage (sn_shard net i) a k false in
    (match r with StorageValue _ _ v => Decoded v | _ => DecodeError "decode storage response" end, set_shard net i s);
  net_proof net i a k :=
    let '(r, s) := handleGetStorage (sn_shard net i) a k true in
    (match r with
     | StorageProofReply _ _ _ p => Decoded p
     | ProofGenerationFailed => StatusCode 500
     | StorageValue _ _ _ => DecodeError "decode storage proof response"
     end, set_shard net i s)
}.
End net.

Section net_laws.
Context {DB T : Type} `{GethStateDBLaws DB} `{Geth} `{GethHex} `{!GethHexLaws} `{TrieCodec} `{!MerkleTrie DB T}.
Implicit Types (net : ShardNet DB).

(** Account queries leave the storage alone. *)
Lemma GetAccountState_sto (e : EVMState DB) a a' k : sto (GetAccountState e a).2 a' k = sto e a' k.
Proof.
  unfold GetAccountState, run, sto. cbn [prog_bind exec call].
  pose proof (λ db, other_ops_storage db _ (GetBalance a) a' k eq_refl) as H1'.
  pose proof (λ db, other_ops_storage db _ (GetNonce a) a' k eq_refl) as H2'.
  pose proof (λ db, other_ops_storage db _ (GetCode a) a' k eq_refl) as H3'.
  pose proof (λ db, other_ops_storage db _ (GetCodeHash a) a' k eq_refl) as H4'.
  specialize (H1' (es_stateDB e)). destruct (do_op (GetBalance a) _) as [b db1].
  specialize (H2' db1). destruct (do_op (GetNonce a) _) as [n db2].
  specialize (H3' db2). destruct (do_op (GetCode a) _) as [c db3].
  specialize (H4' db3). destruct (do_op (GetCodeHash a) _) as [h db4]. cbn [fst snd] in *. simpl.
  by rewrite H4', H3', H2', H1'.
Qed.

(** The shards of the deployment hold, together, the storage [σ]. *)
Definition shards_hold net (n : Z) (σ : Address → Hash → Hash) : Prop :=
  ∀ a k, in_range a k = true →
    sto (sv_evmState (sn_shard net (shard_of a n))) a k = σ a k ∧ is_u256 (σ a k).

(** A shard whose storage reads the same can take its place. *)
Lemma shards_hold_set net n σ i s :
  (∀ a k, sto (sv_evmState s) a k = sto (sv_evmState (sn_shard net i)) a k) →
  shards_hold net n σ → shards_hold (set_shard net i s) n σ.
Proof.
  intros Hs Hh a k Hr. destruct (Hh a k Hr) as [Hv Hu]. split; [|done]. simpl.
  case_decide as Hi; [|done]. by rewrite Hs, <- Hi.
Qed.

#[export] Instance shard_net_laws : NetLaws (ShardNet DB).
Proof.
  refine {| net_serves := shards_hold |}.
  - intros net n σ i a Hh. unfold net_fetch, shard_net, handleStateFetch.
    pose proof (GetAccountState_sto (sv_evmState (sn_shard net i)) a) as Hs.
    destruct (GetAccountState _ _) as [acc e]. cbn [snd]. by apply shards_hold_set.
  - intros net n σ a _ Hh. unfold net_fetch, shard_net, handleStateFetch.
    destruct (GetAccountState _ _) as [acc e]. eauto.
  - intros net n σ a k _ Hh Hr. unfold net_storage, shard_net, handleGetStorage.
    destruct (Hh a k Hr) as [Hv Hu].
    assert (0 ≤ a < 2 ^ 160 ∧ is_u256 k) as [Ha Hk] by (unfold in_range in Hr; unfold is_u256; lia).
    rewrite HexToAddress_Hex, HexToHash_Hex by done.
    pose proof (GetStorageAt_spec (sv_evmState (sn_shard net (shard_of a n))) a k) as Hg.
    destruct (GetStorageAt _ _ _) as [v e]. destruct Hg as [-> He]. cbn [fst snd]. split.
    + apply shards_hold_set; [|done]. intros a' k'. simpl. by apply He.
    + eexists. split; [done|]. rewrite Hv. by apply HexToHash_Hex.
Defined.
End net_laws.
