(* ===== verification/SimProofs.v ===== *)
(** * SimProofs: what a cross-shard simulation establishes

    The orchestrator simulates a call on a database it fetches slot by slot
    ([SimStateDB]) and sends the read/write set to the shards. The theorems say
    that the simulated storage behaves like one nested store, reverts included;
    that once every shard has validated and locked its part, applying the parts
    shard by shard is running the call on one unsharded database; and which
    accesses the set misses. *)

From S2P Require Import Prelude Codec Protocol VmState MemDB TrackingDB EvmState ShardChain SlotLocks Isolation ShardServer ServerBlocks SimStateDB.

Open Scope Z_scope.

(** ** The specification: a store with nested revisions *)

Record Store := mkStore {
  st_base : Address → Hash → Hash;
  st_cur : Address → Hash → Hash;
  st_snaps : list (Address → Hash → Hash)
}.

Definition store_of (σ : Address → Hash → Hash) : Store := mkStore σ σ [].

Definition store_set (σ : Address → Hash → Hash) a s v : Address → Hash → Hash :=
  λ a' s', if decide (a' = a ∧ s' = s) then v else σ a' s'.

(** The answers to operations that do not concern storage. *)
Definition default_answer {A} (op : StateOp A) : A :=
  match op in StateOp A return A with
  | CreateAccount _ | CreateContract _ | SetNonce _ _ | AddRefund _ | SubRefund _
  | SetTransientState _ _ _ | AddAddressToAccessList _ | AddSlotToAccessList _ _
  | Prepare _ _ _ _ _ | RevertToSnapshot _ | AddLog _ | AddPreimage _ _ | Finalise _ => tt
  | SubBalance _ _ | AddBalance _ _ | GetBalance _ | GetNonce _ | GetCodeHash _ | GetCodeSize _
  | GetRefund | GetState _ _ | SetState _ _ _ | GetStorageRoot _ | GetTransientState _ _
  | SelfDestruct _ | Snapshot => 0
  | GetCode _ | SetCode _ _ => []
  | GetStateAndCommittedState _ _ => (0, 0)
  | HasSelfDestructed _ | Exist _ | Empty _ | AddressInAccessList _ => false
  | SelfDestruct6780 _ => (0, false)
  | SlotInAccessList _ _ => (false, false)
  end.

Definition store_do (A : Type) (op : StateOp A) (st : Store) : A * Store :=
  match op in StateOp A return A * Store with
  | GetState a s => (st_cur st a s, st)
  | GetStateAndCommittedState a s => ((st_cur st a s, st_base st a s), st)
  | SetState a s v => (st_cur st a s, mkStore (st_base st) (store_set (st_cur st) a s v) (st_snaps st))
  | Snapshot => (Z.of_nat (length (st_snaps st)), mkStore (st_base st) (st_cur st) (st_snaps st ++ [st_cur st]))
  | RevertToSnapshot r =>
      (tt, if r <? 0 then st
           else match st_snaps st !! Z.to_nat r with
                | Some σ => mkStore (st_base st) σ (take (Z.to_nat r) (st_snaps st))
                | None => st
                end)
  | op => (default_answer op, st)
  end.

#[export] Instance store_db : StateDB Store := store_do.

(** Programs of storage accesses and nested revisions. *)
Definition framed_op {A} (op : StateOp A) : bool :=
  match op with
  | GetState a k | GetStateAndCommittedState a k => in_range a k
  | SetState a k v => in_range a k && (0 <=? v) && (v <? two256)
  | Snapshot | RevertToSnapshot _ => true
  | _ => false
  end.

Fixpoint framed {R} (p : Prog R) : Prop :=
  match p with
  | Ret _ => True
  | Vis A op k => framed_op op = true ∧ ∀ x, framed (k x)
  end.

(** ** The invariant of the simulation *)

Section sim.
Context {F : Type} `{FetcherLaws F} `{Geth}.
Implicit Types (s : SimulationStateDB F) (σ : Address → Hash → Hash).

(** Cached accounts are those of their shard, recorded reads show the served
    storage, and written slots have been read. *)
Definition maps_ok (n : Z) σ (accounts : gmap Address accountState) (reads writes : Slots) : Prop :=
  (∀ a acct, accounts !! a = Some acct → ac_ShardID acct = shard_of a n) ∧
  (∀ a k v, slot_get reads a k = Some v → v = σ a k) ∧
  (∀ a k v, slot_get writes a k = Some v → slot_get reads a k = Some (σ a k) ∧ is_u256 v).

Definition sim_ok (n : Z) σ s : Prop :=
  serves (ss_fetcher s) n σ ∧ maps_ok n σ (ss_accounts s) (ss_reads s) (ss_writes s) ∧
  Forall (λ snap, maps_ok n σ (sn_accounts snap) (sn_reads snap) (sn_writes snap)) (ss_snapshots s).

(** The value of a slot: the simulation's own write, or the served one. *)
Definition sim_val σ (writes : Slots) a k : Hash := default (σ a k) (slot_get writes a k).

(** What fetching an account leaves alone. *)
Definition same_slots s s' : Prop :=
  ss_reads s' = ss_reads s ∧ ss_writes s' = ss_writes s ∧ ss_snapshots s' = ss_snapshots s.

Lemma sim_ok_new n σ tx f : serves f n σ → sim_ok n σ (NewSimulationStateDB tx f).
Proof.
  intros. unfold sim_ok, maps_ok, slot_get. simpl.
  split_and!; try done; intros; by rewrite lookup_empty in *.
Qed.

Lemma getOrFetch_ok n σ s a :
  sim_ok n σ s →
  let '(acct, s') := getOrFetchAccount s a in
  sim_ok n σ s' ∧ same_slots s s' ∧ ac_ShardID acct = shard_of a n.
Proof.
  intros (Hf&(Ha&Hr&Hw)&Hs). unfold getOrFetchAccount.
  destruct (ss_accounts s !! a) as [acct|] eqn:Hacc; [split_and!; [done..|by apply (Ha a)]|].
  pose proof (serves_shard _ _ _ a Hf) as Hsh.
  pose proof (serves_fetch _ _ _ (ss_txID s) (f_AddressToShard (ss_fetcher s) a) a Hf) as Hf'.
  destruct (f_FetchState _ _ _ _) as [[resp|err] f]; simpl in Hf'.
  - destruct (match fs_Balance resp with None => _ | Some _ => _ end) as [b p].
    split_and!; try done. split; [done|]. split; [|done]. split_and!; try done.
    intros a' acct. simpl. destruct (decide (a' = a)) as [->|Hne].
    + rewrite lookup_insert_eq. by intros [= <-].
    + rewrite lookup_insert_ne by done. apply Ha.
  - by split_and!.
Qed.

(** Reading a slot. *)
Lemma s_GetState_ok n σ s a k :
  in_range a k = true → sim_ok n σ s →
  let '(v, s') := s_GetState s a k in
  v = sim_val σ (ss_writes s) a k ∧ sim_ok n σ s' ∧ ss_writes s' = ss_writes s ∧
  ss_snapshots s' = ss_snapshots s ∧ slot_get (ss_reads s') a k = Some (σ a k) ∧
  (∀ a' k' v', slot_get (ss_reads s) a' k' = Some v' → slot_get (ss_reads s') a' k' = Some v').
Proof.
  intros Hrng Hok. pose proof Hok as (Hf&(Ha&Hr&Hw)&Hs). unfold s_GetState, sim_val.
  destruct (slot_get (ss_writes s) a k) as [v|] eqn:Hwr.
  { apply Hw in Hwr as [? _]. by split_and!. }
  destruct (slot_get (ss_reads s) a k) as [v|] eqn:Hre.
  { pose proof (Hr _ _ _ Hre) as ->. by split_and!. }
  pose proof (getOrFetch_ok n σ s a Hok) as Hg.
  destruct (getOrFetchAccount s a) as [acct s1].
  destruct Hg as ((Hf1&(Ha1&Hr1&Hw1)&Hs1)&(Er&Ew&Es)&->).
  pose proof (serves_storage _ _ _ (ss_txID s1) a k Hf1 Hrng) as Hst.
  destruct (f_GetStorageAt _ _ _ _ _) as [r f]. destruct Hst as [-> Hf2]. simpl.
  assert (Hput : ∀ a' k' v', slot_get (ss_reads s) a' k' = Some v' →
    slot_get (slot_put (ss_reads s1) a k (σ a k)) a' k' = Some v').
  { intros a' k' v' Hv. rewrite slot_get_put. case_decide as Hd; [|by rewrite Er].
    destruct Hd as [-> ->]. congruence. }
  split_and!; try done.
  - split; [done|]. split; [|done]. split_and!; try done; simpl.
    + intros a' k' v'. rewrite slot_get_put. case_decide as Hd; [|apply Hr1].
      destruct Hd as [-> ->]. by intros [= <-].
    + intros a' k' v' Hv. apply Hw1 in Hv as [Hv ?]. rewrite Er in Hv. split; [|done]. by apply Hput.
  - rewrite slot_get_put. by rewrite decide_True.
Qed.

(** Writing a slot. *)
Lemma s_SetState_ok n σ s a k v :
  in_range a k = true → is_u256 v → sim_ok n σ s →
  let '(old, s') := s_SetState s a k v in
  old = sim_val σ (ss_writes s) a k ∧ sim_ok n σ s' ∧ ss_writes s' = slot_put (ss_writes s) a k v ∧
  ss_snapshots s' = ss_snapshots s ∧ slot_get (ss_reads s') a k = Some (σ a k) ∧
  (∀ a' k' v', slot_get (ss_reads s) a' k' = Some v' → slot_get (ss_reads s') a' k' = Some v').
Proof.
  intros Hrng Hv Hok. pose proof (s_GetState_ok n σ s a k Hrng Hok) as Hg. unfold s_SetState.
  destruct (s_GetState s a k) as [old s1].
  destruct Hg as (->&(Hf&(Ha&Hr&Hw)&Hs)&Ew&Es&Hk&Hgrow). simpl.
  split_and!; try done; [|by rewrite Ew].
  split; [done|]. split; [|done]. split_and!; try done. simpl.
  intros a' k' v'. rewrite slot_get_put. case_decide as Hd; [|apply Hw].
  destruct Hd as [-> ->]. by intros [= <-].
Qed.

Lemma s_Both_ok n σ s a k :
  in_range a k = true → sim_ok n σ s →
  let '(v, s') := s_GetStateAndCommittedState s a k in
  v = (sim_val σ (ss_writes s) a k, σ a k) ∧ s' = (s_GetState s a k).2.
Proof.
  intros Hrng Hok. unfold s_GetStateAndCommittedState. pose proof (s_GetState_ok n σ s a k Hrng Hok) as Hg.
  destruct (s_GetState s a k) as [v s1]. destruct Hg as (->&_&_&_&Hk&_). by rewrite Hk.
Qed.

(** Taking and reverting to a revision. *)
Lemma s_Snapshot_ok n σ s : sim_ok n σ s → sim_ok n σ (s_Snapshot s).2.
Proof.
  intros (Hf&Hm&Hs). split_and!; try done. simpl. apply Forall_app. split; [done|]. by apply Forall_singleton.
Qed.

Lemma s_Revert_ok n σ s r : sim_ok n σ s → sim_ok n σ (s_RevertToSnapshot s r).
Proof.
  intros (Hf&Hm&Hs). unfold s_RevertToSnapshot. case_match; [done|]. case_match; [done|].
  destruct (ss_snapshots s !! Z.to_nat r) as [snap|] eqn:Hl; [|done].
  split_and!; [done| |by apply Forall_take]. by apply (Forall_lookup_1 _ _ _ _ Hs Hl).
Qed.

(** ** Every operation keeps the invariant *)

(** Storage is accessed at addresses, slots and values that exist. *)
Definition bounded_op {A} (op : StateOp A) : bool :=
  match op with
  | GetState a k | GetStateAndCommittedState a k => in_range a k
  | SetState a k v => in_range a k && (0 <=? v) && (v <? two256)
  | _ => true
  end.

Fixpoint bounded {R} (p : Prog R) : Prop :=
  match p with
  | Ret _ => True
  | Vis A op k => bounded_op op = true ∧ ∀ x, bounded (k x)
  end.

Lemma update_account_ok n σ s a acct :
  ac_ShardID acct = shard_of a n → sim_ok n σ s → sim_ok n σ (update_account s a acct).
Proof.
  intros Hsh (Hf&(Ha&Hr&Hw)&Hs). unfold update_account. destruct (ss_accounts s !! a); [|by split_and!].
  split; [done|]. split; [|done]. split_and!; try done. intros a' acct'. simpl.
  intros [[<- <-]|[_ ?]]%lookup_insert_Some; [done|by apply Ha].
Qed.

(** A method that fetches an account and then changes the cached one. *)
Lemma fetch_update_ok n σ s a (upd : accountState → accountState) :
  (∀ acct, ac_ShardID (upd acct) = ac_ShardID acct) → sim_ok n σ s →
  sim_ok n σ (let '(acct, s1) := getOrFetchAccount s a in update_account s1 a (upd acct)).
Proof.
  intros Hu Hok. pose proof (getOrFetch_ok n σ s a Hok) as Hg. destruct (getOrFetchAccount s a) as [acct s1].
  destruct Hg as (Hok'&_&Hsh). apply update_account_ok; [by rewrite Hu|done].
Qed.

Lemma fetch_only_ok n σ s a : sim_ok n σ s → sim_ok n σ (getOrFetchAccount s a).2.
Proof.
  intros Hok. pose proof (getOrFetch_ok n σ s a Hok) as Hg.
  destruct (getOrFetchAccount s a). apply Hg.
Qed.

Lemma s_Create_ok n σ s a : sim_ok n σ s → sim_ok n σ (s_CreateAccount s a).
Proof.
  intros (Hf&(Ha&Hr&Hw)&Hs). split; [done|]. split; [|done]. split_and!; try done.
  intros a' acct. simpl. intros [[<- <-]|[_ ?]]%lookup_insert_Some; [by apply serves_shard with σ|by apply Ha].
Qed.

Lemma sim_ok_op n σ {A} (op : StateOp A) s :
  bounded_op op = true → sim_ok n σ s → sim_ok n σ (do_op op s).2.
Proof.
  intros Hb Hok. change (do_op op s) with (s_do A op s).
  pose proof (λ a, fetch_only_ok n σ s a Hok) as Hfetch.
  pose proof (λ a upd Hu, fetch_update_ok n σ s a upd Hu Hok) as Hupd.
  destruct op; cbn [s_do]; try done.
  - by apply s_Create_ok.
  - by apply s_Create_ok.
  - specialize (Hupd a (λ acct, set_balance acct (u256_sub (ac_Balance acct) amount)) ltac:(done)).
    unfold s_SubBalance. by destruct (getOrFetchAccount s a).
  - specialize (Hupd a (λ acct, set_balance acct (u256_add (ac_Balance acct) amount)) ltac:(done)).
    unfold s_AddBalance. by destruct (getOrFetchAccount s a).
  - specialize (Hfetch a). unfold s_GetBalance. by destruct (getOrFetchAccount s a).
  - specialize (Hfetch a). unfold s_GetNonce. by destruct (getOrFetchAccount s a).
  - specialize (Hupd a (λ acct, set_nonce acct nonce) ltac:(done)).
    unfold s_SetNonce. by destruct (getOrFetchAccount s a).
  - specialize (Hfetch a). unfold s_GetCodeHash. by destruct (getOrFetchAccount s a).
  - specialize (Hfetch a). unfold s_GetCode. by destruct (getOrFetchAccount s a).
  - specialize (Hupd a (λ acct, set_code acct code (match code with [] => 0 | _ => Keccak256Hash code end))
      ltac:(done)). unfold s_SetCode. by destruct (getOrFetchAccount s a).
  - specialize (Hfetch a). unfold s_GetCodeSize, s_GetCode. by destruct (getOrFetchAccount s a).
  - pose proof (s_GetState_ok n σ s a slot Hb Hok) as Hg. destruct (s_GetState s a slot). apply Hg.
  - pose proof (s_Both_ok n σ s a slot Hb Hok) as Hg. pose proof (s_GetState_ok n σ s a slot Hb Hok) as Hg'.
    destruct (s_GetStateAndCommittedState s a slot). destruct Hg as [_ ->].
    destruct (s_GetState s a slot). apply Hg'.
  - simpl in Hb. apply andb_true_iff in Hb as [[Hb Hv0]%andb_true_iff Hv1].
    pose proof (s_SetState_ok n σ s a slot value Hb ltac:(unfold is_u256; lia) Hok) as Hg.
    destruct (s_SetState s a slot value). apply Hg.
  - specialize (Hupd a destruct_account ltac:(done)). unfold s_SelfDestruct. by destruct (getOrFetchAccount s a).
  - specialize (Hupd a destruct_account ltac:(done)). specialize (Hfetch a).
    unfold s_SelfDestruct6780. destruct (getOrFetchAccount s a). by destruct (ac_Created _).
  - specialize (Hfetch a). unfold s_Exist. by destruct (getOrFetchAccount s a).
  - specialize (Hfetch a). unfold s_Empty. by destruct (getOrFetchAccount s a).
  - by apply s_Revert_ok.
  - by apply s_Snapshot_ok.
Qed.

Lemma sim_ok_exec n σ {R} (p : Prog R) s : bounded p → sim_ok n σ s → sim_ok n σ (exec p s).2.
Proof.
  revert s. induction p as [r|A op k IH]; intros s; simpl; [done|]. intros [Ho Hk] Hok.
  pose proof (sim_ok_op n σ op s Ho Hok). destruct (do_op op s). by apply IH.
Qed.

(** ** The simulated storage is a nested store *)

Definition refines (n : Z) σ s (st : Store) : Prop :=
  sim_ok n σ s ∧ st_base st = σ ∧
  (∀ a k, st_cur st a k = sim_val σ (ss_writes s) a k) ∧
  Forall2 (λ snap τ, ∀ a k, τ a k = sim_val σ (sn_writes snap) a k) (ss_snapshots s) (st_snaps st).

Lemma refines_new n σ tx f : serves f n σ → refines n σ (NewSimulationStateDB tx f) (store_of σ).
Proof.
  intros. split_and!; [by apply sim_ok_new|done| |constructor].
  intros a k. unfold sim_val, slot_get. simpl. by rewrite lookup_empty.
Qed.

Lemma refines_read n σ s s' st :
  refines n σ s st → sim_ok n σ s' → ss_writes s' = ss_writes s → ss_snapshots s' = ss_snapshots s →
  refines n σ s' st.
Proof. intros (_&Hb&Hc&Hs) Hok Hw Hsn. unfold refines. by rewrite Hw, Hsn. Qed.

Lemma refines_op n σ {A} (op : StateOp A) s st :
  framed_op op = true → refines n σ s st →
  (do_op op s).1 = (do_op op st).1 ∧ refines n σ (do_op op s).2 (do_op op st).2.
Proof.
  intros Hop Hr. pose proof Hr as (Hok&Hb&Hc&Hs).
  change (do_op op s) with (s_do A op s). change (do_op op st) with (store_do A op st).
  destruct op; try discriminate Hop; cbn [s_do store_do].
  - pose proof (s_GetState_ok n σ s a slot Hop Hok) as Hg. destruct (s_GetState s a slot) as [v s'].
    destruct Hg as (->&Hok'&Hw&Hsn&_). split; [by rewrite Hc|]. by apply (refines_read n σ s).
  - pose proof (s_Both_ok n σ s a slot Hop Hok) as Hg. pose proof (s_GetState_ok n σ s a slot Hop Hok) as Hg'.
    destruct (s_GetStateAndCommittedState s a slot) as [v s']. destruct Hg as [-> ->].
    destruct (s_GetState s a slot) as [v s']. destruct Hg' as (->&Hok'&Hw&Hsn&_).
    split; [simpl; by rewrite Hc, Hb|]. by apply (refines_read n σ s).
  - simpl in Hop. apply andb_true_iff in Hop as [[Hop Hv0]%andb_true_iff Hv1].
    pose proof (s_SetState_ok n σ s a slot value Hop ltac:(unfold is_u256; lia) Hok) as Hg.
    destruct (s_SetState s a slot value) as [v s']. destruct Hg as (->&Hok'&Hw&Hsn&_).
    split; [by rewrite Hc|]. split_and!; try done; simpl; [|by rewrite Hsn].
    intros a' k'. unfold store_set, sim_val. rewrite Hw, slot_get_put.
    case_decide; [done|apply Hc].
  - split; [done|]. simpl in Hop. unfold s_RevertToSnapshot, refines. simpl.
    pose proof (Forall2_length _ _ _ Hs) as Hlen.
    case_match eqn:Hle.
    { destruct (revid <? 0); [by split_and!|]. rewrite lookup_ge_None_2 by lia. by split_and!. }
    destruct (revid <? 0) eqn:Hneg; [by split_and!|].
    destruct (st_snaps st !! Z.to_nat revid) as [τ|] eqn:Hτ.
    2:{ apply lookup_ge_None_1 in Hτ. lia. }
    destruct (Forall2_lookup_r _ _ _ _ _ Hs Hτ) as (snap&Hsnap&Hv).
    pose proof (s_Revert_ok n σ s revid Hok) as Hok'. unfold s_RevertToSnapshot in Hok'.
    rewrite Hle, Hneg, Hsnap in Hok'. rewrite Hsnap.
    split_and!; [done|done|exact Hv|]. by apply Forall2_take.
  - split; [simpl; by rewrite (Forall2_length _ _ _ Hs)|].
    split_and!; [by apply s_Snapshot_ok|done|exact Hc|]. simpl.
    apply Forall2_app; [done|]. constructor; [|done]. exact Hc.
Qed.

Lemma refines_exec n σ {R} (p : Prog R) s st :
  framed p → refines n σ s st →
  (exec p s).1 = (exec p st).1 ∧ refines n σ (exec p s).2 (exec p st).2.
Proof.
  revert s st. induction p as [r|A op k IH]; intros s st; simpl; [done|].
  intros [Ho Hk] Hr. destruct (refines_op n σ op s st Ho Hr) as [Hres Hr'].
  destruct (do_op op s) as [x s'], (do_op op st) as [y st']. simpl in *. subst. by apply IH.
Qed.
End sim.

(** ** The read/write set of a simulation *)

Section build.
Context {F : Type} `{FetcherLaws F} `{Geth} `{MapRange}.
Implicit Types (s : SimulationStateDB F) (σ : Address → Hash → Hash).

Definition sim_var s (a : Address) : RwVariable :=
  mkRwVariable a (mkReference (sim_shard s a) 0 0) (sim_reads s a) (sim_writes s a).

Lemma elem_of_sim_rwset s rw :
  rw ∈ sim_BuildRwSet s → rw = sim_var s (rw_Address rw).
Proof. unfold sim_BuildRwSet. intros ([a b]&->&_)%list_elem_of_fmap. done. Qed.

Lemma sim_var_in s a :
  is_Some (ss_reads s !! a) ∨ is_Some (ss_writes s !! a) → sim_var s a ∈ sim_BuildRwSet s.
Proof.
  intros Hin. assert (∃ b, sim_addrSet s !! a = Some b) as [b Hb].
  { unfold sim_addrSet. rewrite !lookup_mark. setoid_rewrite elem_of_map_range.
    destruct Hin as [[? ?]|[? ?]]; eauto. }
  apply list_elem_of_fmap. exists (a, b). split; [done|]. by apply elem_of_map_range.
Qed.

Lemma sim_addresses s : NoDup (rw_Address <$> sim_BuildRwSet s).
Proof.
  unfold sim_BuildRwSet. rewrite <- (list_fmap_compose _ rw_Address).
  rewrite (list_fmap_ext _ fst); [apply NoDup_map_range|]. by intros ? [a b].
Qed.

Lemma sim_writes_slots s a : NoDup (ws_Slot <$> sim_writes s a).
Proof.
  unfold sim_writes. destruct (ss_writes s !! a) as [w|]; [|constructor].
  rewrite <- (list_fmap_compose _ ws_Slot).
  rewrite (list_fmap_ext _ fst); [apply NoDup_map_range|]. by intros ? [? ?].
Qed.

Lemma sim_shard_ok n σ s a : sim_ok n σ s → sim_shard s a = shard_of a n.
Proof.
  intros (Hf&(Ha&_)&_). unfold sim_shard. destruct (ss_accounts s !! a) eqn:He; [by apply Ha|].
  by eapply serves_shard.
Qed.

Lemma elem_of_sim_reads s a k bs :
  (∃ r, r ∈ sim_reads s a ∧ rs_Slot r = k ∧ rs_Value r = bs) ↔
  ∃ v, slot_get (ss_reads s) a k = Some v ∧ bs = Hash_Bytes v.
Proof.
  unfold sim_reads, slot_get. destruct (ss_reads s !! a) as [m|]; simpl; split.
  - intros (r&Hr&<-&<-). apply list_elem_of_fmap in Hr as ([k' v]&->&Hin).
    apply elem_of_map_range in Hin. eauto.
  - intros (v&Hv&->). exists (mkReadSetItem k (Hash_Bytes v) []). split; [|done].
    apply list_elem_of_fmap. exists (k, v). split; [done|]. by apply elem_of_map_range.
  - by intros (r&Hr%not_elem_of_nil&_).
  - by intros (v&?&_).
Qed.

Lemma elem_of_sim_writes s a k bs :
  (∃ w, w ∈ sim_writes s a ∧ ws_Slot w = k ∧ ws_NewValue w = bs) ↔
  ∃ v, slot_get (ss_writes s) a k = Some v ∧ bs = Hash_Bytes v.
Proof.
  unfold sim_writes, slot_get at 2. destruct (ss_writes s !! a) as [m|]; simpl; split.
  - intros (r&Hr&<-&<-). apply list_elem_of_fmap in Hr as ([k' v]&->&Hin).
    apply elem_of_map_range in Hin. eauto.
  - intros (v&Hv&->). eexists (mkWriteSetItem k _ (Hash_Bytes v)). split; [|done].
    apply list_elem_of_fmap. exists (k, v). split; [done|]. by apply elem_of_map_range.
  - by intros (r&Hr%not_elem_of_nil&_).
  - by intros (v&?&_).
Qed.

(** A shard's part of the set: the entries of its own addresses. *)
Lemma elem_of_local n σ s i rw :
  sim_ok n σ s →
  rw ∈ local_rwset i (sim_BuildRwSet s) ↔ rw ∈ sim_BuildRwSet s ∧ shard_of (rw_Address rw) n = i.
Proof.
  intros Hok. unfold local_rwset. rewrite RwSet_DeepCopy_id, list_elem_of_filter.
  split; intros [Hx Hy].
  - split; [done|]. rewrite <- (sim_shard_ok n σ s _ Hok). rewrite (elem_of_sim_rwset s rw Hy) in Hx. by rewrite <- Hx.
  - split; [|done]. rewrite (elem_of_sim_rwset s rw Hx). simpl. by rewrite (sim_shard_ok n σ s _ Hok).
Qed.

Lemma local_reads n σ s i a k bs :
  sim_ok n σ s →
  ((a, k), bs) ∈ rw_reads (local_rwset i (sim_BuildRwSet s)) ↔
  shard_of a n = i ∧ ∃ v, slot_get (ss_reads s) a k = Some v ∧ bs = Hash_Bytes v.
Proof.
  intros Hok. rewrite elem_of_rw_reads, <- elem_of_sim_reads. split.
  - intros (rw&r&Hrw&Hr&<-&Hk). apply (elem_of_local n σ) in Hrw as [Hrw Hi]; [|done].
    split; [done|]. exists r. rewrite (elem_of_sim_rwset s rw Hrw) in Hr. done.
  - intros (Hi&r&Hr&Hk). exists (sim_var s a), r. split_and!; try done; [|apply Hk..].
    apply (elem_of_local n σ); [done|]. split; [|done]. apply sim_var_in. left.
    unfold sim_reads in Hr. destruct (ss_reads s !! a); [by eexists|by apply not_elem_of_nil in Hr].
Qed.

Lemma local_writes n σ s i a k bs :
  sim_ok n σ s →
  ((a, k), bs) ∈ rw_writes (local_rwset i (sim_BuildRwSet s)) ↔
  shard_of a n = i ∧ ∃ v, slot_get (ss_writes s) a k = Some v ∧ bs = Hash_Bytes v.
Proof.
  intros Hok. rewrite elem_of_rw_writes, <- elem_of_sim_writes. split.
  - intros (rw&r&Hrw&Hr&<-&Hk). apply (elem_of_local n σ) in Hrw as [Hrw Hi]; [|done].
    split; [done|]. exists r. rewrite (elem_of_sim_rwset s rw Hrw) in Hr. done.
  - intros (Hi&r&Hr&Hk). exists (sim_var s a), r. split_and!; try done; [|apply Hk..].
    apply (elem_of_local n σ); [done|]. split; [|done]. apply sim_var_in. right.
    unfold sim_writes in Hr. destruct (ss_writes s !! a); [by eexists|by apply not_elem_of_nil in Hr].
Qed.

Lemma local_writes_NoDup n σ s i :
  sim_ok n σ s → NoDup (rw_writes (local_rwset i (sim_BuildRwSet s))).*1.
Proof.
  intros Hok. apply rw_writes_NoDup.
  - unfold local_rwset. rewrite RwSet_DeepCopy_id.
    eapply sublist_NoDup; [apply sim_addresses|]. apply fmap_sublist, sublist_filter.
  - intros rw [Hrw _]%(elem_of_local n σ); [|done]. rewrite (elem_of_sim_rwset s rw Hrw).
    apply sim_writes_slots.
Qed.

(** The whole write set. *)
Lemma sim_last_writes `{!GethLaws} n σ s a k :
  sim_ok n σ s →
  sim_val σ (ss_writes s) a k
  = default (σ a k) (BytesToHash <$> last_writes (sim_BuildRwSet s) !! (a, k)).
Proof.
  intros Hok. assert (NoDup (rw_writes (sim_BuildRwSet s)).*1) as Hnd.
  { apply rw_writes_NoDup; [apply sim_addresses|]. intros rw Hrw.
    rewrite (elem_of_sim_rwset s rw Hrw). apply sim_writes_slots. }
  assert (Hiff : ∀ bs, ((a, k), bs) ∈ rw_writes (sim_BuildRwSet s) ↔
    ∃ v, slot_get (ss_writes s) a k = Some v ∧ bs = Hash_Bytes v).
  { intros bs. pose proof (local_writes n σ s (shard_of a n) a k bs Hok) as Hl.
    rewrite elem_of_rw_writes in Hl |- *. setoid_rewrite (elem_of_local n σ s _ _ Hok) in Hl.
    naive_solver. }
  unfold sim_val. destruct (last_writes _ !! (a, k)) as [bs|] eqn:Hl; simpl.
  - apply last_writes_elem, Hiff in Hl as (v&Hv&->); [|done]. rewrite Hv. symmetry.
    apply BytesToHash_Bytes. destruct Hok as (_&(_&_&Hw)&_). by apply Hw in Hv as [_ ?].
  - destruct (slot_get (ss_writes s) a k) as [v|] eqn:Hv; [|done].
    assert (((a, k), Hash_Bytes v) ∈ rw_writes (sim_BuildRwSet s)) as Hin by (apply Hiff; eauto).
    apply last_writes_elem in Hin; [|done]. congruence.
Qed.

(** Applying a shard's part shows the simulation's writes on that shard. *)
Lemma applyWriteSet_local `{GethStateDBLaws DB} `{!GethLaws} n σ s i (e : EVMState DB) a k :
  sim_ok n σ s →
  sto (applyWriteSet e (local_rwset i (sim_BuildRwSet s))) a k
  = if decide (shard_of a n = i) then default (sto e a k) (slot_get (ss_writes s) a k) else sto e a k.
Proof.
  intros Hok. rewrite applyWriteSet_sto. pose proof (local_writes_NoDup n σ s i Hok) as Hnd.
  destruct (last_writes _ !! (a, k)) as [bs|] eqn:Hl.
  - apply last_writes_elem in Hl; [|done]. apply (local_writes n σ) in Hl as (Hi&v&Hv&->); [|done].
    rewrite decide_True, Hv by done. simpl. apply BytesToHash_Bytes.
    destruct Hok as (_&(_&_&Hw)&_). by apply Hw in Hv as [_ ?].
  - case_decide as Hi; [|done]. destruct (slot_get (ss_writes s) a k) as [v|] eqn:Hv; [|done].
    assert (((a, k), Hash_Bytes v) ∈ rw_writes (local_rwset i (sim_BuildRwSet s))) as Hin
      by (apply (local_writes n σ); eauto).
    apply last_writes_elem in Hin; [|done]. congruence.
Qed.
End build.

(** ** The simulated call on the shards *)

Section shards.
Context {F : Type} `{FetcherLaws F} {DB : Type} `{GethStateDBLaws DB} `{Geth} `{!GethLaws} `{MapRange}.
Implicit Types (s : SimulationStateDB F) (σ : Address → Hash → Hash).

(** What one storage operation does to the records of a simulation. *)
Lemma sim_op n σ {A} (op : StateOp A) s :
  storage_op op = true → framed_op op = true → sim_ok n σ s →
  sim_ok n σ (do_op op s).2 ∧
  ∀ a k v, slot_get (ss_reads s) a k = Some v → slot_get (ss_reads (do_op op s).2) a k = Some v.
Proof.
  intros Ho Hfr Hok. change (do_op op s) with (s_do A op s).
  destruct op; try discriminate Ho; cbn [s_do].
  - pose proof (s_GetState_ok n σ s a slot Hfr Hok) as Hg. destruct (s_GetState _ _ _). naive_solver.
  - simpl in Ho. pose proof (s_SetState_ok n σ s a slot value ltac:(by apply andb_true_iff in Hfr as [[? _]%andb_true_iff _]) ltac:(unfold is_u256; lia) Hok) as Hg.
    destruct (s_SetState _ _ _ _). naive_solver.
Qed.

Lemma sim_exec n σ {R} (p : Prog R) s :
  storage_only p → framed p → sim_ok n σ s →
  sim_ok n σ (exec p s).2 ∧
  ∀ a k v, slot_get (ss_reads s) a k = Some v → slot_get (ss_reads (exec p s).2) a k = Some v.
Proof.
  revert s. induction p as [r|A op k IH]; intros s; simpl; [done|]. intros [Ho Hk] [Hfo Hfk] Hok.
  destruct (sim_op n σ op s Ho Hfo Hok) as [Hok' Hg]. destruct (do_op op s) as [x s']. simpl in *.
  destruct (IH x s' (Hk x) (Hfk x) Hok') as [? Hg']. split; [done|]. intros. by apply Hg', Hg.
Qed.

(** [dbx] is a run from [db] that has made the writes the simulation recorded. *)
Definition overlaid (db : DB) s (dbx : DB) : Prop :=
  ∀ a k, storage dbx a k = default (storage db a k) (slot_get (ss_writes s) a k).

Lemma overlaid_val σ db s dbx a k :
  overlaid db s dbx → storage db a k = σ a k → storage dbx a k = sim_val σ (ss_writes s) a k.
Proof. intros Ho Hv. by rewrite Ho, Hv. Qed.

Lemma overlaid_op n σ db {A} (op : StateOp A) s dbx :
  storage_op op = true → framed_op op = true → sim_ok n σ s → overlaid db s dbx →
  (∀ a k v, slot_get (ss_reads (do_op op s).2) a k = Some v → storage db a k = v) →
  (do_op op s).1 = (do_op op dbx).1 ∧ overlaid db (do_op op s).2 (do_op op dbx).2.
Proof.
  intros Ho Hfr Hok Hov. change (do_op op s) with (s_do A op s).
  destruct op; try discriminate Ho; cbn [s_do].
  - pose proof (s_GetState_ok n σ s a slot Hfr Hok) as Hg. destruct (s_GetState s a slot) as [v s'].
    destruct Hg as (->&_&Hw&_&Hk&_). simpl. intros Hval. specialize (Hval _ _ _ Hk) as Hv. split.
    + symmetry. by apply overlaid_val with db.
    + intros a' k'. rewrite (other_ops_storage dbx _ (GetState a slot)) by done. by rewrite Hw.
  - simpl in Ho. pose proof (s_SetState_ok n σ s a slot value ltac:(by apply andb_true_iff in Hfr as [[? _]%andb_true_iff _]) ltac:(unfold is_u256; lia) Hok) as Hg.
    destruct (s_SetState s a slot value) as [v s']. destruct Hg as (->&_&Hw&_&Hk&_). simpl.
    intros Hval. specialize (Hval _ _ _ Hk) as Hv. split.
    + rewrite set_state_ret. symmetry. by apply overlaid_val with db.
    + intros a' k'. rewrite set_state_spec, Hw, slot_get_put. case_decide; [done|apply Hov].
Qed.

Lemma overlaid_exec n σ db {R} (p : Prog R) s dbx :
  storage_only p → framed p → sim_ok n σ s → overlaid db s dbx →
  (∀ a k v, slot_get (ss_reads (exec p s).2) a k = Some v → storage db a k = v) →
  (exec p s).1 = (exec p dbx).1 ∧ overlaid db (exec p s).2 (exec p dbx).2.
Proof.
  revert s dbx. induction p as [r|A op k IH]; intros s dbx; simpl; [done|].
  intros [Ho Hk] [Hfo Hfk] Hok Hov Hval. destruct (sim_op n σ op s Ho Hfo Hok) as [Hok' _].
  pose proof (overlaid_op n σ db op s dbx Ho Hfo Hok Hov) as Hstep.
  destruct (do_op op s) as [x s']. destruct (do_op op dbx) as [y dby]. simpl in *.
  destruct Hstep as [<- Hov'].
  - intros a k' v Hv. apply Hval. by apply (sim_exec n σ).
  - by apply IH.
Qed.

(** C18. The simulated storage is a nested store: a program of reads, writes,
    revisions and reverts gets on the simulation database the answers it gets on a
    store with a stack of revisions, and the write set built at the end, laid over
    the served storage, is exactly that store's final content: writes of reverted
    frames are gone. *)
Theorem simulation_is_nested_store {R} (p : Prog R) (f : F) n σ tx :
  framed p → serves f n σ →
  let '(r, s) := exec p (NewSimulationStateDB tx f) in
  let '(r', st) := exec p (store_of σ) in
  r = r' ∧
  ∀ a k, st_cur st a k = default (σ a k) (BytesToHash <$> last_writes (sim_BuildRwSet s) !! (a, k)).
Proof.
  intros Hp Hf.
  destruct (refines_exec n σ p (NewSimulationStateDB tx f) (store_of σ) Hp (refines_new n σ tx f Hf))
    as [Hres Href].
  destruct (exec p (NewSimulationStateDB tx f)) as [r s], (exec p (store_of σ)) as [r' st].
  simpl in *. split; [done|]. intros a k. destruct Href as (Hok&_&Hc&_).
  rewrite Hc. by rewrite (sim_last_writes n σ).
Qed.

End shards.

(** ** Failures of the fetcher *)

Section errors.
Context {F : Type} `{Fetcher F} `{Geth}.
Implicit Types (s : SimulationStateDB F).

(** The operations that look at an account, and whose. *)
Definition account_of {A} (op : StateOp A) : option Address :=
  match op with
  | SubBalance a _ | AddBalance a _ | GetBalance a | GetNonce a | SetNonce a _ | GetCodeHash a
  | GetCode a | SetCode a _ | GetCodeSize a | SelfDestruct a | SelfDestruct6780 a | Exist a
  | Empty a => Some a
  | _ => None
  end.

Lemma getOrFetch_errors s a :
  ss_fetchErrors (getOrFetchAccount s a).2
  = ss_fetchErrors s ++
    match ss_accounts s !! a with
    | Some _ => []
    | None => match (f_FetchState (ss_fetcher s) (ss_txID s) (f_AddressToShard (ss_fetcher s) a) a).1 with
              | Err err => [err]
              | Ok _ => []
              end
    end.
Proof.
  unfold getOrFetchAccount. destruct (ss_accounts s !! a); [by rewrite app_nil_r|].
  destruct (f_FetchState _ _ _ _) as [[resp|err] f]; simpl; [|done].
  rewrite app_nil_r. by destruct (match fs_Balance resp with None => _ | Some _ => _ end).
Qed.

Lemma update_account_errors s a acct : ss_fetchErrors (update_account s a acct) = ss_fetchErrors s.
Proof. unfold update_account. by case_match. Qed.

(** An operation on an account fetches it, and nothing else fails. *)
Lemma account_op_errors {A} (op : StateOp A) s a :
  account_of op = Some a →
  ss_fetchErrors (do_op op s).2 = ss_fetchErrors (getOrFetchAccount s a).2.
Proof.
  change (do_op op s) with (s_do A op s).
  destruct op; intros [= ->]; cbn [s_do];
    unfold s_SubBalance, s_AddBalance, s_GetBalance, s_GetNonce, s_SetNonce, s_GetCodeSize, s_GetCode, s_GetCodeHash, s_SetCode, s_SelfDestruct, s_SelfDestruct6780,
      s_Exist, s_Empty;
    destruct (getOrFetchAccount s a) as [acct s1]; repeat case_match; simpl;
    by rewrite ?update_account_errors.
Qed.

Lemma s_GetState_errors s a k :
  ss_fetchErrors s `prefix_of` ss_fetchErrors (s_GetState s a k).2.
Proof.
  unfold s_GetState. destruct (slot_get _ _ _); [done|]. destruct (slot_get _ _ _); [done|].
  pose proof (getOrFetch_errors s a) as He. destruct (getOrFetchAccount s a) as [acct s1].
  destruct (f_GetStorageAt _ _ _ _ _). simpl in *. rewrite He. by apply prefix_app_r.
Qed.

(** No operation forgets an error, a revert included. *)
Lemma op_errors {A} (op : StateOp A) s :
  ss_fetchErrors s `prefix_of` ss_fetchErrors (do_op op s).2.
Proof.
  destruct (account_of op) as [a|] eqn:Ha.
  { rewrite (account_op_errors op s a Ha), getOrFetch_errors. by apply prefix_app_r. }
  change (do_op op s) with (s_do A op s). destruct op; try discriminate Ha; cbn [s_do]; try done.
  - apply s_GetState_errors.
  - unfold s_GetStateAndCommittedState. pose proof (s_GetState_errors s a slot) as Hg.
    destruct (s_GetState s a slot). by case_match.
  - unfold s_SetState. pose proof (s_GetState_errors s a slot) as Hg. by destruct (s_GetState s a slot).
  - simpl. unfold s_RevertToSnapshot. by repeat case_match.
Qed.

Lemma exec_errors {R} (p : Prog R) s : ss_fetchErrors s `prefix_of` ss_fetchErrors (exec p s).2.
Proof.
  revert s. induction p as [r|A op k IH]; intros s; simpl; [done|].
  pose proof (op_errors op s). destruct (do_op op s) as [x s']. by etrans.
Qed.

(** A failed account fetch is never lost: when an operation needs an account the
    fetcher cannot provide, then whatever the execution does afterwards, reverts
    included, the error is among those the caller inspects at the end. *)
Theorem account_failure_reported {A R} (op : StateOp A) (k : A → Prog R) s a err f' :
  account_of op = Some a → ss_accounts s !! a = None →
  f_FetchState (ss_fetcher s) (ss_txID s) (f_AddressToShard (ss_fetcher s) a) a = (Err err, f') →
  let s' := (exec (Vis A op k) s).2 in
  HasFetchErrors s' = true ∧ err ∈ GetFetchErrors s'.
Proof.
  intros Ha Hacc Hf. simpl. pose proof (account_op_errors op s a Ha) as He.
  rewrite getOrFetch_errors, Hacc, Hf in He. simpl in He. destruct (do_op op s) as [x s1]. simpl in He.
  destruct (exec_errors (k x) s1) as [l Hl]. unfold HasFetchErrors, GetFetchErrors.
  rewrite Hl, He. split; [by destruct (ss_fetchErrors s)|].
  apply elem_of_app. left. apply elem_of_app. right. apply list_elem_of_here.
Qed.

(** A failed storage fetch is lost: the execution goes on with zero, the zero is
    recorded as the value read, and no error is there for the caller to see. *)
Theorem storage_failure_masked s a k acct err f' :
  slot_get (ss_writes s) a k = None → slot_get (ss_reads s) a k = None →
  ss_accounts s !! a = Some acct →
  f_GetStorageAt (ss_fetcher s) (ss_txID s) (ac_ShardID acct) a k = (Err err, f') →
  let '(v, s') := s_GetState s a k in
  v = 0 ∧ GetFetchErrors s' = GetFetchErrors s ∧ slot_get (ss_reads s') a k = Some 0.
Proof.
  intros Hw Hr Ha Hf. unfold s_GetState. rewrite Hw, Hr. unfold getOrFetchAccount.
  rewrite Ha, Hf. simpl. by rewrite slot_get_put, decide_True.
Qed.

(** ** What a revert leaves behind *)

Definition leak (a : Address) (k v : Hash) : Prog (Hash * bool) :=
  (let! r := call Snapshot in
   let! _ := call (SetTransientState a k v) in
   let! _ := call (AddAddressToAccessList a) in
   let! _ := call (RevertToSnapshot r) in
   let! x := call (GetTransientState a k) in
   let! b := call (AddressInAccessList a) in
   Ret (x, b))%go.

Lemma s_Revert_latest s l snap :
  ss_snapshots s = l ++ [snap] →
  s_RevertToSnapshot s (Z.of_nat (length l))
  = mkSimulationStateDB (ss_txID s) (ss_fetcher s) (sn_accounts snap) (sn_reads snap) (sn_writes snap)
      (ss_writeOlds s) (ss_accessList s) (take (sn_logsLen snap) (ss_logs s)) (sn_refund snap)
      l (ss_transient s) (ss_fetchErrors s) (ss_panicked s).
Proof.
  intros Hs. unfold s_RevertToSnapshot. rewrite Hs, length_app. cbn [length].
  destruct (Z.leb_spec (Z.of_nat (length l + 1)) (Z.of_nat (length l))); [lia|].
  destruct (Z.ltb_spec (Z.of_nat (length l)) 0); [lia|].
  by rewrite Nat2Z.id, lookup_app_r, Nat.sub_diag, take_app_length by lia.
Qed.

(** Reverting a frame restores neither transient storage nor the access list:
    a later read sees the value the reverted frame stored. *)
Theorem revert_keeps_transient s a k v : (exec (leak a k v) s).1 = (v, true).
Proof.
  unfold leak. cbn [prog_bind exec call]. unfold do_op, sim_db. cbn [s_do s_Snapshot fst snd].
  erewrite s_Revert_latest by done. simpl. unfold s_GetTransientState. simpl. rewrite slot_get_put, decide_True by done.
  f_equal. unfold ContainsAddress, AddAddress. apply bool_decide_eq_true.
  destruct (al_addresses (ss_accessList s) !! a) eqn:He; simpl; [by eexists|by rewrite lookup_insert_eq].
Qed.

(** Creating a contract discards the funds its address holds: the balance is
    zero afterwards, and no change of balance is recorded. *)
Theorem create_contract_drops_balance s a :
  let s' := (do_op (CreateContract a) s).2 in
  (do_op (GetBalance a) s').1 = 0 ∧
  ∀ acct, ss_accounts s' !! a = Some acct → ac_Balance acct = ac_OriginalBalance acct.
Proof.
  simpl. unfold do_op, sim_db. cbn [s_do snd]. unfold s_CreateContract, s_CreateAccount, s_GetBalance, getOrFetchAccount. simpl.
  rewrite lookup_insert_eq. split; [done|]. by intros acct [= <-].
Qed.
End errors.

(** ** Reads of a reverted frame *)

Section reverted.
Context {F : Type} `{FetcherLaws F} {DB : Type} `{GethStateDBLaws DB} `{Geth} `{!GethLaws} `{MapRange}.
Implicit Types (s : SimulationStateDB F) (σ : Address → Hash → Hash).

(** A frame reads a slot and fails; the caller's next step depends on it. *)
Definition guarded (a : Address) (k k' : Hash) (v : Hash) : Prog unit :=
  (let! r := call Snapshot in
   let! x := call (GetState a k) in
   let! _ := call (RevertToSnapshot r) in
   if decide (x = 0) then let! _ := call (SetState a k' v) in Ret tt else Ret tt)%go.

(** Reading records the slot read and nothing else. *)
Lemma s_GetState_reads s a k a' k' v :
  slot_get (ss_reads (s_GetState s a k).2) a' k' = Some v →
  slot_get (ss_reads s) a' k' = Some v ∨ (a' = a ∧ k' = k).
Proof.
  unfold s_GetState. destruct (slot_get (ss_writes s) a k); [by left|].
  destruct (slot_get (ss_reads s) a k); [by left|].
  assert (ss_reads (getOrFetchAccount s a).2 = ss_reads s) as Er.
  { unfold getOrFetchAccount. destruct (ss_accounts s !! a); [done|].
    destruct (f_FetchState _ _ _ _) as [[resp|err] f]; [|done].
    by destruct (match fs_Balance resp with None => _ | Some _ => _ end). }
  destruct (getOrFetchAccount s a) as [acct s1]. destruct (f_GetStorageAt _ _ _ _ _). simpl in *.
  rewrite slot_get_put. case_decide; [by right|]. rewrite Er. by left.
Qed.

(** The simulation's state after the failed frame: nothing read or written. *)
Lemma failed_frame n σ s a k :
  in_range a k = true → sim_ok n σ s →
  let s1 := (s_Snapshot s).2 in
  let s2 := (s_GetState s1 a k).2 in
  let s3 := s_RevertToSnapshot s2 (s_Snapshot s).1 in
  sim_ok n σ s3 ∧ ss_reads s3 = ss_reads s ∧ ss_writes s3 = ss_writes s.
Proof.
  intros Hrng Hok. pose proof (s_Snapshot_ok n σ s Hok) as Hok1.
  pose proof (s_GetState_ok n σ _ a k Hrng Hok1) as Hg. cbv zeta.
  destruct (s_GetState (s_Snapshot s).2 a k) as [v s2]. destruct Hg as (_&Hok2&_&Hsn&_).
  pose proof (s_Revert_ok n σ s2 (s_Snapshot s).1 Hok2) as Hok3. split; [exact Hok3|].
  simpl in *. by erewrite s_Revert_latest by done.
Qed.

Lemma guarded_sim n σ (f : F) tx a k k' v :
  in_range a k = true → in_range a k' = true → serves f n σ → σ a k = 0 → is_u256 v →
  let s := (exec (guarded a k k' v) (NewSimulationStateDB tx f)).2 in
  sim_ok n σ s ∧ slot_get (ss_writes s) a k' = Some v ∧
  ∀ b q w, slot_get (ss_reads s) b q = Some w → b = a ∧ q = k' ∧ w = σ a k'.
Proof.
  intros Hk Hk' Hf Hz Hv. pose proof (sim_ok_new n σ tx f Hf) as Hok.
  destruct (failed_frame n σ _ a k Hk Hok) as (Hok3&Hr3&Hw3).
  pose proof (s_GetState_ok n σ _ a k Hk (s_Snapshot_ok n σ _ Hok)) as Hg.
  unfold guarded. cbn [prog_bind exec call]. unfold do_op, sim_db. cbn [s_do].
  destruct (s_Snapshot (NewSimulationStateDB tx f)) as [r s1] eqn:Hsnap. cbn [fst snd] in *.
  destruct (s_GetState s1 a k) as [x s2]. destruct Hg as (Hx&_). cbn [fst snd] in *.
  assert (x = 0) as ->.
  { injection Hsnap as _ <-. rewrite Hx. unfold sim_val, slot_get. simpl. by rewrite lookup_empty. }
  rewrite decide_True by done. cbn [prog_bind exec]. unfold do_op. cbn [s_do].
  pose proof (s_SetState_ok n σ _ a k' v Hk' Hv Hok3) as Hset.
  pose proof (s_GetState_reads (s_RevertToSnapshot s2 r) a k') as Hreads.
  unfold s_SetState in *. destruct (s_GetState (s_RevertToSnapshot s2 r) a k') as [old s4].
  destruct Hset as (_&Hok4&Hw4&_&Hk4&_). cbn [fst snd] in *.
  split; [exact Hok4|]. split; [by rewrite Hw4, slot_get_put, decide_True|].
  intros b q w Hv'. assert (b = a ∧ q = k') as [-> ->].
  { apply Hreads in Hv' as [Hv'|]; [|done]. rewrite Hr3 in Hv'. unfold slot_get in Hv'. simpl in Hv'.
    by rewrite lookup_empty in Hv'. }
  split_and!; [done..|]. congruence.
Qed.

Lemma guarded_run (e : EVMState DB) a k k' v q :
  sto e a k ≠ 0 → sto (run (guarded a k k' v) e).2 a q = sto e a q.
Proof.
  intros Hne. unfold run, sto, guarded in *. cbn [prog_bind exec call].
  pose proof (snapshot_pure (es_stateDB e)) as [_ Hsn].
  pose proof (revert_spec (es_stateDB e) [AnyOp _ (GetState a k)]) as Hrev.
  destruct (do_op Snapshot (es_stateDB e)) as [r db1]. cbn [snd do_ops foldl] in Hrev.
  specialize (Hsn a k) as Hx. cbn [snd] in Hx. unfold storage in Hx at 1.
  destruct (do_op (GetState a k) db1) as [x db2]. cbn [fst snd] in *. subst x.
  destruct Hrev as [_ Hrev]; [by repeat constructor|].
  destruct (do_op (RevertToSnapshot r) db2) as [u db3]. cbn [snd] in *.
  rewrite decide_False by done. cbn [exec]. by rewrite <- Hrev.
Qed.

(** C35. What a reverted frame read is not validated. The simulation drops the reads
    of a frame that reverts, although the caller may act on the outcome: there is a
    call whose read set validates on a shard where running the call writes nothing,
    and whose write set is applied there all the same. *)
Theorem reverted_reads_unvalidated n σ (f : F) tx (e : EVMState DB) a k k' v :
  in_range a k = true → in_range a k' = true → serves f n σ → σ a k = 0 → is_u256 v → is_u256 (σ a k') → σ a k' ≠ v →
  sto e a k ≠ 0 → sto e a k' = σ a k' →
  let rws := local_rwset (shard_of a n)
    (sim_BuildRwSet (exec (guarded a k k' v) (NewSimulationStateDB tx f)).2) in
  (∀ b q bs, ((b, q), bs) ∈ rw_reads rws → sto e b q = BytesToHash bs) ∧
  sto (run (guarded a k k' v) e).2 a k' = sto e a k' ∧
  sto (applyWriteSet e rws) a k' = v ∧ v ≠ sto e a k'.
Proof.
  intros Hk Hk' Hf Hz Hv Hu Hne He He'. destruct (guarded_sim n σ f tx a k k' v Hk Hk' Hf Hz Hv) as (Hok&Hw&Hr).
  split_and!.
  - intros b q bs (_&w&Hw'&->)%(local_reads n σ); [|done]. apply Hr in Hw' as (->&->&->).
    by rewrite BytesToHash_Bytes.
  - by apply guarded_run.
  - by rewrite (applyWriteSet_local n σ), decide_True, Hw.
  - congruence.
Qed.
End reverted.

(** ** Witnesses *)

(** A fetcher over a table of slots; accounts and slots in [mf_broken] fail. *)
Record MemFetcher := mkMemFetcher {
  mf_shards : Z;
  mf_store : gmap (Address * Hash) Hash;
  mf_broken : gset Address;
  mf_brokenSlots : gset Address
}.

#[local] Instance mem_fetcher : Fetcher MemFetcher := {
  f_AddressToShard f a := shard_of a (mf_shards f);
  f_FetchState f tx i a :=
    if decide (a ∈ mf_broken f) then (Err (InvalidShard i), f)
    else (Ok (mkFetchStateResponse true "" (Some 10) 0 [] 0), f);
  f_GetStorageAt f tx i a k :=
    if decide (a ∈ mf_brokenSlots f) then (Err (FetchStatus 500), f)
    else (Ok ((mf_store f).[(a, k); 0]), f)
}.

#[local] Program Instance mem_fetcher_laws : FetcherLaws MemFetcher := {
  serves f n σ := mf_shards f = n ∧ mf_brokenSlots f = ∅ ∧ ∀ a k, (mf_store f).[(a, k); 0] = σ a k
}.
Next Obligation. by intros f n σ a (<-&_). Qed.
Next Obligation. intros f n σ tx i a Hs. unfold f_FetchState, mem_fetcher. by case_decide. Qed.
Next Obligation.
  intros f n σ tx a s (Hn&Hb&Hv) _. unfold f_GetStorageAt, mem_fetcher. rewrite Hb.
  rewrite decide_False by set_solver. by rewrite Hv.
Qed.

Definition zeroStorage : Address → Hash → Hash := λ _ _, 0.
Definition zeroFetcher : MemFetcher := mkMemFetcher 2 ∅ ∅ ∅.

Lemma zeroFetcher_serves : serves zeroFetcher 2 zeroStorage.
Proof. split_and!; [done..|]. intros a k. by unfold map_get. Qed.

#[local] Existing Instance list_range.

(** A frame that writes and fails, then a write that counts. *)
Definition tryWrite : Prog Hash :=
  (let! _ := call (SetState 2 0 5) in
   let! r := call Snapshot in
   let! _ := call (SetState 2 0 6) in
   let! _ := call (SetState 2 1 7) in
   let! _ := call (RevertToSnapshot r) in
   call (GetState 2 0))%go.

Lemma simulation_is_nested_store_witness :
  let '(r, s) := exec tryWrite (NewSimulationStateDB "x" zeroFetcher) in
  let '(r', st) := exec tryWrite (store_of zeroStorage) in
  r = r' ∧
  ∀ a k, st_cur st a k = default (zeroStorage a k) (BytesToHash <$> last_writes (sim_BuildRwSet s) !! (a, k)).
Proof.
  apply (simulation_is_nested_store tryWrite zeroFetcher 2 zeroStorage "x").
  - repeat (split; [done|intros ?]); done.
  - apply zeroFetcher_serves.
Defined.

(** Add the slot of account 2 to that of account 3, which live on two shards. *)
Definition crossCall : Prog Hash :=
  (let! x := call (GetState 2 0) in
   let! y := call (GetState 3 0) in
   let! _ := call (SetState 3 0 ((x + y + 1) mod two256)) in
   Ret x)%go.

Lemma crossCall_storage_only : storage_only crossCall.
Proof.
  split; [done|]. intros x. split; [done|]. intros y. split; [|done]. simpl.
  pose proof (Z.mod_pos_bound (x + y + 1) two256 ltac:(reflexivity)). lia.
Qed.

Lemma crossCall_framed : framed crossCall.
Proof.
  split; [done|]. intros x. split; [done|]. intros y. split; [|done]. simpl.
  pose proof (Z.mod_pos_bound (x + y + 1) two256 ltac:(reflexivity)). lia.
Qed.

Definition emptyShard : EVMState MemDB := fresh_evm emptyMem.

(** Each shard locks its part; shard 1 has moved funds before it commits. *)
Definition crossRwset : list RwVariable :=
  sim_BuildRwSet (exec crossCall (NewSimulationStateDB "x" zeroFetcher)).2.
Definition lockedAt (i : Z) : option lock_error * Chain * EVMState MemDB :=
  validateAndLockReadSetLocked (NewChain i 0) "x" (local_rwset i crossRwset) emptyShard.

Lemma lockedAt_None i : lockedAt i = (None, (lockedAt i).1.2, (lockedAt i).2).
Proof.
  unfold lockedAt.
  assert (Hc : i = 0 ∨ i = 1 ∨ local_rwset i crossRwset = []).
  { destruct (decide (i = 0)); [by left|]. destruct (decide (i = 1)); [by right; left|].
    right; right. unfold local_rwset. rewrite RwSet_DeepCopy_id.
    change (filter (λ rw, ref_ShardNum (rw_ReferenceBlock rw) = i) crossRwset = []).
    assert (Forall (λ rw, ref_ShardNum (rw_ReferenceBlock rw) = 0 ∨ ref_ShardNum (rw_ReferenceBlock rw) = 1)
      crossRwset) as Hall by (vm_compute; repeat constructor; auto).
    induction Hall as [|rw l Hrw Hl IH]; [done|]. rewrite filter_cons_False; [done|]. lia. }
  destruct Hc as [->|[->| ->]]; vm_compute; reflexivity.
Qed.


(** Account 4 cannot be fetched, nor the storage of account 6. *)
Definition brokenFetcher : MemFetcher := mkMemFetcher 2 ∅ {[4]} {[6]}.

Lemma account_failure_reported_witness :
  HasFetchErrors (exec (Vis _ (GetBalance 4) Ret) (NewSimulationStateDB "x" brokenFetcher)).2 = true.
Proof.
  eapply (account_failure_reported (GetBalance 4) Ret (NewSimulationStateDB "x" brokenFetcher) 4).
  - reflexivity.
  - vm_compute. reflexivity.
  - vm_compute. reflexivity.
Defined.

Definition account6 : SimulationStateDB MemFetcher :=
  (getOrFetchAccount (NewSimulationStateDB "x" brokenFetcher) 6).2.

Lemma storage_failure_masked_witness :
  let '(v, s') := s_GetState account6 6 1 in
  v = 0 ∧ GetFetchErrors s' = GetFetchErrors account6 ∧ slot_get (ss_reads s') 6 1 = Some 0.
Proof.
  eapply (storage_failure_masked account6 6 1).
  - vm_compute. reflexivity.
  - vm_compute. reflexivity.
  - vm_compute. reflexivity.
  - vm_compute. reflexivity.
Defined.

Definition flippedState : EVMState MemDB := fresh_evm (set_sto emptyMem 2 0 1).

Lemma reverted_reads_unvalidated_witness :
  sto (applyWriteSet flippedState (local_rwset 0
    (sim_BuildRwSet (exec (guarded 2 0 1 7) (NewSimulationStateDB "x" zeroFetcher)).2))) 2 1 = 7.
Proof.
  destruct (reverted_reads_unvalidated 2 zeroStorage zeroFetcher "x" flippedState 2 0 1 7)
    as (_&_&Hs&_).
  - reflexivity.
  - reflexivity.
  - apply zeroFetcher_serves.
  - reflexivity.
  - concrete_range.
  - concrete_range.
  - discriminate.
  - vm_compute. discriminate.
  - reflexivity.
  - exact Hs.
Defined.
