(* ===== verification/SimTyping.v ===== *)
(** * SimTyping: the state of a simulation stays well formed

    The ranges and indices [SimulationStateDB] relies on: balances and the refund
    counter stay within their machine widths, the access list indexes its slot sets
    within bounds and shares none, and every revision can be restored: its log
    count is within the log. Every operation the EVM can make keeps them. *)

From S2P Require Import Prelude Codec Protocol VmState MemDB TrackingDB StorageProof SimStateDB SimProofs.

Open Scope Z_scope.

(** ** The access list *)

(** Every index is -1 or within the slot sets, and no two addresses share one. *)
Definition al_wf (al : accessList) : Prop :=
  (∀ a idx, al_addresses al !! a = Some idx → idx = -1 ∨ 0 ≤ idx < Z.of_nat (length (al_slots al))) ∧
  (∀ a b idx, al_addresses al !! a = Some idx → al_addresses al !! b = Some idx → idx ≠ -1 → a = b).

Lemma newAccessList_wf : al_wf newAccessList.
Proof. split; simpl; intros *; by rewrite lookup_empty. Qed.

Lemma AddAddress_wf al a : al_wf al → al_wf (AddAddress al a).2.
Proof.
  intros [Hr Hi]. unfold AddAddress. destruct (al_addresses al !! a) eqn:Ha; [done|]. split; simpl.
  - intros b idx [[<- <-]|[_ Hb]]%lookup_insert_Some; [by left|by apply (Hr b)].
  - intros b c idx [[<- <-]|[_ Hb]]%lookup_insert_Some [[<- Hc]|[_ Hc]]%lookup_insert_Some Hne; try done.
    by apply (Hi b c idx).
Qed.

Lemma add_slot_map_wf al a k :
  al_wf al → al_addresses al !! a = None ∨ al_addresses al !! a = Some (-1) → al_wf (add_slot_map al a k).
Proof.
  intros [Hr Hi] Ha. split; simpl; rewrite ?length_app; cbn [length].
  - intros b idx [[<- <-]|[_ Hb]]%lookup_insert_Some; [right; lia|]. destruct (Hr b idx Hb); [by left|right; lia].
  - intros b c idx [[<- Hb]|[? Hb]]%lookup_insert_Some [[<- Hc]|[? Hc]]%lookup_insert_Some Hne; try done.
    + destruct (Hr c idx Hc); [done|lia].
    + destruct (Hr b idx Hb); [done|lia].
    + by apply (Hi b c idx).
Qed.

Lemma AddSlot_wf al a k : al_wf al → al_wf (AddSlot al a k).2.
Proof.
  intros Hwf. pose proof Hwf as [Hr Hi]. unfold AddSlot. destruct (al_addresses al !! a) as [idx|] eqn:Ha.
  - destruct (Z.eqb_spec idx (-1)) as [->|Hne]; [apply add_slot_map_wf; [done|by right]|].
    case_decide; [done|]. split; simpl; [by rewrite length_insert|done].
  - apply add_slot_map_wf; [done|by left].
Qed.

Lemma index_not_mark (n : nat) : (Z.of_nat n =? -1) = false.
Proof. destruct (Z.eqb_spec (Z.of_nat n) (-1)); [lia|done]. Qed.

(** Inserting a slot is visible, and nothing else changes. *)
Lemma AddSlot_spec al a k b q :
  al_wf al →
  al_Contains (AddSlot al a k).2 b q
  = if decide (b = a) then (true, (al_Contains al a q).2 || bool_decide (q = k)) else al_Contains al b q.
Proof.
  intros [Hr Hi]. unfold AddSlot, al_Contains, add_slot_map.
  destruct (al_addresses al !! a) as [idx|] eqn:Ha.
  - destruct (Z.eqb_spec idx (-1)) as [->|Hne].
    + cbn [snd al_addresses al_slots]. case_decide as Hb; [subst b|].
      * rewrite lookup_insert_eq. rewrite index_not_mark.
        rewrite Nat2Z.id, lookup_app_r, Nat.sub_diag by lia. simpl. f_equal. apply bool_decide_ext. set_solver.
      * rewrite lookup_insert_ne by done. destruct (al_addresses al !! b) as [i|] eqn:Hb'; [|done].
        destruct (Z.eqb_spec i (-1)); [done|]. rewrite lookup_app_l; [done|]. destruct (Hr b i Hb'); lia.
    + destruct (Hr a idx Ha) as [|Hlt]; [done|].
      destruct (lookup_lt_is_Some_2 (al_slots al) (Z.to_nat idx)) as [slots Hs]; [lia|]. rewrite Hs. cbn [default].
      case_decide as Hin; cbn [snd al_addresses al_slots]; case_decide as Hb; try subst b.
      * rewrite Ha. cbv beta iota. rewrite Hs. destruct (Z.eqb_spec idx (-1)); [done|]. simpl. f_equal.
        destruct (bool_decide_reflect (q ∈ slots)), (bool_decide_reflect (q = k)); set_solver.
      * done.
      * rewrite Ha. cbv beta iota. destruct (Z.eqb_spec idx (-1)); [done|].
        rewrite list_lookup_insert_eq by lia. simpl. f_equal.
        destruct (bool_decide_reflect (q ∈ {[k]} ∪ slots)), (bool_decide_reflect (q ∈ slots)),
          (bool_decide_reflect (q = k)); set_solver.
      * destruct (al_addresses al !! b) as [i|] eqn:Hb'; [|done]. destruct (Z.eqb_spec i (-1)) as [|Hi1]; [done|].
        rewrite list_lookup_insert_ne; [done|]. intros Heq. apply Hb. apply (Hi b a i); [done| |done].
        destruct (Hr b i Hb'); [done|]. replace i with idx by lia. done.
  - cbn [snd al_addresses al_slots]. case_decide as Hb; [subst b|].
    + rewrite lookup_insert_eq. rewrite index_not_mark.
      rewrite Nat2Z.id, lookup_app_r, Nat.sub_diag by lia. simpl. f_equal. apply bool_decide_ext. set_solver.
    + rewrite lookup_insert_ne by done. destruct (al_addresses al !! b) as [i|] eqn:Hb'; [|done].
      destruct (Z.eqb_spec i (-1)); [done|]. rewrite lookup_app_l; [done|]. destruct (Hr b i Hb'); lia.
Qed.

(** ** The database *)

Section typing.
Context {F : Type} `{Fetcher F} `{Geth} `{!GethLaws}.
Implicit Types (s : SimulationStateDB F).

Definition accounts_typed (accounts : gmap Address accountState) : Prop :=
  ∀ a acct, accounts !! a = Some acct → is_u256 (ac_Balance acct).

(** A revision that can be restored. *)
Definition snap_typed (snap : snapshot) : Prop :=
  accounts_typed (sn_accounts snap) ∧ is_u64 (sn_refund snap).

Definition logs_nested (logs : nat) (snaps : list snapshot) : Prop :=
  StronglySorted le (sn_logsLen <$> snaps) ∧ Forall (λ snap, (sn_logsLen snap ≤ logs)%nat) snaps.

Definition sim_typed s : Prop :=
  al_wf (ss_accessList s) ∧ accounts_typed (ss_accounts s) ∧ is_u64 (ss_refund s) ∧
  Forall snap_typed (ss_snapshots s) ∧ logs_nested (length (ss_logs s)) (ss_snapshots s).

(** The arguments the interface's types allow. *)
Definition typed_op {A} (op : StateOp A) : Prop :=
  match op with
  | AddRefund gas | SubRefund gas => is_u64 gas
  | RevertToSnapshot r => 0 ≤ r
  | _ => True
  end.

Fixpoint typed {R} (p : Prog R) : Prop :=
  match p with
  | Ret _ => True
  | Vis A op k => typed_op op ∧ ∀ x, typed (k x)
  end.

Lemma NewSimulationStateDB_typed tx (f : F) : sim_typed (NewSimulationStateDB tx f).
Proof.
  split_and!; [apply newAccessList_wf|intros ??; simpl; by rewrite lookup_empty|by vm_compute|constructor|].
  split; constructor.
Qed.

(** Only the accounts changed, and are still in range. *)
Lemma typed_accounts s s' :
  ss_accessList s' = ss_accessList s → ss_refund s' = ss_refund s → ss_snapshots s' = ss_snapshots s →
  ss_logs s' = ss_logs s → accounts_typed (ss_accounts s') → sim_typed s → sim_typed s'.
Proof. intros Ha Hr Hs Hl Hacc (?&_&?&?&?). unfold sim_typed. by rewrite Ha, Hr, Hs, Hl. Qed.

Lemma accounts_typed_insert accounts a acct :
  accounts_typed accounts → is_u256 (ac_Balance acct) → accounts_typed (<[a := acct]> accounts).
Proof. intros Ht Hb a' acct' [[<- <-]|[_ Hl]]%lookup_insert_Some; [done|by apply (Ht a')]. Qed.

Lemma getOrFetch_typed s a :
  sim_typed s → let '(acct, s') := getOrFetchAccount s a in sim_typed s' ∧ is_u256 (ac_Balance acct).
Proof.
  intros Ht. pose proof Ht as (_&Hacc&_). unfold getOrFetchAccount.
  destruct (ss_accounts s !! a) as [acct|] eqn:Ha; [split; [done|by apply (Hacc a)]|].
  destruct (f_FetchState _ _ _ _) as [[resp|err] f].
  - assert (Hb : is_u256 (match fs_Balance resp with
        | None => (0, false)
        | Some b => match MustFromBig b with Some v => (v, false) | None => (0, true) end
        end).1).
    { destruct (fs_Balance resp) as [b|]; [|by vm_compute]. destruct (MustFromBig b) eqn:Hm; [|by vm_compute].
      by apply MustFromBig_range in Hm. }
    destruct (match fs_Balance resp with None => _ | Some _ => _ end) as [b p]. split; [|done].
    apply (typed_accounts s); try done. simpl. by apply accounts_typed_insert.
  - split; [by apply (typed_accounts s)|by vm_compute].
Qed.

Lemma update_typed s a acct : is_u256 (ac_Balance acct) → sim_typed s → sim_typed (update_account s a acct).
Proof.
  intros Hb Ht. unfold update_account. destruct (ss_accounts s !! a); [|done].
  apply (typed_accounts s); try done. apply accounts_typed_insert; [apply Ht|done].
Qed.

(** A method that fetches an account and then changes the cached one. *)
Lemma fetch_update_typed s a (upd : accountState → accountState) :
  (∀ acct, is_u256 (ac_Balance acct) → is_u256 (ac_Balance (upd acct))) → sim_typed s →
  sim_typed (let '(acct, s1) := getOrFetchAccount s a in update_account s1 a (upd acct)).
Proof.
  intros Hu Ht. pose proof (getOrFetch_typed s a Ht) as Hg. destruct (getOrFetchAccount s a) as [acct s1].
  destruct Hg as [Ht' Hb]. apply update_typed; [by apply Hu|done].
Qed.

Lemma fetch_only_typed s a : sim_typed s → sim_typed (getOrFetchAccount s a).2.
Proof.
  intros Ht. pose proof (getOrFetch_typed s a Ht) as Hg. by destruct (getOrFetchAccount s a), Hg.
Qed.

Lemma s_GetState_typed s a k : sim_typed s → sim_typed (s_GetState s a k).2.
Proof.
  intros Ht. unfold s_GetState. destruct (slot_get _ _ _); [done|]. destruct (slot_get _ _ _); [done|].
  pose proof (fetch_only_typed s a Ht) as Ht'. destruct (getOrFetchAccount s a) as [acct s1].
  destruct (f_GetStorageAt _ _ _ _ _). apply (typed_accounts s1); try done. apply Ht'.
Qed.

Lemma s_Prepare_typed s snd cb dest ps txa : sim_typed s → sim_typed (s_Prepare s snd cb dest ps txa).
Proof.
  intros (_&Hacc&Hr&Hs&Hl). split_and!; try done. unfold s_Prepare. cbn [ss_accessList with_accessList with_misc].
  assert (Hslots : ∀ keys al addr, al_wf al → al_wf (foldl (λ al key, (AddSlot al addr key).2) al keys)).
  { induction keys as [|k keys IH]; intros al addr Hw; [done|]. by apply IH, AddSlot_wf. }
  assert (Htx : ∀ l al, al_wf al → al_wf (foldl (λ al '(addr, keys),
      foldl (λ al key, (AddSlot al addr key).2) (AddAddress al addr).2 keys) al l)).
  { induction l as [|[addr keys] l IH]; intros al Hw; [done|]. by apply IH, Hslots, AddAddress_wf. }
  assert (Hps : ∀ l al, al_wf al → al_wf (foldl (λ al addr, (AddAddress al addr).2) al l)).
  { induction l as [|addr l IH]; intros al Hw; [done|]. by apply IH, AddAddress_wf. }
  apply Htx, Hps, AddAddress_wf. pose proof (AddAddress_wf newAccessList snd newAccessList_wf).
  destruct dest; [by apply AddAddress_wf|done].
Qed.

Lemma logs_nested_take logs snaps r snap :
  logs_nested logs snaps → snaps !! r = Some snap →
  (sn_logsLen snap ≤ logs)%nat ∧ logs_nested (sn_logsLen snap) (take r snaps).
Proof.
  intros [Hs Hf] Hr. split; [by apply (Forall_lookup_1 _ _ _ _ Hf Hr)|].
  rewrite <- (take_drop_middle snaps r snap Hr) in Hs. rewrite fmap_app, fmap_cons in Hs. split.
  - by apply StronglySorted_app_1_l in Hs.
  - apply Forall_forall. intros x Hx. apply (StronglySorted_app_1_elem_of le _ _ _ _ Hs).
    + by apply list_elem_of_fmap_2.
    + apply list_elem_of_here.
Qed.

Lemma s_Revert_typed s r : 0 ≤ r → sim_typed s → sim_typed (s_RevertToSnapshot s r).
Proof.
  intros Hr Ht. pose proof Ht as (Hal&Hacc&Href&Hs&Hl). unfold s_RevertToSnapshot.
  case_match; [done|]. destruct (Z.ltb_spec r 0); [lia|].
  destruct (ss_snapshots s !! Z.to_nat r) as [snap|] eqn:Hsn; [|done].
  destruct (Forall_lookup_1 _ _ _ _ Hs Hsn) as [Hacc' Href'].
  destruct (logs_nested_take _ _ _ _ Hl Hsn) as [Hle Hl'].
  split_and!; cbn [ss_accessList ss_accounts ss_refund ss_snapshots ss_logs]; [done..|by apply Forall_take|].
  by rewrite length_take_le.
Qed.

Lemma s_Snapshot_typed s : sim_typed s → sim_typed (s_Snapshot s).2.
Proof.
  intros (Hal&Hacc&Hr&Hs&[Hsort Hle]). split_and!; [done..| |].
  - simpl. apply Forall_app. split; [done|]. by apply Forall_singleton.
  - simpl. split.
    + rewrite fmap_app. apply StronglySorted_app_2; [|done|by repeat constructor].
      intros x y [snap [-> Hin]]%list_elem_of_fmap ->%list_elem_of_singleton. simpl.
      rewrite Forall_forall in Hle. by apply Hle.
    + apply Forall_app. split; [done|]. by apply Forall_singleton.
Qed.

Lemma typed_do {A} (op : StateOp A) s : typed_op op → sim_typed s → sim_typed (do_op op s).2.
Proof.
  intros Ho Ht. change (do_op op s) with (s_do A op s).
  pose proof (λ a, fetch_only_typed s a Ht) as Hfetch.
  pose proof (λ a upd Hu, fetch_update_typed s a upd Hu Ht) as Hupd.
  pose proof Ht as (Hal&Hacc&Hr&Hs&[Hsort Hle]).
  assert (Hcreate : ∀ a, sim_typed (s_CreateAccount s a)).
  { intros a. apply (typed_accounts s); try done. by apply accounts_typed_insert. }
  destruct op; cbn [s_do]; try done.
  - apply Hcreate.
  - apply Hcreate.
  - specialize (Hupd a (λ acct, set_balance acct (u256_sub (ac_Balance acct) amount)) ltac:(intros; apply wrap256_range)).
    unfold s_SubBalance. by destruct (getOrFetchAccount s a).
  - specialize (Hupd a (λ acct, set_balance acct (u256_add (ac_Balance acct) amount)) ltac:(intros; apply wrap256_range)).
    unfold s_AddBalance. by destruct (getOrFetchAccount s a).
  - specialize (Hfetch a). unfold s_GetBalance. by destruct (getOrFetchAccount s a).
  - specialize (Hfetch a). unfold s_GetNonce. by destruct (getOrFetchAccount s a).
  - specialize (Hupd a (λ acct, set_nonce acct nonce) ltac:(done)).
    unfold s_SetNonce. by destruct (getOrFetchAccount s a).
  - specialize (Hfetch a). unfold s_GetCodeHash. by destruct (getOrFetchAccount s a).
  - specialize (Hfetch a). unfold s_GetCode. by destruct (getOrFetchAccount s a).
  - specialize (Hupd a (λ acct, set_code acct code (match code with [] => 0 | _ => Keccak256Hash code end))
      ltac:(done)). unfold s_SetCode. by destruct (getOrFetchAccount s a).
  - specialize (Hfetch a). unfold s_GetCodeSize, s_GetCode. by destruct (getOrFetchAccount s a).
  - split_and!; [done|done|apply wrap64_range|done|done].
  - split_and!; [done|done| |done|done]. simpl in *. unfold is_u64 in *.
    destruct (Z.ltb_spec (ss_refund s) gas); lia.
  - pose proof (s_GetState_typed s a slot Ht). by destruct (s_GetState s a slot).
  - pose proof (s_GetState_typed s a slot Ht). unfold s_GetStateAndCommittedState.
    destruct (s_GetState s a slot). by case_match.
  - pose proof (s_GetState_typed s a slot Ht). unfold s_SetState. by destruct (s_GetState s a slot).
  - specialize (Hupd a destruct_account ltac:(done)). unfold s_SelfDestruct. by destruct (getOrFetchAccount s a).
  - specialize (Hupd a destruct_account ltac:(done)). specialize (Hfetch a).
    unfold s_SelfDestruct6780. destruct (getOrFetchAccount s a). by destruct (ac_Created _).
  - specialize (Hfetch a). unfold s_Exist. by destruct (getOrFetchAccount s a).
  - specialize (Hfetch a). unfold s_Empty. by destruct (getOrFetchAccount s a).
  - split_and!; [by apply AddAddress_wf|done..].
  - split_and!; [by apply AddSlot_wf|done..].
  - by apply s_Prepare_typed.
  - by apply s_Revert_typed.
  - by apply s_Snapshot_typed.
  - split_and!; try done. simpl. split; [done|]. rewrite length_app. eapply Forall_impl; [done|]. simpl. lia.
Qed.

(** C24. A simulation stays well formed through any execution: balances stay 256-bit
    and the refund counter 64-bit values, every index of the access list points to
    an existing slot set of its own, and every revision still open holds such a
    state and no more log entries than the log has, so restoring it and querying
    the access list never index out of range. *)
Theorem simulation_state_typed {R} (p : Prog R) tx (f : F) :
  typed p → sim_typed (exec p (NewSimulationStateDB tx f)).2.
Proof.
  generalize (NewSimulationStateDB_typed tx f). generalize (NewSimulationStateDB tx f).
  induction p as [r|A op k IH]; intros s Ht; simpl; [done|]. intros [Ho Hk].
  pose proof (typed_do op s Ho Ht). destruct (do_op op s). by apply IH.
Qed.
End typing.

(** ** Witness *)

#[local] Existing Instances mem_fetcher list_range.

(** Overflows a balance, touches the access list, and reverts what followed. *)
Definition busyProgram : Prog Z :=
  (let! _ := call (AddBalance 2 (two256 - 1)) in
   let! r := call Snapshot in
   let! _ := call (AddRefund 7) in
   let! _ := call (AddSlotToAccessList 2 0) in
   let! _ := call (AddBalance 2 5) in
   let! _ := call (RevertToSnapshot 0) in
   call (GetBalance 2))%go.

Lemma simulation_state_typed_witness :
  let '(b, s) := exec busyProgram (NewSimulationStateDB "x" zeroFetcher) in
  b = 9 ∧ sim_typed s ∧ length (al_slots (ss_accessList s)) = 1%nat.
Proof.
  pose proof (simulation_state_typed busyProgram "x" zeroFetcher) as Ht.
  assert (Hb : (exec busyProgram (NewSimulationStateDB "x" zeroFetcher)).1 = 9) by (vm_compute; reflexivity).
  assert (Hl : length (al_slots (ss_accessList (exec busyProgram (NewSimulationStateDB "x" zeroFetcher)).2)) = 1%nat)
    by (vm_compute; reflexivity).
  destruct (exec busyProgram (NewSimulationStateDB "x" zeroFetcher)) as [b s].
  split_and!; [exact Hb|apply Ht|exact Hl].
  repeat (split; [vm_compute; try done|intros ?]). done.
Defined.
