(* ===== verification/Simulator.v ===== *)
(** * Simulator: internal/orchestrator/simulator.go

    The background worker that simulates cross-shard calls: jobs wait in a bounded
    queue, one worker takes them in order, runs the call on a fresh
    [SimulationStateDB] and hands the outcome to one of two callbacks. The
    operations are functions; [sim_step] interleaves them as the goroutines do. *)

From stdpp Require Import pretty.
From S2P Require Import Prelude Codec Protocol VmState MemDB TrackingDB EvmState ShardChain SlotLocks ShardServer StorageProof BytecodeStore SimStateDB StateFetcher ShardQueries SimProofs.

Open Scope Z_scope.

(** [uint256.FromBig] of holiman/uint256: the value and whether it overflowed. *)
Class Uint256 := { FromBig : Z → Z * bool }.

(** Documented: an integer that fits is converted exactly. *)
Class Uint256Laws `{Uint256} := { FromBig_u256 z : is_u256 z → FromBig z = (z, false) }.

(** ** State *)

(** Ten minutes, in nanoseconds. *)
Definition ResultTTL : Z := 10 * 60 * 1000000000.

(** The capacity of the queue channel. *)
Definition queueCap : nat := 100.

Record SimulationResult := mkSimulationResult {
  sr_TxID : string;
  sr_Status : SimulationStatus;
  sr_RwSet : list RwVariable;
  sr_GasUsed : Z;
  sr_Error : string;
  sr_CreatedAt : Z
}.

Definition set_sr_Status (r : SimulationResult) (st : SimulationStatus) : SimulationResult :=
  mkSimulationResult (sr_TxID r) st (sr_RwSet r) (sr_GasUsed r) (sr_Error r) (sr_CreatedAt r).

Definition fail_result (r : SimulationResult) (msg : string) : SimulationResult :=
  mkSimulationResult (sr_TxID r) SimFailed (sr_RwSet r) (sr_GasUsed r) msg (sr_CreatedAt r).

(** The fetcher is the one the service uses as well. *)
Record Simulator (N D : Type) := mkSimulator {
  sim_fetcher : StateFetcher N D;
  sim_queue : list CrossShardTx;
  sim_results : gmap string SimulationResult;
  sim_closing : bool
}.
Arguments mkSimulator {N D} _ _ _ _.
Arguments sim_fetcher {N D} _.
Arguments sim_queue {N D} _.
Arguments sim_results {N D} _.
Arguments sim_closing {N D} _.

Inductive submit_error : Type := ShuttingDown | QueueFull.

(** [Error] of the errors [FetchState] returns, the only ones a simulation collects
    ([FetchTransport] carries its text). *)
Definition FetchState_Error (e : fetch_error) : string :=
  match e with
  | InvalidShard shardID => String.append "invalid shard ID: " (pretty shardID)
  | FetchTransport msg => msg
  | FetchRefused msg => String.append "fetch failed: " msg
  | _ => ""
  end.

(** ** The simulation's EVM context *)

Section context.
Local Open Scope go_scope.

Definition canTransfer (addr : Address) (amount : Z) : Prog bool :=
  let! b := call (GetBalance addr) in Ret (amount <=? b).

Definition transfer (sender recipient : Address) (amount : Z) : Prog unit :=
  let! _ := call (SubBalance sender amount) in
  let! _ := call (AddBalance recipient amount) in Ret tt.

Definition getBlockHash (n : Z) : Hash := 0.
End context.

Definition simBlockCtx : BlockContext :=
  mkBlockContext canTransfer transfer getBlockHash 0 30000000 1 1 1 1000000000 None.

Definition simTxCtx (tx : CrossShardTx) : TxContext := mkTxContext (ct_From tx) 1000000000.

(** The callee: [tx.To], or the first account of a given read/write set. *)
Definition simTarget (tx : CrossShardTx) : Address :=
  if ct_To tx =? 0 then
    match ct_RwSet tx with rw :: _ => rw_Address rw | [] => ct_To tx end
  else ct_To tx.

Definition simGas (tx : CrossShardTx) : Z :=
  if ct_Gas tx =? 0 then match ct_Data tx with [] => 21000 | _ => 1000000 end else ct_Gas tx.

(** ** Operations *)

Section simulator.
Context {N D : Type} `{Net N} `{EthDB D} `{Geth} `{GethHex} `{TrieCodec} `{EVM} `{Uint256} `{MapRange}.
Implicit Types (s : Simulator N D).

Definition NewSimulator (fetcher : StateFetcher N D) : Simulator N D := mkSimulator fetcher [] ∅ false.

Definition set_results s (m : gmap string SimulationResult) : Simulator N D :=
  mkSimulator (sim_fetcher s) (sim_queue s) m (sim_closing s).

Definition set_queue s (q : list CrossShardTx) : Simulator N D :=
  mkSimulator (sim_fetcher s) q (sim_results s) (sim_closing s).

(** [Submit] up to the [select]. *)
Definition submitPending s (tx : CrossShardTx) (now : Z) : option submit_error * Simulator N D :=
  if sim_closing s then (Some ShuttingDown, s)
  else (None, set_results s (<[ct_ID tx := mkSimulationResult (ct_ID tx) SimPending [] 0 "" now]> (sim_results s))).

(** The send, when there is room; sending on a closed channel panics. *)
Definition submitSend s (tx : CrossShardTx) : panics (option (Simulator N D)) :=
  if sim_closing s then None
  else Some (if (length (sim_queue s) <? queueCap)%nat then Some (set_queue s (sim_queue s ++ [tx])) else None).

(** The timeout; a result that is not there is a nil dereference. *)
Definition submitTimeout s (tx : CrossShardTx) : panics (Simulator N D) :=
  r ← sim_results s !! ct_ID tx;
  Some (set_results s (<[ct_ID tx := fail_result r "simulation queue full"]> (sim_results s))).

(** [Submit] with nothing else running: a full queue stays full until the timeout. *)
Definition Submit s (tx : CrossShardTx) (now : Z) : panics (option submit_error * Simulator N D) :=
  match submitPending s tx now with
  | (Some err, s1) => Some (Some err, s1)
  | (None, s1) =>
      sent ← submitSend s1 tx;
      match sent with
      | Some s2 => Some (None, s2)
      | None => s2 ← submitTimeout s1 tx; Some (Some QueueFull, s2)
      end
  end.

(** A copy of the result. *)
Definition GetResult s (txID : string) : option SimulationResult := sim_results s !! txID.

Definition Stop s : Simulator N D := mkSimulator (sim_fetcher s) (sim_queue s) (sim_results s) true.

Definition cleanupExpiredResults s (now : Z) : Simulator N D :=
  set_results s (filter (λ '(_, r), now - sr_CreatedAt r < ResultTTL) (sim_results s)).

(** The call on a fresh simulation database. *)
Definition simulateCall (f : StateFetcher N D) (tx : CrossShardTx) :
    CallResult * SimulationStateDB (StateFetcher N D) :=
  let stateDB := s_Prepare (NewSimulationStateDB (ct_ID tx) f) (ct_From tx) 0 None [] [] in
  exec (evm_Call simBlockCtx (simTxCtx tx) (ct_From tx) (simTarget tx) (ct_Data tx) (simGas tx)
          (FromBig (ToBigInt (ct_Value tx))).1) stateDB.

(** The first fetch error overrides what the EVM reported. *)
Definition execErr (res : CallResult) (stateDB : SimulationStateDB (StateFetcher N D)) : option string :=
  match GetFetchErrors stateDB with
  | err :: _ => Some (FetchState_Error err)
  | [] => call_err res
  end.

Definition failedTx (tx : CrossShardTx) (msg : string) : CrossShardTx :=
  mkCrossShardTx (ct_ID tx) (ct_TxHash tx) (ct_FromShard tx) (ct_From tx) (ct_To tx) (ct_Value tx)
    (ct_Gas tx) (ct_Data tx) (ct_RwSet tx) (ct_Status tx) SimFailed msg.

Definition simulatedTx (tx : CrossShardTx) (rwSet : list RwVariable) (gasUsed : Z) : CrossShardTx :=
  mkCrossShardTx (ct_ID tx) (ct_TxHash tx) (ct_FromShard tx) (ct_From tx) (ct_To tx) (ct_Value tx)
    gasUsed (ct_Data tx) rwSet (ct_Status tx) (ct_SimStatus tx) (ct_SimError tx).

(** The callbacks act on the state of the client. *)
Context {C : Type} (onSuccess onError : option (CrossShardTx → C → C)).

Definition notify (cb : option (CrossShardTx → C → C)) (tx : CrossShardTx) (c : C) : C :=
  match cb with Some f => f tx c | None => c end.

(** [runSimulation] up to the call, and from the call on. *)
Definition startSimulation s (tx : CrossShardTx) : Simulator N D :=
  set_results s (alter (λ r, set_sr_Status r SimRunning) (ct_ID tx) (sim_results s)).

Definition finishSimulation s (tx : CrossShardTx) (now : Z) (c : C) : panics (Simulator N D * C) :=
  let '(res, stateDB) := simulateCall (sim_fetcher s) tx in
  if ss_panicked stateDB then None
  else
    let gasUsed := u64_sub (simGas tx) (call_gasLeft res) in
    let f := ClearCache (ss_fetcher stateDB) (ct_ID tx) in
    let '(result, c') :=
      match execErr res stateDB with
      | Some msg =>
          (mkSimulationResult (ct_ID tx) SimFailed [] gasUsed msg now, notify onError (failedTx tx msg) c)
      | None =>
          let rwSet := sim_BuildRwSet stateDB in
          (mkSimulationResult (ct_ID tx) SimSuccess rwSet gasUsed "" now,
           notify onSuccess (simulatedTx tx rwSet gasUsed) c)
      end in
    Some (mkSimulator f (sim_queue s) (<[ct_ID tx := result]> (sim_results s)) (sim_closing s), c').

Definition runSimulation s (tx : CrossShardTx) (now : Z) (c : C) : panics (Simulator N D * C) :=
  finishSimulation (startSimulation s tx) tx now c.

(** [worker], on the jobs now in the queue. *)
Fixpoint run_jobs (jobs : list CrossShardTx) s (now : Z) (c : C) : panics (Simulator N D * C) :=
  match jobs with
  | [] => Some (s, c)
  | job :: jobs' => '(s1, c1) ← runSimulation s job now c; run_jobs jobs' s1 now c1
  end.

Definition worker s (now : Z) (c : C) : panics (Simulator N D * C) :=
  run_jobs (sim_queue s) (set_queue s []) now c.
End simulator.

(** ** Interleavings *)

(** The goroutines: callers of [Submit] waiting for room in the queue, the worker
    and the job it runs, the cleanup worker. [sy_accepted] and [sy_finished] record
    the jobs that entered the queue and those the worker is done with. *)
Record SimSys (N D C : Type) := mkSimSys {
  sy_sim : Simulator N D;
  sy_waiting : list CrossShardTx;
  sy_running : option CrossShardTx;
  sy_client : C;
  sy_accepted : list CrossShardTx;
  sy_finished : list CrossShardTx
}.
Arguments mkSimSys {N D C} _ _ _ _ _ _.
Arguments sy_sim {N D C} _.
Arguments sy_waiting {N D C} _.
Arguments sy_running {N D C} _.
Arguments sy_client {N D C} _.
Arguments sy_accepted {N D C} _.
Arguments sy_finished {N D C} _.

Section interleaving.
Context {N D : Type} `{Net N} `{EthDB D} `{Geth} `{GethHex} `{TrieCodec} `{EVM} `{Uint256} `{MapRange}.
Context {C : Type} (onSuccess onError : option (CrossShardTx → C → C)).
Implicit Types (s : Simulator N D) (y : SimSys N D C).

Inductive sim_step : SimSys N D C → SimSys N D C → Prop :=
| StepSubmit s w r c acc fin tx now s' :
    submitPending s tx now = (None, s') →
    sim_step (mkSimSys s w r c acc fin) (mkSimSys s' (w ++ [tx]) r c acc fin)
| StepSend s w1 tx w2 r c acc fin s' :
    submitSend s tx = Some (Some s') →
    sim_step (mkSimSys s (w1 ++ tx :: w2) r c acc fin) (mkSimSys s' (w1 ++ w2) r c (acc ++ [tx]) fin)
| StepTimeout s w1 tx w2 r c acc fin s' :
    submitTimeout s tx = Some s' →
    sim_step (mkSimSys s (w1 ++ tx :: w2) r c acc fin) (mkSimSys s' (w1 ++ w2) r c acc fin)
| StepTake s w c acc fin job q :
    sim_queue s = job :: q →
    sim_step (mkSimSys s w None c acc fin)
      (mkSimSys (startSimulation (set_queue s q) job) w (Some job) c acc fin)
| StepFinish s w c acc fin job now s' c' :
    finishSimulation onSuccess onError s job now c = Some (s', c') →
    sim_step (mkSimSys s w (Some job) c acc fin) (mkSimSys s' w None c' acc (fin ++ [job]))
| StepCleanup s w r c acc fin now :
    sim_step (mkSimSys s w r c acc fin) (mkSimSys (cleanupExpiredResults s now) w r c acc fin)
| StepStop s w r c acc fin :
    sim_step (mkSimSys s w r c acc fin) (mkSimSys (Stop s) w r c acc fin).

Definition sim_init (f : StateFetcher N D) (c : C) : SimSys N D C :=
  mkSimSys (NewSimulator f) [] None c [] [].

Definition in_hand y : list CrossShardTx := option_list (sy_running y) ++ sim_queue (sy_sim y).

(** A finished simulation leaves the queue, and tells the client one thing. *)
Lemma finishSimulation_spec s tx now c s' c' :
  finishSimulation onSuccess onError s tx now c = Some (s', c') →
  sim_queue s' = sim_queue s ∧ sim_closing s' = sim_closing s ∧
  (∀ a, cache_get (sim_fetcher s') (ct_ID tx) a = None) ∧
  ∃ res stateDB r, simulateCall (sim_fetcher s) tx = (res, stateDB) ∧
    sim_results s' = <[ct_ID tx := r]> (sim_results s) ∧
    sim_fetcher s' = ClearCache (ss_fetcher stateDB) (ct_ID tx) ∧
    match execErr res stateDB with
    | Some msg => sr_Status r = SimFailed ∧ sr_Error r = msg ∧ c' = notify onError (failedTx tx msg) c
    | None => sr_Status r = SimSuccess ∧ sr_RwSet r = sim_BuildRwSet stateDB ∧
        c' = notify onSuccess (simulatedTx tx (sim_BuildRwSet stateDB) (sr_GasUsed r)) c
    end.
Proof.
  unfold finishSimulation. destruct (simulateCall (sim_fetcher s) tx) as [res db] eqn:Hs.
  destruct (ss_panicked db); [done|].
  assert (Hc : ∀ f a, cache_get (ClearCache f (ct_ID tx) : StateFetcher N D) (ct_ID tx) a = None).
  { intros f a. unfold cache_get, ClearCache. simpl. by rewrite lookup_delete_eq. }
  destruct (execErr res db) as [msg|] eqn:He; intros [= <- <-]; cbn [sim_queue sim_closing sim_fetcher sim_results];
    split_and!; try done; eexists res, db, _; rewrite He; split_and!; done.
Qed.

(** The jobs accepted are those finished, the one running and those queued, in
    the order they were accepted; the queue keeps within the channel. *)
Definition fifo y : Prop :=
  sy_accepted y = sy_finished y ++ in_hand y ∧ (length (sim_queue (sy_sim y)) ≤ queueCap)%nat.

Lemma fifo_step y y' : sim_step y y' → fifo y → fifo y'.
Proof.
  unfold fifo, in_hand. destruct 1 as [s w r c acc fin tx now s' Hp|s w1 tx w2 r c acc fin s' Hp
    |s w1 tx w2 r c acc fin s' Hp|s w c acc fin job q Hq|s w c acc fin job now s' c' Hf|s w r c acc fin now|s w r c acc fin];
    cbn [sy_sim sy_running sy_accepted sy_finished]; intros [Ha Hl].
  - unfold submitPending in Hp. destruct (sim_closing s); [done|]. by injection Hp as <-.
  - unfold submitSend in Hp. destruct (sim_closing s); [done|].
    destruct (Nat.ltb_spec (length (sim_queue s)) queueCap) as [Hlt|]; [|done]. injection Hp as <-.
    cbn [sim_queue set_queue]. rewrite Ha, length_app, <- !(assoc_L (++)). split; [done|]. simpl. lia.
  - unfold submitTimeout in Hp. destruct (sim_results s !! ct_ID tx); [|done]. by injection Hp as <-.
  - rewrite Hq in Ha, Hl. split; [done|]. simpl in *. lia.
  - apply finishSimulation_spec in Hf as (->&_). rewrite Ha. by rewrite <- (assoc_L (++)).
  - done.
  - done.
Qed.

Lemma fifo_reach f c y : rtc sim_step (sim_init f c) y → fifo y.
Proof.
  intros Hr. assert (fifo (sim_init f c)) as Hi by (split; [done|unfold queueCap; simpl; lia]).
  induction Hr as [|y1 y2 y3 Hs _ IH]; [done|]. by eapply IH, fifo_step.
Qed.
End interleaving.

Section delivery.
Context {N D : Type} `{Net N} `{EthDB D} `{Geth} `{GethHex} `{TrieCodec} `{EVM} `{Uint256} `{MapRange}.
Implicit Types (y : SimSys N D (list CrossShardTx)).

(** A client that logs what it is told. *)
Definition log_tx (tx : CrossShardTx) (l : list CrossShardTx) : list CrossShardTx := l ++ [tx].

Lemma log_step y y' :
  sim_step (Some log_tx) (Some log_tx) y y' →
  map ct_ID (sy_client y) = map ct_ID (sy_finished y) → map ct_ID (sy_client y') = map ct_ID (sy_finished y').
Proof.
  destruct 1 as [| | | |s w c acc fin job now s' c' Hf| |]; cbn [sy_client sy_finished]; try done.
  intros He. apply finishSimulation_spec in Hf as (_&_&_&res&db&r&_&_&_&Hc).
  destruct (execErr res db); destruct Hc as (_&_&->); unfold notify, log_tx; by rewrite !map_app, He.
Qed.

(** C20. No accepted call is lost, duplicated or overtaken. However submissions,
    timeouts, clean-ups and the shutdown interleave with the worker, the calls that
    entered the simulation queue are those already simulated, then the one running,
    then those queued, in the order of acceptance; each simulated call made exactly
    one callback, in the same order; and the queue never holds more than 100. *)
Theorem accepted_calls_delivered (f : StateFetcher N D) y :
  rtc (sim_step (Some log_tx) (Some log_tx)) (sim_init f []) y →
  sy_accepted y = sy_finished y ++ option_list (sy_running y) ++ sim_queue (sy_sim y) ∧
  map ct_ID (sy_client y) = map ct_ID (sy_finished y) ∧
  (length (sim_queue (sy_sim y)) ≤ 100)%nat.
Proof.
  intros Hr. destruct (fifo_reach _ _ _ _ _ Hr) as [Ha Hl]. split; [done|]. split; [|done].
  revert Hr. generalize (eq_refl : map ct_ID (sy_client (sim_init f ([] : list CrossShardTx))) = map ct_ID (sy_finished (sim_init f ([] : list CrossShardTx)))).
  intros Hi Hr. clear Ha Hl. induction Hr as [|y1 y2 y3 Hs _ IH]; [done|]. by eapply IH, log_step.
Qed.
End delivery.

(** ** An uncontended call gets its locks *)

(** Documented by the types of the interface: addresses are 20 bytes, slots and
    values 32 bytes. *)
Class EVMTyped `{EVM} := {
  evm_Call_bounded bc tc caller addr input gas value :
    (∀ a v, bounded (bc_CanTransfer bc a v)) → (∀ a b v, bounded (bc_Transfer bc a b v)) →
    0 ≤ caller < 2 ^ 160 → 0 ≤ addr < 2 ^ 160 →
    bounded (evm_Call bc tc caller addr input gas value)
}.

Section uncontended.
Context {N D : Type} `{GethHex} `{Net N} `{!NetLaws N} `{EthDB D} `{Geth} `{!GethLaws} `{TrieCodec}
  `{EVM} `{!EVMTyped} `{Uint256} `{MapRange}.
Implicit Types (s : Simulator N D).

Definition addresses_ok (tx : CrossShardTx) : Prop :=
  0 ≤ ct_From tx < 2 ^ 160 ∧ 0 ≤ simTarget tx < 2 ^ 160.

(** The call leaves a simulation database in order. *)
Lemma simulateCall_ok n σ (f : StateFetcher N D) tx :
  sf_serves f n σ → addresses_ok tx → sim_ok n σ (simulateCall f tx).2.
Proof.
  intros Hf [Hfrom Hto]. unfold simulateCall. apply sim_ok_exec.
  - by apply evm_Call_bounded.
  - change (sim_ok n σ (s_Prepare (NewSimulationStateDB (ct_ID tx) f) (ct_From tx) 0 None [] [])).
    pose proof (sim_ok_new n σ (ct_ID tx) f Hf) as (?&?&?). by split_and!.
Qed.

(** The fetcher serves the shards after a simulation as before. *)
Lemma finishSimulation_serves {C} (onS onE : option (CrossShardTx → C → C)) s tx now c s' c' n σ :
  addresses_ok tx → sf_serves (sim_fetcher s) n σ →
  finishSimulation onS onE s tx now c = Some (s', c') → sf_serves (sim_fetcher s') n σ.
Proof.
  intros Ha Hf Hr. apply finishSimulation_spec in Hr as (_&_&_&res&db&r&Hs&_&->&_).
  pose proof (simulateCall_ok n σ _ tx Hf Ha) as ((?&?&?)&_). rewrite Hs in *. by split_and!.
Qed.

Context {DB : Type} `{GethStateDBLaws DB}.

(** C21. An uncontended call gets its locks: when a simulation succeeds and reports its
    read/write set, then on every shard where the slots of its part of the read set
    still have the values the simulation was served and are free, validating and
    locking that part succeeds. *)
Theorem uncontended_call_locks s tx now s' tx' n σ (ch : Chain) (e : EVMState DB) i :
  addresses_ok tx → sf_serves (sim_fetcher s) n σ → (∀ a k, is_u256 (σ a k)) →
  runSimulation (Some (λ tx _, Some tx)) None s tx now None = Some (s', Some tx') →
  (∀ a k, (a, k) ∈ (rw_reads (local_rwset i (ct_RwSet tx'))).*1 →
     sto e a k = σ a k ∧ holder ch a k = None) →
  ∃ c1 e1,
    validateAndLockReadSetLocked ch (ct_ID tx') (local_rwset i (ct_RwSet tx')) e = (None, c1, e1).
Proof.
  intros Ha Hf Hu Hrun Hfree. unfold runSimulation in Hrun.
  apply finishSimulation_spec in Hrun as (_&_&_&res&db&r&Hs&_&_&Hc).
  pose proof (simulateCall_ok n σ (sim_fetcher (startSimulation s tx)) tx Hf Ha) as Hok. rewrite Hs in Hok.
  destruct (execErr res db) as [msg|]; destruct Hc as (_&_&Hc); [done|]. injection Hc as ->.
  cbn [ct_RwSet ct_ID simulatedTx] in *. unfold validateAndLockReadSetLocked.
  destruct (validate_loop_succeeds (ct_ID tx) (rw_reads (local_rwset i (sim_BuildRwSet db))) [] ch e)
    as (c1&e1&->); [| |eauto].
  - intros a k v Hin. destruct (Hfree a k) as [-> _]; [by apply (list_elem_of_fmap_2 fst) in Hin|].
    apply (local_reads n σ) in Hin as (_&w&Hw&->); [|done].
    destruct Hok as (_&(_&Hr&_)&_). rewrite (Hr _ _ _ Hw). symmetry. by apply BytesToHash_Bytes.
  - intros a k Hin. left. by apply Hfree.
Qed.
End uncontended.

(** ** Witnesses *)

#[local] Existing Instance list_range.
#[local] Existing Instance toy_codec.
#[local] Existing Instance toy_tries.

#[export] Instance trunc_uint256 : Uint256 := { FromBig z := (wrap256 z, negb (z =? wrap256 z)) }.

#[export] Instance trunc_uint256_laws : Uint256Laws.
Proof. split. intros z Hz. simpl. by rewrite wrap256_small, Z.eqb_refl by done. Qed.

#[export] Instance mem_evm_typed : EVMTyped.
Proof.
  split. intros bc tc caller addr input gas value Hc Ht Hca Ha. simpl. unfold mem_call.
  assert (Hbind : ∀ A B (p : Prog A) (f : A → Prog B), bounded p → (∀ x, bounded (f x)) → bounded (prog_bind p f)).
  { intros A B p f Hp Hf. induction p as [x|X op k IH]; [apply Hf|]. destruct Hp. split; [done|]. intros. by apply IH. }
  apply Hbind; [apply Hc|]. intros [|]; [|done]. apply Hbind; [apply Ht|]. intros _. destruct input; [done|].
  assert (Hr : in_range addr 0 = true).
  { unfold in_range. destruct Ha. destruct (Z.leb_spec 0 addr); [|lia]. by destruct (Z.ltb_spec addr (2 ^ 160)); [|lia]. }
  split; [exact Hr|]. intros x. split; [|done]. simpl. rewrite Hr.
  pose proof (Z.mod_pos_bound (x + 1) two256 ltac:(reflexivity)).
  destruct (Z.leb_spec 0 ((x + 1) mod two256)); [|lia]. by destruct (Z.ltb_spec ((x + 1) mod two256) two256); [|lia].
Qed.

(** Two shards with empty states, and the fetcher of their deployment. *)
Definition twoShards : ShardNet MemDB := mkShardNet (λ i, fresh_server i emptyMem 0).

Definition twoShardFetcher : StateFetcher (ShardNet MemDB) (gmap (list byte) (list byte)) :=
  NewStateFetcher 2 twoShards ∅.

Lemma twoShardFetcher_serves : sf_serves twoShardFetcher 2 zeroStorage.
Proof. split_and!; [done..|]. intros a k _. split; [reflexivity|concrete_range]. Qed.

(** Account 2 calls the counter of account 3. *)
Definition counterCall : CrossShardTx :=
  mkCrossShardTx "x" 0 0 2 3 None 0 [Byte.x01] [] TxPending SimNoStatus "".

Definition counterRun : panics (Simulator (ShardNet MemDB) (gmap (list byte) (list byte)) * option CrossShardTx) :=
  runSimulation (Some (λ tx _, Some tx)) None (NewSimulator twoShardFetcher) counterCall 0 None.

Definition counterDone : CrossShardTx :=
  match counterRun with Some (_, Some tx) => tx | _ => counterCall end.

Lemma uncontended_call_locks_witness :
  ∃ c1 e1, validateAndLockReadSetLocked (NewChain 1 0) "x" (local_rwset 1 (ct_RwSet counterDone))
    (fresh_evm emptyMem) = (None, c1, e1).
Proof.
  change "x"%string with (ct_ID counterDone). assert (match counterRun with Some (_, Some _) => true | _ => false end = true) as Hok by (vm_compute; reflexivity).
  destruct counterRun as [[s' [tx'|]]|] eqn:Hrun; try discriminate Hok.
  replace counterDone with tx' by (unfold counterDone; by rewrite Hrun).
  eapply (uncontended_call_locks (NewSimulator twoShardFetcher) counterCall 0 s' tx' 2 zeroStorage).
  - split; concrete_range.
  - apply twoShardFetcher_serves.
  - intros a k. concrete_range.
  - exact Hrun.
  - intros a k _. split; reflexivity.
Defined.

(** Submitted, accepted, taken and simulated. *)
Definition waitingSys : SimSys (ShardNet MemDB) (gmap (list byte) (list byte)) (list CrossShardTx) :=
  mkSimSys (submitPending (NewSimulator twoShardFetcher) counterCall 5).2 [counterCall] None [] [] [].

Definition queuedSys := mkSimSys (set_queue (sy_sim waitingSys) [counterCall]) [] None
  ([] : list CrossShardTx) [counterCall] [].

Lemma queuedSys_reached : rtc (sim_step (Some log_tx) (Some log_tx)) (sim_init twoShardFetcher []) queuedSys.
Proof.
  eapply rtc_l; [by apply (StepSubmit _ _ _ [] _ _ _ _ counterCall 5 (sy_sim waitingSys))|].
  eapply rtc_l; [|apply rtc_refl]. by apply (StepSend _ _ _ [] counterCall []).
Qed.

Definition takenSys := mkSimSys (startSimulation (set_queue (sy_sim queuedSys) []) counterCall) [] (Some counterCall)
  ([] : list CrossShardTx) [counterCall] [].

Lemma takenSys_reached : rtc (sim_step (Some log_tx) (Some log_tx)) (sim_init twoShardFetcher []) takenSys.
Proof. eapply rtc_r; [apply queuedSys_reached|]. by apply StepTake. Qed.

Lemma accepted_calls_delivered_witness :
  ∃ y, map ct_ID (sy_client (C:=list CrossShardTx) (N:=ShardNet MemDB) (D:=gmap (list byte) (list byte)) y) = ["x"%string] ∧
       sy_accepted y = [counterCall].
Proof.
  assert (bool_decide (is_Some (finishSimulation (Some log_tx) (Some log_tx) (sy_sim takenSys) counterCall 9 [])) = true)
    as [[s' c'] Hf]%bool_decide_eq_true by (vm_compute; reflexivity).
  pose (y := mkSimSys s' [] None c' [counterCall] [counterCall]).
  destruct (accepted_calls_delivered twoShardFetcher y) as (_&Hc&_).
  - eapply rtc_r; [apply takenSys_reached|]. by eapply StepFinish.
  - exists y. split; [exact Hc|done].
Defined.
