(* ===== verification/Service.v ===== *)
(** * Service: internal/orchestrator/service.go

    The orchestrator node: HTTP handlers that accept cross-shard transfers and calls
    and the blocks of the state shards, the callbacks of the simulator, the block
    producer, and the retried broadcast of its blocks. Handlers take the decoded
    request and return the response; a handler or tick is one step. *)

From stdpp Require Import pretty.
From S2P Require Import Prelude Codec Protocol VmState MemDB TrackingDB EvmState ShardChain StorageProof BytecodeStore SimStateDB StateFetcher ShardServer ShardQueries SimProofs Simulator OrchestratorChain TwoPhase TpcSpec.

Open Scope Z_scope.

(** ** State *)

(** What the callbacks of the simulator change: the transactions clients may ask
    about, and the chain. *)
Record Ledger := mkLedger { lg_pending : gmap string CrossShardTx; lg_chain : OrchestratorChain }.

(** The fetcher is the simulator's. *)
Record Service (N D : Type) := mkService {
  svc_numShards : Z;
  svc_ledger : Ledger;
  svc_simulator : Simulator N D;
  svc_closed : bool
}.
Arguments mkService {N D} _ _ _ _.
Arguments svc_numShards {N D} _.
Arguments svc_ledger {N D} _.
Arguments svc_simulator {N D} _.
Arguments svc_closed {N D} _.

Definition set_Status (tx : CrossShardTx) (st : TxStatus) : CrossShardTx :=
  mkCrossShardTx (ct_ID tx) (ct_TxHash tx) (ct_FromShard tx) (ct_From tx) (ct_To tx) (ct_Value tx)
    (ct_Gas tx) (ct_Data tx) (ct_RwSet tx) st (ct_SimStatus tx) (ct_SimError tx).

Definition set_ID (tx : CrossShardTx) (id : string) : CrossShardTx :=
  mkCrossShardTx id (ct_TxHash tx) (ct_FromShard tx) (ct_From tx) (ct_To tx) (ct_Value tx)
    (ct_Gas tx) (ct_Data tx) (ct_RwSet tx) (ct_Status tx) (ct_SimStatus tx) (ct_SimError tx).

(** ** Responses *)

Inductive svc_response : Type :=
| SvcBadRequest (msg : string)
| SvcNotFound (msg : string)
| SvcUnavailable (e : submit_error)
| SvcPanicked
| SvcAccepted (txID : string) (status : TxStatus)
| SvcCallAccepted (txID : string)
| SvcStatus (txID : string) (status : TxStatus)
| SvcSimulation (txID : string) (status : SimulationStatus) (gasUsed : Z) (err : option string) (rwCount : option nat)
| SvcOk
| SvcBlock (b : OrchestratorShardBlock)
| SvcLatest (height : Z) (b : option OrchestratorShardBlock)
| SvcShards (shards : list (Z * string)).

(** ** Callbacks *)

Definition ledger_add (g : Ledger) (tx : CrossShardTx) : Ledger :=
  mkLedger (lg_pending g) (AddTransaction (lg_chain g) tx).

Definition ledger_store (g : Ledger) (tx : CrossShardTx) : Ledger :=
  mkLedger (<[ct_ID tx := CrossShardTx_DeepCopy tx]> (lg_pending g)) (lg_chain g).

Definition onSuccess (tx : CrossShardTx) (g : Ledger) : Ledger := ledger_add (ledger_store g tx) tx.
Definition onError (tx : CrossShardTx) (g : Ledger) : Ledger := ledger_add g tx.

Definition ledger_updateStatus (g : Ledger) (txID : string) (status : TxStatus) : Ledger :=
  mkLedger (alter (λ tx, set_Status tx status) txID (lg_pending g)) (lg_chain g).

Definition shardURL (shardID : Z) : string :=
  String.append "http://shard-" (String.append (pretty shardID) ":8545").

(** ** Operations *)

Section service.
Context {N D : Type} `{Net N} `{EthDB D} `{Geth} `{GethHex} `{TrieCodec} `{EVM} `{Uint256} `{MapRange}.
(** The hash of an orchestrator block. *)
Context (Hash : OrchestratorShardBlock → BlockHash).
Implicit Types (s : Service N D).

Definition NewService (numShards : Z) (net : N) (db : D) (now : Z) : Service N D :=
  mkService numShards (mkLedger ∅ (NewOrchestratorChain now)) (NewSimulator (NewStateFetcher numShards net db)) false.

Definition with_ledger s g : Service N D := mkService (svc_numShards s) g (svc_simulator s) (svc_closed s).
Definition with_simulator s m : Service N D := mkService (svc_numShards s) (svc_ledger s) m (svc_closed s).
Definition with_svc_chain s c : Service N D := with_ledger s (mkLedger (lg_pending (svc_ledger s)) c).

Definition updateStatus s (txID : string) (status : TxStatus) : Service N D :=
  with_ledger s (ledger_updateStatus (svc_ledger s) txID status).

(** The identifier of the request or a new one, and the initial status. *)
Definition admit_tx (uuid : string) (tx : CrossShardTx) : CrossShardTx :=
  set_Status (if decide (ct_ID tx = ""%string) then set_ID tx uuid else tx) TxPending.

Definition valid_shard s (i : Z) : bool := (0 <=? i) && (i <? svc_numShards s).

(** The log line prints [tx.Value], which panics for a request without a value:
    net/http drops the connection and goes on. *)
Definition handleSubmit s (body : result string CrossShardTx) (uuid : string) : svc_response * Service N D :=
  match body with
  | Err msg => (SvcBadRequest msg, s)
  | Ok tx =>
      let tx := admit_tx uuid tx in
      if negb (valid_shard s (ct_FromShard tx)) then (SvcBadRequest "invalid from_shard ID", s)
      else if existsb (λ rw, negb (valid_shard s (ref_ShardNum (rw_ReferenceBlock rw)))) (ct_RwSet tx)
      then (SvcBadRequest "invalid target shard ID in RwSet", s)
      else
        let s1 := with_ledger s (ledger_store (svc_ledger s) tx) in
        match ct_Value tx with
        | None => (SvcPanicked, s1)
        | Some _ => (SvcAccepted (ct_ID tx) (ct_Status tx), with_ledger s1 (ledger_add (svc_ledger s1) tx))
        end
  end.

Definition handleCall s (body : result string CrossShardTx) (uuid : string) (now : Z) :
    panics (svc_response * Service N D) :=
  match body with
  | Err msg => Some (SvcBadRequest msg, s)
  | Ok tx =>
      let tx := admit_tx uuid tx in
      if negb (valid_shard s (ct_FromShard tx)) then Some (SvcBadRequest "invalid from_shard ID", s)
      else
        '(err, m) ← Submit (svc_simulator s) tx now;
        Some (match err with Some e => SvcUnavailable e | None => SvcCallAccepted (ct_ID tx) end,
              with_simulator s m)
  end.

Definition handleSimulationStatus s (txID : string) : svc_response :=
  match GetResult (svc_simulator s) txID with
  | None => SvcNotFound "simulation not found"
  | Some r =>
      SvcSimulation (sr_TxID r) (sr_Status r) (sr_GasUsed r)
        (if decide (sr_Error r = ""%string) then None else Some (sr_Error r))
        (match sr_RwSet r with [] => None | l => Some (length l) end)
  end.

Definition handleStatus s (txID : string) : svc_response :=
  match lg_pending (svc_ledger s) !! txID with
  | None => SvcNotFound "transaction not found"
  | Some tx => SvcStatus (ct_ID tx) (ct_Status tx)
  end.

Definition GetTxStatus s (txID : string) : TxStatus :=
  match lg_pending (svc_ledger s) !! txID with Some tx => ct_Status tx | None => TxNoStatus end.

Definition AddPendingTx s (tx : CrossShardTx) : Service N D :=
  let tx := set_Status tx TxPending in
  with_ledger s (ledger_add (ledger_store (svc_ledger s) tx) tx).

(** One vote of a state shard's block. *)
Definition record_vote s (shardID : Z) (txID : string) (canCommit : bool) : Service N D :=
  let '(recorded, c) := RecordVote (lg_chain (svc_ledger s)) txID shardID canCommit in
  let s1 := with_svc_chain s c in
  if recorded then updateStatus s1 txID TxPrepared else s1.

Definition handleStateShardBlock s (body : result string StateShardBlock) : svc_response * Service N D :=
  match body with
  | Err msg => (SvcBadRequest msg, s)
  | Ok block =>
      (SvcOk, foldl (λ s '(txID, canCommit), record_vote s (sb_ShardID block) txID canCommit) s
                (map_range (sb_TpcPrepare block)))
  end.

(** A result of the block just produced. *)
Definition publish_result s (txID : string) (committed : bool) : Service N D :=
  let s1 := updateStatus s txID (if committed then TxCommitted else TxAborted) in
  with_simulator s1
    (mkSimulator (ClearCache (sim_fetcher (svc_simulator s1)) txID) (sim_queue (svc_simulator s1))
       (sim_results (svc_simulator s1)) (sim_closing (svc_simulator s1))).

(** A tick of [blockProducer]: the block goes to every shard. *)
Definition blockProducer s (now : Z) : panics (OrchestratorShardBlock * Service N D) :=
  '(block, c) ← ProduceBlock Hash (lg_chain (svc_ledger s)) now;
  Some (block, foldl (λ s '(txID, committed), publish_result s txID committed) (with_svc_chain s c)
                 (map_range (ob_TpcResult block))).

(** The simulator's worker on the next job. *)
Definition simulateNext s (now : Z) : panics (Service N D) :=
  match sim_queue (svc_simulator s) with
  | [] => Some s
  | job :: q =>
      '(m, g) ← runSimulation (Some onSuccess) (Some onError) (set_queue (svc_simulator s) q) job now (svc_ledger s);
      Some (mkService (svc_numShards s) g m (svc_closed s))
  end.

(** [height]: the number of the path, if it reads as one. *)
Definition handleGetBlock s (height : option Z) : svc_response :=
  match height with
  | None => SvcBadRequest "invalid block height"
  | Some h =>
      match GetBlock (lg_chain (svc_ledger s)) h with
      | None => SvcNotFound "block not found"
      | Some b => SvcBlock b
      end
  end.

Definition handleGetLatestBlock s : svc_response :=
  let height := GetHeight (lg_chain (svc_ledger s)) in
  SvcLatest height (GetBlock (lg_chain (svc_ledger s)) height).

Definition handleHealth : svc_response := SvcOk.

Definition handleShards s : svc_response :=
  SvcShards (map (λ i, (i, shardURL i)) (seqZ 0 (svc_numShards s))).

(** Closing twice is closing once. *)
Definition Close s : option string * Service N D :=
  if svc_closed s then (None, s)
  else
    let m := Stop (svc_simulator s) in
    let '(err, f) := sf_Close (sim_fetcher m) in
    (err, mkService (svc_numShards s) (svc_ledger s)
            (mkSimulator f (sim_queue m) (sim_results m) (sim_closing m)) true).

(** ** Runs *)

Inductive svc_event : Type :=
| EvSubmit (body : result string CrossShardTx) (uuid : string)
| EvCall (body : result string CrossShardTx) (uuid : string) (now : Z)
| EvShardBlock (body : result string StateShardBlock)
| EvTick (now : Z)
| EvSimulate (now : Z)
| EvCleanup (now : Z)
| EvAddPending (tx : CrossShardTx)
| EvClose.

Definition svc_step s (ev : svc_event) : panics (Service N D) :=
  match ev with
  | EvSubmit body uuid => Some (handleSubmit s body uuid).2
  | EvCall body uuid now => snd <$> handleCall s body uuid now
  | EvShardBlock body => Some (handleStateShardBlock s body).2
  | EvTick now => snd <$> blockProducer s now
  | EvSimulate now => simulateNext s now
  | EvCleanup now => Some (with_simulator s (cleanupExpiredResults (svc_simulator s) now))
  | EvAddPending tx => Some (AddPendingTx s tx)
  | EvClose => Some (Close s).2
  end.

Fixpoint svc_run s (evs : list svc_event) : panics (Service N D) :=
  match evs with
  | [] => Some s
  | ev :: evs' => s' ← svc_step s ev; svc_run s' evs'
  end.
End service.

(** ** Broadcast *)

(** Durations are in nanoseconds. *)
Definition millisecond : Z := 1000000.
Definition BroadcastMaxRetries : Z := 3.
Definition BroadcastInitialBackoff : Z := 100 * millisecond.
Definition BroadcastMaxBackoff : Z := 2000 * millisecond.

(** One attempt: the request could not be made or sent, or a status came back. *)
Inductive attempt_result : Type :=
| NotSent (msg : string)
| Replied (status : Z).

Definition delivered (r : attempt_result) : bool :=
  match r with Replied status => status =? 200 | NotSent _ => false end.

(** The waits before the attempts, and the number of the successful one. *)
Fixpoint send_loop (fuel : nat) (send : Z → attempt_result) (attempt backoff : Z) : list Z * option Z :=
  match fuel with
  | O => ([], None)
  | S fuel' =>
      if attempt <=? BroadcastMaxRetries then
        let '(waits, backoff) :=
          if 0 <? attempt then
            let next := backoff * 2 in
            ([backoff], if BroadcastMaxBackoff <? next then BroadcastMaxBackoff else next)
          else ([], backoff) in
        if delivered (send attempt) then (waits, Some attempt)
        else
          let '(more, r) := send_loop fuel' send (attempt + 1) backoff in (waits ++ more, r)
      else ([], None)
  end.

(** One unit of fuel per attempt, and one for the test that ends the loop. *)
Definition sendBlockToShardWithRetry (send : Z → attempt_result) : list Z * option Z :=
  send_loop (Z.to_nat (BroadcastMaxRetries + 2)) send 0 BroadcastInitialBackoff.

(** Each shard on its own; [send i] is what happens to the attempts at shard [i]. *)
Definition broadcastBlock {N D} (s : Service N D) (send : Z → Z → attempt_result) :
    list (Z * (list Z * option Z)) :=
  map (λ i, (i, sendBlockToShardWithRetry (send i))) (seqZ 0 (svc_numShards s)).

(** More fuel changes nothing. *)
Lemma send_loop_fuel fuel send attempt backoff :
  (Z.to_nat (BroadcastMaxRetries + 2 - attempt) ≤ fuel)%nat → 0 ≤ attempt →
  send_loop fuel send attempt backoff
  = send_loop (Z.to_nat (BroadcastMaxRetries + 2 - attempt)) send attempt backoff.
Proof.
  unfold BroadcastMaxRetries. revert attempt backoff.
  induction fuel as [|fuel IH]; intros attempt backoff Hf Ha.
  { replace (Z.to_nat (3 + 2 - attempt)) with 0%nat by lia. done. }
  destruct (Z.to_nat (3 + 2 - attempt)) as [|n] eqn:Hn.
  { cbn [send_loop]. unfold BroadcastMaxRetries. by destruct (Z.leb_spec attempt 3); [lia|]. }
  assert (n = Z.to_nat (3 + 2 - (attempt + 1))) as -> by lia. cbn [send_loop].
  destruct (attempt <=? BroadcastMaxRetries); [|done].
  destruct (if 0 <? attempt then _ else _) as [waits backoff']. destruct (delivered _); [done|].
  rewrite IH; [done|lia..].
Qed.

(** C30. The retries of a broadcast are bounded: a shard gets at most four attempts;
    the waits between them start at 100 ms, double, and stay within 2 s (700 ms
    altogether); the block counts as delivered exactly when an attempt was answered
    with status 200, no attempt follows that one, and a shard is given up only after
    all four failed. The loop ends by itself: more fuel changes nothing. *)
Theorem broadcast_bounded (send : Z → attempt_result) (fuel : nat) :
  let '(waits, r) := sendBlockToShardWithRetry send in
  ((5 ≤ fuel)%nat → send_loop fuel send 0 BroadcastInitialBackoff = (waits, r)) ∧
  waits `prefix_of` [100 * millisecond; 200 * millisecond; 400 * millisecond] ∧
  Forall (λ w, BroadcastInitialBackoff ≤ w ≤ BroadcastMaxBackoff) waits ∧
  sumZ id waits ≤ 700 * millisecond ∧
  match r with
  | Some k => 0 ≤ k ≤ BroadcastMaxRetries ∧ Z.of_nat (length waits) = k ∧
      delivered (send k) = true ∧ ∀ j, 0 ≤ j < k → delivered (send j) = false
  | None => ∀ j, 0 ≤ j ≤ BroadcastMaxRetries → delivered (send j) = false
  end.
Proof.
  destruct (sendBlockToShardWithRetry send) as [waits r] eqn:Hs. split.
  { intros Hf. rewrite send_loop_fuel; [exact Hs|done|done]. }
  assert (Hall : ∀ (P : Z → Prop) k, k = 0 ∨ k = 1 ∨ k = 2 ∨ k = 3 ∨ k = 4 →
    (k ≤ 0 ∨ P 0) → (k ≤ 1 ∨ P 1) → (k ≤ 2 ∨ P 2) → (k ≤ 3 ∨ P 3) → ∀ j, 0 ≤ j < k → P j).
  { intros P k Hk H0 H1 H2 H3 j Hj.
    assert (j = 0 ∨ j = 1 ∨ j = 2 ∨ j = 3) as [->|[->|[->| ->]]] by lia;
      [destruct H0|destruct H1|destruct H2|destruct H3]; lia || done. }
  cbv -[delivered] in Hs. revert Hs.
  destruct (delivered (send 0)) eqn:E0; [|destruct (delivered (send 1)) eqn:E1;
    [|destruct (delivered (send 2)) eqn:E2; [|destruct (delivered (send 3)) eqn:E3]]];
    intros [= <- <-]; (split; [by eexists|]); (split; [repeat constructor; vm_compute; congruence|]);
    (split; [vm_compute; congruence|]).
  1-4: split; [vm_compute; split; congruence|]; split; [done|]; split; [done|];
    apply Hall; tauto || lia || (right; done) || (left; lia).
  intros j Hj. apply (Hall (λ j, delivered (send j) = false) 4); try tauto. unfold BroadcastMaxRetries in Hj. lia.
Qed.

(** ** What a client is told *)

(** The transactions the events ask for: submitted, or the outcome of a call. *)
Definition outcome_of (tx0 tx : CrossShardTx) : Prop :=
  (∃ msg, tx = failedTx tx0 msg) ∨ (∃ rwSet gasUsed, tx = simulatedTx tx0 rwSet gasUsed).

Definition called (evs : list svc_event) (job : CrossShardTx) : Prop :=
  ∃ body uuid now, EvCall (Ok body) uuid now ∈ evs ∧ job = admit_tx uuid body.

Definition requested (evs : list svc_event) (tx : CrossShardTx) : Prop :=
  (∃ body uuid, EvSubmit (Ok body) uuid ∈ evs ∧ tx = admit_tx uuid body) ∨
  (∃ tx0, EvAddPending tx0 ∈ evs ∧ tx = set_Status tx0 TxPending) ∨
  (∃ job, called evs job ∧ outcome_of job tx).

(** A block of a shard carried this vote. *)
Definition voted (evs : list svc_event) (id : string) (shard : Z) (v : bool) : Prop :=
  ∃ block, EvShardBlock (Ok block) ∈ evs ∧ sb_ShardID block = shard ∧ sb_TpcPrepare block !! id = Some v.

Definition ops_from (evs : list svc_event) (ops : list orch_op) : Prop :=
  ∀ op, op ∈ ops →
    match op with
    | OpAdd tx => requested evs tx
    | OpVote id i v => voted evs id i v
    | _ => True
    end.

Section told.
Context {N D : Type} `{Net N} `{EthDB D} `{Geth} `{GethHex} `{TrieCodec} `{EVM} `{Uint256} `{MapRange}.
(** The hash of an orchestrator block, and when the service was started. *)
Context (Hash : OrchestratorShardBlock → BlockHash) (t0 : Z).
Implicit Types (s : Service N D) (evs : list svc_event).

(** The chain is a run of what the events asked for, and a transaction shown as
    committed was voted for. *)
Definition ledger_ok evs (g : Ledger) : Prop :=
  ∃ ops, orch_run Hash (NewOrchestratorChain t0) ops = Some (lg_chain g) ∧ ops_from evs ops ∧
    ∀ id tx, lg_pending g !! id = Some tx → ct_Status tx = TxCommitted → commit_ok ops id.

Definition svc_ok evs s : Prop :=
  ledger_ok evs (svc_ledger s) ∧ ∀ job, job ∈ sim_queue (svc_simulator s) → called evs job.

Lemma called_mono evs ev job : called evs job → called (evs ++ [ev]) job.
Proof. intros (b&u&n&?&?). exists b, u, n. set_solver. Qed.

Lemma ops_from_mono evs ev ops : ops_from evs ops → ops_from (evs ++ [ev]) ops.
Proof.
  intros Ho op Hin. specialize (Ho op Hin). destruct op; [|destruct Ho as (b&?&?); exists b; set_solver|done..].
  destruct Ho as [(b&u&?&?)|[(t&?&?)|(j&?&?)]].
  - left. exists b, u. set_solver.
  - right; left. exists t. set_solver.
  - right; right. exists j. split; [by apply called_mono|done].
Qed.

Lemma svc_ok_mono evs ev s : svc_ok evs s → svc_ok (evs ++ [ev]) s.
Proof.
  intros [(ops&Hj&Ho&Hc) Hq]. split; [|intros; by apply called_mono, Hq].
  exists ops. split_and!; [done|by apply ops_from_mono|done].
Qed.

Lemma commit_ok_snoc ops ops' id : commit_ok ops id → commit_ok (ops ++ ops') id.
Proof. intros (tx&?&?&Hv). exists tx. split_and!; [set_solver|done|]. intros i Hi. specialize (Hv i Hi). set_solver. Qed.

(** One more operation of the chain. *)
Lemma ledger_step evs g op c :
  ledger_ok evs g → orch_step Hash (lg_chain g) op = Some c →
  match op with OpAdd tx => requested evs tx | OpVote id i v => voted evs id i v | _ => True end →
  ledger_ok evs (mkLedger (lg_pending g) c).
Proof.
  intros (ops&Hj&Ho&Hc) Hs Hop. exists (ops ++ [op]). split_and!.
  - rewrite orch_run_app, Hj. simpl. by rewrite Hs.
  - intros op' [Hin| ->%list_elem_of_singleton]%elem_of_app; [by apply Ho|done].
  - intros id tx Hp Hst. by eapply commit_ok_snoc, Hc.
Qed.

Lemma ledger_add_ok evs g tx : requested evs tx → ledger_ok evs g → ledger_ok evs (ledger_add g tx).
Proof. intros Hr Hg. by apply (ledger_step evs g (OpAdd tx)). Qed.

Lemma ledger_store_ok evs g tx : ct_Status tx ≠ TxCommitted → ledger_ok evs g → ledger_ok evs (ledger_store g tx).
Proof.
  intros Hst (ops&Hj&Ho&Hc). exists ops. split_and!; [done..|].
  intros id t. simpl. intros [[<- <-]|[_ Ht]]%lookup_insert_Some; [done|by apply Hc].
Qed.

Lemma ledger_updateStatus_ok evs g id st :
  (st = TxCommitted → ∃ b, b ∈ oc_blocks (lg_chain g) ∧ ob_TpcResult b !! id = Some true) →
  ledger_ok evs g → ledger_ok evs (ledger_updateStatus g id st).
Proof.
  intros Hst (ops&Hj&Ho&Hc). exists ops. split_and!; [done..|].
  intros id' t. simpl. rewrite lookup_alter_Some. intros [(->&t1&Ht&->)|[_ Ht]]; [|by apply Hc].
  simpl. intros (b&Hb&Hr)%Hst. eapply j_blocks; [|done..].
  by apply (justified_run Hash [] _ _ _ (justified_New t0)).
Qed.

Lemma record_vote_ok evs s i id v :
  voted evs id i v → svc_ok evs s → svc_ok evs (record_vote s i id v).
Proof.
  intros Hv [Hg Hq]. unfold record_vote.
  pose proof (ledger_step evs (svc_ledger s) (OpVote id i v) _ Hg eq_refl Hv) as Hg1.
  destruct (RecordVote _ _ _ _) as [[|] c]; split; try done. by apply ledger_updateStatus_ok.
Qed.

Lemma record_votes_ok evs s i votes :
  (∀ id v, (id, v) ∈ votes → voted evs id i v) → svc_ok evs s →
  svc_ok evs (foldl (λ s '(id, v), record_vote s i id v) s votes).
Proof.
  revert s. induction votes as [|[id v] votes IH]; intros s Hv Hs; [done|]. simpl. apply IH.
  - intros. apply Hv. by apply list_elem_of_further.
  - apply record_vote_ok; [|done]. apply Hv, list_elem_of_here.
Qed.

Lemma publish_results_ok evs s (results : list (string * bool)) :
  (∀ id, (id, true) ∈ results → ∃ b, b ∈ oc_blocks (lg_chain (svc_ledger s)) ∧ ob_TpcResult b !! id = Some true) →
  svc_ok evs s → svc_ok evs (foldl (λ s '(id, v), publish_result s id v) s results).
Proof.
  revert s. induction results as [|[id v] results IH]; intros s Hb [Hg Hq]; [done|]. simpl. apply IH.
  - intros id' Hin. by apply Hb, list_elem_of_further.
  - split; [|done]. apply ledger_updateStatus_ok; [|done]. destruct v; [intros _|done]. apply Hb, list_elem_of_here.
Qed.

(** The block just produced is on the chain. *)
Lemma ProduceBlock_last c now block c' : ProduceBlock Hash c now = Some (block, c') → block ∈ oc_blocks c'.
Proof.
  unfold ProduceBlock. intros (prev&_&[= <- <-])%bind_Some. apply elem_of_app. right. apply list_elem_of_here.
Qed.

Lemma blockProducer_ok evs s now block s' :
  svc_ok evs s → blockProducer Hash s now = Some (block, s') → svc_ok evs s'.
Proof.
  intros [Hg Hq]. unfold blockProducer. intros ([b c]&Hp&[= <- <-])%bind_Some. apply publish_results_ok.
  - intros id Hin%elem_of_map_range. exists b. split; [by eapply ProduceBlock_last|done].
  - split; [|done]. apply (ledger_step evs (svc_ledger s) (OpProduce now)); [done| |done]. simpl. by rewrite Hp.
Qed.

Lemma admit_tx_status uuid tx : ct_Status (admit_tx uuid tx) = TxPending.
Proof. done. Qed.

Lemma handleSubmit_ok evs s body uuid :
  svc_ok evs s → svc_ok (evs ++ [EvSubmit body uuid]) (handleSubmit s body uuid).2.
Proof.
  intros Hs%(svc_ok_mono _ (EvSubmit body uuid)). unfold handleSubmit.
  destruct body as [tx|msg]; [|done]. case_match; [done|]. case_match; [done|]. destruct Hs as [Hg Hq].
  destruct (ct_Value _); (split; [|done]); simpl.
  - apply ledger_add_ok; [|by apply ledger_store_ok]. left. exists tx, uuid. set_solver.
  - by apply ledger_store_ok.
Qed.

Lemma Submit_queue (m : Simulator N D) tx now err m' :
  Submit m tx now = Some (err, m') → ∀ job, job ∈ sim_queue m' → job ∈ sim_queue m ∨ job = tx.
Proof.
  unfold Submit, submitPending, submitSend. destruct (sim_closing m) eqn:Hc; [intros [= _ <-]; by left|].
  cbn [sim_closing set_results mbind option_bind]. rewrite Hc. destruct (_ <? _)%nat; cbn.
  - intros [= _ <-] job. simpl. set_solver.
  - unfold submitTimeout. cbn [sim_results set_results]. rewrite lookup_insert_eq. cbn. intros [= _ <-]. by left.
Qed.

Lemma handleCall_ok evs s body uuid now r s' :
  svc_ok evs s → handleCall s body uuid now = Some (r, s') → svc_ok (evs ++ [EvCall body uuid now]) s'.
Proof.
  intros Hs%(svc_ok_mono _ (EvCall body uuid now)). unfold handleCall.
  destruct body as [tx|msg]; [|by intros [= _ <-]]. case_match; [by intros [= _ <-]|].
  intros ([err m]&Hsub&[= _ <-])%bind_Some. destruct Hs as [Hg Hq]. split; [done|].
  intros job [Hin| ->]%(Submit_queue _ _ _ _ _ Hsub); [by apply Hq|]. exists tx, uuid, now.
  split; [|done]. apply elem_of_app. right. apply list_elem_of_here.
Qed.

Lemma simulateNext_ok evs s now s' :
  svc_ok evs s → simulateNext s now = Some s' → svc_ok evs s'.
Proof.
  intros Hs. pose proof Hs as [Hg Hq]. unfold simulateNext. destruct (sim_queue (svc_simulator s)) as [|job q] eqn:Hqueue; [by intros [= <-]|].
  intros ([m g]&Hrun&[= <-])%bind_Some. apply finishSimulation_spec in Hrun as (Hm&_&_&res&db&r&_&_&_&Hc).
  assert (called evs job) as Hjob by (apply Hq, list_elem_of_here).
  split; [|cbn [svc_simulator]; intros job'; rewrite Hm; intros Hin; by apply Hq, list_elem_of_further].
  cbn [svc_ledger]. destruct (execErr res db) as [msg|]; destruct Hc as (_&_&->); simpl.
  - apply ledger_add_ok; [|done]. right; right. exists job. split; [done|]. left. by eexists.
  - apply ledger_add_ok; [|apply ledger_store_ok; [|done]].
    + right; right. exists job. split; [done|]. right. by do 2 eexists.
    + simpl. destruct Hjob as (b&u&n&_&->). done.
Qed.

Lemma svc_step_ok evs s ev s' : svc_ok evs s → svc_step Hash s ev = Some s' → svc_ok (evs ++ [ev]) s'.
Proof.
  intros Hs. destruct ev as [body uuid|body uuid now|body|now|now|now|tx|]; simpl.
  - intros [= <-]. by apply handleSubmit_ok.
  - intros ([r s1]&Hc&->)%fmap_Some. by eapply handleCall_ok.
  - intros [= <-]. apply (svc_ok_mono _ (EvShardBlock body)) in Hs. destruct body as [block|msg]; [|done].
    simpl. apply record_votes_ok; [|done]. intros id v Hin%elem_of_map_range. exists block. set_solver.
  - intros ([b s1]&Hp&->)%fmap_Some. eapply svc_ok_mono, blockProducer_ok; done.
  - intros Hp. by eapply svc_ok_mono, simulateNext_ok.
  - intros [= <-]. by apply (svc_ok_mono _ (EvCleanup now)) in Hs.
  - intros [= <-]. apply (svc_ok_mono _ (EvAddPending tx)) in Hs as [Hg Hq]. split; [|done]. simpl.
    apply ledger_add_ok; [|by apply ledger_store_ok]. right; left. exists tx. set_solver.
  - intros [= <-]. apply (svc_ok_mono _ EvClose) in Hs as [Hg Hq]. unfold Close.
    destruct (svc_closed s); [done|]. by destruct (sf_Close _).
Qed.

Lemma svc_run_ok evs s evs' s' : svc_ok evs s → svc_run Hash s evs' = Some s' → svc_ok (evs ++ evs') s'.
Proof.
  revert evs s. induction evs' as [|ev evs' IH]; intros evs s Hs; simpl.
  { intros [= <-]. by rewrite app_nil_r. }
  intros (s1&Hs1&Hr)%bind_Some. rewrite cons_middle, app_assoc. eapply IH; [|done]. by eapply svc_step_ok.
Qed.

Lemma NewService_ok n net db : svc_ok [] (NewService n net db t0 : Service N D).
Proof.
  split; [|intros job Hin; by apply not_elem_of_nil in Hin]. exists []. split_and!.
  - done.
  - intros op Hin. by apply not_elem_of_nil in Hin.
  - intros id tx. simpl. by rewrite lookup_empty.
Qed.

(** C19. A client is told "committed" only after every involved shard agreed. Whatever
    requests, calls, simulations, shard blocks and block productions the service has
    handled, when it reports a transaction as committed, a transaction of that
    identifier was requested (submitted, or the outcome of a simulated call) and
    every shard it involves has sent a block with a YES vote for it. *)
Theorem committed_status_justified n net db evs s id id' :
  svc_run Hash (NewService n net db t0 : Service N D) evs = Some s →
  handleStatus s id = SvcStatus id' TxCommitted →
  ∃ tx, requested evs tx ∧ ct_ID tx = id ∧ ∀ i, i ∈ InvolvedShards tx → voted evs id i true.
Proof.
  intros Hr Hst. apply (svc_run_ok [] _ _ _ (NewService_ok n net db)) in Hr as [(ops&_&Ho&Hc) _].
  unfold handleStatus in Hst. destruct (lg_pending (svc_ledger s) !! id) as [tx|] eqn:Hp; [|done].
  injection Hst as _ Hst. destruct (Hc id tx Hp Hst) as (tx'&Hadd&Hid&Hv). exists tx'.
  split_and!; [by apply (Ho _ Hadd)|done|]. intros i Hi. by apply (Ho _ (Hv i Hi)).
Qed.
End told.

(** ** A failed simulation *)

Lemma CrossShardTx_DeepCopy_idemp tx :
  CrossShardTx_DeepCopy (CrossShardTx_DeepCopy tx) = CrossShardTx_DeepCopy tx.
Proof.
  unfold CrossShardTx_DeepCopy. simpl. rewrite !RwSet_DeepCopy_id. f_equal.
  by destruct (ct_Value tx) as [[z|]|].
Qed.

Section failed.
Context (Hash : OrchestratorShardBlock → BlockHash).

Lemma checkTimeouts_pendingResult c id b :
  oc_awaitingVotes c !! id = None → oc_pendingResult c !! id = Some b →
  oc_pendingResult (checkTimeouts c).2 !! id = Some b.
Proof.
  intros Ha Hp. destruct (checkTimeouts_lookup c id) as (_&->&_). rewrite decide_False; [done|].
  rewrite elem_of_timedOut, Ha. by intros [[? ?] _].
Qed.

(** The vote of the only involved shard decides. *)
Lemma RecordVote_single c id shard tx :
  oc_awaitingVotes c !! id = Some tx → oc_votes c !! id = None → oc_expectedVoters c !! id = Some [shard] →
  RecordVote c id shard true = (true, decide_tx c id true).
Proof.
  intros Ha Hv He. unfold RecordVote. rewrite Ha, (map_get_None _ _ _ Hv), lookup_empty. cbn [negb].
  cbv zeta. rewrite decide_tx_set_votes. cbn [set_votes oc_expectedVoters]. rewrite (map_get_Some _ _ _ _ He).
  cbn [length forallb]. rewrite insert_empty, map_size_singleton. cbn [Nat.leb].
  rewrite lookup_singleton_eq. by rewrite bool_decide_eq_true_2 by by eexists.
Qed.

(** The block that orders the last queued transaction opens the vote on it. *)
Lemma ProduceBlock_orders c l tx now blk c1 :
  oc_pendingTxs c = l ++ [tx] → oc_votes c !! ct_ID tx = None →
  OrchestratorChain.ProduceBlock Hash c now = Some (blk, c1) →
  CrossShardTx_DeepCopy tx ∈ ob_CtToOrder blk ∧
  oc_awaitingVotes c1 !! ct_ID tx = Some (CrossShardTx_DeepCopy tx) ∧ oc_votes c1 !! ct_ID tx = None ∧
  oc_expectedVoters c1 !! ct_ID tx = Some (InvolvedShards tx).
Proof.
  intros Hl Hv Hp.
  assert (ob_CtToOrder blk = map CrossShardTx_DeepCopy (oc_pendingTxs (checkTimeouts c).2)) as ->.
  { unfold OrchestratorChain.ProduceBlock in Hp. by apply bind_Some in Hp as (prev&_&[= <- <-]). }
  apply ProduceBlock_seal in Hp as (->&_). destruct (checkTimeouts_frame c) as (_&_&Hpend&_).
  destruct (checkTimeouts_lookup c (ct_ID tx)) as (_&_&Hv0&_). set (c0 := (checkTimeouts c).2) in *.
  pose proof (foldl_start_lookup (u64_add (oc_height c0) 1) (oc_pendingTxs c0) c0 (ct_ID tx)) as Hs.
  destruct (foldl_start_frame (u64_add (oc_height c0) 1) (oc_pendingTxs c0) c0) as (_&_&_&Hvf&_).
  unfold last_with_id in Hs. rewrite Hpend, Hl, filter_app, filter_cons_True, filter_nil, last_snoc in Hs by done.
  rewrite Hpend, Hl in Hvf |- *. unfold seal. cbn [oc_awaitingVotes oc_votes oc_expectedVoters].
  rewrite Hpend, Hl, map_app. destruct Hs as (Ha&He&_). split_and!; [|done| |done].
  - apply elem_of_app. right. apply list_elem_of_here.
  - rewrite Hvf, Hv0. by case_decide.
Qed.

(** C37. A call whose simulation failed is put to the vote all the same, and commits:
    recording the failure queues the transaction with its value and the read/write
    set of the request; the next block orders it, the source shard queues a Lock for
    it as for any transaction, and the YES vote of that shard alone decides and
    publishes a commit. *)
Theorem failed_call_committed {DB} `{GethStateDB DB} `{Geth} `{EVM} `{MapRange} (uuid : nat → string)
    (sv : Server DB) g tx msg now now' blk c1 blk' c2 :
  ct_RwSet tx = [] → oc_votes (lg_chain g) !! ct_ID tx = None → sv_shardID sv = ct_FromShard tx →
  let tx' := CrossShardTx_DeepCopy (failedTx tx msg) in
  OrchestratorChain.ProduceBlock Hash (lg_chain (onError (failedTx tx msg) g)) now = Some (blk, c1) →
  let '(recorded, cv) := RecordVote c1 (ct_ID tx) (ct_FromShard tx) true in
  OrchestratorChain.ProduceBlock Hash cv now' = Some (blk', c2) →
  tx' ∈ ob_CtToOrder blk ∧ ct_SimStatus tx' = SimFailed ∧
  order_tx uuid sv tx' = queue uuid (store_credit sv tx') TxTypeLock (ct_ID tx) (ct_From tx) (ct_To tx) (ct_Value tx') [] ∧
  recorded = true ∧ ob_TpcResult blk' !! ct_ID tx = Some true.
Proof.
  intros Hrw Hv Hsh tx' Hp.
  apply (ProduceBlock_orders _ (oc_pendingTxs (lg_chain g)) (CrossShardTx_DeepCopy (failedTx tx msg)))
    in Hp as (Hin&Ha&Hv1&He); [|done|done].
  erewrite RecordVote_single; [|exact Ha|exact Hv1|].
  2:{ change (ct_ID (CrossShardTx_DeepCopy (failedTx tx msg))) with (ct_ID tx) in He. rewrite He.
      unfold InvolvedShards, TargetShards. simpl. by rewrite Hrw. }
  intros Hp'. split_and!; [|done| |done|].
  - by rewrite CrossShardTx_DeepCopy_idemp in Hin.
  - unfold order_tx. simpl. rewrite Hrw, Hsh, Z.eqb_refl. done.
  - apply ProduceBlock_seal in Hp' as (_&_&->&_). apply checkTimeouts_pendingResult; simpl.
    + by rewrite lookup_delete_eq.
    + by rewrite lookup_insert_eq.
Qed.
End failed.

(** ** Witnesses *)

#[local] Existing Instance list_range.
#[local] Existing Instance toy_codec.
#[local] Existing Instance toy_tries.

(** A transfer submitted to a service of two shards, both shards' blocks, a block. *)
Definition sampleTransfer : CrossShardTx :=
  mkCrossShardTx "a" 0 0 8 9 (Some (Some 5)) 21000 [] [mkRwVariable 9 (mkReference 1 0 0) [] []]
    TxNoStatus SimNoStatus "".

Definition voteBlock (shard : Z) : StateShardBlock :=
  mkStateShardBlock shard 1 0 0 0 [] [] {[ "a"%string := true ]}.

Definition sampleEvents : list svc_event :=
  [EvSubmit (Ok sampleTransfer) "u"; EvTick 1; EvShardBlock (Ok (voteBlock 0)); EvShardBlock (Ok (voteBlock 1)); EvTick 2].

Definition sampleService : Service (ShardNet MemDB) (gmap (list byte) (list byte)) := NewService 2 twoShards ∅ 0.

Lemma committed_status_justified_witness :
  ∃ tx, requested sampleEvents tx ∧ ct_ID tx = "a"%string ∧ ∀ i, i ∈ InvolvedShards tx → voted sampleEvents "a" i true.
Proof.
  assert (bool_decide ((λ s, GetTxStatus s "a") <$> svc_run ob_Height sampleService sampleEvents = Some TxCommitted) = true)
    as Hrun by (vm_compute; reflexivity).
  apply bool_decide_eq_true, fmap_Some in Hrun as (s&Hr&Hs). symmetry in Hs.
  assert (∃ id', handleStatus s "a" = SvcStatus id' TxCommitted) as [id' Hst].
  { unfold GetTxStatus in Hs. unfold handleStatus. destruct (lg_pending (svc_ledger s) !! "a"%string) as [tx|]; [|done].
    exists (ct_ID tx). by rewrite Hs. }
  exact (committed_status_justified ob_Height 0 2 twoShards ∅ sampleEvents s "a" id' Hr Hst).
Defined.

(** A call that the simulation found to revert. *)
Definition failedCall : CrossShardTx :=
  mkCrossShardTx "a" 0 0 8 9 (Some (Some 5)) 21000 [Byte.x01] [] TxPending SimNoStatus "".

Definition emptyLedger : Ledger := mkLedger ∅ (NewOrchestratorChain 0).

Lemma failed_call_committed_witness :
  ∃ blk c1 blk' c2,
    OrchestratorChain.ProduceBlock ob_Height (lg_chain (onError (failedTx failedCall "execution reverted") emptyLedger)) 1
      = Some (blk, c1) ∧
    OrchestratorChain.ProduceBlock ob_Height (RecordVote c1 "a" 0 true).2 2 = Some (blk', c2) ∧
    ob_TpcResult blk' !! "a"%string = Some true.
Proof.
  pose (g := lg_chain (onError (failedTx failedCall "execution reverted") emptyLedger)).
  assert (is_Some (OrchestratorChain.ProduceBlock ob_Height g 1)) as [[blk c1] Hp] by (eexists; vm_compute; reflexivity).
  assert (is_Some ('(_, c1) ← OrchestratorChain.ProduceBlock ob_Height g 1;
                   OrchestratorChain.ProduceBlock ob_Height (RecordVote c1 "a" 0 true).2 2)) as [[blk' c2] Hp']
    by (eexists; vm_compute; reflexivity).
  rewrite Hp in Hp'. cbn [mbind option_bind] in Hp'.
  pose proof (failed_call_committed ob_Height (λ _, "u"%string) (fresh_server 0 emptyMem 0) emptyLedger failedCall
    "execution reverted" 1 2 blk c1 blk' c2 eq_refl eq_refl eq_refl Hp) as Hf.
  change (ct_ID failedCall) with "a"%string in Hf. change (ct_FromShard failedCall) with 0 in Hf.
  destruct (RecordVote c1 "a" 0 true) as [recorded cv] eqn:Hv. destruct (Hf Hp') as (_&_&_&_&Hr).
  exists blk, c1, blk', c2. split; [exact Hp|]. split; [by rewrite Hv|exact Hr].
Defined.
