(* ===== verification/Network.v ===== *)
(** * Network: config/config.go and internal/network

    The configuration file and the HTTP client of both kinds of nodes, which can
    delay every request to simulate a network. Durations are nanoseconds in an
    int64, products and differences wrapping around as in Go. *)

From S2P Require Import Prelude Codec.

Open Scope Z_scope.

(** ** Configuration *)

Record NetworkConfig := mkNetworkConfig { nc_DelayEnabled : bool; nc_MinDelayMs : Z; nc_MaxDelayMs : Z }.

Record Config := mkConfig {
  cfg_ShardNum : Z;
  cfg_StorageDir : string;
  cfg_TestAccountNum : Z;
  cfg_Network : NetworkConfig
}.

Section load.
(** The files of the host, and [json.Unmarshal] into [Config]. *)
Context (ReadFile : string → result string (list byte)) (Unmarshal : list byte → result string Config).

Definition Load (configPath : string) : result string Config :=
  match ReadFile configPath with
  | Err err => Err (String.append "failed to read config file: " err)
  | Ok data =>
      match Unmarshal data with
      | Err err => Err (String.append "failed to parse config file: " err)
      | Ok cfg => Ok cfg
      end
  end.

(** The first of the places that holds a configuration. *)
Fixpoint load_first (paths : list string) : result string Config :=
  match paths with
  | [] => Err "config.json not found in any expected location"%string
  | path :: paths' => match Load path with Ok cfg => Ok cfg | Err _ => load_first paths' end
  end.

Definition LoadDefault : result string Config :=
  load_first ["/config/config.json"; "config/config.json"; "../config/config.json"]%string.
End load.

(** ** Delays *)

Definition int64 (z : Z) : Z := (z + 2 ^ 63) mod 2 ^ 64 - 2 ^ 63.

(** [time.Millisecond] *)
Definition Millisecond : Z := 1000000.

Record DelayConfig := mkDelayConfig { dc_Enabled : bool; dc_MinDelay : Z; dc_MaxDelay : Z }.

(** [rand.Rand]: [Int63n] draws a number below a positive bound and panics on any
    other. *)
Class Rand (G : Type) := { rng_below : G → Z → Z * G }.

Class RandLaws (G : Type) `{Rand G} := {
  rng_below_range (g : G) n : 0 < n → 0 ≤ (rng_below g n).1 < n
}.

Definition Int63n {G} `{Rand G} (g : G) (n : Z) : panics (Z * G) :=
  if n <=? 0 then None else Some (rng_below g n).

(** The transport of a client: the default one, or the default one delayed. *)
Inductive Transport (G : Type) : Type :=
| DefaultTransport
| DelayedRoundTripper (config : DelayConfig) (rng : G).
Arguments DefaultTransport {G}.
Arguments DelayedRoundTripper {G} config rng.

Record Client (G : Type) := mkClient { cl_Transport : Transport G; cl_Timeout : Z }.
Arguments mkClient {G} _ _.
Arguments cl_Transport {G} _.
Arguments cl_Timeout {G} _.

Section delays.
Context {G : Type} `{Rand G}.
Implicit Types (g : G) (t : Transport G).

Definition calculateDelay (config : DelayConfig) g : panics (Z * G) :=
  let min := dc_MinDelay config in
  let max := dc_MaxDelay config in
  if min <? max then
    let delta := int64 (max - min) in
    '(randVal, g') ← Int63n g delta;
    Some (int64 (min + randVal), g')
  else Some (min, g).

(** The time slept before the request is passed on. *)
Definition RoundTrip t : panics (Z * Transport G) :=
  match t with
  | DefaultTransport => Some (0, t)
  | DelayedRoundTripper config g =>
      if dc_Enabled config then
        '(delay, g') ← calculateDelay config g;
        Some (delay, DelayedRoundTripper config g')
      else Some (0, t)
  end.

(** [g]: the source of random numbers, freshly seeded. *)
Definition NewHTTPClient (cfg : NetworkConfig) (timeout : Z) g : Client G :=
  let transport :=
    if nc_DelayEnabled cfg then
      let cfg :=
        if (nc_MinDelayMs cfg <? 0) || (nc_MaxDelayMs cfg <? 0) then
          mkNetworkConfig false (nc_MinDelayMs cfg) (nc_MaxDelayMs cfg)
        else if nc_MaxDelayMs cfg <? nc_MinDelayMs cfg then
          mkNetworkConfig true (nc_MaxDelayMs cfg) (nc_MinDelayMs cfg)
        else cfg in
      if nc_DelayEnabled cfg then
        DelayedRoundTripper
          (mkDelayConfig true (int64 (nc_MinDelayMs cfg * Millisecond)) (int64 (nc_MaxDelayMs cfg * Millisecond))) g
      else DefaultTransport
    else DefaultTransport in
  mkClient transport timeout.

(** The delays of a number of requests. *)
Fixpoint requests (n : nat) t : panics (list Z) :=
  match n with
  | O => Some []
  | S n' => '(d, t') ← RoundTrip t; ds ← requests n' t'; Some (d :: ds)
  end.
End delays.

(** ** Bounds *)

Section bounds.
Context {G : Type} `{RandLaws G}.
Implicit Types (g : G).

Lemma int64_id z : - 2 ^ 63 ≤ z < 2 ^ 63 → int64 z = z.
Proof. intros. unfold int64. rewrite Z.mod_small; lia. Qed.

(** Delays of a range that is not empty or a single value. *)
Lemma calculateDelay_range lo hi g :
  0 ≤ lo ≤ hi → hi < 2 ^ 63 →
  ∃ d g', calculateDelay (mkDelayConfig true lo hi) g = Some (d, g') ∧ lo ≤ d ≤ hi ∧ (lo < hi → d < hi).
Proof.
  intros Hlo Hhi. unfold calculateDelay, Int63n. cbn [dc_MinDelay dc_MaxDelay].
  destruct (Z.ltb_spec lo hi) as [Hlt|]; [|by exists lo, g; split_and!; [done|lia..]].
  rewrite int64_id by lia. destruct (Z.leb_spec (hi - lo) 0); [lia|].
  pose proof (rng_below_range g (hi - lo) ltac:(lia)) as Hr. destruct (rng_below g (hi - lo)) as [v g'].
  simpl in *. exists (lo + v), g'. rewrite int64_id by lia. split_and!; [done|lia..].
Qed.

Lemma requests_range lo hi n g :
  0 ≤ lo ≤ hi → hi < 2 ^ 63 →
  ∃ ds, requests n (DelayedRoundTripper (mkDelayConfig true lo hi) g) = Some ds ∧ length ds = n ∧
    Forall (λ d, lo ≤ d ≤ hi ∧ (lo < hi → d < hi)) ds.
Proof.
  intros Hlo Hhi. revert g. induction n as [|n IH]; intros g; [by exists []|].
  destruct (calculateDelay_range lo hi g Hlo Hhi) as (d&g'&Hd&Hr). destruct (IH g') as (ds&Hds&Hlen&Hall).
  exists (d :: ds). cbn [requests RoundTrip dc_Enabled]. rewrite Hd. cbn [mbind option_bind]. rewrite Hds.
  split_and!; [done|by simpl; rewrite Hlen|by constructor].
Qed.

(** Simulated delays stay within the configured bounds. With delays on and both
    bounds non-negative and below 2^63 nanoseconds, in either order, each of any
    number of requests is delayed by at least the smaller and at most the larger
    bound, and by less than the larger unless they are equal; with delays off or a
    negative bound no request is delayed. The client never panics. *)
Theorem delay_within_bounds (cfg : NetworkConfig) timeout g n :
  Z.max (nc_MinDelayMs cfg) (nc_MaxDelayMs cfg) * Millisecond < 2 ^ 63 →
  let lo := Z.min (nc_MinDelayMs cfg) (nc_MaxDelayMs cfg) * Millisecond in
  let hi := Z.max (nc_MinDelayMs cfg) (nc_MaxDelayMs cfg) * Millisecond in
  ∃ ds, requests n (cl_Transport (NewHTTPClient cfg timeout g)) = Some ds ∧ length ds = n ∧
    if nc_DelayEnabled cfg && (0 <=? lo)
    then Forall (λ d, lo ≤ d ≤ hi ∧ (lo < hi → d < hi)) ds
    else Forall (λ d, d = 0) ds.
Proof.
  destruct cfg as [en a b]. intros Hmax lo hi. unfold Millisecond in *.
  cbn [nc_DelayEnabled nc_MinDelayMs nc_MaxDelayMs] in *.
  assert (Hnone : ∃ ds, requests n (@DefaultTransport G) = Some ds ∧ length ds = n ∧ Forall (λ d, d = 0) ds).
  { clear. induction n as [|n (ds&Hds&<-&Hall)]; [by exists []|]. exists (0 :: ds). simpl. rewrite Hds. split_and!; [done..|by constructor]. }
  unfold NewHTTPClient. cbn [nc_DelayEnabled nc_MinDelayMs nc_MaxDelayMs cl_Transport].
  destruct en; [|by destruct Hnone as (ds&?&?&?); exists ds]. cbn [andb].
  destruct (Z.ltb_spec a 0), (Z.ltb_spec b 0); cbn [orb nc_DelayEnabled];
    try (replace (0 <=? lo) with false by lia; by destruct Hnone as (ds&?&?&?); exists ds).
  replace (0 <=? lo) with true by lia.
  destruct (Z.ltb_spec b a); cbn [nc_DelayEnabled nc_MinDelayMs nc_MaxDelayMs]; unfold Millisecond;
    rewrite !int64_id by lia.
  - replace (b * 1000000) with lo by lia. replace (a * 1000000) with hi by lia. apply requests_range; lia.
  - replace (a * 1000000) with lo by lia. replace (b * 1000000) with hi by lia. apply requests_range; lia.
Qed.
End bounds.

(** ** Witness *)

(** Draws count upwards. *)
#[local] Instance counting_rand : Rand Z := { rng_below g n := (g mod n, g + 1) }.

#[local] Instance counting_rand_laws : RandLaws Z.
Proof. split. intros g n Hn. by apply Z.mod_pos_bound. Qed.

(** Bounds in the wrong order. *)
Lemma delay_within_bounds_witness :
  ∃ ds, requests 3 (cl_Transport (NewHTTPClient (mkNetworkConfig true 60 30) 0 29999999)) = Some ds ∧
    length ds = 3%nat ∧ Forall (λ d, 30000000 ≤ d ≤ 60000000 ∧ (30000000 < 60000000 → d < 60000000)) ds.
Proof. apply (delay_within_bounds (mkNetworkConfig true 60 30) 0 29999999 3). reflexivity. Defined.

(** Beyond 2^63 nanoseconds the products wrap around, and a request can panic. *)
Example delay_overflow_panics :
  requests 1 (cl_Transport (NewHTTPClient (mkNetworkConfig true 9223372036855 18446744073710) 0 0)) = None.
Proof. vm_compute. reflexivity. Qed.
