(* ===== verification/Genesis.v ===== *)
(** * Genesis: storage/create_storage.go

    The tool that prepares the state databases of the shards: it writes lists of
    addresses derived from fixed seeds, reads them back, gives the test accounts of a
    shard their balance, and installs the contracts of a travel application (train,
    hotel, and agencies that book both) on the shards that own their addresses.
    Files are a map from paths to contents; file operations are taken to succeed,
    except reading a file that is not there. *)

From stdpp Require Import pretty.
From S2P Require Import Prelude Codec Protocol VmState MemDB EvmState Network.

Open Scope Z_scope.

(** ** What the tool uses of Go and go-ethereum *)

(** [sha256.Sum256] of the bytes of a string, [common.BytesToAddress],
    [hexutil.MustDecode]. *)
Class GenesisLib := {
  Sum256 : string → list byte;
  BytesToAddress : list byte → Address;
  MustDecode : string → panics (list byte)
}.

(** [state.StateDB.SetBalance] *)
Class GenesisDB (DB : Type) := { sdb_SetBalance : DB → Address → Z → DB }.

Definition newline : Ascii.ascii := Ascii.ascii_of_nat 10.

(** [strings.Split(s, "\n")] *)
Fixpoint split_lines (s : string) : list string :=
  match s with
  | String.EmptyString => [""%string]
  | String.String c s' =>
      match split_lines s' with
      | [] => []
      | l :: ls => if Ascii.eqb c newline then ""%string :: l :: ls else String.String c l :: ls
      end
  end.

(** The white space of ASCII: tab to carriage return, and blank. *)
Definition is_space (c : Ascii.ascii) : bool :=
  let n := Ascii.nat_of_ascii c in ((9 <=? n) && (n <=? 13))%nat || (n =? 32)%nat.

Fixpoint trim_left (s : string) : string :=
  match s with
  | String.String c s' => if is_space c then trim_left s' else s
  | String.EmptyString => s
  end.

Fixpoint trim_right (s : string) : string :=
  match s with
  | String.String c s' =>
      match trim_right s' with
      | String.EmptyString => if is_space c then String.EmptyString else String.String c String.EmptyString
      | r => String.String c r
      end
  | String.EmptyString => s
  end.

(** [strings.TrimSpace], on ASCII. *)
Definition TrimSpace (s : string) : string := trim_right (trim_left s).

(** [s[2:]] *)
Definition from_2 (s : string) : panics string :=
  match s with String.String _ (String.String _ r) => Some r | _ => None end.

(** ** Constants *)

Definition numContracts : Z := 10.

Definition trainBookingBytecode : string := "0x6080604052348015600e575f5ffd5b506104638061001c5f395ff3fe608060405234801561000f575f5ffd5b5060043610610055575f3560e01c8063485cc439146100595780634a6e480e1461007757806350b447121461008157806387a362a4146100b157806394c2c24f146100cd575b5f5ffd5b6100616100eb565b60405161006e91906101f5565b60405180910390f35b61007f6100f0565b005b61009b6004803603810190610096919061023c565b610137565b6040516100a891906102a6565b60405180910390f35b6100cb60048036038101906100c691906102e9565b61016c565b005b6100d56101d7565b6040516100e291906101f5565b60405180910390f35b5f5481565b61012c5f5410610135576040517f08c379a000000000000000000000000000000000000000000000000000000000815260040161012c9061036e565b60405180910390fd5b565b60018161012c8110610147575f80fd5b015f915054906101000a900473ffffffffffffffffffffffffffffffffffffffff1681565b8060015f5f815480929190610180906103b9565b9190505561012c811061019657610195610400565b5b015f6101000a81548173ffffffffffffffffffffffffffffffffffffffff021916908373ffffffffffffffffffffffffffffffffffffffff16021790555050565b61012c81565b5f819050919050565b6101ef816101dd565b82525050565b5f6020820190506102085f8301846101e6565b92915050565b5f5ffd5b61021b816101dd565b8114610225575f5ffd5b50565b5f8135905061023681610212565b92915050565b5f602082840312156102515761025061020e565b5b5f61025e84828501610228565b91505092915050565b5f73ffffffffffffffffffffffffffffffffffffffff82169050919050565b5f61029082610267565b9050919050565b6102a081610286565b82525050565b5f6020820190506102b95f830184610297565b92915050565b6102c881610286565b81146102d2575f5ffd5b50565b5f813590506102e3816102bf565b92915050565b5f602082840312156102fe576102fd61020e565b5b5f61030b848285016102d5565b91505092915050565b5f82825260208201905092915050565b7f4e6f206d6f7265207469636b657420617661696c61626c6500000000000000005f82015250565b5f610358601883610314565b915061036382610324565b602082019050919050565b5f6020820190508181035f8301526103858161034c565b9050919050565b7f4e487b71000000000000000000000000000000000000000000000000000000005f52601160045260245ffd5b5f6103c3826101dd565b91507fffffffffffffffffffffffffffffffffffffffffffffffffffffffffffffffff82036103f5576103f461038c565b5b600182019050919050565b7f4e487b71000000000000000000000000000000000000000000000000000000005f52603260045260245ffdfea26469706673582212203661167993d0c5918daee56e2dde779a7a72f4ee74ebbd82e97303025c1d54dc64736f6c634300081e0033".

Definition hotelBookingBytecode : string := "0x6080604052348015600e575f5ffd5b506104638061001c5f395ff3fe608060405234801561000f575f5ffd5b5060043610610055575f3560e01c80630e424b2b14610059578063165fcb2d146100635780631bae0ac81461007f578063427eaabb146100af578063463f5ce2146100cd575b5f5ffd5b6100616100eb565b005b61007d6004803603810190610078919061023b565b610132565b005b61009960048036038101906100949190610299565b61019d565b6040516100a691906102d3565b60405180910390f35b6100b76101d2565b6040516100c491906102fb565b60405180910390f35b6100d56101d8565b6040516100e291906102fb565b60405180910390f35b61012c5f5410610130576040517f08c379a00000000000000000000000000000000000000000000000000000000081526004016101279061036e565b60405180910390fd5b565b8060015f5f815480929190610146906103b9565b9190505561012c811061015c5761015b610400565b5b015f6101000a81548173ffffffffffffffffffffffffffffffffffffffff021916908373ffffffffffffffffffffffffffffffffffffffff16021790555050565b60018161012c81106101ad575f80fd5b015f915054906101000a900473ffffffffffffffffffffffffffffffffffffffff1681565b61012c81565b5f5481565b5f5ffd5b5f73ffffffffffffffffffffffffffffffffffffffff82169050919050565b5f61020a826101e1565b9050919050565b61021a81610200565b8114610224575f5ffd5b50565b5f8135905061023581610211565b92915050565b5f602082840312156102505761024f6101dd565b5b5f61025d84828501610227565b91505092915050565b5f819050919050565b61027881610266565b8114610282575f5ffd5b50565b5f813590506102938161026f565b92915050565b5f602082840312156102ae576102ad6101dd565b5b5f6102bb84828501610285565b91505092915050565b6102cd81610200565b82525050565b5f6020820190506102e65f8301846102c4565b92915050565b6102f581610266565b82525050565b5f60208201905061030e5f8301846102ec565b92915050565b5f82825260208201905092915050565b7f4e6f206d6f726520726f6f6d20617661696c61626c65000000000000000000005f82015250565b5f610358601683610314565b915061036382610324565b602082019050919050565b5f6020820190508181035f8301526103858161034c565b9050919050565b7f4e487b71000000000000000000000000000000000000000000000000000000005f52601160045260245ffd5b5f6103c382610266565b91507fffffffffffffffffffffffffffffffffffffffffffffffffffffffffffffffff82036103f5576103f461038c565b5b600182019050919050565b7f4e487b71000000000000000000000000000000000000000000000000000000005f52603260045260245ffdfea26469706673582212203cf6fa93e2e40237c83ef8408ac14c8423d616929843be14e1dcd43083bd5ca964736f6c634300081e0033".

Definition travelAgencyBytecode : string := "0x60c060405234801561000f575f5ffd5b50604051610a8b380380610a8b833981810160405281019061003191906100fe565b8173ffffffffffffffffffffffffffffffffffffffff1660808173ffffffffffffffffffffffffffffffffffffffff16815250508073ffffffffffffffffffffffffffffffffffffffff1660a08173ffffffffffffffffffffffffffffffffffffffff1681525050505061013c565b5f5ffd5b5f73ffffffffffffffffffffffffffffffffffffffff82169050919050565b5f6100cd826100a4565b9050919050565b6100dd816100c3565b81146100e7575f5ffd5b50565b5f815190506100f8816100d4565b92915050565b5f5f60408385031215610114576101136100a0565b5b5f610121858286016100ea565b9250506020610132858286016100ea565b9150509250929050565b60805160a0516109136101785f395f81816101d801528181610478015261064b01525f8181608e01528181610322015261062701526109135ff3fe608060405234801561000f575f5ffd5b506004361061003f575f3560e01c80635710ddcd1461004357806384e786791461004d5780639af6c63a1461006b575b5f5ffd5b61004b610089565b005b610055610625565b60405161006291906106ac565b60405180910390f35b610073610649565b60405161008091906106ac565b60405180910390f35b5f5f5f7f000000000000000000000000000000000000000000000000000000000000000073ffffffffffffffffffffffffffffffffffffffff166040516024016040516020818303038152906040527f4a6e480e000000000000000000000000000000000000000000000000000000007bffffffffffffffffffffffffffffffffffffffffffffffffffffffff19166020820180517bffffffffffffffffffffffffffffffffffffffffffffffffffffffff83818316178352505050506040516101539190610717565b5f60405180830381855afa9150503d805f811461018b576040519150601f19603f3d011682016040523d82523d5f602084013e610190565b606091505b505080935050826101d6576040517f08c379a00000000000000000000000000000000000000000000000000000000081526004016101cd90610787565b60405180910390fd5b7f000000000000000000000000000000000000000000000000000000000000000073ffffffffffffffffffffffffffffffffffffffff166040516024016040516020818303038152906040527f0e424b2b000000000000000000000000000000000000000000000000000000007bffffffffffffffffffffffffffffffffffffffffffffffffffffffff19166020820180517bffffffffffffffffffffffffffffffffffffffffffffffffffffffff838183161783525050505060405161029d9190610717565b5f60405180830381855afa9150503d805f81146102d5576040519150601f19603f3d011682016040523d82523d5f602084013e6102da565b606091505b50508092505081610320576040517f08c379a0000000000000000000000000000000000000000000000000000000008152600401610317906107ef565b60405180910390fd5b7f000000000000000000000000000000000000000000000000000000000000000073ffffffffffffffffffffffffffffffffffffffff163360405160240161036891906106ac565b6040516020818303038152906040527f87a362a4000000000000000000000000000000000000000000000000000000007bffffffffffffffffffffffffffffffffffffffffffffffffffffffff19166020820180517bffffffffffffffffffffffffffffffffffffffffffffffffffffffff83818316178352505050506040516103f29190610717565b5f604051808303815f865af19150503d805f811461042b576040519150601f19603f3d011682016040523d82523d5f602084013e610430565b606091505b50508091505080610476576040517f08c379a000000000000000000000000000000000000000000000000000000000815260040161046d90610857565b60405180910390fd5b7f000000000000000000000000000000000000000000000000000000000000000073ffffffffffffffffffffffffffffffffffffffff16336040516024016104be91906106ac565b6040516020818303038152906040527f165fcb2d000000000000000000000000000000000000000000000000000000007bffffffffffffffffffffffffffffffffffffffffffffffffffffffff19166020820180517bffffffffffffffffffffffffffffffffffffffffffffffffffffffff83818316178352505050506040516105489190610717565b5f604051808303815f865af19150503d805f8114610581576040519150601f19603f3d011682016040523d82523d5f602084013e610586565b606091505b505080915050806105cc576040517f08c379a00000000000000000000000000000000000000000000000000000000081526004016105c3906108bf565b60405180910390fd5b60015f5f3373ffffffffffffffffffffffffffffffffffffffff1673ffffffffffffffffffffffffffffffffffffffff1681526020019081526020015f205f6101000a81548160ff021916908315150217905550505050565b7f000000000000000000000000000000000000000000000000000000000000000081565b7f000000000000000000000000000000000000000000000000000000000000000081565b5f73ffffffffffffffffffffffffffffffffffffffff82169050919050565b5f6106968261066d565b9050919050565b6106a68161068c565b82525050565b5f6020820190506106bf5f83018461069d565b92915050565b5f81519050919050565b5f81905092915050565b8281835e5f83830152505050565b5f6106f1826106c5565b6106fb81856106cf565b935061070b8185602086016106d9565b80840191505092915050565b5f61072282846106e7565b915081905092915050565b5f82825260208201905092915050565b7f547261696e2073656174206973206e6f7420617661696c61626c652e000000005f82015250565b5f610771601c8361072d565b915061077c8261073d565b602082019050919050565b5f6020820190508181035f83015261079e81610765565b9050919050565b7f486f74656c20726f6f6d206973206e6f7420617661696c61626c652e000000005f82015250565b5f6107d9601c8361072d565b91506107e4826107a5565b602082019050919050565b5f6020820190508181035f830152610806816107cd565b9050919050565b7f547261696e20626f6f6b696e67206661696c65642e00000000000000000000005f82015250565b5f61084160158361072d565b915061084c8261080d565b602082019050919050565b5f6020820190508181035f83015261086e81610835565b9050919050565b7f486f74656c20626f6f6b696e67206661696c65642e00000000000000000000005f82015250565b5f6108a960158361072d565b91506108b482610875565b602082019050919050565b5f6020820190508181035f8301526108d68161089d565b905091905056fea264697066735822122056af691efd63de244933240be323e45ac1d4eaac399a3ae95d3cb91420f79c7564736f6c634300081e0033".

Definition deployer : Address := 0x9999999999999999999999999999999999999999.

(** [1e18+200000] *)
Definition accountBalance : Z := 10 ^ 18 + 200000.

Abbreviation Files := (gmap string string) (only parsing).

Definition accountFile : string := "./storage/address.txt".
Definition hotelFile : string := "./storage/hotelAddress.txt".
Definition trainFile : string := "./storage/trainAddress.txt".
Definition travelFile : string := "./storage/travelAddress.txt".

(** ** The lists of addresses *)

Section files.
Context `{GethHex} `{GenesisLib}.
Implicit Types (fs : Files).

Definition account_address (i : Z) : Address :=
  BytesToAddress (Sum256 (String.append "shard-test-account-" (pretty i))).

Definition contract_address (contractType : string) (i : Z) : Address :=
  BytesToAddress (Sum256 (String.append contractType (String.append "-contract-" (pretty i)))).

(** [fmt.Fprintln] of each address in turn. *)
Definition print_addresses (addrs : list Address) : string :=
  foldr (λ a s, String.append (Address_Hex a) (String.String newline s)) ""%string addrs.

Definition getAddressesFromFile fs (filename : string) : panics (list Address) :=
  addresses ← fs !! filename;
  Some (map HexToAddress (filter (λ addrStr, addrStr ≠ ""%string) (map TrimSpace (split_lines addresses)))).

Definition GetAddresses fs := getAddressesFromFile fs accountFile.
Definition GetHotelAddresses fs := getAddressesFromFile fs hotelFile.
Definition GetTrainAddresses fs := getAddressesFromFile fs trainFile.
Definition GetTravelAddresses fs := getAddressesFromFile fs travelFile.

(** [cfg]: what [config.LoadDefault] gives. *)
Definition GenerateAddresses (cfg : result string Config) fs : option string * Files :=
  match cfg with
  | Err err => (Some err, <[accountFile := ""%string]> fs)
  | Ok cfg => (None, <[accountFile := print_addresses (map account_address (seqZ 0 (cfg_TestAccountNum cfg)))]> fs)
  end.

Definition generateContractAddresses fs (filename contractType : string) : Files :=
  <[filename := print_addresses (map (contract_address contractType) (seqZ 0 numContracts))]> fs.

Definition GenerateHotelAddresses fs := generateContractAddresses fs hotelFile "hotel".
Definition GenerateTrainAddresses fs := generateContractAddresses fs trainFile "train".
Definition GenerateTravelAddresses fs := generateContractAddresses fs travelFile "travel".

(** The generating part of [main]; a configuration that does not load panics. *)
Definition generate (cfg : result string Config) fs : panics Files :=
  match GenerateAddresses cfg fs with
  | (Some _, _) => None
  | (None, fs1) => Some (GenerateTravelAddresses (GenerateTrainAddresses (GenerateHotelAddresses fs1)))
  end.
End files.

(** ** The state of a shard *)

Definition genesisBlockCtx : BlockContext :=
  mkBlockContext canTransfer transfer (λ _, 0) 0 100000000 0 0 0 0 (Some 0).

Definition genesisTxCtx : TxContext := mkTxContext 0 0.

Section storage.
Context {DB : Type} `{GethStateDB DB} `{!GenesisDB DB} `{EVM} `{GethHex} `{GenesisLib}.
Implicit Types (fs : Files) (db : DB).

(** The balance and nonce of one account of the list. *)
Definition fund (numShards shardID : Z) db (address : Address) : DB :=
  if shard_of address numShards =? shardID then
    (do_op (SetNonce address 0) (sdb_SetBalance db address accountBalance)).2
  else db.

Definition creation_code (contractType : string) : list byte :=
  if decide (contractType = "train"%string) then FromHex trainBookingBytecode
  else if decide (contractType = "hotel"%string) then FromHex hotelBookingBytecode
  else if decide (contractType = "travel"%string) then FromHex travelAgencyBytecode
  else [].

Definition zeros24 : string := "000000000000000000000000".

Definition GetDeployCode (contractName code arg1 arg2 : string) : panics (list byte) :=
  if decide (contractName = "train"%string) then MustDecode (String.append "0x" code)
  else if decide (contractName = "hotel"%string) then MustDecode (String.append "0x" code)
  else if decide (contractName = "travel"%string) then
    MustDecode (String.append "0x" (String.append code
      (String.append zeros24 (String.append arg1 (String.append zeros24 arg2)))))
  else Some [].

(** The position of an address in a list, by its printed form. *)
Fixpoint find_hex (addrs : list Address) (hex : string) : option nat :=
  match addrs with
  | [] => None
  | a :: addrs' => if decide (Address_Hex a = hex) then Some O else S <$> find_hex addrs' hex
  end.

(** The code to deploy: an agency is given the train and the hotel of its index. *)
Definition deploy_code (contractType : string) (allTrainAddrs allHotelAddrs allTravelAddrs : list Address)
    (address : Address) : panics (list byte) :=
  let code := Bytes2Hex (creation_code contractType) in
  if decide (contractType = "travel"%string) then
    index ← find_hex allTravelAddrs (Address_Hex address);
    train ← allTrainAddrs !! index;
    hotel ← allHotelAddrs !! index;
    trainAddrHex ← from_2 (Address_Hex train);
    hotelAddrHex ← from_2 (Address_Hex hotel);
    GetDeployCode "travel" code trainAddrHex hotelAddrHex
  else GetDeployCode contractType code "" "".

(** Run the constructor, and put the code it returns at the fixed address. *)
Definition install db (deployCode : list byte) (address : Address) : panics DB :=
  let '(r, db1) := exec (evm_Create genesisBlockCtx genesisTxCtx deployer deployCode 10000000 0) db in
  match create_err r with
  | Some _ => None
  | None => Some (do_op (SetNonce address 1) (do_op (SetCode address (create_ret r)) db1).2).2
  end.

Fixpoint install_all (code_of : Address → panics (list byte)) (addresses : list Address) (numShards shardID : Z) db : panics DB :=
  match addresses with
  | [] => Some db
  | address :: addresses' =>
      if shard_of address numShards =? shardID then
        deployCode ← code_of address;
        db1 ← install db deployCode address;
        install_all code_of addresses' numShards shardID db1
      else install_all code_of addresses' numShards shardID db
  end.

Definition setContractAccounts fs db (addresses : list Address) (numShards shardID : Z) (contractType : string) : panics DB :=
  '(allTrainAddrs, allHotelAddrs, allTravelAddrs) ←
    (if decide (contractType = "travel"%string) then
       trains ← GetTrainAddresses fs; hotels ← GetHotelAddresses fs; travels ← GetTravelAddresses fs;
       Some (trains, hotels, travels)
     else Some ([], [], []));
  install_all (deploy_code contractType allTrainAddrs allHotelAddrs allTravelAddrs) addresses numShards shardID db.

Definition root_file (shardID : Z) : string :=
  String.append "./storage/test_statedb/shard" (String.append (pretty shardID) "_root.txt").

(** [db]: the empty state. The result is the committed state; its root goes to a
    file. The commit deletes empty accounts, which changes no reading. *)
Definition CreateStorage (cfg : result string Config) fs db (shardID : Z) : panics (Hash * DB * Files) :=
  match cfg with
  | Err _ => None
  | Ok cfg =>
      let numShards := cfg_ShardNum cfg in
      addresses ← GetAddresses fs;
      let db1 := foldl (fund numShards shardID) db addresses in
      let db2 := sdb_SetBalance db1 deployer (10 ^ 18) in
      hotels ← GetHotelAddresses fs;
      db3 ← setContractAccounts fs db2 hotels numShards shardID "hotel";
      trains ← GetTrainAddresses fs;
      db4 ← setContractAccounts fs db3 trains numShards shardID "train";
      travels ← GetTravelAddresses fs;
      db5 ← setContractAccounts fs db4 travels numShards shardID "travel";
      '(root, db6) ← sdb_Commit db5 0;
      Some (root, db6, <[root_file shardID := Hash_Hex root]> fs)
  end.

Fixpoint create_all (cfg : result string Config) fs db (shards : list Z) : panics (list (Hash * DB) * Files) :=
  match shards with
  | [] => Some ([], fs)
  | i :: shards' =>
      '(root, db1, fs1) ← CreateStorage cfg fs db i;
      '(rest, fs2) ← create_all cfg fs1 db shards';
      Some ((root, db1) :: rest, fs2)
  end.

(** [main]: the committed state of every shard, and the files. *)
Definition create_storage (cfg : result string Config) fs db : panics (list (Hash * DB) * Files) :=
  match cfg with
  | Err _ => None
  | Ok c => fs1 ← generate cfg fs; create_all cfg fs1 db (seqZ 0 (cfg_ShardNum c))
  end.
End storage.

(** ** Documented behaviour *)

(** Printed and without white space. *)
Fixpoint plain (s : string) : bool :=
  match s with
  | String.EmptyString => true
  | String.String c s' => negb (is_space c) && plain s'
  end.

(** Addresses have 20 bytes and print as [0x] and forty digits; [hexutil.Decode]
    reads digits after [0x]. *)
Class GenesisLibLaws `{GethHex} `{GenesisLib} := {
  BytesToAddress_range bs : 0 ≤ BytesToAddress bs < 2 ^ 160;
  MustDecode_hex s : MustDecode (String.append "0x" s) = DecodeString s;
  Address_Hex_plain a : plain (Address_Hex a) = true ∧ Address_Hex a ≠ ""%string;
  Address_Hex_digits a :
    0 ≤ a < 2 ^ 160 → ∃ h, from_2 (Address_Hex a) = Some h ∧ DecodeString h = Some (be_bytes 20 a)
}.

Definition account_code {DB} `{StateDB DB} (db : DB) (a : Address) : list byte := (do_op (GetCode a) db).1.

(** What the setters of geth's state database change, and what they do not. *)
Class GenesisDBLaws (DB : Type) `{GethStateDB DB} `{!GenesisDB DB} := {
  set_balance_spec (db : DB) a v a' :
    is_u256 v → balance (sdb_SetBalance db a v) a' = if decide (a' = a) then v else balance db a';
  set_balance_code (db : DB) a v a' : account_code (sdb_SetBalance db a v) a' = account_code db a';
  set_nonce_balance (db : DB) a v a' : balance (do_op (SetNonce a v) db).2 a' = balance db a';
  set_nonce_code (db : DB) a v a' : account_code (do_op (SetNonce a v) db).2 a' = account_code db a';
  set_code_balance (db : DB) a v a' : balance (do_op (SetCode a v) db).2 a' = balance db a';
  set_code_spec (db : DB) a v a' :
    account_code (do_op (SetCode a v) db).2 a' = if decide (a' = a) then v else account_code db a';
  commit_balance (db db' : DB) n root a : sdb_Commit db n = Some (root, db') → balance db' a = balance db a;
  commit_code (db db' : DB) n root a : sdb_Commit db n = Some (root, db') → account_code db' a = account_code db a
}.

(** ** The files *)

Lemma split_lines_cons s : ∃ l ls, split_lines s = l :: ls.
Proof.
  induction s as [|c s (l&ls&IH)]; simpl; [by eexists _, _|]. rewrite IH. case_match; by eexists _, _.
Qed.

Lemma split_line s r :
  plain s = true → split_lines (String.append s (String.String newline r)) = s :: split_lines r.
Proof.
  induction s as [|c s IH]; simpl; intros Hp.
  - by destruct (split_lines_cons r) as (l&ls&->).
  - apply andb_true_iff in Hp as [Hc Hp]. rewrite (IH Hp).
    destruct (Ascii.eqb_spec c newline) as [->|]; [discriminate Hc|done].
Qed.

Lemma trim_plain s : plain s = true → TrimSpace s = s.
Proof.
  intros Hp. unfold TrimSpace.
  assert (trim_left s = s) as ->.
  { destruct s as [|c s]; [done|]. simpl in *. apply andb_true_iff in Hp as [Hc _]. by destruct (is_space c). }
  induction s as [|c s IH]; [done|]. simpl in *. apply andb_true_iff in Hp as [Hc Hp]. rewrite (IH Hp).
  destruct s; [by destruct (is_space c)|done].
Qed.

Section read.
Context `{GenesisLibLaws} `{!GethHexLaws}.

Lemma Address_Hex_inj a b : 0 ≤ a < 2 ^ 160 → 0 ≤ b < 2 ^ 160 → Address_Hex a = Address_Hex b → a = b.
Proof. intros Ha Hb Heq. by rewrite <- (HexToAddress_Hex a), <- (HexToAddress_Hex b), Heq. Qed.

(** Reading a list back. *)
Lemma read_printed fs filename addrs :
  Forall (λ a, 0 ≤ a < 2 ^ 160) addrs → fs !! filename = Some (print_addresses addrs) →
  getAddressesFromFile fs filename = Some addrs.
Proof.
  intros Hall Hf. unfold getAddressesFromFile. rewrite Hf. cbn [mbind option_bind]. f_equal. clear Hf.
  induction Hall as [|a l Ha Hall IH]; [done|].
  destruct (Address_Hex_plain a) as [Hp Hne]. cbn [print_addresses foldr]. rewrite split_line by done.
  cbn [map]. rewrite trim_plain by done. rewrite filter_cons_True by done. cbn [map].
  rewrite HexToAddress_Hex by done. by f_equal.
Qed.

Lemma account_address_range i : 0 ≤ account_address i < 2 ^ 160.
Proof. apply BytesToAddress_range. Qed.
Lemma contract_address_range ty i : 0 ≤ contract_address ty i < 2 ^ 160.
Proof. apply BytesToAddress_range. Qed.

Definition test_accounts (cfg : Config) : list Address := map account_address (seqZ 0 (cfg_TestAccountNum cfg)).
Definition contracts (ty : string) : list Address := map (contract_address ty) (seqZ 0 numContracts).

(** Files that hold the generated lists. *)
Definition lists_in (cfg : Config) (fs : Files) : Prop :=
  GetAddresses fs = Some (test_accounts cfg) ∧ GetHotelAddresses fs = Some (contracts "hotel") ∧
  GetTrainAddresses fs = Some (contracts "train") ∧ GetTravelAddresses fs = Some (contracts "travel").

Lemma generate_lists cfg fs : ∃ fs', generate (Ok cfg) fs = Some fs' ∧ lists_in cfg fs'.
Proof.
  eexists. split; [done|].
  assert (Hr : ∀ f l, Forall (λ a, 0 ≤ a < 2 ^ 160) (map (f : Z → Address) l) ↔ ∀ i, i ∈ l → 0 ≤ f i < 2 ^ 160)
    by (intros; rewrite Forall_fmap, Forall_forall; done).
  split_and!; apply read_printed; try (apply Hr; intros; apply account_address_range || apply contract_address_range).
  all: unfold GenerateTravelAddresses, GenerateTrainAddresses, GenerateHotelAddresses, generateContractAddresses.
  all: repeat (rewrite lookup_insert_ne by discriminate); apply lookup_insert_eq.
Qed.

Lemma lists_in_root cfg fs i r : lists_in cfg fs → lists_in cfg (<[root_file i := r]> fs).
Proof.
  intros Hl. unfold lists_in, GetAddresses, GetHotelAddresses, GetTrainAddresses, GetTravelAddresses, getAddressesFromFile in *.
  by rewrite !lookup_insert_ne by discriminate.
Qed.
End read.

Lemma append_inj_l (s t u : string) : String.append s u = String.append t u → s = t.
Proof.
  intros Heq%(f_equal String.list_ascii_of_string).
  assert (Happ : ∀ a b, String.list_ascii_of_string (String.append a b)
    = String.list_ascii_of_string a ++ String.list_ascii_of_string b).
  { intros a b. induction a as [|c a IH]; [done|].
    change (c :: String.list_ascii_of_string (String.append a b) = c :: (String.list_ascii_of_string a ++ String.list_ascii_of_string b)).
    by rewrite IH. }
  rewrite !Happ in Heq. apply app_inj_2 in Heq as [Heq _]; [|done].
  by rewrite <- (String.string_of_list_ascii_of_string s), Heq, String.string_of_list_ascii_of_string.
Qed.

Lemma root_file_inj i j : root_file i = root_file j → i = j.
Proof. intros Heq%(inj (String.append _))%append_inj_l. by apply (inj pretty). Qed.

(** ** The code that is deployed *)

(** Strings of whole bytes decode piece by piece. *)
Lemma DecodeString_app s t x :
  DecodeString s = Some x → DecodeString (String.append s t) = (λ y, x ++ y) <$> DecodeString t.
Proof.
  remember (String.length s) as n eqn:Hn. revert s Hn x. induction (lt_wf n) as [n _ IH]. intros s -> x.
  destruct s as [|c1 [|c2 s]]; cbn [DecodeString String.append].
  - intros Hx%Some_inj. subst x. change (String.append _ t) with t. by destruct (DecodeString t).
  - done.
  - intros (h&Hh&(l&Hl&(b&Hb&(bs&Hbs&[= <-])%bind_Some)%bind_Some)%bind_Some)%bind_Some.
    change (String.append _ t) with (String.String c1 (String.String c2 (String.append s t))). cbn [DecodeString].
    rewrite Hh, Hl. cbn [mbind option_bind]. rewrite Hb. cbn [mbind option_bind].
    rewrite (IH (String.length s) ltac:(simpl; lia) s eq_refl bs Hbs). by destruct (DecodeString t).
Qed.

(** Left padding of an address to a word of the ABI. *)
Lemma be_bytes_pad m n a : 0 ≤ a < 256 ^ Z.of_nat n → be_bytes (m + n) a = replicate m Byte.x00 ++ be_bytes n a.
Proof.
  revert a. induction n as [|n IH]; intros a Ha.
  - assert (a = 0) as -> by (simpl in Ha; lia). rewrite Nat.add_0_r. simpl. rewrite app_nil_r.
    induction m as [|m IHm]; [done|]. cbn [be_bytes]. change (0 / 256) with 0. rewrite IHm.
    by rewrite <- replicate_S_end.
  - rewrite Nat.add_succ_r. cbn [be_bytes]. rewrite (IH (a / 256)), (assoc_L (++)); [done|].
    rewrite Nat2Z.inj_succ, Z.pow_succ_r in Ha by lia.
    split; [apply Z.div_pos; lia|apply Z.div_lt_upper_bound; lia].
Qed.

Lemma find_hex_spec `{GethHex} `{!GethHexLaws} addrs k a :
  Forall (λ a, 0 ≤ a < 2 ^ 160) addrs → NoDup addrs → addrs !! k = Some a → find_hex addrs (Address_Hex a) = Some k.
Proof.
  intros Hall Hnd. revert k. induction Hall as [|b l Hb Hall IH]; intros k Hk; [done|].
  apply NoDup_cons in Hnd as [Hb' Hnd]. destruct k as [|k]; simpl in Hk |- *.
  - injection Hk as ->. by rewrite decide_True.
  - rewrite decide_False; [by rewrite (IH Hnd k Hk)|].
    assert (Ha : a ∈ l) by (by eapply list_elem_of_lookup_2).
    rewrite Forall_forall in Hall. intros Heq%Address_Hex_inj; [|done|by apply Hall]. congruence.
Qed.

Section deploy.
Context `{GenesisLibLaws} `{!GethHexLaws}.

Definition contract_types : list string := ["hotel"; "train"; "travel"]%string.

(** The constructor's arguments: none, or the train and the hotel of the same index. *)
Definition deployment (ty : string) (k : Z) : list byte :=
  creation_code ty ++
    (if decide (ty = "travel"%string)
     then be_bytes 32 (contract_address "train" k) ++ be_bytes 32 (contract_address "hotel" k)
     else []).

Lemma lookup_contracts ty k : 0 ≤ k < numContracts → contracts ty !! Z.to_nat k = Some (contract_address ty k).
Proof.
  intros Hk. unfold contracts. rewrite list_lookup_fmap, lookup_seqZ_lt by (unfold numContracts in *; lia).
  simpl. do 2 f_equal. lia.
Qed.

Lemma contracts_range ty : Forall (λ a, 0 ≤ a < 2 ^ 160) (contracts ty).
Proof. apply Forall_fmap, Forall_forall. intros. apply contract_address_range. Qed.

Lemma deploy_code_spec ty k trains hotels travels :
  ty ∈ contract_types → 0 ≤ k < numContracts → NoDup (contracts "travel") →
  (ty = "travel"%string → trains = contracts "train" ∧ hotels = contracts "hotel" ∧ travels = contracts "travel") →
  deploy_code ty trains hotels travels (contract_address ty k) = Some (deployment ty k).
Proof.
  intros Hty Hk Hnd Hl. unfold deploy_code, deployment.
  assert (Hplain : ∀ ty, ty ∈ ["hotel"; "train"]%string →
    GetDeployCode ty (Bytes2Hex (creation_code ty)) "" "" = Some (creation_code ty)).
  { intros ty' Hty'. assert (MustDecode (String.append "0x" (Bytes2Hex (creation_code ty'))) = Some (creation_code ty')) as Hd
      by (rewrite MustDecode_hex; apply DecodeString_Bytes2Hex).
    unfold GetDeployCode. destruct (decide (ty' = "train"%string)); [done|].
    destruct (decide (ty' = "hotel"%string)); [done|]. set_solver. }
  destruct (decide (ty = "travel"%string)) as [->|Hne].
  - destruct (Hl eq_refl) as (->&->&->).
    rewrite (find_hex_spec _ (Z.to_nat k)); [|apply contracts_range|done|by apply lookup_contracts].
    cbn [mbind option_bind]. rewrite !lookup_contracts by done. cbn [mbind option_bind].
    destruct (Address_Hex_digits (contract_address "train" k)) as (t&->&Ht); [apply contract_address_range|].
    destruct (Address_Hex_digits (contract_address "hotel" k)) as (h&->&Hh); [apply contract_address_range|].
    cbn [mbind option_bind]. unfold GetDeployCode. rewrite !decide_False by done. rewrite decide_True by done.
    rewrite MustDecode_hex, (DecodeString_app _ _ _ (DecodeString_Bytes2Hex _)).
    rewrite (DecodeString_app zeros24 _ (replicate 12 Byte.x00)) by reflexivity.
    rewrite (DecodeString_app _ _ _ Ht), (DecodeString_app zeros24 _ (replicate 12 Byte.x00)) by reflexivity.
    rewrite Hh. cbn [fmap option_fmap option_map]. change (be_bytes 32) with (be_bytes (12 + 20)).
    rewrite !(be_bytes_pad 12 20) by apply contract_address_range. by rewrite <- !(assoc_L (++)).
  - rewrite app_nil_r. apply Hplain. set_solver.
Qed.
End deploy.

(** ** The state of a shard *)

Section state.
Context {DB : Type} `{GenesisDBLaws DB} `{EVM} `{GenesisLibLaws} `{!GethHexLaws}.
Implicit Types (db : DB) (fs : Files).

(** One of the fixed addresses of contracts. *)
Definition fixed (a : Address) : Prop := ∃ ty k, ty ∈ contract_types ∧ 0 ≤ k < numContracts ∧ a = contract_address ty k.

(** What running a creation by the deployer gives. *)
Definition creation (code : list byte) db : CreateResult * DB :=
  exec (evm_Create genesisBlockCtx genesisTxCtx deployer code 10000000 0) db.

(** A constructor that succeeds on every state, moves no funds and installs no code
    at a fixed address (its contract gets an address of its own). *)
Definition quiet (code : list byte) : Prop :=
  ∀ db, create_err (creation code db).1 = None ∧
    (∀ a, balance (creation code db).2 a = balance db a) ∧
    ∀ a, fixed a → account_code (creation code db).2 a = account_code db a.

(** The code at [a] is what some run of [code] returned. *)
Definition installed (code : list byte) db (a : Address) : Prop :=
  ∃ db1, account_code db a = create_ret (creation code db1).1.

Lemma install_spec db code a :
  quiet code → fixed a →
  ∃ db', install db code a = Some db' ∧ installed code db' a ∧ (∀ a', balance db' a' = balance db a') ∧
    ∀ a', fixed a' → a' ≠ a → account_code db' a' = account_code db a'.
Proof.
  intros Hq Ha. destruct (Hq db) as (He&Hb&Hc). unfold install. fold (creation code db).
  destruct (creation code db) as [r db1] eqn:Hr. simpl in He. rewrite He. eexists. split; [done|]. simpl in *.
  split_and!.
  - exists db. rewrite set_nonce_code, set_code_spec, decide_True by done. by rewrite Hr.
  - intros a'. by rewrite set_nonce_balance, set_code_balance.
  - intros a' Hf Hne. rewrite set_nonce_code, set_code_spec, decide_False by done. by apply Hc.
Qed.

(** Installing a list of contracts. *)
Lemma install_all_spec code_of addrs n i db :
  NoDup addrs → (∀ a, a ∈ addrs → fixed a ∧ ∃ code, code_of a = Some code ∧ quiet code) →
  ∃ db', install_all code_of addrs n i db = Some db' ∧ (∀ a, balance db' a = balance db a) ∧
    (∀ a code, a ∈ addrs → shard_of a n = i → code_of a = Some code → installed code db' a) ∧
    ∀ a, fixed a → (a ∉ addrs ∨ shard_of a n ≠ i) → account_code db' a = account_code db a.
Proof.
  revert db. induction addrs as [|a addrs IH]; intros db Hnd Hq.
  { exists db. split_and!; [done|done| |done]. intros a code Ha. by apply not_elem_of_nil in Ha. }
  apply NoDup_cons in Hnd as [Hna Hnd]. destruct (Hq a) as (Hf&code&Hcode&Hqc); [apply list_elem_of_here|].
  assert (Hq' : ∀ b, b ∈ addrs → fixed b ∧ ∃ code, code_of b = Some code ∧ quiet code)
    by (intros; by apply Hq, list_elem_of_further).
  cbn [install_all]. destruct (Z.eqb_spec (shard_of a n) i) as [Hi|Hi].
  - destruct (install_spec db code a Hqc Hf) as (db1&Hdb1&[db0 Hin]&Hb1&Hc1). rewrite Hcode. cbn [mbind option_bind].
    rewrite Hdb1. cbn [mbind option_bind]. destruct (IH db1 Hnd Hq') as (db'&->&Hb&Hins&Hkeep). exists db'.
    split_and!; [done|intros; by rewrite Hb, Hb1| |].
    + intros b code' [->|Hb']%elem_of_cons Hs Hc; [|by apply Hins].
      assert (code' = code) as -> by congruence. exists db0. rewrite <- Hin. apply Hkeep; [done|by left].
    + intros b Hfb Hb'. rewrite Hkeep; [|done|set_solver]. apply Hc1; [done|]. intros ->. set_solver.
  - destruct (IH db Hnd Hq') as (db'&->&Hb&Hins&Hkeep). exists db'. split_and!; [done|done| |].
    + intros b code' [->|Hb']%elem_of_cons Hs Hc; [done|by apply Hins].
    + intros b Hfb [Hb'|Hb']; apply Hkeep; set_solver.
Qed.

(** Giving the accounts of the shard their balance. *)
Lemma fund_all_spec n i addrs db :
  (∀ a, balance (foldl (fund n i) db addrs) a
        = if decide (a ∈ addrs ∧ shard_of a n = i) then accountBalance else balance db a) ∧
  ∀ a, account_code (foldl (fund n i) db addrs) a = account_code db a.
Proof.
  revert db. induction addrs as [|b addrs IH]; intros db; cbn [foldl].
  { split; intros a; [|done]. rewrite decide_False; [done|]. by intros [Ha%not_elem_of_nil _]. }
  destruct (IH (fund n i db b)) as [Hb Hc]. revert Hb Hc. generalize (foldl (fund n i) (fund n i db b) addrs) as db'.
  intros db' Hb Hc. unfold fund in Hb, Hc. destruct (Z.eqb_spec (shard_of b n) i) as [Hi|Hi].
  - split; intros a.
    + rewrite Hb, set_nonce_balance, set_balance_spec by concrete_range.
      destruct (decide (a = b)) as [->|Hne]; [rewrite (decide_True (P := b ∈ b :: addrs ∧ _)) by set_solver; by case_decide|].
      do 2 case_decide; set_solver.
    + by rewrite Hc, set_nonce_code, set_balance_code.
  - split; intros a; [|by rewrite Hc]. rewrite Hb. do 2 case_decide; set_solver.
Qed.

Definition fixed_addresses : list Address := contracts "hotel" ++ contracts "train" ++ contracts "travel".

Lemma elem_of_contracts a ty : a ∈ contracts ty ↔ ∃ k, 0 ≤ k < numContracts ∧ a = contract_address ty k.
Proof. unfold contracts. rewrite list_elem_of_fmap. setoid_rewrite elem_of_seqZ. naive_solver lia. Qed.

Lemma contracts_once ty : NoDup fixed_addresses → ty ∈ contract_types → NoDup (contracts ty).
Proof.
  unfold fixed_addresses. rewrite !NoDup_app. intros (?&_&?&_&?) Hty.
  repeat (apply elem_of_cons in Hty as [->|Hty]; [done|]). by apply not_elem_of_nil in Hty.
Qed.

Lemma contracts_disjoint ty ty' a :
  NoDup fixed_addresses → ty ∈ contract_types → ty' ∈ contract_types → a ∈ contracts ty → a ∈ contracts ty' → ty = ty'.
Proof.
  unfold fixed_addresses. rewrite !NoDup_app. intros (_&Hh&_&Ht&_) Hty Hty' Ha Ha'.
  pose proof (Hh a) as Hh. pose proof (Ht a) as Ht. rewrite elem_of_app in Hh. unfold contract_types in *.
  set_solver.
Qed.

Lemma setContractAccounts_spec cfg fs db ty i :
  lists_in cfg fs → NoDup fixed_addresses → ty ∈ contract_types →
  (∀ ty k, ty ∈ contract_types → 0 ≤ k < numContracts → quiet (deployment ty k)) →
  ∃ db', setContractAccounts fs db (contracts ty) (cfg_ShardNum cfg) i ty = Some db' ∧
    (∀ a, balance db' a = balance db a) ∧
    (∀ k, 0 ≤ k < numContracts → shard_of (contract_address ty k) (cfg_ShardNum cfg) = i →
       installed (deployment ty k) db' (contract_address ty k)) ∧
    ∀ a, fixed a → (a ∉ contracts ty ∨ shard_of a (cfg_ShardNum cfg) ≠ i) → account_code db' a = account_code db a.
Proof.
  intros (_&Hh&Ht&Hv) Hnd Hty Hq. unfold setContractAccounts. rewrite Hh, Ht, Hv. cbn [mbind option_bind].
  assert (∃ trains hotels travels,
    (if decide (ty = "travel"%string) then Some (contracts "train", contracts "hotel", contracts "travel") else Some ([], [], []))
    = Some (trains, hotels, travels) ∧
    (ty = "travel"%string → trains = contracts "train" ∧ hotels = contracts "hotel" ∧ travels = contracts "travel"))
    as (trains&hotels&travels&->&Hl) by (case_decide; by eexists _, _, _). cbn [mbind option_bind].
  assert (Hcode : ∀ k, 0 ≤ k < numContracts →
    deploy_code ty trains hotels travels (contract_address ty k) = Some (deployment ty k)).
  { intros k Hk. apply deploy_code_spec; [done|done| |done]. apply contracts_once; [done|]. unfold contract_types. set_solver. }
  destruct (install_all_spec (deploy_code ty trains hotels travels) (contracts ty) (cfg_ShardNum cfg) i db)
    as (db'&->&Hb&Hins&Hkeep); [by apply contracts_once| |].
  { intros a (k&Hk&->)%elem_of_contracts. split; [by exists ty, k|]. exists (deployment ty k). auto. }
  exists db'. split_and!; [done|done| |done]. intros k Hk Hs. apply Hins; [|done|by apply Hcode].
  apply elem_of_contracts. by exists k.
Qed.

(** What the tool promises of the state of shard [i], from the state [db0]. *)
Definition shard_prepared (cfg : Config) db0 (i : Z) db : Prop :=
  (∀ a, balance db a =
     if decide (a = deployer) then 10 ^ 18
     else if decide (a ∈ test_accounts cfg ∧ shard_of a (cfg_ShardNum cfg) = i) then accountBalance
     else balance db0 a) ∧
  ∀ ty k, ty ∈ contract_types → 0 ≤ k < numContracts →
    let a := contract_address ty k in
    if decide (shard_of a (cfg_ShardNum cfg) = i) then installed (deployment ty k) db a
    else account_code db a = account_code db0 a.

(** What a commit gives. *)
Definition committed (root : Hash) db : Prop := ∃ db', sdb_Commit db' 0 = Some (root, db).

Lemma CreateStorage_spec cfg fs db0 i :
  lists_in cfg fs → NoDup fixed_addresses →
  (∀ ty k, ty ∈ contract_types → 0 ≤ k < numContracts → quiet (deployment ty k)) →
  (∀ db, is_Some (sdb_Commit db 0)) →
  ∃ root db, CreateStorage (Ok cfg) fs db0 i = Some (root, db, <[root_file i := Hash_Hex root]> fs) ∧
    shard_prepared cfg db0 i db ∧ committed root db.
Proof.
  intros Hl Hnd Hq Hcommit. pose proof Hl as (Ha&Hh&Ht&Hv). unfold CreateStorage. rewrite Ha, Hh, Ht, Hv. cbn [mbind option_bind].
  set (db1 := foldl _ _ _).
  destruct (fund_all_spec (cfg_ShardNum cfg) i (test_accounts cfg) db0) as [Hb1 Hc1]. fold db1 in Hb1, Hc1.
  set (db2 := sdb_SetBalance db1 deployer (10 ^ 18)).
  assert (Hty : "hotel"%string ∈ contract_types ∧ "train"%string ∈ contract_types ∧ "travel"%string ∈ contract_types)
    by (unfold contract_types; set_solver). destruct Hty as (Th&Tt&Tv).
  destruct (setContractAccounts_spec cfg fs db2 "hotel" i Hl Hnd Th Hq) as (db3&->&Hb3&Hi3&Hk3). cbn [mbind option_bind].
  destruct (setContractAccounts_spec cfg fs db3 "train" i Hl Hnd Tt Hq) as (db4&->&Hb4&Hi4&Hk4). cbn [mbind option_bind].
  destruct (setContractAccounts_spec cfg fs db4 "travel" i Hl Hnd Tv Hq) as (db5&->&Hb5&Hi5&Hk5). cbn [mbind option_bind].
  destruct (Hcommit db5) as [[root db6] Hc]. rewrite Hc. exists root, db6. split; [done|]. split; [|by exists db5]. split.
  - intros a. rewrite (commit_balance _ _ _ _ _ Hc), Hb5, Hb4, Hb3. unfold db2. rewrite set_balance_spec by concrete_range.
    by rewrite Hb1.
  - intros ty k Hty Hk a. assert (Hf : fixed a) by (by exists ty, k).
    assert (Hin : a ∈ contracts ty) by (apply elem_of_contracts; by exists k).
    assert (Hout : ∀ ty', ty' ∈ contract_types → ty' ≠ ty → a ∉ contracts ty')
      by (intros ty' Hty' Hne Ha'; by pose proof (contracts_disjoint _ _ _ Hnd Hty' Hty Ha' Hin)).
    unfold installed. rewrite (commit_code _ _ _ _ _ Hc). destruct (decide (shard_of a (cfg_ShardNum cfg) = i)) as [Hs|Hs].
    + unfold contract_types in Hty. repeat (apply elem_of_cons in Hty as [->|Hty]); [| | |by apply not_elem_of_nil in Hty].
      * rewrite Hk5 by (done || left; by apply Hout). rewrite Hk4 by (done || left; by apply Hout). by apply Hi3.
      * rewrite Hk5 by (done || left; by apply Hout). by apply Hi4.
      * by apply Hi5.
    + rewrite Hk5, Hk4, Hk3 by (done || by right). unfold db2. by rewrite set_balance_code, Hc1.
Qed.

(** The files of roots: one per shard, and nothing else changes. *)
Definition roots_in (shards : list Z) (states : list (Hash * DB)) (fs fs' : Files) : Prop :=
  (∀ k i root db, shards !! k = Some i → states !! k = Some (root, db) → fs' !! root_file i = Some (Hash_Hex root)) ∧
  ∀ f, (∀ i, i ∈ shards → f ≠ root_file i) → fs' !! f = fs !! f.

Lemma create_all_spec cfg db0 shards fs :
  lists_in cfg fs → NoDup shards → NoDup fixed_addresses →
  (∀ ty k, ty ∈ contract_types → 0 ≤ k < numContracts → quiet (deployment ty k)) →
  (∀ db, is_Some (sdb_Commit db 0)) →
  ∃ states fs', create_all (Ok cfg) fs db0 shards = Some (states, fs') ∧
    Forall2 (λ i '(root, db), shard_prepared cfg db0 i db ∧ committed root db) shards states ∧ roots_in shards states fs fs'.
Proof.
  intros Hl Hns Hnd Hq Hc. revert fs Hl. induction Hns as [|i shards Hi Hns IH]; intros fs Hl.
  { exists [], fs. split_and!; [done|done|]. by split. }
  destruct (CreateStorage_spec cfg fs db0 i Hl Hnd Hq Hc) as (root&db&Hr&Hp).
  destruct (IH (<[root_file i := Hash_Hex root]> fs)) as (states&fs'&Hs&Hall&Hin&Hout); [by apply lists_in_root|].
  exists ((root, db) :: states), fs'. unfold create_all; fold (create_all (Ok cfg)).
  change (('(root, db1, fs1) ← CreateStorage (Ok cfg) fs db0 i;
      '(rest, fs2) ← create_all (Ok cfg) fs1 db0 shards; Some ((root, db1) :: rest, fs2))
      = Some ((root, db) :: states, fs') ∧ Forall2 (λ i '(root, db), shard_prepared cfg db0 i db ∧ committed root db) (i :: shards) ((root, db) :: states)
      ∧ roots_in (i :: shards) ((root, db) :: states) fs fs').
  rewrite Hr. cbn [mbind option_bind]. rewrite Hs. split_and!; [done|by constructor|]. split.
  - intros [|k] j root' db' Hk Hst; [|by eapply Hin].
    injection Hk as <-. injection Hst as <- <-. rewrite Hout; [apply lookup_insert_eq|].
    intros j Hj <-%root_file_inj. done.
  - intros f Hf. rewrite Hout by (intros; by apply Hf, list_elem_of_further).
    apply lookup_insert_ne. intros <-. by apply (Hf i); [apply list_elem_of_here|].
Qed.

Lemma create_storage_spec cfg fs db0 :
  NoDup fixed_addresses →
  (∀ ty k, ty ∈ contract_types → 0 ≤ k < numContracts → quiet (deployment ty k)) →
  (∀ db, is_Some (sdb_Commit db 0)) →
  ∃ states fs', create_storage (Ok cfg) fs db0 = Some (states, fs') ∧
    Forall2 (λ i '(root, db), shard_prepared cfg db0 i db ∧ committed root db) (seqZ 0 (cfg_ShardNum cfg)) states ∧
    ∃ fs1, generate (Ok cfg) fs = Some fs1 ∧ roots_in (seqZ 0 (cfg_ShardNum cfg)) states fs1 fs'.
Proof.
  intros Hnd Hq Hc. unfold create_storage. destruct (generate_lists cfg fs) as (fs1&Hg&Hl). rewrite Hg.
  destruct (create_all_spec cfg db0 (seqZ 0 (cfg_ShardNum cfg)) fs1) as (states&fs'&Hs&Hall&Hr); try done.
  { apply NoDup_seqZ. }
  exists states, fs'. split_and!; [exact Hs|done|by exists fs1].
Qed.

(** C26. The genesis tool gives every shard its part of the initial state. For a
    configuration of n > 0 shards it ends with one committed state per shard, and in
    the state of shard i exactly the test accounts whose address maps to i have the
    initial balance, the deployer has its own, and every fixed contract address that
    maps to i holds the code its constructor returned, where each agency was given
    the train and the hotel of its own index as the two words of its arguments;
    everything else is as in the empty state. Reading back the lists of addresses
    it wrote loses nothing. Assumed: the constructors succeed, move no funds and
    touch no fixed address, these addresses differ, and commits succeed. *)
Theorem genesis_prepares_shards cfg fs db0 :
  0 < cfg_ShardNum cfg → NoDup fixed_addresses →
  (∀ ty k, ty ∈ contract_types → 0 ≤ k < numContracts → quiet (deployment ty k)) →
  (∀ db, is_Some (sdb_Commit db 0)) →
  ∃ states fs', create_storage (Ok cfg) fs db0 = Some (states, fs') ∧
    Z.of_nat (length states) = cfg_ShardNum cfg ∧
    ∀ i, 0 ≤ i < cfg_ShardNum cfg →
      ∃ root db, states !! Z.to_nat i = Some (root, db) ∧ shard_prepared cfg db0 i db.
Proof.
  intros Hn Hnd Hq Hc. destruct (create_storage_spec cfg fs db0 Hnd Hq Hc) as (states&fs'&Hs&Hall&_).
  exists states, fs'. split; [done|]. split.
  - apply Forall2_length in Hall. rewrite length_seqZ in Hall. lia.
  - intros i Hi. destruct (Forall2_lookup_l _ _ _ (Z.to_nat i) i Hall) as ([root db]&Hl&Hp&_).
    + rewrite lookup_seqZ_lt by lia. f_equal. lia.
    + by exists root, db.
Qed.

(** C38. The genesis of the shipped configuration puts accounts where no node looks
    for them. config.json has 6 shards while the nodes map addresses to [NumShards]
    (8): an account is on the shard the nodes send its requests to exactly when its
    last byte is below 6 modulo 24. Any other account has, on the shard the nodes
    use, only the balance of the empty state, or that shard (6 or 7) was given no
    state at all. *)
Theorem misplaced_accounts cfg fs db0 states fs' a :
  cfg_ShardNum cfg = 6 → NoDup fixed_addresses →
  (∀ ty k, ty ∈ contract_types → 0 ≤ k < numContracts → quiet (deployment ty k)) →
  (∀ db, is_Some (sdb_Commit db 0)) →
  create_storage (Ok cfg) fs db0 = Some (states, fs') → a ≠ deployer →
  (shard_of a (cfg_ShardNum cfg) = shard_of a NumShards ↔ last_byte a mod 24 < 6) ∧
  (6 ≤ last_byte a mod 24 →
     match states !! Z.to_nat (shard_of a NumShards) with
     | Some (_, db) => balance db a = balance db0 a
     | None => 6 ≤ shard_of a NumShards
     end).
Proof.
  intros Hn Hnd Hq Hc Hs Ha. destruct (create_storage_spec cfg fs db0 Hnd Hq Hc) as (states'&fs2&Hs'&Hall&_).
  assert (states' = states) as -> by congruence.
  assert (Hiff : shard_of a (cfg_ShardNum cfg) = shard_of a NumShards ↔ last_byte a mod 24 < 6).
  { rewrite Hn. unfold shard_of, NumShards. pose proof (last_byte_range a).
    rewrite !Z.rem_mod_nonneg by lia. Z.to_euclidean_division_equations. lia. }
  split; [exact Hiff|]. intros Hout. set (i := shard_of a NumShards) in *.
  assert (Hi : 0 ≤ i < 8) by (apply shard_of_range; reflexivity).
  destruct (states !! Z.to_nat i) as [[root db]|] eqn:Hl.
  - destruct (Forall2_lookup_r _ _ _ _ _ Hall Hl) as (j&Hj&(Hb&_)&_).
    apply lookup_seqZ in Hj as [-> Hlt]. rewrite Hb, decide_False by done. rewrite decide_False; [done|]. lia.
  - apply Forall2_length in Hall. apply lookup_ge_None in Hl. rewrite length_seqZ, Hn in Hall. lia.
Qed.
End state.

(** ** Witnesses *)

(** Addresses are the last bytes of their seeds; they print in hexadecimal. *)
#[local] Instance plain_hex : GethHex := {
  HexToAddress s := default 0 (h ← from_2 s; be_val <$> DecodeString h);
  HexToHash s := default 0 (h ← from_2 s; be_val <$> DecodeString h);
  FromHex s := default [] (DecodeString (default s (strip_0x s)));
  Address_Hex a := String.append "0x" (EncodeToString (be_bytes 20 a));
  Hash_Hex h := String.append "0x" (EncodeToString (be_bytes 32 h));
  Bytes2Hex bs := EncodeToString bs
}.

#[local] Instance plain_hex_laws : GethHexLaws.
Proof.
  split.
  - intros a Ha. change (default 0 (be_val <$> DecodeString (EncodeToString (be_bytes 20 a))) = a).
    rewrite DecodeString_EncodeToString. change (be_val (be_bytes 20 a) = a). rewrite be_val_bytes. by apply Z.mod_small.
  - intros h Hh. change (default 0 (be_val <$> DecodeString (EncodeToString (be_bytes 32 h))) = h).
    rewrite DecodeString_EncodeToString. change (be_val (be_bytes 32 h) = h). rewrite be_val_bytes. by apply Z.mod_small.
  - intros bs. simpl. assert (strip_0x (EncodeToString bs) = None) as -> by (by destruct bs as [|[] bs]).
    simpl. by rewrite DecodeString_EncodeToString.
  - intros bs. apply DecodeString_EncodeToString.
Qed.

#[local] Instance seed_lib : GenesisLib := {
  Sum256 s := map Ascii.byte_of_ascii (String.list_ascii_of_string s);
  BytesToAddress bs := be_val bs mod 2 ^ 160;
  MustDecode s := h ← from_2 s; DecodeString h
}.

Lemma plain_digits bs : plain (EncodeToString bs) = true.
Proof. induction bs as [|b bs IH]; [done|]. cbn [EncodeToString plain]. rewrite IH. by destruct b. Qed.

#[local] Instance seed_lib_laws : GenesisLibLaws.
Proof.
  split.
  - intros bs. apply Z.mod_pos_bound. reflexivity.
  - done.
  - intros a. split; [|done]. change (plain (EncodeToString (be_bytes 20 a)) = true). apply plain_digits.
  - intros a Ha. exists (EncodeToString (be_bytes 20 a)). split; [done|apply DecodeString_EncodeToString].
Qed.

#[local] Instance mem_genesis : GenesisDB MemDB := { sdb_SetBalance := set_bal }.

#[local] Instance mem_genesis_laws : GenesisDBLaws MemDB.
Proof.
  split; try done.
  - intros db a v a' Hv. by apply get_bal_set.
  - intros db a v a'. unfold account_code. simpl. case_decide as Hd; [subst; apply map_get_insert_eq|by apply map_get_insert_ne].
  - intros db db' n root a [= <- <-]. done.
  - intros db db' n root a [= <- <-]. done.
Qed.

(** A creation returns its code and changes nothing. *)
#[local] Instance echo_evm : EVM := {
  evm_Call bc tc caller addr input gas value := Ret (mkCallResult [] gas None);
  evm_StaticCall bc tc caller addr input gas := Ret (mkCallResult [] gas None);
  evm_Create bc tc caller code gas value := Ret (mkCreateResult code 0 gas None)
}.

Lemma seeds_once : NoDup fixed_addresses.
Proof. apply (bool_decide_unpack _). vm_compute. exact I. Qed.

Lemma echo_quiet code : quiet (DB := MemDB) code.
Proof. by intros db. Qed.

Definition smallConfig : Config := mkConfig 2 "" 3 (mkNetworkConfig false 0 0).

Lemma genesis_prepares_shards_witness :
  ∃ states fs', create_storage (Ok smallConfig) ∅ emptyMem = Some (states, fs') ∧ Z.of_nat (length states) = 2 ∧
    ∀ i, 0 ≤ i < 2 → ∃ root db, states !! Z.to_nat i = Some (root, db) ∧ shard_prepared smallConfig emptyMem i db.
Proof.
  apply (genesis_prepares_shards smallConfig ∅ emptyMem).
  - reflexivity.
  - apply seeds_once.
  - intros. apply echo_quiet.
  - intros db. by eexists.
Defined.

Definition shippedConfig : Config := mkConfig 6 "/storage/test_statedb/" 100 (mkNetworkConfig false 0 0).

(** An account with last byte 14 was given to shard 2; the nodes look on shard 6. *)
Lemma misplaced_accounts_witness :
  ∃ states fs', create_storage (Ok shippedConfig) ∅ emptyMem = Some (states, fs') ∧
    (shard_of 14 6 = shard_of 14 NumShards ↔ last_byte 14 mod 24 < 6) ∧
    (6 ≤ last_byte 14 mod 24 →
       match states !! Z.to_nat (shard_of 14 NumShards) with
       | Some (_, db) => balance db 14 = balance emptyMem 14
       | None => 6 ≤ shard_of 14 NumShards
       end).
Proof.
  destruct (create_storage_spec (DB := MemDB) shippedConfig ∅ emptyMem seeds_once) as (states&fs'&Hs&_);
    [intros; apply echo_quiet|intros db; by eexists|].
  exists states, fs'. split; [exact Hs|].
  apply (misplaced_accounts shippedConfig ∅ emptyMem states fs' 14 eq_refl seeds_once); [|intros db; by eexists|exact Hs|discriminate].
  intros. apply echo_quiet.
Defined.
