(* ===== verification/JsonRpc.v ===== *)
(** * JsonRpc: internal/shard/jsonrpc.go

    The Ethereum JSON-RPC endpoint of a shard, for wallets: queries, read-only calls
    and transactions, which run at once on the state database, beside the blocks of
    the shard. Parameters are decoded by [RpcCodec]; the reply is a value. *)

From S2P Require Import Prelude Codec Protocol BlockBuffer VmState MemDB TrackingDB EvmState ShardChain SlotLocks Receipts ShardServer.

Open Scope Z_scope.

Definition DefaultDeployGas : Z := 3000000.
Definition DefaultCallGas : Z := 1000000.
Definition DefaultEstimateGas : Z := 100000.
Definition ChainID : Z := 1337.

Record txArgs := mkTxArgs {
  ta_From : Address;
  ta_To : option Address;
  ta_Data : list byte;
  ta_Value : option Z;
  ta_Gas : option Z
}.

(** [json.Unmarshal] of a raw parameter into an address, a hash or [txArgs]. *)
Class RpcCodec (J : Type) := {
  json_address : J → option Address;
  json_hash : J → option Hash;
  json_txArgs : J → option txArgs
}.

(** [req.ID] goes into the response unchanged. *)
Record jsonRPCRequest (J : Type) := mkJsonRPCRequest { rq_Method : string; rq_Params : list J }.
Arguments mkJsonRPCRequest {J} _ _.
Arguments rq_Method {J} _.
Arguments rq_Params {J} _.

(** The fields of a block answer that are not constants. *)
Record rpc_block := mkRpcBlock { rb_number : Z; rb_stateRoot : Hash; rb_timestamp : Z }.

Inductive rpc_result : Type :=
| RpcUint64 (z : Z)
| RpcBig (z : Z)
| RpcBytes (bs : list byte)
| RpcHash (h : string)
| RpcReceipt (r : option Receipt)
| RpcBlock (b : rpc_block).

Record rpcError := mkRpcError { re_Code : Z; re_Message : string }.

(** [int64] of a uint64. *)
Definition to_int64 (z : Z) : Z := if z <? 2 ^ 63 then z else z - two64.

(** [types.Bloom{}] *)
Definition zeroBloom : list byte := replicate 256 Byte.x00.

Section rpc.
Context {DB J : Type} `{GethStateDB DB} `{Geth} `{EVM} `{GethHex} `{RpcCodec J}.
(** The identifiers [uuid.New()] gives, in order, and the bytes of a string. *)
Context (uuid : nat → string) (string_bytes : string → list byte).
Implicit Types (s : Server DB).

Abbreviation reply := (result rpcError rpc_result).

Definition with_receipts s (r : ReceiptStore) : Server DB :=
  mkServer (sv_shardID s) (sv_evmState s) (sv_chain s) (sv_blockBuffer s) (sv_uuids s) r.

(** A parameter that decodes, or the error; [req.Params[0]] panics when missing. *)
Definition with_param {A} (decode : J → option A) (msg : string) s (params : list J)
    (k : A → panics (reply * Server DB)) : panics (reply * Server DB) :=
  match params with
  | [] => None
  | p :: _ => match decode p with
              | None => Some (Err (mkRpcError (-32602) msg), s)
              | Some a => k a
              end
  end.

(** *** Transactions *)

(** What [DeployContract] and [CallContract] leave for the receipt: the new
    contract, the output, the gas used, the logs, or an error. *)
Definition send_result : Type := result string (option Address * list byte * Z * list Log).

Definition execute_args (e : EVMState DB) (args : txArgs) : panics (send_result * EVMState DB) :=
  let gas := default DefaultDeployGas (ta_Gas args) in
  let value := default 0 (ta_Value args) in
  match ta_To args with
  | None =>
      match DeployContract e (ta_From args) (ta_Data args) value gas with
      | None => None
      | Some (Err (gasUsed, err), e1) => Some (Err err, e1)
      | Some (Ok (addr, ret, gasUsed, logs), e1) => Some (Ok (Some addr, ret, gasUsed, logs), e1)
      end
  | Some to =>
      match CallContract e (ta_From args) to (ta_Data args) value gas with
      | None => None
      | Some (ret, gasUsed, logs, Some err, e1) => Some (Err err, e1)
      | Some (ret, gasUsed, logs, None, e1) => Some (Ok (None, ret, gasUsed, logs), e1)
      end
  end.

Definition receipt_of (txHash : Hash) (e : EVMState DB) (args : txArgs)
    (out : option Address * list byte * Z * list Log) : Receipt :=
  let '(contractAddr, returnData, gasUsed, logs) := out in
  mkReceipt txHash 0 0 (Some (to_int64 (es_blockNum e))) (ta_From args) (ta_To args) gasUsed gasUsed
    contractAddr (map Some logs) zeroBloom 1 returnData.

Definition sendTransaction s (args : txArgs) : panics (reply * Server DB) :=
  let txHash := BytesToHash (string_bytes (uuid (sv_uuids s))) in
  match execute_args (sv_evmState s) args with
  | None => None
  | Some (r, e) =>
      let s1 := mkServer (sv_shardID s) e (sv_chain s) (sv_blockBuffer s) (S (sv_uuids s)) (sv_receipts s) in
      match r with
      | Err err => Some (Err (mkRpcError (-32000) err), s1)
      | Ok out => Some (Ok (RpcHash (Hash_Hex txHash)), with_receipts s1 (AddReceipt (sv_receipts s1) (receipt_of txHash e args out)))
      end
  end.

(** *** The dispatcher *)

Definition rpc_call s (args : txArgs) : reply * Server DB :=
  let gas := default DefaultCallGas (ta_Gas args) in
  match ta_To args with
  | None => (Err (mkRpcError (-32000) "to address required"), s)
  | Some to =>
      match EvmState.StaticCall (sv_evmState s) (ta_From args) to (ta_Data args) gas with
      | (ret, gasUsed, Some err, e) => (Err (mkRpcError (-32000) err), with_evm s e)
      | (ret, gasUsed, None, e) => (Ok (RpcBytes ret), with_evm s e)
      end
  end.

Definition query {A} (f : EVMState DB → A * EVMState DB) (k : A → rpc_result) s : reply * Server DB :=
  let '(a, e) := f (sv_evmState s) in (Ok (k a), with_evm s e).

Definition handleJSONRPC s (req : jsonRPCRequest J) : panics (reply * Server DB) :=
  let p := rq_Params req in
  let method m := bool_decide (rq_Method req = m) in
  if method "eth_chainId"%string then Some (Ok (RpcUint64 ChainID), s)
  else if method "eth_blockNumber"%string then Some (Ok (RpcUint64 (es_blockNum (sv_evmState s))), s)
  else if method "eth_getBalance"%string then
    with_param json_address "invalid address parameter" s p (λ addr, Some (query (λ e, es_GetBalance e addr) RpcBig s))
  else if method "eth_getCode"%string then
    with_param json_address "invalid address parameter" s p (λ addr, Some (query (λ e, es_GetCode e addr) RpcBytes s))
  else if method "eth_getTransactionCount"%string then
    with_param json_address "invalid address parameter" s p (λ addr, Some (query (λ e, es_GetNonce e addr) RpcUint64 s))
  else if method "eth_sendTransaction"%string then
    with_param json_txArgs "invalid transaction parameters" s p (sendTransaction s)
  else if method "eth_getTransactionReceipt"%string then
    with_param json_hash "invalid transaction hash" s p
      (λ hash, Some (Ok (RpcReceipt (GetReceipt (sv_receipts s) hash)), s))
  else if method "eth_getBlockByNumber"%string then
    Some (Ok (RpcBlock (mkRpcBlock (es_blockNum (sv_evmState s)) (GetStateRoot (sv_evmState s))
                          (es_timestamp (sv_evmState s)))), s)
  else if method "eth_call"%string then
    with_param json_txArgs "invalid call parameters" s p (λ args, Some (rpc_call s args))
  else if method "eth_gasPrice"%string then Some (Ok (RpcUint64 0), s)
  else if method "eth_estimateGas"%string then Some (Ok (RpcUint64 DefaultEstimateGas), s)
  else Some (Err (mkRpcError (-32601) (String.append "method not found: " (rq_Method req))), s).

(** ** Properties *)

Definition sendRequest (j : J) : jsonRPCRequest J := mkJsonRPCRequest "eth_sendTransaction" [j].
Definition receiptRequest (j : J) : jsonRPCRequest J := mkJsonRPCRequest "eth_getTransactionReceipt" [j].

Lemma sendRequest_eq s j args :
  json_txArgs j = Some args → handleJSONRPC s (sendRequest j) = sendTransaction s args.
Proof. intros Hj. unfold handleJSONRPC, sendRequest, with_param. simpl. by rewrite Hj. Qed.

Lemma receiptRequest_eq s j h :
  json_hash j = Some h → handleJSONRPC s (receiptRequest j) = Some (Ok (RpcReceipt (GetReceipt (sv_receipts s) h)), s).
Proof. intros Hj. unfold handleJSONRPC, receiptRequest, with_param. simpl. by rewrite Hj. Qed.

(** A transaction accepted over JSON-RPC has its receipt: the hash in the answer
    is that of a receipt the next query finds, with status 1, the sender and
    recipient of the request, the output, logs and gas of the execution and the
    address of a deployed contract; the receipts of other transactions stay. *)
Theorem sent_tx_has_receipt s j args h s' j' :
  json_txArgs j = Some args → handleJSONRPC s (sendRequest j) = Some (Ok (RpcHash h), s') →
  let txHash := BytesToHash (string_bytes (uuid (sv_uuids s))) in
  ∃ out e, h = Hash_Hex txHash ∧
    execute_args (sv_evmState s) args = Some (Ok out, e) ∧ sv_evmState s' = e ∧
    (json_hash j' = Some txHash →
     handleJSONRPC s' (receiptRequest j') = Some (Ok (RpcReceipt (Some (receipt_of txHash e args out))), s')) ∧
    ∀ h', h' ≠ txHash → GetReceipt (sv_receipts s') h' = GetReceipt (sv_receipts s) h'.
Proof.
  intros Hj. rewrite (sendRequest_eq s j args Hj). unfold sendTransaction.
  set (txHash := BytesToHash (string_bytes (uuid (sv_uuids s)))).
  destruct (execute_args (sv_evmState s) args) as [[[out|err] e]|] eqn:He; [|done..].
  intros Heq. injection Heq as <- <-. exists out, e. split_and!; [done..| |].
  - intros Hh. rewrite (receiptRequest_eq _ j' txHash Hh). simpl. rewrite GetReceipt_Add.
    rewrite decide_True; [done|]. by destruct out as [[[? ?] ?] ?].
  - intros h' Hne. simpl. rewrite GetReceipt_Add, decide_False; [done|]. by destruct out as [[[? ?] ?] ?].
Qed.

(** The chain, the buffer and the identity of the shard stay. *)
Lemma handleJSONRPC_keeps s req r s' :
  handleJSONRPC s req = Some (r, s') →
  sv_chain s' = sv_chain s ∧ sv_blockBuffer s' = sv_blockBuffer s ∧ sv_shardID s' = sv_shardID s.
Proof.
  unfold handleJSONRPC, with_param, sendTransaction, query, rpc_call, with_receipts.
  intros Hr. repeat (case_match; simplify_eq/=; try done).
Qed.

(** JSON-RPC ignores what the shard has promised. No request looks at the chain
    of the shard or changes it: with any other locks, reservations and votes in its
    place the answer and the new state are the same. So a transaction sent this way
    can change a locked slot or spend reserved funds while a cross-shard
    transaction that voted YES relies on them. *)
Theorem rpc_ignores_locks s (c : Chain) req :
  handleJSONRPC (with_chain s c) req
  = (λ '(r, s'), (r, with_chain s' c)) <$> handleJSONRPC s req.
Proof.
  destruct s as [sid e ch buf n rs]. unfold handleJSONRPC, with_param, sendTransaction, query, rpc_call, with_chain, with_evm, with_receipts.
  cbn [sv_evmState sv_chain sv_shardID sv_blockBuffer sv_uuids sv_receipts].
  repeat (case_match; simplify_eq/=; try done).
Qed.
End rpc.

(** ** Witnesses *)

(** Parameters that are already decoded. *)
#[local] Instance plain_codec : RpcCodec (Z + txArgs) := {
  json_address j := match j with inl a => Some a | inr _ => None end;
  json_hash j := match j with inl h => Some h | inr _ => None end;
  json_txArgs j := match j with inl _ => None | inr args => Some args end
}.

(** Shard 0 with slot 0 of account 2 locked for cross-shard transaction "x". *)
Definition lockedServer : Server MemDB :=
  with_chain (with_evm (fresh_server 0 emptyMem 0) (fundedState 1 10)) (LockSlot (NewChain 0 0) "x" 2 0).2.

(** Account 1 calls the counter of account 2, which adds one to slot 0. *)
Definition counterArgs : txArgs := mkTxArgs 1 (Some 2) [Byte.x01] None None.

Definition sent : panics (result rpcError rpc_result * Server MemDB) :=
  handleJSONRPC (λ _, "u"%string) (λ _, [Byte.x07]) lockedServer (sendRequest (inr counterArgs)).

Lemma sent_tx_has_receipt_witness :
  ∃ r s', handleJSONRPC (λ _, "u"%string) (λ _, [Byte.x07]) s' (receiptRequest (inl 7))
          = Some (Ok (RpcReceipt (Some r)), s') ∧ rc_Status r = 1 ∧ rc_To r = Some 2.
Proof.
  assert (match sent with Some (Ok (RpcHash _), _) => true | _ => false end = true) as Hok by (vm_compute; reflexivity).
  destruct sent as [[[[| | |h| |]|] s']|] eqn:Hs; try discriminate Hok.
  destruct (@sent_tx_has_receipt _ _ _ _ _ _ _ plain_codec (λ _, "u"%string) (λ _, [Byte.x07]) lockedServer
    (inr counterArgs) counterArgs h s' (inl 7) eq_refl Hs) as (out&e&_&_&_&Hr&_).
  exists (receipt_of 7 e counterArgs out), s'. split; [|by destruct out as [[[? ?] ?] ?]].
  apply Hr. vm_compute. reflexivity.
Defined.

(** The locked slot of a running cross-shard transaction, overwritten. *)
Example locked_slot_overwritten :
  IsSlotLocked (sv_chain lockedServer) 2 0 = true ∧ sto (sv_evmState lockedServer) 2 0 = 0 ∧
  match sent with
  | Some (Ok (RpcHash _), s') => IsSlotLocked (sv_chain s') 2 0 = true ∧ sto (sv_evmState s') 2 0 = 1
  | _ => False
  end.
Proof. vm_compute. done. Qed.
