(* ===== verification/Startup.v ===== *)
(** * Startup: how a shard opens its state and catches up

    [NewMemoryEVMState] and [NewEVMState] of internal/shard/evm.go and the
    constructors, the recovery over HTTP, the block producer, the sending of its blocks,
    the accessors of tests and [Close] of
    internal/shard/server.go. A shard reads the root that the genesis tool wrote next
    to its database, opens the database there, and starts in memory when any of this
    fails. The file system, LevelDB, the state database and the HTTP client are
    parameters; paths are joined as [filepath.Join] does. *)

From stdpp Require Import pretty.
From S2P Require Import Prelude Codec Protocol VmState MemDB EvmState BlockBuffer ShardChain StorageProof BytecodeStore Receipts ShardServer ServerBlocks Network Genesis.

Open Scope Z_scope.

(** ** Paths: [filepath.Clean] and [filepath.Join] of Unix *)

Definition slash : Ascii.ascii := Ascii.ascii_of_nat 47.

Fixpoint split_slash (s : string) : list string :=
  match s with
  | String.EmptyString => [""%string]
  | String.String c s' =>
      match split_slash s' with
      | [] => []
      | l :: ls => if Ascii.eqb c slash then ""%string :: l :: ls else String.String c l :: ls
      end
  end.

(** [strings.Join(elems, "/")] *)
Fixpoint join_slash (elems : list string) : string :=
  match elems with
  | [] => ""
  | [e] => e
  | e :: es => String.append e (String.String slash (join_slash es))
  end.

(** The elements that remain, given those kept so far (the last one first). *)
Fixpoint clean_elems (rooted : bool) (out elems : list string) : list string :=
  match elems with
  | [] => rev out
  | e :: es =>
      if decide (e = "" ∨ e = ".")%string then clean_elems rooted out es
      else if decide (e = "..")%string then
        match out with
        | o :: out' =>
            if decide (o = "..")%string then clean_elems rooted (".."%string :: out) es
            else clean_elems rooted out' es
        | [] => if rooted then clean_elems rooted [] es else clean_elems rooted [".."%string] es
        end
      else clean_elems rooted (e :: out) es
  end.

Definition rooted (path : string) : bool :=
  match path with String.String c _ => Ascii.eqb c slash | String.EmptyString => false end.

Definition Clean (path : string) : string :=
  let body := join_slash (clean_elems (rooted path) [] (split_slash path)) in
  if rooted path then String.String slash body
  else if decide (body = "")%string then "." else body.

Fixpoint Join (elems : list string) : string :=
  match elems with
  | [] => ""
  | e :: es => if decide (e = "")%string then Join es else Clean (join_slash (e :: es))
  end.

Example Join_storage_dir : Join ["/storage/test_statedb/"; "shard3_root.txt"] = "/storage/test_statedb/shard3_root.txt"%string.
Proof. reflexivity. Qed.

Example Join_parents : Join [""; "a/./b//.."; "../../c"] = "../c"%string.
Proof. reflexivity. Qed.

(** ** Opening the state *)

Inductive open_error : Type :=
| ErrHost (msg : string)
| ErrInvalidRoot (rootStr : string).

(** What the host offers: files, JSON decoding of the configuration, LevelDB
    directories, an empty key-value store, and [state.New]. *)
Class StateHost (L DB : Type) := {
  os_ReadFile : string → result string (list byte);
  json_Config : list byte → result string Config;
  leveldb_New : string → result string L;
  NewMemoryDatabase : L;
  state_New : Hash → L → result string DB
}.

(** [len(rootStr) == 66 && (rootStr[:2] == "0x" || rootStr[:2] == "0X")] *)
Definition root_format (rootStr : string) : bool :=
  (String.length rootStr =? 66)%nat &&
  (bool_decide (String.substring 0 2 rootStr = "0x"%string) || bool_decide (String.substring 0 2 rootStr = "0X"%string)).

(** [fmt.Sprintf("shard%v_root.txt", shardID)] *)
Definition root_name (shardID : Z) : string :=
  String.append "shard" (String.append (pretty shardID) "_root.txt").

Section open.
Context {L DB : Type} `{!StateHost L DB} `{GethHex} `{TrieCodec}.

Definition NewMemoryEVMState : result open_error (EVMState DB) :=
  match state_New EmptyRootHash NewMemoryDatabase with
  | Err err => Err (ErrHost err)
  | Ok stateDB => Ok (fresh_evm stateDB)
  end.

Definition NewEVMState (shardID : Z) : result open_error (EVMState DB) :=
  match LoadDefault os_ReadFile json_Config with
  | Err err => Err (ErrHost err)
  | Ok config =>
      let rootPath := Join [cfg_StorageDir config; root_name shardID] in
      match os_ReadFile rootPath with
      | Err err => Err (ErrHost err)
      | Ok shardStateRoot =>
          let rootStr := TrimSpace (String.string_of_list_byte shardStateRoot) in
          if negb (root_format rootStr) then Err (ErrInvalidRoot rootStr) else
          let sdbPath := Join [cfg_StorageDir config; pretty shardID] in
          match leveldb_New sdbPath with
          | Err err => Err (ErrHost err)
          | Ok ldbObject =>
              match state_New (HexToHash rootStr) ldbObject with
              | Err err => Err (ErrHost err)
              | Ok stateDB => Ok (fresh_evm stateDB)
              end
          end
      end
  end.

(** The persistent state, or else one in memory; [None] is [log.Fatalf]. *)
Definition open_state (shardID : Z) : option (EVMState DB) :=
  match NewEVMState shardID with
  | Ok e => Some e
  | Err _ => match NewMemoryEVMState with Ok e => Some e | Err _ => None end
  end.

Definition NewServerForTest (shardID now : Z) : option (Server DB) :=
  evmState ← open_state shardID;
  Some (mkServer shardID evmState (NewChain shardID now) (NewBlockBuffer shardID 1 MaxBlockBuffer) 0 NewReceiptStore).

(** With a state in memory to fall back to, a shard always starts. *)
Lemma open_state_total shardID db :
  state_New EmptyRootHash NewMemoryDatabase = Ok db →
  ∃ db', open_state shardID = Some (fresh_evm db') ∧
    (NewEVMState shardID = Ok (fresh_evm db') ∨ (∃ err, NewEVMState shardID = Err err) ∧ db' = db).
Proof.
  intros Hm. unfold open_state, NewMemoryEVMState. rewrite Hm.
  assert (∀ e, NewEVMState shardID = Ok e → ∃ db', e = fresh_evm db') as Hfresh.
  { intros e. unfold NewEVMState. repeat case_match; naive_solver. }
  destruct (NewEVMState shardID) as [e|err].
  - destruct (Hfresh e eq_refl) as [db' ->]. exists db'. auto.
  - exists db. split; [done|]. right. eauto.
Qed.
End open.

(** ** Recovery over HTTP *)

Record Response := mkResponse { rs_StatusCode : Z; rs_Body : list byte }.

Definition StatusOK : Z := 200.
Definition StatusNotFound : Z := 404.

Section recovery.
Context {DB : Type} `{GethStateDB DB} `{MapRange}.
Context (uuid : nat → string).
(** The answers of the HTTP client while the shard starts, and the JSON decoders of
    a block and of the reply to [/block/latest]. *)
Context (httpClient_Get : string → result string Response).
Context (json_block : list byte → result string OrchestratorShardBlock).
Context (json_latest : list byte → result string Z).
Implicit Types (s : Server DB).

Definition fetchOrchestratorBlock (orchestrator : string) (height : Z) : result string (option OrchestratorShardBlock) :=
  let url := String.append orchestrator (String.append "/block/" (pretty height)) in
  match httpClient_Get url with
  | Err err => Err (String.append "HTTP request failed: " err)
  | Ok resp =>
      if rs_StatusCode resp =? StatusNotFound then Ok None
      else if negb (rs_StatusCode resp =? StatusOK) then
        Err (String.append "unexpected status " (pretty (rs_StatusCode resp)))
      else match json_block (rs_Body resp) with
           | Err err => Err (String.append "decode failed: " err)
           | Ok block => Ok (Some block)
           end
  end.

(** The height of the newest block, [None] when the request or the decoding fails. *)
Definition latest_height (orchestrator : string) : option Z :=
  match httpClient_Get (String.append orchestrator "/block/latest") with
  | Err _ => None
  | Ok resp =>
      if negb (rs_StatusCode resp =? StatusOK) then None
      else match json_latest (rs_Body resp) with Err _ => None | Ok h => Some h end
  end.

Definition fetched_block (orchestrator : string) (height : Z) : option OrchestratorShardBlock :=
  match fetchOrchestratorBlock orchestrator height with Ok b => b | Err _ => None end.

(** [recoverFromOrchestrator], its requests included. *)
Definition http_recover (orchestrator : string) s : Server DB :=
  if decide (orchestrator = "")%string then s
  else recoverFromOrchestrator uuid s (latest_height orchestrator) (fetched_block orchestrator).

Definition NewServer {L} `{!StateHost L DB} `{GethHex} `{TrieCodec} (shardID : Z) (orchestratorURL : string) (now : Z) : option (Server DB) :=
  s ← NewServerForTest shardID now; Some (http_recover orchestratorURL s).
End recovery.

(** ** What tests and other packages reach *)

Section accessors.
Context {DB : Type} `{GethStateDB DB} `{Geth} `{EVM} `{MapRange}.
Context (SHash : StateShardBlock → BlockHash).
Implicit Types (s : Server DB).

Definition srv_ProduceBlock s (now : Z) : panics (option StateShardBlock * Server DB) :=
  '(b, c, e) ← ShardChain.ProduceBlock SHash (sv_chain s) (sv_evmState s) now; Some (b, with_parts s c e).

Definition srv_SetStorageAt s (addr : Address) (slot value : Hash) : Server DB :=
  with_evm s (SetStorageAt (sv_evmState s) addr slot value).

Definition srv_GetStorageAt s (addr : Address) (slot : Hash) : Hash * Server DB :=
  let '(v, e) := GetStorageAt (sv_evmState s) addr slot in (v, with_evm s e).

Definition srv_GetBalance s (addr : Address) : Z * Server DB :=
  let '(v, e) := es_GetBalance (sv_evmState s) addr in (v, with_evm s e).

Definition srv_IsSlotLocked s (addr : Address) (slot : Hash) : bool := IsSlotLocked (sv_chain s) addr slot.
End accessors.

(** ** Sending a block *)

Inductive send_outcome : Type :=
| SendUnmarshalled (err : string)
| SendFailed (err : string)
| SendRefused (status : Z)
| SendAccepted.

Section sending.
(** The JSON encoding of a block, whether [http.NewRequest] accepts a URL, and the
    answer of the HTTP client. *)
Context (json_Marshal : StateShardBlock → result string (list byte)) (valid_url : string → bool)
  (httpClient_Do : string → list byte → result string Response).

(** The request, if one is made, and how it went. A failure is only logged: the votes
    of the block are sent once. The error of [http.NewRequest] is not looked at, and
    its nil request panics. *)
Definition sendBlockToOrchestratorShard (orchestrator : string) (block : StateShardBlock) :
    panics (option (string * list byte) * send_outcome) :=
  match json_Marshal block with
  | Err err => Some (None, SendUnmarshalled err)
  | Ok blockData =>
      let url := String.append orchestrator "/state-shard/block" in
      if negb (valid_url url) then None
      else
        Some (Some (url, blockData),
          match httpClient_Do url blockData with
          | Err err => SendFailed err
          | Ok resp => if rs_StatusCode resp =? StatusOK then SendAccepted else SendRefused (rs_StatusCode resp)
          end)
  end.

(** A block that is encoded goes to [/state-shard/block] exactly once. *)
Lemma sendBlock_spec orchestrator block data :
  json_Marshal block = Ok data → valid_url (String.append orchestrator "/state-shard/block") = true →
  ∃ out, sendBlockToOrchestratorShard orchestrator block
         = Some (Some (String.append orchestrator "/state-shard/block", data), out) ∧
    (out = SendAccepted ↔ ∃ body, httpClient_Do (String.append orchestrator "/state-shard/block") data = Ok (mkResponse StatusOK body)).
Proof.
  intros Hm Hv. unfold sendBlockToOrchestratorShard. rewrite Hm. cbv zeta. rewrite Hv. cbn [negb].
  destruct (httpClient_Do _ data) as [[code body]|err]; eexists; (split; [reflexivity|]); cbn [rs_StatusCode].
  - destruct (Z.eqb_spec code StatusOK) as [->|Hne]; split; try done; [by intros _; exists body|].
    intros (body'&[= Hc _]). by rewrite Hc in Hne.
  - split; [done|]. by intros (body&Hb).
Qed.
End sending.

(** ** The block producer and [Close] *)

(** The server of a running shard: [done] is the channel ([None]: nil, as in tests;
    else whether it is closed), [closeOnce] whether [Close] ran, [producing]
    whether the block producer runs. *)
Record Running (DB : Type) := mkRunning {
  rn_server : Server DB;
  rn_done : option bool;
  rn_closeOnce : bool;
  rn_producing : bool
}.
Arguments mkRunning {DB} _ _ _ _.
Arguments rn_server {DB} _.
Arguments rn_done {DB} _.
Arguments rn_closeOnce {DB} _.
Arguments rn_producing {DB} _.

Section running.
Context {DB : Type} `{GethStateDB DB} `{Geth} `{EVM} `{MapRange}.
Context (SHash : StateShardBlock → Hash).
Implicit Types (r : Running DB).

Definition started (s : Server DB) : Running DB := mkRunning s (Some false) false true.
Definition started_for_test (s : Server DB) : Running DB := mkRunning s None false false.

(** [close(ch)]: closing a closed channel panics. *)
Definition close_channel (closed : bool) : panics bool := if closed then None else Some true.

Definition Close r : panics (Running DB) :=
  if rn_closeOnce r then Some r
  else match rn_done r with
       | None => Some (mkRunning (rn_server r) None true (rn_producing r))
       | Some closed =>
           closed' ← close_channel closed;
           Some (mkRunning (rn_server r) (Some closed') true (rn_producing r))
       end.

(** One round of the loop of [blockProducer]: with [done] closed the select may take
    either branch. A block goes to the orchestrator; a failed production goes on. *)
Inductive producer_step : Running DB → option StateShardBlock → Running DB → Prop :=
| ProducerDone s once :
    producer_step (mkRunning s (Some true) once true) None (mkRunning s (Some true) once false)
| ProducerTick s done once now b c e :
    ShardChain.ProduceBlock SHash (sv_chain s) (sv_evmState s) now = Some (b, c, e) →
    producer_step (mkRunning s done once true) b (mkRunning (with_parts s c e) done once true).

(** The states [Close] and the producer go through. *)
Definition running_ok r : Prop :=
  (rn_done r = Some true → rn_closeOnce r = true) ∧
  (rn_closeOnce r = true → rn_done r ≠ Some false).

Lemma started_ok s : running_ok (started s) ∧ running_ok (started_for_test s).
Proof. by split. Qed.

Lemma Close_ok r : running_ok r → ∃ r', Close r = Some r' ∧ running_ok r' ∧ rn_closeOnce r' = true ∧ Close r' = Some r'.
Proof.
  intros [Ho1 Ho2]. destruct r as [s done once pr]. unfold Close; simpl in *.
  destruct once; [by eexists|]. destruct done as [[]|]; simpl; [naive_solver|by eexists|by eexists].
Qed.

Lemma producer_step_ok r b r' : running_ok r → producer_step r b r' → running_ok r'.
Proof. intros Hr Hstep. by destruct Hstep. Qed.

(** The producer of a closed server can stop, and without one it stays stopped. *)
Lemma producer_stops r :
  running_ok r → rn_closeOnce r = true → rn_done r ≠ None → rn_producing r = true →
  ∃ r', producer_step r None r' ∧ rn_producing r' = false ∧ ∀ b r'', ¬ producer_step r' b r''.
Proof.
  destruct r as [s done once pr]. intros [_ Hopen] Hc Hd Hp. cbn in Hopen, Hc, Hd, Hp. subst once pr.
  destruct done as [[]|]; [|by destruct (Hopen eq_refl)|done].
  eexists. split; [constructor|]. split; [done|]. intros b r''. by inversion 1.
Qed.
End running.

(** ** A shard opens what the genesis tool prepared *)

(** Hashes print as [0x] and sixty-four digits. *)
Class HashHexLaws `{GethHex} := {
  Hash_Hex_form h :
    is_u256 h → String.length (Hash_Hex h) = 66%nat ∧ String.substring 0 2 (Hash_Hex h) = "0x"%string ∧ plain (Hash_Hex h) = true
}.

Section genesis.
Context {L DB : Type} `{!StateHost L DB} `{GenesisDBLaws DB} `{EVM} `{GenesisLibLaws} `{!GethHexLaws} `{!HashHexLaws} `{TrieCodec}.
Implicit Types (db : DB) (fs : Files).

(** The name of the file in which the tool writes the root of shard [i], without its
    directory. *)
Definition written_name (i : Z) : string := String.append "shard" (String.append (pretty i) "_root.txt").

Lemma root_file_written i : root_file i = String.append "./storage/test_statedb/" (written_name i).
Proof. reflexivity. Qed.

(** The storage that the shards see is the one the tool left: the configuration is
    found, each root file reads as it was written, and the database in the directory
    of a shard opens at the root that was committed there. *)
Definition storage_served (cfg : Config) fs (states : list (Hash * DB)) : Prop :=
  LoadDefault os_ReadFile json_Config = Ok cfg ∧
  (∀ i, 0 ≤ i < NumShards →
        match fs !! root_file i with
        | Some str => os_ReadFile (Join [cfg_StorageDir cfg; written_name i]) = Ok (String.list_byte_of_string str)
        | None => ∃ err, os_ReadFile (Join [cfg_StorageDir cfg; written_name i]) = Err err
        end) ∧
  ∀ i root db, 0 ≤ i < NumShards → states !! Z.to_nat i = Some (root, db) →
    ∃ l, leveldb_New (Join [cfg_StorageDir cfg; pretty i]) = Ok l ∧ state_New root l = Ok db.

Lemma root_format_hex root : is_u256 root → root_format (TrimSpace (Hash_Hex root)) = true.
Proof.
  intros (Hlen&Hpre&Hp)%Hash_Hex_form. rewrite trim_plain by done. unfold root_format. by rewrite Hlen, Hpre.
Qed.

(** A shard whose root file holds a committed root opens that state. *)
Lemma NewEVMState_reads cfg fs states i root db :
  storage_served cfg fs states → 0 ≤ i < NumShards → states !! Z.to_nat i = Some (root, db) →
  fs !! root_file i = Some (Hash_Hex root) → is_u256 root → NewEVMState i = Ok (fresh_evm db).
Proof.
  intros (Hcfg&Hread&Hdb) Hi Hst Hf Hr. destruct (Hdb i root db Hi Hst) as (l&Hl&Hnew).
  specialize (Hread i Hi). rewrite Hf in Hread. unfold NewEVMState. change (root_name i) with (written_name i). rewrite Hcfg, Hread.
  rewrite String.string_of_list_byte_of_string, root_format_hex by done. cbn [negb].
  rewrite Hl, trim_plain by (by apply Hash_Hex_form). by rewrite HexToHash_Hex, Hnew.
Qed.

Lemma NewEVMState_missing cfg fs states i :
  storage_served cfg fs states → 0 ≤ i < NumShards → fs !! root_file i = None → ∃ err, NewEVMState i = Err (ErrHost err).
Proof.
  intros (Hcfg&Hread&_) Hi Hf. specialize (Hread i Hi). rewrite Hf in Hread. destruct Hread as [err He].
  unfold NewEVMState. change (root_name i) with (written_name i). rewrite Hcfg, He. eauto.
Qed.

Lemma generate_keeps_roots cfg fs fs1 i : generate (Ok cfg) fs = Some fs1 → fs1 !! root_file i = fs !! root_file i.
Proof.
  unfold generate, GenerateAddresses, GenerateTravelAddresses, GenerateTrainAddresses, GenerateHotelAddresses, generateContractAddresses.
  intros [= <-]. by rewrite !lookup_insert_ne by discriminate.
Qed.

(** The states the tool committed and the files it left, shard by shard. *)
Lemma create_storage_roots cfg fs db0 states fs' :
  NoDup fixed_addresses →
  (∀ ty k, ty ∈ contract_types → 0 ≤ k < numContracts → quiet (deployment ty k)) →
  (∀ db, is_Some (sdb_Commit db 0)) →
  create_storage (Ok cfg) fs db0 = Some (states, fs') →
  (∀ i, 0 ≤ i < cfg_ShardNum cfg → ∃ root db, states !! Z.to_nat i = Some (root, db) ∧
     shard_prepared cfg db0 i db ∧ committed root db ∧ fs' !! root_file i = Some (Hash_Hex root)) ∧
  ∀ i, ¬ (0 ≤ i < cfg_ShardNum cfg) → fs' !! root_file i = fs !! root_file i.
Proof.
  intros Hnd Hq Hc Hs. destruct (create_storage_spec cfg fs db0 Hnd Hq Hc) as (states'&fs2&Hs'&Hall&fs1&Hg&Hin&Hout).
  assert (states' = states ∧ fs2 = fs') as [-> ->] by (split; congruence). split; intros i Hi.
  - assert (Hk : seqZ 0 (cfg_ShardNum cfg) !! Z.to_nat i = Some i) by (rewrite lookup_seqZ_lt by lia; f_equal; lia).
    destruct (Forall2_lookup_l _ _ _ _ _ Hall Hk) as ([root db]&Hl&Hp&Hcm). exists root, db. split_and!; eauto.
  - rewrite Hout; [by apply (generate_keeps_roots cfg)|]. intros j Hj <-%root_file_inj. apply elem_of_seqZ in Hj. lia.
Qed.

End genesis.

(** ** Witness *)

#[local] Existing Instances plain_hex plain_hex_laws seed_lib seed_lib_laws mem_genesis mem_genesis_laws echo_evm byte_codec.

#[local] Instance plain_hash_laws : HashHexLaws.
Proof.
  assert (Hlen : ∀ bs, String.length (EncodeToString bs) = (2 * length bs)%nat).
  { induction bs as [|b bs IH]; [done|]. cbn [EncodeToString String.length length]. rewrite IH. lia. }
  split. intros h _. change (Hash_Hex h) with (String.append "0x" (EncodeToString (be_bytes 32 h))).
  split_and!.
  - change (S (S (String.length (EncodeToString (be_bytes 32 h)))) = 66%nat). rewrite Hlen. reflexivity.
  - destruct (EncodeToString (be_bytes 32 h)); reflexivity.
  - change (plain (EncodeToString (be_bytes 32 h)) = true). apply plain_digits.
Qed.

(** A host on which the tool ran: the directory of a shard holds its state. *)
Definition host_of (fs : Files) (states : list (Hash * MemDB)) : StateHost MemDB MemDB := {|
  os_ReadFile path :=
    if decide (path = "/config/config.json")%string then Ok []
    else match list_find (λ i, Join ["/s"%string; written_name i] = path) (seqZ 0 8) with
         | Some (_, i) =>
             match fs !! root_file i with Some str => Ok (String.list_byte_of_string str) | None => Err "no such file"%string end
         | None => Err "no such file"%string
         end;
  json_Config _ := Ok (mkConfig 2 "/s" 3 (mkNetworkConfig false 0 0));
  leveldb_New path :=
    match list_find (λ i, Join ["/s"%string; pretty i] = path) (seqZ 0 8) with
    | Some (k, _) => match states !! k with Some (_, db) => Ok db | None => Err "no database"%string end
    | None => Err "no database"%string
    end;
  NewMemoryDatabase := emptyMem;
  state_New _ l := Ok l
|}.

#[local] Existing Instance list_range.

(** Two of the eight shards have a prepared state. *)
Definition pairConfig : Config := mkConfig 2 "/s" 3 (mkNetworkConfig false 0 0).

Lemma echo_constructors ty k : ty ∈ contract_types → 0 ≤ k < numContracts → quiet (DB := MemDB) (deployment ty k).
Proof. intros. apply echo_quiet. Qed.

Lemma mem_commits (db : MemDB) : is_Some (sdb_Commit db 0).
Proof. by eexists. Qed.

Lemma mem_roots (db : MemDB) root db' : sdb_Commit db 0 = Some (root, db') → is_u256 root.
Proof. by intros [= <- _]. Qed.

Lemma no_files i : (∅ : Files) !! root_file i = None.
Proof. apply lookup_empty. Qed.

Lemma pair_created : ∃ states fs', create_storage (Ok pairConfig) ∅ emptyMem = Some (states, fs').
Proof.
  destruct (create_storage_spec (DB := MemDB) pairConfig ∅ emptyMem seeds_once echo_constructors mem_commits) as (states&fs'&Hs&_).
  by exists states, fs'.
Qed.

Lemma host_serves fs states : let _ := host_of fs states in storage_served pairConfig fs states.
Proof.
  split; [reflexivity|]. split.
  - intros i Hi. assert (os_ReadFile (Join [cfg_StorageDir pairConfig; written_name i])
      = match fs !! root_file i with Some str => Ok (String.list_byte_of_string str) | None => Err "no such file"%string end) as ->.
    { assert (Hk : i ∈ seqZ 0 8) by (apply elem_of_seqZ; exact Hi). clear Hi.
      revert i Hk. apply Forall_forall. repeat constructor. }
    destruct (fs !! root_file i); eauto.
  - intros i root db Hi Hl. exists db. split; [|reflexivity].
    assert (leveldb_New (Join [cfg_StorageDir pairConfig; pretty i])
      = match states !! Z.to_nat i with Some (_, db) => Ok db | None => Err "no database"%string end) as ->.
    { assert (Hk : i ∈ seqZ 0 8) by (apply elem_of_seqZ; exact Hi). clear Hi Hl.
      revert i Hk. apply Forall_forall. repeat constructor. }
    by rewrite Hl.
Qed.

