(* ===== verification/Routes.v ===== *)
(** * Routes: the HTTP interface of the nodes

    The route tables of [setupRoutes] in internal/orchestrator/service.go and
    internal/shard/server.go, and the addresses the nodes use to reach each other.
    gorilla/mux is a parameter with its documented matching: routes are tried in the
    order they were added, a segment [{x}] of a template matches one segment of the
    path, and any other segment matches itself. *)

From stdpp Require Import pretty.
From S2P Require Import Prelude Codec Protocol VmState Startup.

Open Scope Z_scope.

(** ** Routers *)

Inductive Method := GET | POST.
#[export] Instance Method_eq_dec : EqDecision Method.
Proof. solve_decision. Defined.

(** [router.HandleFunc(template, handler).Methods(method)] *)
Record Route (H : Type) := mkRoute { rt_template : string; rt_handler : H; rt_method : Method }.
Arguments mkRoute {H} _ _ _.
Arguments rt_template {H} _.
Arguments rt_handler {H} _.
Arguments rt_method {H} _.

(** Matching a path against a template: the variables by name. *)
Class Mux := { mux_match : string → string → option (list (string * string)) }.

(** The first route that matches path and method. *)
Fixpoint dispatch {H} `{Mux} (routes : list (Route H)) (method : Method) (path : string) : option (H * list (string * string)) :=
  match routes with
  | [] => None
  | r :: routes' =>
      match mux_match (rt_template r) path with
      | Some vars => if decide (rt_method r = method) then Some (rt_handler r, vars) else dispatch routes' method path
      | None => dispatch routes' method path
      end
  end.

(** The name in a segment [{name}]. *)
Definition var_name (seg : string) : option string :=
  match seg with
  | String.String c rest =>
      if Ascii.eqb c (Ascii.ascii_of_nat 123) then
        match rev (String.list_ascii_of_string rest) with
        | c' :: name =>
            if Ascii.eqb c' (Ascii.ascii_of_nat 125) then Some (String.string_of_list_ascii (rev name)) else None
        | [] => None
        end
      else None
  | String.EmptyString => None
  end.

Fixpoint match_segments (template path : list string) : option (list (string * string)) :=
  match template, path with
  | [], [] => Some []
  | t :: ts, p :: ps =>
      match var_name t with
      | Some x => if decide (p = "")%string then None else vars ← match_segments ts ps; Some ((x, p) :: vars)
      | None => if decide (t = p) then match_segments ts ps else None
      end
  | _, _ => None
  end.

(** Documented: how templates without patterns match. *)
Class MuxLaws `{Mux} := {
  mux_match_spec t p : mux_match t p = match_segments (split_slash t) (split_slash p)
}.

(** ** The tables *)

Inductive orchestrator_handler : Type :=
| OHandleSubmit | OHandleCall | OHandleStatus | OHandleSimulationStatus | OHandleStateShardBlock
| OHandleGetLatestBlock | OHandleGetBlock | OHandleHealth | OHandleShards.

Definition orchestrator_routes : list (Route orchestrator_handler) := [
  mkRoute "/cross-shard/submit" OHandleSubmit POST;
  mkRoute "/cross-shard/call" OHandleCall POST;
  mkRoute "/cross-shard/status/{txid}" OHandleStatus GET;
  mkRoute "/cross-shard/simulation/{txid}" OHandleSimulationStatus GET;
  mkRoute "/state-shard/block" OHandleStateShardBlock POST;
  mkRoute "/block/latest" OHandleGetLatestBlock GET;
  mkRoute "/block/{height}" OHandleGetBlock GET;
  mkRoute "/health" OHandleHealth GET;
  mkRoute "/shards" OHandleShards GET
]%string.

Inductive shard_handler : Type :=
| SHandleGetBalance | SHandleLocalTransfer | SHandleFaucet | SHandleDeploy | SHandleCall | SHandleStaticCall
| SHandleGetCode | SHandleSetCode | SHandleGetStorage | SHandleGetStateRoot | SHandlePrepare | SHandleCommit
| SHandleAbort | SHandleCredit | SHandleStateFetch | SHandleRwSet | SHandleCrossShardTransfer | SHandleTxSubmit
| SHandleOrchestratorShardBlock | SHandleHealth | SHandleInfo | SHandleJSONRPC.

Definition shard_routes : list (Route shard_handler) := [
  mkRoute "/balance/{address}" SHandleGetBalance GET;
  mkRoute "/transfer" SHandleLocalTransfer POST;
  mkRoute "/faucet" SHandleFaucet POST;
  mkRoute "/evm/deploy" SHandleDeploy POST;
  mkRoute "/evm/call" SHandleCall POST;
  mkRoute "/evm/staticcall" SHandleStaticCall POST;
  mkRoute "/evm/code/{address}" SHandleGetCode GET;
  mkRoute "/evm/setcode" SHandleSetCode POST;
  mkRoute "/evm/storage/{address}/{slot}" SHandleGetStorage GET;
  mkRoute "/evm/stateroot" SHandleGetStateRoot GET;
  mkRoute "/cross-shard/prepare" SHandlePrepare POST;
  mkRoute "/cross-shard/commit" SHandleCommit POST;
  mkRoute "/cross-shard/abort" SHandleAbort POST;
  mkRoute "/cross-shard/credit" SHandleCredit POST;
  mkRoute "/state/fetch" SHandleStateFetch POST;
  mkRoute "/rw-set" SHandleRwSet POST;
  mkRoute "/cross-shard/transfer" SHandleCrossShardTransfer POST;
  mkRoute "/tx/submit" SHandleTxSubmit POST;
  mkRoute "/orchestrator-shard/block" SHandleOrchestratorShardBlock POST;
  mkRoute "/health" SHandleHealth GET;
  mkRoute "/info" SHandleInfo GET;
  mkRoute "/" SHandleJSONRPC POST
]%string.

(** ** The requests of the nodes *)

(** [shardURL] of the service and of the fetcher: the same name. *)
Definition shardURL (shardID : Z) : string :=
  String.append "http://shard-" (String.append (pretty shardID) ":8545").

(** What a node asks of the orchestrator, or of a shard; the path after the host. *)
Inductive node_request : Type :=
| SendStateShardBlock
| FetchLatestBlock
| FetchBlock (height : Z)
| SendOrchestratorBlock
| FetchState
| FetchStorage (addr slot : string)
| ForwardCode.

Definition request_line (r : node_request) : Method * string :=
  match r with
  | SendStateShardBlock => (POST, "/state-shard/block")
  | FetchLatestBlock => (GET, "/block/latest")
  | FetchBlock height => (GET, String.append "/block/" (pretty height))
  | SendOrchestratorBlock => (POST, "/orchestrator-shard/block")
  | FetchState => (POST, "/state/fetch")
  | FetchStorage addr slot =>
      (GET, String.append "/evm/storage/" (String.append addr (String.String slash slot)))
  | ForwardCode => (POST, "/evm/setcode")
  end%string.

(** ** The requests arrive *)

(** A segment: not empty, no slash. *)
Fixpoint no_slash (s : string) : bool :=
  match s with String.EmptyString => true | String.String c s' => negb (Ascii.eqb c slash) && no_slash s' end.

Definition segment (s : string) : Prop := no_slash s = true ∧ s ≠ ""%string.

Lemma split_slash_cons s : ∃ l ls, split_slash s = l :: ls.
Proof. induction s as [|c s (l&ls&IH)]; simpl; [by eexists _, _|]. rewrite IH. case_match; by eexists _, _. Qed.

Lemma split_segment s : no_slash s = true → split_slash s = [s].
Proof.
  induction s as [|c s IH]; simpl; [done|]. intros [Hc Hs]%andb_true_iff. rewrite (IH Hs).
  by apply negb_true_iff in Hc as ->.
Qed.

Lemma split_segments s t :
  no_slash s = true → split_slash (String.append s (String.String slash t)) = s :: split_slash t.
Proof.
  induction s as [|c s IH]; intros Hs.
  - change (String.append _ _) with (String.String slash t). cbn [split_slash].
    by destruct (split_slash_cons t) as (l&ls&->).
  - simpl in Hs. apply andb_true_iff in Hs as [Hc Hs]. apply negb_true_iff in Hc.
    change (String.append (String.String c s) (String.String slash t)) with (String.String c (String.append s (String.String slash t))).
    cbn [split_slash]. by rewrite (IH Hs), Hc.
Qed.

(** Printed numbers are made of digits. *)
Fixpoint numeral (s : string) : bool :=
  match s with
  | String.EmptyString => true
  | String.String c s' => (Ascii.eqb c (Ascii.ascii_of_nat 45) || (digit_val c <? 10)) && numeral s'
  end.

Lemma pretty_N_go_numeral x s : numeral s = true → numeral (pretty_N_go x s) = true.
Proof.
  revert s. induction (N.lt_wf_0 x) as [x _ IH]. intros s Hs. destruct (decide (x = 0)%N) as [->|Hx]; [done|].
  rewrite pretty_N_go_step by lia. apply IH; [apply N.div_lt; lia|]. cbn [numeral]. rewrite Hs, andb_true_r.
  unfold pretty_N_char. by repeat case_match.
Qed.

Lemma pretty_numeral (z : Z) : numeral (pretty z) = true.
Proof.
  destruct z as [|p|p]; [done|..].
  - apply (pretty_N_go_numeral (N.pos p) ""%string). done.
  - change (numeral (String.append "-" (pretty_N_go (N.pos p) "")) = true). apply (pretty_N_go_numeral (N.pos p) ""%string). done.
Qed.

Lemma pretty_N_go_cons x s : s ≠ ""%string → pretty_N_go x s ≠ ""%string.
Proof.
  revert s. induction (N.lt_wf_0 x) as [x _ IH]. intros s Hs. destruct (decide (x = 0)%N) as [->|Hx]; [by rewrite pretty_N_go_0|].
  rewrite pretty_N_go_step by lia. apply IH; [apply N.div_lt; lia|done].
Qed.

Lemma pretty_nonempty (z : Z) : pretty z ≠ ""%string.
Proof.
  destruct z as [|p|p]; [done| |done]. change (pretty (Z.pos p)) with (pretty_N_go (N.pos p) "").
  rewrite pretty_N_go_step by lia. by apply pretty_N_go_cons.
Qed.

Lemma numeral_no_slash s : numeral s = true → no_slash s = true.
Proof.
  induction s as [|c s IH]; [done|]. simpl. intros [Hc Hs]%andb_true_iff. rewrite (IH Hs), andb_true_r.
  destruct (Ascii.eqb_spec c slash) as [->|]; [discriminate Hc|done].
Qed.

Section routing.
Context `{MuxLaws}.

(** The handler a request of a node is meant for, and the variables it needs. *)
Definition served_by_orchestrator (r : node_request) : option (orchestrator_handler * list (string * string)) :=
  match r with
  | SendStateShardBlock => Some (OHandleStateShardBlock, [])
  | FetchLatestBlock => Some (OHandleGetLatestBlock, [])
  | FetchBlock height => Some (OHandleGetBlock, [("height"%string, pretty height)])
  | _ => None
  end.

Definition served_by_shard (r : node_request) : option (shard_handler * list (string * string)) :=
  match r with
  | SendOrchestratorBlock => Some (SHandleOrchestratorShardBlock, [])
  | FetchState => Some (SHandleStateFetch, [])
  | FetchStorage addr slot => Some (SHandleGetStorage, [("address"%string, addr); ("slot"%string, slot)])
  | ForwardCode => Some (SHandleSetCode, [])
  | _ => None
  end.

(** Dispatch on the segments of a path. *)
Fixpoint route_to {X} (routes : list (Route X)) (method : Method) (path : list string) : option (X * list (string * string)) :=
  match routes with
  | [] => None
  | r :: routes' =>
      match match_segments (split_slash (rt_template r)) path with
      | Some vars => if decide (rt_method r = method) then Some (rt_handler r, vars) else route_to routes' method path
      | None => route_to routes' method path
      end
  end.

Lemma dispatch_segments {X} (routes : list (Route X)) method path :
  dispatch routes method path = route_to routes method (split_slash path).
Proof. induction routes as [|r routes IH]; [done|]. cbn [dispatch route_to]. by rewrite mux_match_spec, IH. Qed.

Lemma route_skip {X} (r : Route X) routes method path :
  match_segments (split_slash (rt_template r)) path = None → route_to (r :: routes) method path = route_to routes method path.
Proof. intros Hm. cbn [route_to]. by rewrite Hm. Qed.

Lemma route_hit {X} (r : Route X) routes method path vars :
  match_segments (split_slash (rt_template r)) path = Some vars → rt_method r = method →
  route_to (r :: routes) method path = Some (rt_handler r, vars).
Proof. intros Hm Hr. cbn [route_to]. by rewrite Hm, decide_True. Qed.

Lemma block_path (h : Z) : split_slash (String.append "/block/" (pretty h)) = [""; "block"; pretty h]%string.
Proof.
  change (String.append "/block/" (pretty h)) with (String.String slash (String.append "block" (String.String slash (pretty h)))).
  cbn [split_slash]. rewrite split_segments by done. by rewrite split_segment by apply numeral_no_slash, pretty_numeral.
Qed.

Lemma storage_path addr slot :
  segment addr → segment slot →
  split_slash (String.append "/evm/storage/" (String.append addr (String.String slash slot))) = [""; "evm"; "storage"; addr; slot]%string.
Proof.
  intros [Ha _] [Hs _].
  change (String.append "/evm/storage/" ?t) with
    (String.String slash (String.append "evm" (String.String slash (String.append "storage" (String.String slash t))))).
  cbn [split_slash]. rewrite !split_segments by done. by rewrite split_segment.
Qed.

End routing.

(** ** Witness *)

#[local] Instance segment_mux : Mux := { mux_match t p := match_segments (split_slash t) (split_slash p) }.
#[local] Instance segment_mux_laws : MuxLaws.
Proof. by split. Qed.

