(* ===== verification/System.v ===== *)
(** * System: the orchestrator and the shards together

    One transition system for the whole deployment: the orchestrator node of
    [Service], a shard node of [ShardServer] per number, and the messages between
    them. Orchestrator blocks may reach a shard late, repeatedly and in any order;
    the blocks of the shards may reach the orchestrator repeatedly, in any order or
    never. A shard may restart at any time: it loses its chain and replays what the
    orchestrator still answers. The theorem is atomic commitment across the shards. *)

From S2P Require Import Prelude Codec Protocol BlockBuffer VmState MemDB TrackingDB EvmState ShardChain SlotLocks TxOrder ShardBlock FundLocks ShardServer ServerBlocks StorageProof BytecodeStore SimStateDB StateFetcher ShardQueries SimProofs Simulator OrchestratorChain TwoPhase TpcSpec Service Receipts JsonRpc.

Open Scope Z_scope.

(** ** Transitions *)

(** The nodes, and for the statements: the blocks the shards sent, the events of
    the orchestrator, and the shards that were restarted. *)
Record System (N D DB : Type) := mkSystem {
  sys_service : Service N D;
  sys_shards : Z → Server DB;
  sys_sent : list StateShardBlock;
  sys_events : list svc_event;
  sys_restarted : gset Z
}.
Arguments mkSystem {N D DB} _ _ _ _ _.
Arguments sys_service {N D DB} _.
Arguments sys_shards {N D DB} _.
Arguments sys_sent {N D DB} _.
Arguments sys_events {N D DB} _.
Arguments sys_restarted {N D DB} _.

Definition set_at {A} (f : Z → A) (i : Z) (x : A) : Z → A := λ j, if decide (j = i) then x else f j.

Section system.
Context {N D : Type} `{Net N} `{EthDB D} {DB : Type} `{GethStateDBLaws DB} `{Geth} `{!GethLaws} `{GethHex} `{TrieCodec}
  `{EVM} `{!EVMLaws} `{Uint256} `{MapRange} {T : Type} `{!MerkleTrie DB T} {J : Type} `{RpcCodec J}.
(** The hashes of the two kinds of blocks, the identifiers each shard draws, their
    bytes, and when the orchestrator was started. *)
Context (Hash : OrchestratorShardBlock → BlockHash) (SHash : StateShardBlock → BlockHash)
  (uuid : Z → nat → string) (string_bytes : string → list byte) (t0 : Z).
Implicit Types (y : System N D DB) (s : Server DB).

(** The requests of clients and of other shards that a shard serves. *)
Inductive request_step (uuid : nat → string) s : Server DB → Prop :=
| ReqLocalTransfer req r s' : handleLocalTransfer s req = Some (r, s') → request_step uuid s s'
| ReqFaucet req r s' : handleFaucet s req = Some (r, s') → request_step uuid s s'
| ReqPrepare req : request_step uuid s (handlePrepare s req).2
| ReqCommit req r s' : handleCommit s req = Some (r, s') → request_step uuid s s'
| ReqAbort req : request_step uuid s (handleAbort s req).2
| ReqCredit req r s' : handleCredit s req = Some (r, s') → request_step uuid s s'
| ReqCrossShardTransfer req : request_step uuid s (handleCrossShardTransfer uuid s req).2
| ReqDeploy req sent r m s' : handleDeploy s req sent = Some (r, m, s') → request_step uuid s s'
| ReqSetCode req : request_step uuid s (handleSetCode s req).2
| ReqCall req r s' : ShardServer.handleCall s req = Some (r, s') → request_step uuid s s'
| ReqStaticCall req : request_step uuid s (handleStaticCall s req).2
| ReqStateFetch a : request_step uuid s (handleStateFetch s a).2
| ReqRwSet req r s' : handleRwSet s req = Some (r, s') → request_step uuid s s'
| ReqTxSubmit req r s' : handleTxSubmit uuid s req = Some (r, s') → request_step uuid s s'
| ReqGetBalance a : request_step uuid s (handleGetBalance s a).2
| ReqGetCode a : request_step uuid s (handleGetCode s a).2
| ReqGetStorage a k p : request_step uuid s (handleGetStorage s a k p).2
| ReqJSONRPC (req : jsonRPCRequest J) r s' :
    handleJSONRPC uuid string_bytes s req = Some (r, s') → request_step uuid s s'.

(** Starting a shard again on some state of its database: a new chain and buffer,
    then the blocks the orchestrator [v] still answers ([fetch] may fail). *)
Definition answers (v : Service N D) (latest : option Z) (fetch : Z → option OrchestratorShardBlock) : Prop :=
  (∀ h, latest = Some h → ∃ b, handleGetLatestBlock v = SvcLatest h b) ∧
  ∀ h b, fetch h = Some b → handleGetBlock v (Some h) = SvcBlock b.

Definition restarted (i : Z) (db : DB) (now : Z) (latest : option Z) (fetch : Z → option OrchestratorShardBlock) : Server DB :=
  recoverFromOrchestrator (uuid i) (fresh_server i db now) latest fetch.

(** An event of the orchestrator other than a block of a shard. *)
Definition own_event (ev : svc_event) : bool :=
  match ev with EvShardBlock (Ok _) => false | _ => true end.

Inductive sys_step : System N D DB → System N D DB → Prop :=
| SysOrchestrator v sh sent evs rs ev v' :
    own_event ev = true → svc_step Hash v ev = Some v' →
    sys_step (mkSystem v sh sent evs rs) (mkSystem v' sh sent (evs ++ [ev]) rs)
| SysVotes v sh sent evs rs b v' :
    b ∈ sent → svc_step Hash v (EvShardBlock (Ok b)) = Some v' →
    sys_step (mkSystem v sh sent evs rs) (mkSystem v' sh sent (evs ++ [EvShardBlock (Ok b)]) rs)
| SysDeliver v sh sent evs rs i b :
    b ∈ oc_blocks (lg_chain (svc_ledger v)) →
    sys_step (mkSystem v sh sent evs rs)
      (mkSystem v (set_at sh i (handleOrchestratorShardBlock (uuid i) (sh i) b).2) sent evs rs)
| SysShardTick v sh sent evs rs i now b s' :
    shardTick SHash (sh i) now = Some (b, s') →
    sys_step (mkSystem v sh sent evs rs) (mkSystem v (set_at sh i s') (sent ++ option_list b) evs rs)
| SysRequest v sh sent evs rs i s' :
    request_step (uuid i) (sh i) s' →
    sys_step (mkSystem v sh sent evs rs) (mkSystem v (set_at sh i s') sent evs rs)
| SysRestart v sh sent evs rs i db now latest fetch :
    answers v latest fetch →
    sys_step (mkSystem v sh sent evs rs)
      (mkSystem v (set_at sh i (restarted i db now latest fetch)) sent evs ({[i]} ∪ rs)).

(** A deployment of [n] shards with the given state databases. *)
Definition sys_init (n : Z) (net : N) (db : D) (dbs : Z → DB) (now : Z → Z) : System N D DB :=
  mkSystem (NewService n net db t0) (λ i, fresh_server i (dbs i) (now i)) [] [] ∅.

(** ** What a shard acts on *)

(** The types that carry out a decision, and the decision. *)
Definition acts_on (ty : TxType) : option bool :=
  match ty with
  | TxTypeCrossDebit | TxTypeCrossCredit | TxTypeCrossWriteSet | TxTypeFinalize => Some true
  | TxTypeCrossAbort => Some false
  | _ => None
  end.

(** Queued for the next block, or in a block of the shard. *)
Definition taken_up s (tx : Transaction) : Prop :=
  tx ∈ sc_currentTxs (sv_chain s) ∨ ∃ b, b ∈ sc_blocks (sv_chain s) ∧ tx ∈ sb_TxOrdering b.

(** Published by the orchestrator. *)
Definition decided (blocks : list OrchestratorShardBlock) (id : string) (v : bool) : Prop :=
  ∃ b, b ∈ blocks ∧ ob_TpcResult b !! id = Some v.

Definition backed (blocks : list OrchestratorShardBlock) (tx : Transaction) : Prop :=
  ∀ v, acts_on (tx_TxType tx) = Some v → decided blocks (tx_CrossShardTxID tx) v.

Definition shard_ok (blocks : list OrchestratorShardBlock) (i : Z) s : Prop :=
  sv_shardID s = i ∧ sc_shardID (sv_chain s) = i ∧ (∀ tx, taken_up s tx → backed blocks tx) ∧
  ∀ h b, bb_buffered (sv_blockBuffer s) !! h = Some b → b ∈ blocks.

Lemma backed_mono blocks blocks' tx : (∀ b, b ∈ blocks → b ∈ blocks') → backed blocks tx → backed blocks' tx.
Proof. intros Hs Hb v Hv. destruct (Hb v Hv) as (b&?&?). exists b. eauto. Qed.

Lemma shard_ok_mono blocks blocks' i s :
  (∀ b, b ∈ blocks → b ∈ blocks') → shard_ok blocks i s → shard_ok blocks' i s.
Proof.
  intros Hs (?&?&Ht&Hb). split_and!; [done|done| |eauto]. intros. eapply backed_mono; eauto.
Qed.

(** A change of a shard that keeps its identity, its blocks and its buffer, and
    queues only what is backed. *)
Definition grows (blocks : list OrchestratorShardBlock) s s' : Prop :=
  sv_shardID s' = sv_shardID s ∧ sc_shardID (sv_chain s') = sc_shardID (sv_chain s) ∧
  sc_blocks (sv_chain s') = sc_blocks (sv_chain s) ∧
  ∀ tx, tx ∈ sc_currentTxs (sv_chain s') → tx ∈ sc_currentTxs (sv_chain s) ∨ backed blocks tx.

Lemma grows_refl blocks s : grows blocks s s.
Proof. split_and!; auto. Qed.

Lemma grows_trans blocks s1 s2 s3 : grows blocks s1 s2 → grows blocks s2 s3 → grows blocks s1 s3.
Proof.
  intros (?&?&?&Hq) (?&?&?&Hq'). split_and!; [congruence..|].
  intros tx [Hin|Hin]%Hq'; [by apply Hq|by right].
Qed.

Lemma grows_ok blocks i s s' :
  grows blocks s s' → (∀ h b, bb_buffered (sv_blockBuffer s') !! h = Some b → b ∈ blocks) →
  shard_ok blocks i s → shard_ok blocks i s'.
Proof.
  intros (Hi&Hc&Hb&Hq) Hbuf (?&?&Ht&_). split_and!; [congruence..| |done].
  intros tx [[Hin|Hin]%Hq|(b&Hin&?)]; [apply Ht; by left|done|].
  apply Ht. right. exists b. by rewrite <- Hb.
Qed.

(** Changes of anything but the queue. *)
Lemma grows_same blocks s s' :
  sv_shardID s' = sv_shardID s → sc_shardID (sv_chain s') = sc_shardID (sv_chain s) →
  sc_blocks (sv_chain s') = sc_blocks (sv_chain s) → sc_currentTxs (sv_chain s') = sc_currentTxs (sv_chain s) →
  grows blocks s s'.
Proof. intros ??? Hq. split_and!; [done..|]. rewrite Hq. auto. Qed.

Lemma grows_queue u blocks s ty id from to v rws :
  (∀ w, acts_on ty = Some w → decided blocks id w) → grows blocks s (queue u s ty id from to v rws).
Proof.
  intros Hd. split_and!; [done..|]. simpl. intros tx [Hin| ->%list_elem_of_singleton]%elem_of_app; [by left|].
  right. done.
Qed.

Lemma grows_credits u blocks id credits s :
  decided blocks id true →
  grows blocks s (foldl (λ s credit, queue u s TxTypeCrossCredit id 0 (pc_Address credit)
                           (NewBigInt (Some (pc_Amount credit))) []) s credits).
Proof.
  intros Hd. revert s. induction credits as [|x l IH]; intros s; [apply grows_refl|]. simpl.
  eapply grows_trans; [|apply IH]. apply grows_queue. by intros w [= <-].
Qed.

Lemma grows_commit u blocks s id : decided blocks id true → grows blocks s (queue_commit u s id).
Proof.
  intros Hd. assert (Hq : ∀ s ty from to v rws, acts_on ty = Some true → grows blocks s (queue u s ty id from to v rws)).
  { intros. apply grows_queue. intros w Hw. by replace w with true by congruence. }
  unfold queue_commit. cbv zeta.
  set (s1 := match GetLockedFunds (sv_chain s) id with Some _ => _ | None => s end).
  assert (H1' : grows blocks s s1) by (unfold s1; destruct (GetLockedFunds _ _); [by apply Hq|apply grows_refl]).
  set (s2 := match GetPendingCredits (sv_chain s1) id with Some _ => _ | None => s1 end).
  assert (H2' : grows blocks s1 s2)
    by (unfold s2; destruct (GetPendingCredits _ _); [by apply grows_credits|apply grows_refl]).
  set (s3 := match GetPendingCall (sv_chain s2) id with Some _ => _ | None => s2 end).
  assert (H3' : grows blocks s2 s3).
  { unfold s3. destruct (GetPendingCall _ _); [|apply grows_refl]. destruct (local_rwset _ _); [apply grows_refl|by apply Hq]. }
  eapply grows_trans; [done|]. eapply grows_trans; [done|]. eapply grows_trans; [done|].
  destruct (GetPendingRwSet _ id) as [[|? ?]|]; [apply grows_refl|by apply Hq|apply grows_refl].
Qed.

Lemma grows_result u blocks s id v : decided blocks id v → grows blocks s (process_result u s id v).
Proof.
  intros Hd. unfold process_result, CheckAndMarkCommitProcessed.
  destruct ((sc_processedCommits (sv_chain s)).[id; false]); simpl; [by apply grows_same|].
  eapply grows_trans; [|by apply grows_queue].
  eapply grows_trans; [by apply (grows_same _ _ (with_chain s (MarkCommitProcessed (sv_chain s) id)))|].
  destruct v; [by apply grows_commit|]. unfold queue_abort. destruct (_ || _); [|apply grows_refl].
  apply grows_queue. by intros w [= <-].
Qed.

Lemma grows_order u blocks s tx : grows blocks s (order_tx u s tx).
Proof.
  assert (Hc : ∀ s, grows blocks s (store_credit s tx))
    by (intros s'; unfold store_credit; destruct (_ && _); [by apply grows_same|apply grows_refl]).
  unfold order_tx. destruct (_ =? _).
  { eapply grows_trans; [apply Hc|by apply grows_queue]. }
  destruct (local_rwset _ _); [apply grows_refl|]. eapply grows_trans; [apply Hc|].
  eapply grows_trans; [|by apply grows_queue]. destruct (ct_Data tx); [apply grows_refl|by apply grows_same].
Qed.

Lemma grows_foldl {A} blocks (f : Server DB → A → Server DB) l s :
  (∀ s x, x ∈ l → grows blocks s (f s x)) → grows blocks s (foldl f s l).
Proof.
  revert s. induction l as [|x l IH]; intros s Hf; [apply grows_refl|]. simpl.
  eapply grows_trans; [apply Hf, list_elem_of_here|]. apply IH. intros. by apply Hf, list_elem_of_further.
Qed.

Lemma grows_block u blocks s b : b ∈ blocks → grows blocks s (processOrchestratorBlock u s b).
Proof.
  intros Hb. unfold processOrchestratorBlock. destruct (_ <=? _); [apply grows_refl|]. cbv zeta.
  eapply grows_trans; [|eapply grows_trans; [|by apply grows_same]].
  - apply (grows_foldl _ (λ s '(id, v), process_result u s id v)). intros s' [id v] Hin%elem_of_map_range.
    apply grows_result. by exists b.
  - apply grows_foldl. intros. apply grows_order.
Qed.

(** What the buffer releases came from the buffer, or just arrived. *)
Lemma drain_from fuel e m res e' m' res' :
  drain fuel e m res = (e', m', res') →
  (∀ x, x ∈ res' → x ∈ res ∨ ∃ h, m !! h = Some x) ∧ (∀ h x, m' !! h = Some x → m !! h = Some x).
Proof.
  revert e m res. induction fuel as [|fuel IH]; intros e m res; simpl; [intros [= <- <- <-]; auto|].
  destruct (m !! e) as [next|] eqn:He; [|intros [= <- <- <-]; auto].
  intros [Hr Hm]%IH. split.
  - intros x [[Hin| ->%list_elem_of_singleton]%elem_of_app|[h Hh]]%Hr; [by left|by right; exists e|].
    right. exists h. by apply lookup_delete_Some in Hh as [_ ?].
  - intros h x Hx%Hm. by apply lookup_delete_Some in Hx as [_ ?].
Qed.

Lemma ProcessBlock_from bb b r bb' (P : OrchestratorShardBlock → Prop) :
  ProcessBlock bb b = (r, bb') → P b → (∀ h x, bb_buffered bb !! h = Some x → P x) →
  (∀ l x, r = Some l → x ∈ l → P x) ∧ (∀ h x, bb_buffered bb' !! h = Some x → P x).
Proof.
  intros Hp Hb Hbuf. unfold ProcessBlock in Hp. destruct (_ =? _).
  - destruct (drain _ _ _ _) as [[e m] res] eqn:Hd. injection Hp as <- <-.
    apply drain_from in Hd as [Hr Hm]. split.
    + intros l x [= <-] [->%list_elem_of_singleton|[h Hh]]%Hr; [done|by eapply Hbuf].
    + intros h x Hx. by eapply Hbuf, Hm.
  - destruct (_ <? _); [|injection Hp as <- <-; split; [done|done]].
    destruct (_ <=? _); [injection Hp as <- <-; split; [done|done]|].
    case_decide; [injection Hp as <- <-; split; [done|done]|]. injection Hp as <- <-. split; [done|].
    simpl. intros h x [[<- <-]|[_ Hx]]%lookup_insert_Some; [done|by eapply Hbuf].
Qed.

Lemma process_all_buffer u l s : sv_blockBuffer (foldl (processOrchestratorBlock u) s l) = sv_blockBuffer s.
Proof. revert s. induction l as [|x l IH]; intros s; [done|]. simpl. by rewrite IH, processBlock_keeps_buffer. Qed.

(** Recovery processes the blocks it fetched. *)
Lemma recover_blocks u s latest fetch :
  ∃ l, (∀ b, b ∈ l → ∃ h, fetch h = Some b) ∧
    recoverFromOrchestrator u s latest fetch = foldl (processOrchestratorBlock u) s l.
Proof.
  unfold recoverFromOrchestrator. destruct latest as [h|]; [|exists []; split; [by intros b ?%not_elem_of_nil|done]].
  cbv zeta. destruct (_ <=? _); [exists []; split; [by intros b ?%not_elem_of_nil|done]|].
  generalize (seqZ (GetLastOrchestratorHeight (sv_chain s) + 1) (h - GetLastOrchestratorHeight (sv_chain s))) as hs.
  intros hs. exists (omap fetch hs). split.
  - intros b (k&_&Hk)%list_elem_of_omap. by exists k.
  - revert s. induction hs as [|k hs IH]; intros s; [done|]. simpl. rewrite IH. by destruct (fetch k).
Qed.

Lemma deliver_ok u blocks i s b :
  b ∈ blocks → shard_ok blocks i s →
  let s' := (handleOrchestratorShardBlock u s b).2 in grows blocks s s' ∧ shard_ok blocks i s'.
Proof.
  intros Hb Hs. pose proof Hs as (_&_&_&Hbuf). unfold handleOrchestratorShardBlock.
  destruct (ProcessBlock (sv_blockBuffer s) b) as [r bb] eqn:Hp.
  destruct (ProcessBlock_from _ _ _ _ (λ x, x ∈ blocks) Hp Hb Hbuf) as [Hr Hbuf'].
  set (s1 := mkServer _ _ _ bb _ _). assert (Hg : grows blocks s s1) by (by apply grows_same).
  destruct r as [l|]; simpl; [|split; [done|by apply (grows_ok _ _ s)]].
  assert (Hg' : grows blocks s (foldl (processOrchestratorBlock u) s1 l)).
  { eapply grows_trans; [done|]. apply grows_foldl. intros s' x Hx. apply grows_block. by eapply Hr. }
  split; [done|]. apply (grows_ok _ _ s); [done| |done]. by rewrite process_all_buffer.
Qed.

(** A block of a shard takes up queued transactions. *)
Lemma shardTick_ok blocks i s now ob s' :
  shard_ok blocks i s → shardTick SHash s now = Some (ob, s') →
  shard_ok blocks i s' ∧ ∀ b, ob = Some b → sb_ShardID b = i.
Proof.
  intros (Hi&Hc&Ht&Hbuf) (((ob'&c')&e')&Hp&[= <- <-])%bind_Some.
  unfold shard_ok, taken_up. destruct ob' as [b|].
  - apply ProduceBlock_inv in Hp as (l&c1&e1&root&prev&Htxs&_&_&->&->).
    apply process_txs_replays in Htxs as (_&Hsub&Hsid&Hblk&_). simpl. split; [|intros b [= <-]; simpl; congruence].
    split_and!; [done|congruence| |done]. intros tx [Hin|(b&Hin&Htx)]; [by apply not_elem_of_nil in Hin|].
    apply elem_of_app in Hin as [Hin| ->%list_elem_of_singleton].
    + apply Ht. right. exists b. by rewrite <- Hblk.
    + apply Ht. left. simpl in Htx. apply (elem_of_sublist _ _ _ Htx) in Hsub. by rewrite sort_perm in Hsub.
  - unfold ShardChain.ProduceBlock in Hp. destruct (process_txs _ _ _ _) as [[[l c1] e1]|] eqn:Htxs; [|done].
    apply process_txs_replays in Htxs as (_&_&Hsid&Hblk&_&Hcur&_).
    destruct (Commit _ _) as [[root|] e2]; [by destruct (sc_blocks c1 !! _)|]. injection Hp as <- <-.
    split; [|done]. simpl. rewrite Hblk, Hcur. split_and!; [done|congruence|apply Ht|done].
Qed.

Lemma ClearLock_same c id :
  let c' := ClearLock c id in
  sc_shardID c' = sc_shardID c ∧ sc_blocks c' = sc_blocks c ∧ sc_currentTxs c' = sc_currentTxs c.
Proof. unfold ClearLock, clear_lock_with. cbv zeta. repeat case_match; done. Qed.

(** Requests queue local transactions only. *)
Lemma request_ok u blocks i s s' :
  request_step u s s' → shard_ok blocks i s → grows blocks s s' ∧ shard_ok blocks i s'.
Proof.
  intros Hr Hs. enough (grows blocks s s' ∧ sv_blockBuffer s' = sv_blockBuffer s) as [Hg Hb].
  { split; [done|]. apply (grows_ok _ _ s); [done| |done]. rewrite Hb. apply Hs. }
  clear Hs.
  destruct Hr as [req r s' Hr|req r s' Hr|req|req r s' Hr|req|req r s' Hr|req|req sent r m s' Hr|req
    |req r s' Hr|req|a|req r s' Hr|req r s' Hr|a|a|a k pr|req r s' Hr].
  - unfold handleLocalTransfer in Hr. repeat case_match; simplify_eq/=; (split; [by apply grows_same|done]).
  - unfold handleFaucet in Hr. repeat case_match; simplify_eq/=; (split; [by apply grows_same|done]).
  - unfold handlePrepare. repeat case_match; simplify_eq/=; (split; [by apply grows_same|done]).
  - destruct (ClearLock_same (sv_chain s) (cr_TxID req)) as (Hid&Hblk&Hcur). unfold handleCommit in Hr. repeat case_match; simplify_eq/=;  (split; [by apply grows_same|done]).
  - destruct (ClearLock_same (sv_chain s) (cr_TxID req)) as (Hid&Hblk&Hcur). unfold handleAbort. repeat case_match; simplify_eq/=; (split; [by apply grows_same; simpl; rewrite ?Hid, ?Hblk, ?Hcur|done]).
  - unfold handleCredit in Hr. repeat case_match; simplify_eq/=; (split; [by apply grows_same|done]).
  - unfold handleCrossShardTransfer. repeat case_match; simplify_eq/=; (split; [by apply grows_same|done]).
  - unfold handleDeploy in Hr. repeat case_match; simplify_eq/=; (split; [by apply grows_same|done]).
  - unfold handleSetCode. repeat case_match; simplify_eq/=; (split; [by apply grows_same|done]).
  - unfold ShardServer.handleCall in Hr. repeat case_match; simplify_eq/=; (split; [by apply grows_same|done]).
  - unfold handleStaticCall. repeat case_match; simplify_eq/=; (split; [by apply grows_same|done]).
  - unfold handleStateFetch. repeat case_match; simplify_eq/=; (split; [by apply grows_same|done]).
  - unfold handleRwSet in Hr. repeat case_match; simplify_eq/=; (split; [by apply grows_same|done]).
  - unfold handleTxSubmit, submit_local, forwardToOrchestrator in Hr. repeat case_match; simplify_eq/=; try (split; [by apply grows_same|done]).
    all: split; [|done]; split_and!; [done..|]; simpl;
      intros tx [Hin| ->%list_elem_of_singleton]%elem_of_app; [by left|by right].
  - unfold handleGetBalance. repeat case_match; simplify_eq/=; (split; [by apply grows_same|done]).
  - unfold handleGetCode. repeat case_match; simplify_eq/=; (split; [by apply grows_same|done]).
  - unfold handleGetStorage. repeat case_match; simplify_eq/=; (split; [by apply grows_same|done]).
  - apply handleJSONRPC_keeps in Hr as (Hc&Hbuf&Hid). split; [|done]. apply grows_same; by rewrite ?Hc.
Qed.

(** A restarted shard queues only what is backed. *)
Lemma restarted_ok (v : Service N D) i db now latest fetch :
  answers v latest fetch → shard_ok (oc_blocks (lg_chain (svc_ledger v))) i (restarted i db now latest fetch).
Proof.
  intros [_ Hf]. unfold restarted. set (s := fresh_server i db now).
  assert (Hs : shard_ok (oc_blocks (lg_chain (svc_ledger v))) i s).
  { split_and!; [done|done| |done]. intros tx [Hin|(b&Hb&Hin)]; [by apply not_elem_of_nil in Hin|].
    apply list_elem_of_singleton in Hb as ->. by apply not_elem_of_nil in Hin. }
  assert (Hb : ∀ h b, fetch h = Some b → b ∈ oc_blocks (lg_chain (svc_ledger v))).
  { intros h b Hfb%Hf. unfold handleGetBlock, GetBlock in Hfb. case_match eqn:Hg; [|done].
    destruct (_ || _); [done|]. injection Hfb as ->. by eapply list_elem_of_lookup_2. }
  destruct (recover_blocks (uuid i) s latest fetch) as (l&Hl&Heq). rewrite Heq.
  assert (Hin : ∀ b, b ∈ l → b ∈ oc_blocks (lg_chain (svc_ledger v))) by (intros b [h ?]%Hl; by eapply Hb).
  apply (grows_ok _ _ s); [|rewrite process_all_buffer; apply Hs|done].
  apply grows_foldl. intros. by apply grows_block, Hin.
Qed.

(** ** The orchestrator's blocks stay *)

Definition chain_of (v : Service N D) : OrchestratorChain := lg_chain (svc_ledger v).

Lemma RecordVote_blocks c id i v : oc_blocks (RecordVote c id i v).2 = oc_blocks c.
Proof. by destruct (RecordVote_cases c id i v). Qed.

Lemma record_votes_blocks i votes (v : Service N D) :
  oc_blocks (chain_of (foldl (λ w '(id, b), record_vote w i id b) v votes)) = oc_blocks (chain_of v).
Proof.
  revert v. induction votes as [|[id b] votes IH]; intros v; [done|]. simpl. rewrite IH.
  unfold record_vote. pose proof (RecordVote_blocks (chain_of v) id i b) as Hr. unfold chain_of in *.
  by destruct (RecordVote _ _ _ _) as [[|] c].
Qed.

Lemma publish_results_chain results (v : Service N D) :
  chain_of (foldl (λ w '(id, b), publish_result w id b) v results) = chain_of v.
Proof. revert v. induction results as [|[id b] results IH]; intros v; [done|]. simpl. by rewrite IH. Qed.

Lemma svc_step_blocks (v : Service N D) ev v' b :
  svc_step Hash v ev = Some v' → b ∈ oc_blocks (chain_of v) → b ∈ oc_blocks (chain_of v').
Proof.
  intros Hs Hb. destruct ev as [body u|body u now|body|now|now|now|tx|]; simpl in Hs.
  - injection Hs as <-. unfold handleSubmit. by repeat (case_match; try done).
  - apply fmap_Some in Hs as ([r v1]&Hc&->). unfold Service.handleCall in Hc.
    destruct body as [tx|msg]; [|by injection Hc as _ <-]. case_match; [by injection Hc as _ <-|].
    by apply bind_Some in Hc as ([err m]&_&[= _ <-]).
  - injection Hs as <-. destruct body as [blk|msg]; [|done]. simpl. by rewrite record_votes_blocks.
  - apply fmap_Some in Hs as ([blk v1]&Hp&->). apply bind_Some in Hp as ([blk' c]&Hp&[= <- <-]).
    cbn [snd]. rewrite publish_results_chain. unfold OrchestratorChain.ProduceBlock in Hp.
    apply bind_Some in Hp as (prev&_&[= <- <-]). simpl.
    destruct (foldl_start_frame (u64_add (oc_height (checkTimeouts (chain_of v)).2) 1)
      (oc_pendingTxs (checkTimeouts (chain_of v)).2) (checkTimeouts (chain_of v)).2) as (Hf&_).
    destruct (checkTimeouts_frame (chain_of v)) as (Ht&_). cbv zeta in Hf.
    apply elem_of_app. left. change (b ∈ oc_blocks (foldl (start_voting (u64_add (oc_height (checkTimeouts (chain_of v)).2) 1))
      (checkTimeouts (chain_of v)).2 (oc_pendingTxs (checkTimeouts (chain_of v)).2))). by rewrite Hf, Ht.
  - unfold simulateNext in Hs. destruct (sim_queue (svc_simulator v)) as [|job q]; [by injection Hs as <-|].
    apply bind_Some in Hs as ([m g]&Hrun&[= <-]).
    apply finishSimulation_spec in Hrun as (_&_&_&res&db&r&_&_&_&Hc).
    destruct (execErr res db); by destruct Hc as (_&_&->).
  - by injection Hs as <-.
  - by injection Hs as <-.
  - injection Hs as <-. unfold Close. destruct (svc_closed v); [done|]. by destruct (sf_Close _).
Qed.

(** ** The invariant *)

Record sys_ok y : Prop := {
  so_service : svc_ok Hash t0 (sys_events y) (sys_service y);
  so_votes b : EvShardBlock (Ok b) ∈ sys_events y → b ∈ sys_sent y;
  so_sent b : b ∈ sys_sent y → sb_ShardID b ∉ sys_restarted y → b ∈ sc_blocks (sv_chain (sys_shards y (sb_ShardID b)));
  so_shards i : shard_ok (oc_blocks (chain_of (sys_service y))) i (sys_shards y i)
}.

Lemma sys_init_ok n net db dbs now : sys_ok (sys_init n net db dbs now).
Proof.
  split.
  - apply NewService_ok.
  - intros b Hb. by apply not_elem_of_nil in Hb.
  - intros b Hb. by apply not_elem_of_nil in Hb.
  - intros i. split_and!; [done|done| |done]. intros tx [Hin|(b&Hb&Hin)].
    + by apply not_elem_of_nil in Hin.
    + apply list_elem_of_singleton in Hb as ->. by apply not_elem_of_nil in Hin.
Qed.

Lemma shardTick_blocks s now ob s' b :
  shardTick SHash s now = Some (ob, s') →
  (b ∈ sc_blocks (sv_chain s) ∨ ob = Some b) → b ∈ sc_blocks (sv_chain s').
Proof.
  intros (((ob'&c')&e')&Hp&[= <- <-])%bind_Some Hb. simpl. destruct ob' as [b'|].
  - apply ProduceBlock_inv in Hp as (l&c1&e1&root&prev&Htxs&_&_&->&->).
    apply process_txs_replays in Htxs as (_&_&_&Hblk&_). simpl. rewrite Hblk. apply elem_of_app.
    destruct Hb as [|[= ->]]; [by left|right; apply list_elem_of_here].
  - destruct Hb as [Hb|]; [|done]. unfold ShardChain.ProduceBlock in Hp.
    destruct (process_txs _ _ _ _) as [[[l c1] e1]|] eqn:Htxs; [|done].
    apply process_txs_replays in Htxs as (_&_&_&Hblk&_).
    destruct (Commit _ _) as [[root|] e2]; [by destruct (sc_blocks c1 !! _)|]. injection Hp as <- <-. by rewrite Hblk.
Qed.

(** A step of one shard that keeps its blocks. *)
Lemma sys_shard_step v sh sent evs rs i s' sent' :
  sys_ok (mkSystem v sh sent evs rs) → shard_ok (oc_blocks (chain_of v)) i s' →
  (∀ b, b ∈ sc_blocks (sv_chain (sh i)) → b ∈ sc_blocks (sv_chain s')) →
  (∀ b, b ∈ sent' → b ∈ sent ∨ sb_ShardID b = i ∧ b ∈ sc_blocks (sv_chain s')) → (∀ b, b ∈ sent → b ∈ sent') →
  sys_ok (mkSystem v (set_at sh i s') sent' evs rs).
Proof.
  intros [Hv He Hs Hi] Hs' Hmono Hnew Hkeep. simpl in *. split; simpl; [done|by intros b Hb%He; apply Hkeep| |].
  - intros b Hb Hrs. unfold set_at. apply Hnew in Hb as [Hb|[Hid Hb]].
    + apply Hs in Hb; [|done]. case_decide as Hd; [|done]. rewrite Hd in Hb. by apply Hmono.
    + by rewrite decide_True.
  - intros j. unfold set_at. case_decide as Hd; [by rewrite Hd|apply Hi].
Qed.

(** A step of the orchestrator. *)
Lemma sys_service_step v sh sent evs rs ev v' :
  sys_ok (mkSystem v sh sent evs rs) → svc_step Hash v ev = Some v' →
  (∀ b, ev = EvShardBlock (Ok b) → b ∈ sent) → sys_ok (mkSystem v' sh sent (evs ++ [ev]) rs).
Proof.
  intros [Hv He Hs Hi] Hst Hev. simpl in *. split; simpl; [by eapply svc_step_ok| |done|].
  - intros b [Hb|Hb%list_elem_of_singleton]%elem_of_app; [by apply He|by apply Hev].
  - intros i. eapply shard_ok_mono; [|apply Hi]. intros b Hb. by eapply svc_step_blocks.
Qed.

Lemma sys_step_ok y y' : sys_step y y' → sys_ok y → sys_ok y'.
Proof.
  destruct 1 as [v sh sent evs rs ev v' Hown Hst|v sh sent evs rs b v' Hb Hst|v sh sent evs rs i b Hb
    |v sh sent evs rs i now b s' Ht|v sh sent evs rs i s' Hr|v sh sent evs rs i db now latest fetch Ha];
    intros Hok; pose proof Hok as [Hv He Hs Hi]; cbn [sys_service sys_shards sys_sent sys_events sys_restarted] in Hv, He, Hs, Hi.
  - eapply sys_service_step; [done..|]. by intros b ->.
  - eapply sys_service_step; [done..|]. by intros b' [= <-].
  - destruct (deliver_ok (uuid i) _ i (sh i) b Hb (Hi i)) as [(_&_&Hblk&_) Hs'].
    apply (sys_shard_step v sh sent evs rs i _ sent); [done|done| |by left|done]. intros b'. by rewrite Hblk.
  - destruct (shardTick_ok _ i _ _ _ _ (Hi i) Ht) as [Hs' Hid].
    apply (sys_shard_step v sh sent evs rs i s'); [done|done| | |].
    + intros b' Hb'. eapply shardTick_blocks; [done|by left].
    + intros b' [Hb'|Hb']%elem_of_app; [by left|right]. destruct b as [b|]; [|by apply not_elem_of_nil in Hb'].
      apply list_elem_of_singleton in Hb' as ->. split; [by apply Hid|]. eapply shardTick_blocks; [done|by right].
    + intros b' Hb'. apply elem_of_app. by left.
  - destruct (request_ok (uuid i) _ i _ _ Hr (Hi i)) as [(_&_&Hblk&_) Hs'].
    apply (sys_shard_step v sh sent evs rs i s' sent); [done|done| |by left|done]. intros b'. by rewrite Hblk.
  - split; simpl; [done|done| |].
    + intros b Hb Hrs. unfold set_at. rewrite decide_False by set_solver. apply Hs; [done|set_solver].
    + intros j. unfold set_at. case_decide as Hd; [|apply Hi]. subst j. by apply restarted_ok.
Qed.

Lemma sys_reach_ok n net db dbs now y : rtc sys_step (sys_init n net db dbs now) y → sys_ok y.
Proof.
  intros Hr. pose proof (sys_init_ok n net db dbs now) as Hi.
  induction Hr as [|y1 y2 y3 Hs _ IH]; [done|]. by eapply IH, sys_step_ok.
Qed.

(** ** Distinct identifiers *)

(** The identifiers of the transactions ordered so far and of those queued. *)
Definition chain_ids (c : OrchestratorChain) : list string :=
  (oc_blocks c ≫= λ b, map ct_ID (ob_CtToOrder b)) ++ map ct_ID (oc_pendingTxs c).

Lemma orch_step_ids c op c' :
  orch_step Hash c op = Some c' → chain_ids c' = chain_ids c ++ submitted [op] ∧ oc_blocks c `prefix_of` oc_blocks c'.
Proof.
  unfold chain_ids. destruct op as [tx|id i v|now| |k]; cbn [orch_step].
  - intros [= <-]. simpl. rewrite map_app, <- (assoc_L (++)). done.
  - intros Hs%Some_inj. subst c'. change (submitted [OpVote id i v]) with (@nil string).
    rewrite RecordVote_blocks, app_nil_r.
    by replace (oc_pendingTxs (RecordVote c id i v).2) with (oc_pendingTxs c) by (by destruct (RecordVote_cases c id i v)).
  - intros ([blk c1]&Hp&->)%fmap_Some. destruct (checkTimeouts_frame c) as (Hb&_&Hpend&_).
    assert (ob_CtToOrder blk = map CrossShardTx_DeepCopy (oc_pendingTxs (checkTimeouts c).2)) as Hct
      by (unfold OrchestratorChain.ProduceBlock in Hp; by apply bind_Some in Hp as (prev&_&[= <- <-])).
    apply ProduceBlock_seal in Hp as (->&_). unfold seal. cbn [snd oc_blocks oc_pendingTxs].
    destruct (foldl_start_frame (u64_add (oc_height (checkTimeouts c).2) 1) (oc_pendingTxs (checkTimeouts c).2)
      (checkTimeouts c).2) as (->&_). rewrite Hb. split; [|by apply prefix_app_r].
    rewrite bind_app. cbn [mbind list_bind map]. rewrite Hct, Hpend, !app_nil_r, map_map. done.
  - intros Hs%Some_inj. subst c'. destruct (checkTimeouts_frame c) as (Hb&_&Hp&_). cbv zeta in *.
    change (submitted [OpTimeouts]) with (@nil string). unfold CheckTimeouts. by rewrite Hb, Hp, app_nil_r.
  - intros [= <-]. simpl. by rewrite app_nil_r.
Qed.

Lemma orch_run_ids c ops c' :
  orch_run Hash c ops = Some c' → chain_ids c' = chain_ids c ++ submitted ops ∧ oc_blocks c `prefix_of` oc_blocks c'.
Proof.
  revert c. induction ops as [|op ops IH]; intros c; simpl; [intros [= ->]; by rewrite app_nil_r|].
  intros (c1&Hs&Hr)%bind_Some. apply IH in Hr as [-> Hp]. apply orch_step_ids in Hs as [-> Hp1].
  split; [|by etrans]. unfold submitted. simpl. rewrite <- (assoc_L (++)). by destruct (op_submits op).
Qed.

(** A run with distinct identifiers is well formed as long as its heights fit. *)
Lemma orch_run_wf past c ops c' :
  oc_wf Hash c → known past c → NoDup (submitted (past ++ ops)) → orch_run Hash c ops = Some c' →
  Z.of_nat (length (oc_blocks c')) < two64 → oc_wf Hash c'.
Proof.
  revert past c. induction ops as [|op ops IH]; intros past c Hwf Hk Hnd Hr Hlen.
  { by injection Hr as <-. }
  pose proof (orch_run_ids _ _ _ Hr) as [_ Hp%prefix_length]. simpl in Hr.
  pose proof (oc_wf_length _ _ Hwf) as Hl. pose proof (oc_wf_nonneg _ _ Hwf).
  destruct (run_step Hash past c op ops) as (c1&Hs&Hwf1&Hk1&_); [done..|lia|].
  rewrite Hs in Hr. eapply (IH (past ++ [op])); [done|done| |done|done]. by rewrite <- (assoc_L (++)).
Qed.

Lemma decided_agree c id v w :
  oc_wf Hash c → decided (oc_blocks c) id v → decided (oc_blocks c) id w → v = w.
Proof.
  intros Hwf (b&[i Hi]%list_elem_of_lookup&Hv) (b'&[j Hj]%list_elem_of_lookup&Hw).
  pose proof (oc_wf_once _ _ Hwf id) as Hone. unfold decisions in Hone.
  destruct (Nat.lt_total i j) as [?|[->|?]].
  - destruct (omap_at_most_once _ _ _ _ _ _ _ _ Hi Hj Hv Hw Hone); lia.
  - congruence.
  - destruct (omap_at_most_once _ _ _ _ _ _ _ _ Hj Hi Hw Hv Hone); lia.
Qed.

(** ** Atomic commitment *)

(** C1. Atomic commitment across the deployment. However client requests, simulations,
    block productions and message deliveries interleave, with messages late,
    repeated, reordered or lost, and with shards restarting: when a shard has taken
    up the debit, credit, write set or finalisation of a cross-shard transaction,
    then a transaction of that identifier was requested, and every shard it involves
    has sent a YES vote for it in a block, which is still on its chain unless the
    shard was restarted; and as long as the orchestrator's transactions have distinct
    identifiers, no shard ever takes up an abort of it. *)
Theorem atomic_commitment n net db dbs now y i t :
  rtc sys_step (sys_init n net db dbs now) y →
  taken_up (sys_shards y i) t → acts_on (tx_TxType t) = Some true →
  (∃ tx, requested (sys_events y) tx ∧ ct_ID tx = tx_CrossShardTxID t ∧
     ∀ k, k ∈ InvolvedShards tx →
       ∃ b, b ∈ sys_sent y ∧ sb_ShardID b = k ∧ sb_TpcPrepare b !! tx_CrossShardTxID t = Some true ∧
         (k ∉ sys_restarted y → b ∈ sc_blocks (sv_chain (sys_shards y k)))) ∧
  (NoDup (chain_ids (chain_of (sys_service y))) →
   Z.of_nat (length (oc_blocks (chain_of (sys_service y)))) < two64 →
   ∀ j t', taken_up (sys_shards y j) t' → tx_CrossShardTxID t' = tx_CrossShardTxID t →
     acts_on (tx_TxType t') ≠ Some false).
Proof.
  intros [[(ops&Hrun&Hfrom&_) _] Hv Hs Hsh]%sys_reach_ok Ht Hact.
  destruct (Hsh i) as (_&_&Hback&_). pose proof (Hback _ Ht _ Hact) as Hdec.
  split.
  - pose proof (justified_run Hash [] _ _ _ (justified_New t0) Hrun) as Hj.
    destruct Hdec as (b&Hb&Hr). destruct (j_blocks _ _ Hj b _ Hb Hr) as (tx&Hadd&Hid&Hvotes).
    exists tx. split_and!; [by apply (Hfrom _ Hadd)|done|]. intros k Hk.
    destruct (Hfrom _ (Hvotes k Hk)) as (blk&Hin&<-&Hpv). exists blk. split_and!; [by apply Hv|done|done|]. by apply Hs, Hv.
  - intros Hnd Hlen j t' Ht' Hid Hab. destruct (Hsh j) as (_&_&Hback'&_).
    pose proof (Hback' _ Ht' _ Hab) as Hdec'. rewrite Hid in Hdec'.
    apply orch_run_ids in Hrun as Hids. destruct Hids as [Hids _]. unfold chain_of in *. rewrite Hids in Hnd. simpl in Hnd.
    assert (oc_wf Hash (lg_chain (svc_ledger (sys_service y)))) as Hwf.
    { eapply (orch_run_wf []); [apply oc_wf_New|apply known_New|exact Hnd|exact Hrun|exact Hlen]. }
    by pose proof (decided_agree _ _ _ _ Hwf Hdec Hdec').
Qed.
End system.

(** ** Schedules *)

Definition answered {N D} (v : Service N D) (h : Z) : option OrchestratorShardBlock :=
  match handleGetBlock v (Some h) with SvcBlock b => Some b | _ => None end.

(** Steps by number: an event of the orchestrator, the votes of the [k]-th block
    sent, the [k]-th orchestrator block to shard [i], a tick of shard [i], a client's
    transfer at shard [i], a restart of shard [i] that finds the orchestrator. *)
Inductive action (DB : Type) : Type :=
| ActEvent (ev : svc_event)
| ActVotes (k : nat)
| ActDeliver (i : Z) (k : nat)
| ActTick (i now : Z)
| ActTransfer (i : Z) (req : CrossShardTransferRequest)
| ActRestart (i : Z) (db : DB) (now : Z).
Arguments ActEvent {DB} ev.
Arguments ActVotes {DB} k.
Arguments ActDeliver {DB} i k.
Arguments ActTick {DB} i now.
Arguments ActTransfer {DB} i req.
Arguments ActRestart {DB} i db now.

Section schedules.
Context {N D : Type} `{Net N} `{EthDB D} {DB : Type} `{GethStateDB DB} `{Geth} `{GethHex} `{TrieCodec}
  `{EVM} `{Uint256} `{MapRange} {T : Type} `{!MerkleTrie DB T} {J : Type} `{RpcCodec J}.
Context (Hash : OrchestratorShardBlock → BlockHash) (SHash : StateShardBlock → BlockHash)
  (uuid : Z → nat → string) (string_bytes : string → list byte).
Implicit Types (y : System N D DB).

Definition act y (a : action DB) : option (System N D DB) :=
  let '(mkSystem v sh sent evs rs) := y in
  match a with
  | ActEvent ev =>
      if own_event ev then v' ← svc_step Hash v ev; Some (mkSystem v' sh sent (evs ++ [ev]) rs) else None
  | ActVotes k =>
      b ← sent !! k; v' ← svc_step Hash v (EvShardBlock (Ok b));
      Some (mkSystem v' sh sent (evs ++ [EvShardBlock (Ok b)]) rs)
  | ActDeliver i k =>
      b ← oc_blocks (lg_chain (svc_ledger v)) !! k;
      Some (mkSystem v (set_at sh i (handleOrchestratorShardBlock (uuid i) (sh i) b).2) sent evs rs)
  | ActTick i now =>
      '(b, s') ← shardTick SHash (sh i) now; Some (mkSystem v (set_at sh i s') (sent ++ option_list b) evs rs)
  | ActTransfer i req =>
      Some (mkSystem v (set_at sh i (handleCrossShardTransfer (uuid i) (sh i) req).2) sent evs rs)
  | ActRestart i db now =>
      Some (mkSystem v (set_at sh i (restarted uuid i db now (Some (GetHeight (lg_chain (svc_ledger v)))) (answered v)))
              sent evs ({[i]} ∪ rs))
  end.

Lemma act_step y a y' : act y a = Some y' → sys_step (T := T) (J := J) Hash SHash uuid string_bytes y y'.
Proof.
  destruct y as [v sh sent evs rs], a as [ev|k|i k|i now|i req|i db now]; cbn [act].
  - destruct (own_event ev) eqn:Ho; [|done]. intros (v'&Hs&[= <-])%bind_Some. by apply SysOrchestrator.
  - intros (b&Hb&(v'&Hs&[= <-])%bind_Some)%bind_Some. apply SysVotes; [by eapply list_elem_of_lookup_2|done].
  - intros (b&Hb&[= <-])%bind_Some. apply SysDeliver. by eapply list_elem_of_lookup_2.
  - intros ([b s']&Ht&[= <-])%bind_Some. by eapply SysShardTick.
  - intros Hs%Some_inj. subst y'. apply SysRequest, ReqCrossShardTransfer.
  - intros Hs%Some_inj. subst y'. apply SysRestart. split.
    + intros h [= <-]. by eexists.
    + intros h b. unfold answered. by destruct (handleGetBlock v (Some h)); intros [= <-].
Qed.

Fixpoint acts y (l : list (action DB)) : option (System N D DB) :=
  match l with
  | [] => Some y
  | a :: l' => y' ← act y a; acts y' l'
  end.

Lemma acts_reach y l y' : acts y l = Some y' → rtc (sys_step (T := T) (J := J) Hash SHash uuid string_bytes) y y'.
Proof.
  revert y. induction l as [|a l IH]; intros y; simpl; [intros [= ->]; apply rtc_refl|].
  intros (y1&Ha&Hl)%bind_Some. eapply rtc_l; [by eapply act_step|by apply IH].
Qed.

Lemma acts_app y l l' : acts y (l ++ l') = y' ← acts y l; acts y' l'.
Proof. revert y. induction l as [|a l IH]; intros y; [done|]. simpl. destruct (act y a); [apply IH|done]. Qed.
End schedules.

(** ** Witness *)

#[local] Existing Instance list_range.
#[local] Existing Instance toy_codec.
#[local] Existing Instances toy_tries plain_codec.

Definition sampleSystem : System (ShardNet MemDB) (gmap (list byte) (list byte)) MemDB :=
  sys_init 0 2 twoShards ∅ (λ _, set_bal emptyMem 8 100) (λ _, 0).

Definition freshName (i : Z) (n : nat) : string := "u".

Definition noBytes (s : string) : list byte := [].

(** A transfer is submitted and ordered; both shards lock and vote; the target shard
    restarts; the commit is published and reaches the source shard. *)
Definition sampleActions : list (action MemDB) :=
  [ActEvent (EvSubmit (Ok sampleTransfer) "u"); ActEvent (EvTick 1); ActDeliver 0 1; ActDeliver 1 1;
   ActTick 0 0; ActTick 1 0; ActVotes 1; ActVotes 0; ActRestart 1 emptyMem 0; ActEvent (EvTick 2); ActDeliver 0 2].

Definition carries_commit (tx : Transaction) : bool :=
  bool_decide (acts_on (tx_TxType tx) = Some true) && bool_decide (tx_CrossShardTxID tx = "a"%string).

Lemma atomic_commitment_witness :
  ∃ y, rtc (sys_step ob_Height sb_Height freshName noBytes) sampleSystem y ∧
    ∃ tx, requested (sys_events y) tx ∧ ct_ID tx = "a"%string ∧
      ∀ k, k ∈ InvolvedShards tx →
        ∃ b, b ∈ sys_sent y ∧ sb_ShardID b = k ∧ sb_TpcPrepare b !! "a"%string = Some true ∧
          (k ∉ sys_restarted y → b ∈ sc_blocks (sv_chain (sys_shards y k))).
Proof.
  assert (match acts ob_Height sb_Height freshName sampleSystem sampleActions with
          | Some y => existsb carries_commit (sc_currentTxs (sv_chain (sys_shards y 0)))
          | None => false
          end = true) as Hrun by (vm_compute; reflexivity).
  destruct (acts ob_Height sb_Height freshName sampleSystem sampleActions) as [y|] eqn:Hy; [|discriminate Hrun].
  exists y. apply (acts_reach (T := Z) (J := Z + txArgs) _ _ _ noBytes) in Hy. split; [exact Hy|].
  apply existsb_exists in Hrun as (t&Hin%list_elem_of_In&[Ha%bool_decide_eq_true Hid%bool_decide_eq_true]%andb_true_iff).
  destruct (atomic_commitment ob_Height sb_Height freshName noBytes 0 2 twoShards ∅ (λ _, set_bal emptyMem 8 100) (λ _, 0)
    y 0 t Hy (or_introl Hin) Ha) as [(tx&Hreq&Hidt&Hv) _].
  rewrite Hid in Hidt, Hv. exists tx. split; [exact Hreq|]. split; [exact Hidt|exact Hv].
Defined.
