(* ===== verification/Commands.v ===== *)
(** * Commands: cmd/orchestrator and cmd/shard

    What the two programs build from their flags, their environment and the
    configuration file before they serve requests: [main] of
    cmd/orchestrator/main.go and of cmd/shard/main.go, and the opening of the
    bytecode store. The processes of docker-compose.yml, started on the storage of
    the genesis tool, are an initial state of [System]. *)

From stdpp Require Import pretty.
From S2P Require Import Prelude Codec Protocol BlockBuffer VmState MemDB TrackingDB EvmState ShardChain ShardServer ServerBlocks StorageProof BytecodeStore SimStateDB StateFetcher ShardQueries SimProofs Simulator OrchestratorChain Service Receipts JsonRpc Network Genesis Startup System.

Open Scope Z_scope.

(** ** What the programs use of Go *)

(** [strconv.Atoi]: an optional sign and decimal digits, within an int. *)
Definition Atoi (s : string) : option Z :=
  z ← SetString s 10; if (- 2 ^ 63 <=? z) && (z <? 2 ^ 63) then Some z else None.

(** The environment and the command line: an unset variable reads as empty, and a
    flag that is not given has its default. *)
Class Process (A : Type) := {
  Getenv : A → string → string;
  flag_Int : A → string → Z → Z;
  flag_String : A → string → string → string
}.

(** A store of bytecode on disk: [os.MkdirAll], opening LevelDB, and a store in
    memory. *)
Class BytecodeHost (D : Type) := {
  os_MkdirAll : string → option string;
  leveldb_bytecode : string → result string D;
  memory_bytecode : D
}.

(** [NewBytecodeStore] opens [path], or falls back to memory. *)
Definition open_bytecode {D} `{BytecodeHost D} (path : string) : D :=
  if decide (path = "")%string then memory_bytecode
  else match os_MkdirAll path with
       | Some _ => memory_bytecode
       | None => match leveldb_bytecode path with Err _ => memory_bytecode | Ok ldb => ldb end
       end.

(** An integer option: a variable that parses overrides the flag. *)
Definition env_Int {A} `{Process A} (a : A) (name : string) (flag : Z) : Z :=
  if decide (Getenv a name = "")%string then flag
  else match Atoi (Getenv a name) with Some n => n | None => flag end.

Definition env_String {A} `{Process A} (a : A) (name flag : string) : string :=
  if decide (Getenv a name = "")%string then flag else Getenv a name.

(** No configuration: no delays. *)
Definition network_config (cfg : result string Config) : NetworkConfig :=
  match cfg with Err _ => mkNetworkConfig false 0 0 | Ok cfg => cfg_Network cfg end.

(** [10*time.Second], in nanoseconds. *)
Definition HTTPClientTimeout : Z := 10000000000.

(** ** The programs *)

(** A node that serves requests: its state, the client of its requests, the port. *)
Record ShardNode (G DB : Type) := mkShardNode {
  sn_server : Server DB; sn_orchestrator : string; sn_httpClient : Client G; sn_port : Z
}.
Arguments mkShardNode {G DB} _ _ _ _.
Arguments sn_server {G DB} _.
Arguments sn_orchestrator {G DB} _.
Arguments sn_httpClient {G DB} _.
Arguments sn_port {G DB} _.

Record OrchestratorNode (G N D : Type) := mkOrchestratorNode {
  on_service : Service N D; on_httpClient : Client G; on_fetcherClient : Client G; on_port : Z
}.
Arguments mkOrchestratorNode {G N D} _ _ _ _.
Arguments on_service {G N D} _.
Arguments on_httpClient {G N D} _.
Arguments on_fetcherClient {G N D} _.
Arguments on_port {G N D} _.

Section orchestrator.
Context {A G N D : Type} `{Process A} `{BytecodeHost D} `{Rand G}.

(** [main] of cmd/orchestrator: [cfg] is what [LoadDefault] gives, [g1], [g2] the
    random sources of the two clients. [NewService] never fails. *)
Definition orchestrator_main (a : A) (cfg : result string Config) (net : N) (now : Z) (g1 g2 : G) : OrchestratorNode G N D :=
  let numShards := env_Int a "NUM_SHARDS" (flag_Int a "shards" 6) in
  let port := env_Int a "PORT" (flag_Int a "port" 8080) in
  let bytecodePath := env_String a "BYTECODE_STORE_PATH" (flag_String a "bytecode-path" "") in
  let networkConfig := network_config cfg in
  mkOrchestratorNode (NewService numShards net (open_bytecode bytecodePath) now)
    (NewHTTPClient networkConfig HTTPClientTimeout g1) (NewHTTPClient networkConfig HTTPClientTimeout g2) port.
End orchestrator.

Section shard.
Context {A G L DB : Type} `{Process A} `{!StateHost L DB} `{GethStateDB DB} `{MapRange} `{GethHex} `{TrieCodec} `{Rand G}.
Context (uuid : nat → string) (httpClient_Get : string → result string Response).
Context (json_block : list byte → result string OrchestratorShardBlock) (json_latest : list byte → result string Z).

(** The shard's number: the flag, or else SHARD_ID, which must then be a number. *)
Definition shard_id (a : A) : option Z :=
  let shardID := flag_Int a "id" (-1) in
  if shardID =? -1 then Atoi (Getenv a "SHARD_ID") else Some shardID.

(** [main] of cmd/shard; [None] is [log.Fatal]. *)
Definition shard_main (a : A) (now : Z) (g : G) : option (ShardNode G DB) :=
  shardID ← shard_id a;
  let port := env_Int a "PORT" (flag_Int a "port" 8545) in
  let orchestrator := env_String a "ORCHESTRATOR_URL" (flag_String a "orchestrator" "http://shard-orch:8080") in
  let networkConfig := network_config (LoadDefault os_ReadFile json_Config) in
  server ← NewServer uuid httpClient_Get json_block json_latest shardID orchestrator now;
  Some (mkShardNode server orchestrator (NewHTTPClient networkConfig HTTPClientTimeout g) port).
End shard.

(** ** The deployment of docker-compose.yml *)

(** A process with no command line. *)
#[export] Instance environment : Process (string → string) := {
  Getenv env name := env name;
  flag_Int _ _ default := default;
  flag_String _ _ default := default
}.

Definition env_of (vars : list (string * string)) (name : string) : string :=
  match list_find (λ v, v.1 = name) vars with Some (_, (_, value)) => value | None => "" end.

Definition orchestrator_env : string → string :=
  env_of [("NUM_SHARDS", "8"); ("PORT", "8080"); ("BYTECODE_STORE_PATH", "/data/bytecode")]%string.

Definition shard_env (i : Z) : string → string :=
  env_of [("SHARD_ID", pretty i); ("PORT", "8545"); ("ORCHESTRATOR_URL", "http://shard-orch:8080")]%string.

Lemma shard_env_id i : 0 ≤ i < NumShards → shard_id (shard_env i) = Some i.
Proof.
  intros Hi. assert (Hk : i ∈ seqZ 0 8) by (apply elem_of_seqZ; exact Hi). clear Hi.
  revert i Hk. apply Forall_forall. repeat constructor.
Qed.

Section compose.
Context {G N D L DB : Type} `{Net N} `{EthDB D} `{BytecodeHost D} `{Rand G} `{!StateHost L DB} `{GenesisDBLaws DB}.
Context `{!Geth} `{EVM} `{MapRange} `{GenesisLibLaws} `{!GethHexLaws} `{!HashHexLaws} `{TrieCodec}.
Context `{Uint256} {T : Type} `{!MerkleTrie DB T} {J : Type} `{RpcCodec J}.
Context (OHash : OrchestratorShardBlock → BlockHash) (SHash : StateShardBlock → BlockHash) (string_bytes : string → list byte).
Context (uuid : Z → nat → string) (httpClient_Get : string → result string Response).
Context (json_block : list byte → result string OrchestratorShardBlock) (json_latest : list byte → result string Z).

Let run_shard (i now : Z) (g : G) : option (ShardNode G DB) :=
  shard_main (uuid i) httpClient_Get json_block json_latest (shard_env i) now g.

(** The genesis tool ran on an empty host, its storage is the one the shards see,
    and a shard can also start in memory. *)
Context (cfg : Config) (fs fs' : Files) (db0 mem : DB) (states : list (Hash * DB)).
Hypothesis addresses_once : NoDup fixed_addresses.
Hypothesis constructors : ∀ ty k, ty ∈ contract_types → 0 ≤ k < numContracts → quiet (DB := DB) (deployment ty k).
Hypothesis commits_succeed : ∀ db : DB, is_Some (sdb_Commit db 0).
Hypothesis roots_are_hashes : ∀ (db : DB) root db', sdb_Commit db 0 = Some (root, db') → is_u256 root.
Hypothesis no_roots : ∀ i, fs !! root_file i = None.
Hypothesis genesis_ran : create_storage (Ok cfg) fs db0 = Some (states, fs').
Hypothesis served : storage_served (L := L) cfg fs' states.
Hypothesis memory : state_New (L := L) EmptyRootHash NewMemoryDatabase = Ok mem.

(** The state a shard opens. *)
Definition opened (i : Z) : DB := match NewEVMState i with Ok e => es_stateDB e | Err _ => mem end.

Definition prepared_state (i : Z) (db : DB) : Prop :=
  if decide (i < cfg_ShardNum cfg) then shard_prepared cfg db0 i db else db = mem.

Lemma opened_spec i now :
  0 ≤ i < NumShards → NewServerForTest i now = Some (fresh_server i (opened i) now) ∧ prepared_state i (opened i).
Proof.
  intros Hi. destruct (create_storage_roots cfg fs db0 states fs' addresses_once constructors commits_succeed genesis_ran)
    as [Hin Hout]. unfold NewServerForTest, open_state, opened, prepared_state. case_decide as Hn.
  - destruct (Hin i (conj (proj1 Hi) Hn)) as (root&db&Hl&Hp&(db'&Hcm)&Hf).
    by rewrite (NewEVMState_reads cfg fs' states i root db served Hi Hl Hf (roots_are_hashes _ _ _ Hcm)).
  - destruct (NewEVMState_missing cfg fs' states i served Hi) as [err He]; [rewrite Hout by lia; apply no_roots|].
    rewrite He. unfold NewMemoryEVMState. by rewrite memory.
Qed.

(** The server of a shard process: a fresh one that caught up. *)
Lemma run_shard_spec i now g :
  0 ≤ i < NumShards →
  ∃ node, run_shard i now g = Some node ∧ sn_port node = 8545 ∧ sn_orchestrator node = "http://shard-orch:8080"%string ∧
    sn_server node = restarted uuid i (opened i) now
      (latest_height httpClient_Get json_latest "http://shard-orch:8080")
      (fetched_block httpClient_Get json_block "http://shard-orch:8080").
Proof.
  intros Hi. unfold run_shard, shard_main. rewrite shard_env_id by done. cbn [mbind option_bind].
  change (env_String (shard_env i) "ORCHESTRATOR_URL" _) with "http://shard-orch:8080"%string.
  change (env_Int (shard_env i) "PORT" _) with 8545. unfold NewServer.
  destruct (opened_spec i now Hi) as [-> _]. cbn [mbind option_bind]. eexists. split; [done|].
  split_and!; [done|done|]. cbn [sn_server]. unfold http_recover. by rewrite decide_False by done.
Qed.


End compose.

(** ** Witnesses *)

#[local] Existing Instances plain_hex plain_hex_laws seed_lib seed_lib_laws mem_genesis mem_genesis_laws echo_evm plain_hash_laws.
#[local] Existing Instances toy_codec toy_tries plain_codec list_range counting_rand.

(** No store on disk. *)
#[local] Instance no_disk : BytecodeHost (gmap (list byte) (list byte)) := {
  os_MkdirAll _ := None;
  leveldb_bytecode _ := Err "not a directory"%string;
  memory_bytecode := ∅
}.

Definition pairNet : ShardNet MemDB := mkShardNet (λ i, fresh_server i emptyMem 0).


