(* ===== verification/EndToEnd.v ===== *)
(** * EndToEnd: a cross-shard transfer from the request to the money

    The liveness side of [System]: under the regular schedule (request, orchestrator
    block, two shard blocks, votes, orchestrator block, two shard blocks) a transfer is
    carried out on both shards if the sender can pay and aborted on both if not. One
    lemma per round takes a shard, or the orchestrator, from the messages it needs to
    the state it is then in. *)

From S2P Require Import Prelude Codec Protocol BlockBuffer VmState MemDB TrackingDB EvmState ShardChain SlotLocks TxOrder ShardBlock FundLocks ShardServer ServerBlocks ServerHandlers StorageProof BytecodeStore SimStateDB StateFetcher ShardQueries SimProofs Simulator OrchestratorChain TwoPhase Service Receipts JsonRpc System.

Open Scope Z_scope.

Lemma map_range_empty `{MapRange} {K V} `{Countable K} : map_range (∅ : gmap K V) = [].
Proof. apply Permutation_nil_r. rewrite map_range_perm. by rewrite map_to_list_empty. Qed.

Lemma map_range_singleton `{MapRange} {K V} `{Countable K} (k : K) (v : V) : map_range {[k := v]} = [(k, v)].
Proof.
  apply Permutation_singleton_r. rewrite map_range_perm. by rewrite map_to_list_singleton.
Qed.

(** ** What the other transactions hold *)

(** The pending credits and call of [id] are the same; [kept] says the rest. *)
Definition rest (id : string) (c c' : Chain) : Prop :=
  sc_pendingCredits c' !! id = sc_pendingCredits c !! id ∧ sc_pendingCalls c' !! id = sc_pendingCalls c !! id.

#[export] Instance rest_preorder id : PreOrder (rest id).
Proof. split; [by intros c|]. intros x y z [] []. by split; etrans. Qed.

Lemma only_slots_rest id c c' : only_slots c c' → rest id c c'.
Proof. intros Ho. by rewrite Ho. Qed.

Section rest.
Context {DB : Type} `{GethStateDBLaws DB} `{Geth} `{!GethLaws} `{EVM} `{!EVMLaws} `{MapRange}.
Implicit Types (e : EVMState DB) (c : Chain).

Lemma clearLock_rest id c i : rest id c (clearLockLocked c i).
Proof. unfold clearLockLocked, clear_lock_with. by destruct (sc_locked c !! i). Qed.

Lemma unlockAll_rest id c i : rest id c (unlockAllSlotsForTxLocked c i).
Proof. destruct (unlockAll_spec c i) as (Ho&_&_). by apply only_slots_rest. Qed.

Lemma clearAll_rest id c i : id ≠ i → rest id c (clearAllMetadataLocked c i).
Proof.
  intros Hne. unfold clearAllMetadataLocked. etrans; [apply (clearLock_rest id c i)|].
  set (c1 := clearLockLocked c i). transitivity (clearPendingCallLocked (clearPendingCreditLocked c1 i) i).
  { split; cbn; by rewrite lookup_delete_ne. }
  etrans; [|by split]. apply unlockAll_rest.
Qed.

Lemma execution_rest id c tx : id ≠ tx_CrossShardTxID tx → rest id c (cleanupAfterExecutionLocked c tx).
Proof.
  intros Hne. unfold cleanupAfterExecutionLocked. set (i := tx_CrossShardTxID tx) in *. case_decide; [done|].
  destruct (tx_TxType tx); try done.
  - apply clearLock_rest.
  - unfold clearPendingCreditForAddressLocked. destruct (sc_pendingCredits c !! i) as [l|]; [|done].
    destruct (filter _ l); split; cbn; by rewrite ?lookup_delete_ne, ?lookup_insert_ne by done.
  - split; cbn; by rewrite ?lookup_delete_ne by done.
  - by apply clearAll_rest.
  - etrans; [|by apply clearAll_rest]. etrans; [apply (unlockAll_rest id c i)|by split].
Qed.

Lemma failure_rest id c tx : id ≠ tx_CrossShardTxID tx → rest id c (cleanupAfterFailureLocked c tx).
Proof.
  intros Hne. unfold cleanupAfterFailureLocked. destruct (tx_TxType tx); try done.
  etrans; [by apply (clearAll_rest id c (tx_CrossShardTxID tx))|by split].
Qed.

Lemma process_lock_rest id c e tx : id ≠ tx_CrossShardTxID tx → rest id c (process_lock c e tx).1.2.
Proof.
  intros Hne. unfold process_lock. assert (Hr : rest id c (reserve_funds c e tx).1.2).
  { unfold reserve_funds. destruct (0 <? _); [|done]. by destruct (CanDebit _ _ _ _) as [[] e1]. }
  destruct (reserve_funds c e tx) as [[[] c1] e1]; cbn in Hr |- *; [|etrans; [done|by apply failure_rest]].
  unfold validateAndLockReadSetLocked. pose proof (validate_loop_frame (tx_CrossShardTxID tx) (rw_reads (tx_RwSet tx)) [] c1 e1) as Hf.
  destruct (validate_loop _ _ _ _ _) as [[[x|] c2] e2]; destruct Hf as [Ho _]; apply (only_slots_rest id) in Ho; cbn.
  - etrans; [done|]. etrans; [done|]. etrans; [apply (clearLock_rest id c2 (tx_CrossShardTxID tx))|]. by apply failure_rest.
  - etrans; [done|]. etrans; [done|]. etrans; [|by apply execution_rest]. by split.
Qed.

Lemma process_txs_rest id c e txs l c' e' :
  process_txs c e txs [] = Some (l, c', e') → Forall (λ tx, id ≠ tx_CrossShardTxID tx) txs → rest id c c'.
Proof.
  revert c e l. induction txs as [|tx txs IH]; intros c e l; [by intros [= _ <- _] _|].
  rewrite process_txs_cons. intros (ok&c1&e1&l'&c2&e2&Hp&Hrest&[= -> -> ->]) [Hx Ht]%Forall_cons.
  etrans; [|by eapply IH]. clear IH Hrest. unfold process_tx in Hp. destruct (checkLocalTxLockConflict c tx); [by injection Hp as _ <- _|].
  case_decide.
  - injection Hp as Hp. pose proof (process_lock_rest id c e tx Hx) as Hr. by rewrite Hp in Hr.
  - unfold process_exec in Hp. destruct (es_Snapshot e) as [r e3].
    destruct (ExecuteTx e3 tx) as [[[err|] e4]|]; [| |done]; injection Hp as _ <- _; [by apply failure_rest|by apply execution_rest].
Qed.
End rest.

(** ** A shard between two rounds *)

Section shard.
Context {DB : Type} `{GethStateDBLaws DB} `{Geth} `{!GethLaws} `{GethHex} `{EVM} `{!EVMLaws} `{MapRange}.
Context (SHash : StateShardBlock → BlockHash) (uuid : nat → string).
Hypothesis commits_succeed : ∀ (db : DB) n, is_Some (sdb_Commit db n).
Implicit Types (s : Server DB) (c : Chain) (e : EVMState DB).

(** No votes to send, and [h] the last block of the orchestrator: the shard waits for
    its next block with the transactions [q], or for block [h + 1]. *)
Record waiting s (i h : Z) (q : list Transaction) : Prop := {
  id_server : sv_shardID s = i;
  id_shard : sc_shardID (sv_chain s) = i;
  id_queue : sc_currentTxs (sv_chain s) = q;
  id_votes : sc_prepares (sv_chain s) = ∅;
  id_last : sc_lastOrchestratorHeight (sv_chain s) = h;
  id_expected : bb_expected (sv_blockBuffer s) = h + 1;
  id_buffered : bb_buffered (sv_blockBuffer s) = ∅;
  id_height : 0 ≤ sc_height (sv_chain s);
  id_blocks : Z.of_nat (length (sc_blocks (sv_chain s))) = sc_height (sv_chain s) + 1;
  id_solvent : solvent (sv_chain s) (sv_evmState s)
}.

Definition idle s (i h : Z) : Prop := waiting s i h [].

(** What a shard holds for a transaction. *)
Definition holds c (id : string) (lock : option LockedFunds) (credits : option (list PendingCredit))
    (rws : option (list RwVariable)) : Prop :=
  sc_locked c !! id = lock ∧ sc_pendingCredits c !! id = credits ∧ sc_pendingCalls c !! id = None ∧
  sc_pendingRwSets c !! id = rws.

Definition undecided c (id : string) : Prop := sc_processedCommits c !! id = None.

Lemma clearAll_releases c id :
  let c' := clearAllMetadataLocked c id in
  sc_locked c' !! id = None ∧ sc_pendingCredits c' !! id = None ∧ sc_pendingCalls c' !! id = None ∧
  sc_pendingRwSets c' !! id = None.
Proof.
  cbv zeta. unfold clearAllMetadataLocked. destruct (clear_lock_frame slice_remove c id) as (_&_&_&_&_&Hl).
  change (clear_lock_with slice_remove c id) with (clearLockLocked c id) in Hl. set (c3 := clearLockLocked c id) in *.
  set (c4 := clearPendingCallLocked (clearPendingCreditLocked c3 id) id).
  destruct (unlockAll_spec c4 id) as (Ho&_&_). revert Ho. generalize (unlockAllSlotsForTxLocked c4 id) as c5. intros c5 ->.
  unfold c4. cbn. by rewrite !lookup_delete_eq.
Qed.

(** What the shard holds and has decided for the other transactions stays, and no
    identifier is drawn twice. *)
Definition advances s s' (id : string) : Prop :=
  (∀ id', id' ≠ id →
     (holds (sv_chain s) id' None None None → holds (sv_chain s') id' None None None) ∧
     sc_processedCommits (sv_chain s') !! id' = sc_processedCommits (sv_chain s) !! id') ∧
  (sv_uuids s ≤ sv_uuids s')%nat.

Lemma advances_trans s1 s2 s3 id : advances s1 s2 id → advances s2 s3 id → advances s1 s3 id.
Proof.
  intros [Ho1 Hu1] [Ho2 Hu2]. split; [|lia]. intros id' Hne. destruct (Ho1 id' Hne) as [Hh1 Hp1], (Ho2 id' Hne) as [Hh2 Hp2].
  split; [auto|congruence].
Qed.

Lemma process_txs_holds c e txs l c' e' id id' :
  process_txs c e txs [] = Some (l, c', e') → Forall (λ tx, tx_CrossShardTxID tx = id) txs → id' ≠ id →
  holds c id' None None None → holds c' id' None None None.
Proof.
  intros Hp Hids Hne (Hl&Hcr&Hca&Hrw).
  assert (Hne' : Forall (λ tx, id' ≠ tx_CrossShardTxID tx) txs) by (eapply Forall_impl; [exact Hids|]; naive_solver).
  destruct (process_txs_kept _ _ _ _ _ _ id' Hp) as (_&Kr&Kl&_); [eapply Forall_impl; [exact Hne'|]; by right|].
  destruct (process_txs_rest id' _ _ _ _ _ _ Hp Hne') as [Kc Ka]. unfold holds. by rewrite Kr, Kl, Kc, Ka.
Qed.

(** The next block is processed at once. *)
Lemma deliver_next s i h b :
  idle s i h → 0 ≤ h → h + 2 < two64 → ob_Height b = h + 1 →
  ∃ buf, bb_expected buf = h + 2 ∧ bb_buffered buf = ∅ ∧
    handleOrchestratorShardBlock uuid s b = (Success, processOrchestratorBlock uuid (set_buf s buf) b).
Proof.
  intros Hid Hh Hov Hb. unfold handleOrchestratorShardBlock, ProcessBlock. rewrite (id_expected _ _ _ _ Hid), (id_buffered _ _ _ _ Hid), Hb.
  rewrite Z.eqb_refl. rewrite map_size_empty. cbn [drain]. rewrite u64_add_small by lia.
  eexists _. split; [|split; [|reflexivity]]; [|done]. cbn. lia.
Qed.

(** A block the shard is past, for instance one of an orchestrator that was started
    again and counts from zero, is dropped: nothing is queued, so no vote is sent. *)
Lemma stale_block_dropped s i h q b :
  waiting s i h q → ob_Height b ≤ h → handleOrchestratorShardBlock uuid s b = (Buffered, s).
Proof.
  intros Hw Hb. unfold handleOrchestratorShardBlock, ProcessBlock. rewrite (id_expected _ _ _ _ Hw).
  rewrite (proj2 (Z.eqb_neq _ _)), (proj2 (Z.ltb_ge _ _)) by lia. by destruct s.
Qed.

(** The block of a tick, and what it leaves of the chain. *)
Definition sealed c (b : StateShardBlock) : Chain :=
  mkChain (sc_shardID c) (sc_blocks c ++ [b]) (u64_add (sc_height c) 1) [] [] ∅
    (sc_locked c) (sc_lockedByAddr c) (sc_pendingCredits c) (sc_pendingCalls c) (sc_slotLocks c) (sc_pendingRwSets c)
    (sc_lastOrchestratorHeight c) (sc_processedCommits c).

(** A tick with the queue [q] whose execution leaves [c1] and [e1]: a block with the
    votes of [c1], and the shard is idle again. *)
Lemma tick_seals s i h q now ok c1 e1 :
  waiting s i h q → sc_height (sv_chain s) + 1 < two64 →
  process_txs (sv_chain s) (sv_evmState s) (sortTransactionsByPriority q) [] = Some (ok, c1, e1) →
  same_blocks (sv_chain s) c1 → solvent c1 e1 →
  ∃ b s', shardTick SHash s now = Some (Some b, s') ∧ sb_ShardID b = i ∧ sb_TpcPrepare b = sc_prepares c1 ∧ idle s' i h ∧
    same_evm (sv_evmState s') e1 ∧ sc_height (sv_chain s') = sc_height (sv_chain s) + 1 ∧
    (∀ id lk cr rws, holds c1 id lk cr rws → holds (sv_chain s') id lk cr rws) ∧
    sc_processedCommits (sv_chain s') = sc_processedCommits (sv_chain s) ∧
    ∀ id, Forall (λ tx, tx_CrossShardTxID tx = id) q → advances s s' id.
Proof.
  intros Hw Hov Hp (Bi&Bb&Bh&_&_&Bl&Bd) Hs. pose proof (id_height _ _ _ _ Hw). pose proof (id_blocks _ _ _ _ Hw) as Hlen.
  unfold shardTick, ShardChain.ProduceBlock. rewrite (id_queue _ _ _ _ Hw), Hp. cbv zeta.
  destruct (commits_succeed (es_stateDB e1) (u64_add (sc_height c1) 1)) as [[root db] Hc].
  destruct (Commit e1 (u64_add (sc_height c1) 1)) as [r e2] eqn:Hcm. pose proof Hcm as Hsame.
  unfold Commit in Hcm. rewrite Hc in Hcm. injection Hcm as <- He2. apply Commit_same in Hsame.
  destruct (lookup_lt_is_Some_2 (sc_blocks c1) (Z.to_nat (sc_height c1))) as [prev Hprev]; [rewrite Bb, Bh; lia|]. rewrite Hprev.
  eexists _, (with_parts s (sealed c1 _) e2). split; [reflexivity|]. assert (sc_shardID c1 = i) by (rewrite Bi; apply Hw).
  split; [done|]. split; [done|]. split.
  { destruct Hw. split; cbn; try done; try congruence.
    - rewrite Bh, u64_add_small by lia. lia.
    - rewrite Bh, u64_add_small by lia. rewrite length_app, Bb. simpl. lia.
    - eapply solvent_same; [|apply (same_evm_bal e1); exact Hsame|exact Hs]. done. }
  split; [done|]. split; [cbn; rewrite Bh, u64_add_small by lia; done|]. split; [done|]. split; [exact Bd|].
  intros id Hids. split; [|done]. intros id' Hne. split; [|by cbn; rewrite Bd].
  apply (process_txs_holds _ _ _ _ c1 e1 id id' Hp); [by rewrite sort_perm|done].
Qed.

(** One transaction other than a Lock that succeeds on every state that looks alike. *)
Lemma process_exec_ok c e tx e2 :
  tx_TxType tx ≠ TxTypeLock → checkLocalTxLockConflict c tx = None →
  ExecuteTx (es_Snapshot e).2 tx = Some (None, e2) →
  process_tx c e tx = Some (true, cleanupAfterExecutionLocked c tx, e2).
Proof.
  intros Ht Hc Hx. unfold process_tx, process_exec. rewrite Hc, decide_False by done.
  destruct (es_Snapshot e) as [r e1]. cbn in Hx. by rewrite Hx.
Qed.

(** Only Locks vote. *)
Lemma no_vote_prepares c tx : tx_TxType tx ≠ TxTypeLock → sc_prepares (cleanupAfterExecutionLocked c tx) = sc_prepares c.
Proof.
  intros Ht. unfold cleanupAfterExecutionLocked. set (id := tx_CrossShardTxID tx). case_decide; [done|].
  destruct (tx_TxType tx); try done.
  - by destruct (clear_lock_frame slice_remove c id) as (_&_&?&_).
  - unfold clearPendingCreditForAddressLocked. destruct (sc_pendingCredits c !! id) as [l|]; [|done]. by destruct (filter _ l).
  - by destruct (clearAll_frame c id) as (_&_&?).
  - set (c1 := clearPendingRwSetLocked (unlockAllSlotsForTxLocked c id) id). destruct (clearAll_frame c1 id) as (_&_&->).
    destruct (unlockAll_frame c id) as (_&_&Hp). exact Hp.
Qed.

(** *** First round: the transaction is ordered *)

(** [s1] is [s] with one Lock queued for [id], of [v] from [a] and the set [rws], and
    with [credits] to remember. *)
Definition took_up s s1 (id : string) (a : Address) (v : Z) (credits : option (list PendingCredit)) (rws : list RwVariable) : Prop :=
  sv_evmState s1 = sv_evmState s ∧ sv_blockBuffer s1 = sv_blockBuffer s ∧ sv_shardID s1 = sv_shardID s ∧
  (sv_uuids s ≤ sv_uuids s1)%nat ∧
  ∃ t, sv_chain s1 = set_currentTxs (match credits with
                       | None => sv_chain s
                       | Some l => set_pendingCredits (sv_chain s) (<[id := l]> (sc_pendingCredits (sv_chain s)))
                       end) [t] ∧
    tx_TxType t = TxTypeLock ∧ tx_CrossShardTxID t = id ∧ tx_From t = a ∧ ToBigInt (tx_Value t) = v ∧ tx_RwSet t = rws.

(** The block that orders it leaves its Lock in the queue. *)
Lemma order_delivered s i h b tx a v credits rws :
  let id := ct_ID tx in
  idle s i h → 0 ≤ h → h + 2 < two64 → ob_Height b = h + 1 → ob_TpcResult b = ∅ → ob_CtToOrder b = [tx] →
  holds (sv_chain s) id None None None → undecided (sv_chain s) id →
  (∀ buf, took_up (set_buf s buf) (order_tx uuid (set_buf s buf) tx) id a v credits rws) →
  ∃ s2 t, (handleOrchestratorShardBlock uuid s b).2 = s2 ∧ waiting s2 i (h + 1) [t] ∧
    tx_TxType t = TxTypeLock ∧ tx_CrossShardTxID t = id ∧ tx_From t = a ∧ ToBigInt (tx_Value t) = v ∧ tx_RwSet t = rws ∧
    sv_evmState s2 = sv_evmState s ∧ sc_height (sv_chain s2) = sc_height (sv_chain s) ∧
    sc_lockedByAddr (sv_chain s2) = sc_lockedByAddr (sv_chain s) ∧
    holds (sv_chain s2) id None credits None ∧ undecided (sv_chain s2) id ∧ advances s s2 id.
Proof.
  intros id Hid Hh Hov Hb Hr Ho (Hlk&Hcr&Hca&Hrw) Hun Htook.
  destruct (deliver_next s i h b Hid Hh Hov Hb) as (buf&Hexp&Hbuf&->). cbn [snd].
  assert (processOrchestratorBlock uuid (set_buf s buf) b
    = let s1 := order_tx uuid (set_buf s buf) tx in with_chain s1 (SetLastOrchestratorHeight (sv_chain s1) (h + 1))) as ->.
  { unfold processOrchestratorBlock. change (GetLastOrchestratorHeight (sv_chain (set_buf s buf))) with (sc_lastOrchestratorHeight (sv_chain s)).
    rewrite (id_last _ _ _ _ Hid), Hb, Hr, Ho, map_range_empty. destruct (Z.leb_spec (h + 1) h); [lia|done]. }
  destruct (Htook buf) as (He1&Hb1&Hi1&Hu1&t&Hc1&Ht). clear Htook.
  revert He1 Hb1 Hi1 Hu1 Hc1. generalize (order_tx uuid (set_buf s buf) tx) as s1. intros s1 He1 Hb1 Hi1 Hu1 Hc1. cbv zeta.
  eexists _, t. split; [reflexivity|]. cbn [sv_chain with_chain sv_evmState]. destruct Ht as (T1&T2&T3&T4&T5).
  split; [|unfold holds; split_and!; try done; try (rewrite Hc1; destruct credits; cbn; rewrite ?lookup_insert_eq; done)].
  2:{ split; [|exact Hu1]. intros id' Hne. unfold holds. cbn [sv_chain with_chain]. rewrite Hc1.
      by destruct credits; cbn; rewrite ?lookup_insert_ne by done. }
  split; cbn [sv_chain with_chain sv_evmState sv_shardID sv_blockBuffer]; rewrite ?Hc1, ?He1, ?Hb1, ?Hi1; cbn; try (by destruct credits; apply Hid).
  all: try done. rewrite Hexp. lia.
Qed.

(** The Lock of a sender who has the amount, or of the receiver's shard. *)
Lemma lock_accepted c e tx :
  let id := tx_CrossShardTxID tx in
  let v := ToBigInt (tx_Value tx) in
  tx_TxType tx = TxTypeLock → id ≠ ""%string → rw_reads (tx_RwSet tx) = [] → sc_prepares c = ∅ →
  (0 < v → getLockedAmountForAddrLocked c (tx_From tx) + v ≤ bal e (tx_From tx)) →
  ∃ c1 e1, process_lock c e tx = (true, c1, e1) ∧ same_evm e1 e ∧ sc_prepares c1 = {[id := true]} ∧
    ∀ cr, holds c id None cr None →
      holds c1 id (if 0 <? v then Some (mkLockedFunds (tx_From tx) v) else None) cr (Some (tx_RwSet tx)).
Proof.
  intros id v Hty Hid Hreads Hpr Hfunds. unfold process_lock, reserve_funds, holds. fold id v. destruct (Z.ltb_spec 0 v) as [Hv|Hv].
  - pose proof (CanDebit_spec e (tx_From tx) v (getLockedAmountForAddrLocked c (tx_From tx))) as Hcd.
    destruct (CanDebit _ _ _ _) as [ok e1]. destruct Hcd as [-> He]. specialize (Hfunds Hv).
    rewrite (proj2 (Z.leb_le _ _)) by lia. unfold validateAndLockReadSetLocked. rewrite Hreads. cbn [validate_loop].
    eexists _, e1. split; [reflexivity|]. unfold cleanupAfterExecutionLocked. fold id. rewrite decide_False, Hty by done. cbn. rewrite Hpr.
    split; [done|]. split; [done|]. intros cr (_&Hcr&Hca&_). by rewrite !lookup_insert_eq.
  - unfold validateAndLockReadSetLocked. rewrite Hreads. cbn [validate_loop].
    eexists _, e. split; [reflexivity|]. unfold cleanupAfterExecutionLocked. fold id. rewrite decide_False, Hty by done. cbn. rewrite Hpr.
    split; [done|]. split; [done|]. intros cr (Hlk&Hcr&Hca&_). by rewrite lookup_insert_eq.
Qed.

(** The Lock of a sender who does not. *)
Lemma lock_refused c e tx :
  let id := tx_CrossShardTxID tx in
  let v := ToBigInt (tx_Value tx) in
  tx_TxType tx = TxTypeLock → sc_prepares c = ∅ → 0 < v → bal e (tx_From tx) < getLockedAmountForAddrLocked c (tx_From tx) + v →
  ∃ c1 e1, process_lock c e tx = (false, c1, e1) ∧ same_evm e1 e ∧ sc_prepares c1 = {[id := false]} ∧
    holds c1 id None None None.
Proof.
  intros id v Hty Hpr Hv Hfunds. unfold process_lock, reserve_funds. fold id v. rewrite (proj2 (Z.ltb_lt _ _) Hv).
  pose proof (CanDebit_spec e (tx_From tx) v (getLockedAmountForAddrLocked c (tx_From tx))) as Hcd.
  destruct (CanDebit _ _ _ _) as [ok e1]. destruct Hcd as [-> He]. rewrite (proj2 (Z.leb_gt _ _)) by lia.
  eexists _, e1. split; [reflexivity|]. split; [done|]. unfold cleanupAfterFailureLocked. rewrite Hty. fold id. split.
  - cbn [AddPrepareResult set_prepares sc_prepares]. destruct (clearAll_frame c id) as (_&_&->). by rewrite Hpr.
  - apply clearAll_releases.
Qed.

(** A tick with one Lock queued sends the vote. *)
Lemma vote_tick s i h tx now ok c1 e1 vote :
  let id := tx_CrossShardTxID tx in
  waiting s i h [tx] → sc_height (sv_chain s) + 1 < two64 → tx_TxType tx = TxTypeLock → sc_locked (sv_chain s) !! id = None →
  process_lock (sv_chain s) (sv_evmState s) tx = (ok, c1, e1) → sc_prepares c1 = {[id := vote]} →
  ∃ b s', shardTick SHash s now = Some (Some b, s') ∧ sb_ShardID b = i ∧ sb_TpcPrepare b = {[id := vote]} ∧ idle s' i h ∧
    same_evm (sv_evmState s') e1 ∧ sc_height (sv_chain s') = sc_height (sv_chain s) + 1 ∧
    (∀ id lk cr rws, holds c1 id lk cr rws → holds (sv_chain s') id lk cr rws) ∧
    sc_processedCommits (sv_chain s') = sc_processedCommits (sv_chain s) ∧ advances s s' id.
Proof.
  intros id Hw Hov Hty Hfresh Hl Hv.
  pose proof (solvent_lock _ _ tx Hfresh (id_solvent _ _ _ _ Hw)) as Hs. rewrite Hl in Hs.
  destruct (process_lock_frame _ _ _ _ _ _ Hty Hl) as [Hsame _]. rewrite <- Hv.
  assert (Hp : process_txs (sv_chain s) (sv_evmState s) (sortTransactionsByPriority [tx]) [] = Some (if ok then [tx] else [], c1, e1)).
  { cbn. unfold process_tx, checkLocalTxLockConflict. rewrite Hty, decide_True, Hl by done. by destruct ok. }
  destruct (tick_seals s i h [tx] now _ c1 e1 Hw Hov Hp Hsame Hs) as (b&s'&T1&T2&T3&T4&T5&T6&T7&T8&T9).
  exists b, s'. do 8 (split; [done|]). apply T9. by constructor.
Qed.

(** The shard of the sender reserves the amount. *)
Lemma source_takes_up s tx i :
  sc_currentTxs (sv_chain s) = [] → sv_shardID s = i → ct_FromShard tx = i → local_rwset i (ct_RwSet tx) = [] →
  shard_of (ct_To tx) NumShards ≠ i →
  took_up s (order_tx uuid s tx) (ct_ID tx) (ct_From tx) (ToBigInt (ct_Value tx)) None [].
Proof.
  intros Hq Hi Hf Hl Hto. unfold order_tx, store_credit. rewrite Hi, Hf, Hl, Z.eqb_refl.
  rewrite (proj2 (Z.eqb_neq _ _) Hto), andb_false_r. split_and!; try done; [cbn; lia|]. eexists. split.
  { cbn. unfold AddTx. rewrite Hq. reflexivity. }
  cbn. split_and!; try done. destruct (ct_Value tx) as [[]|]; reflexivity.
Qed.

(** The shard of the receiver remembers the credit. *)
Lemma target_takes_up s tx i :
  let v := ToBigInt (ct_Value tx) in
  sc_currentTxs (sv_chain s) = [] → sv_shardID s = i → ct_FromShard tx ≠ i → local_rwset i (ct_RwSet tx) ≠ [] →
  shard_of (ct_To tx) NumShards = i → 0 < v → ct_Data tx = [] → sc_pendingCredits (sv_chain s) !! ct_ID tx = None →
  took_up s (order_tx uuid s tx) (ct_ID tx) (ct_From tx) 0 (Some [mkPendingCredit (ct_To tx) v]) (local_rwset i (ct_RwSet tx)).
Proof.
  intros v Hq Hi Hf Hl Hto Hv Hd Hcr. unfold order_tx, store_credit. rewrite Hi, (proj2 (Z.eqb_neq _ _) Hf).
  fold v. rewrite Hto, Z.eqb_refl, Hd. rewrite (proj2 (Z.ltb_lt _ _) Hv). cbn [andb].
  destruct (local_rwset i (ct_RwSet tx)) as [|rw rws] eqn:Hrw; [done|]. split_and!; try done; [cbn; lia|]. eexists. split.
  { cbn. unfold AddTx. cbn. rewrite Hq. unfold StorePendingCredit, map_get. rewrite Hcr. reflexivity. }
  cbn. split_and!; try done. rewrite RwVariable_DeepCopy_id. f_equal. apply RwSet_DeepCopy_id.
Qed.

(** *** Second round: the decision *)

Lemma unlock_releases c id :
  let c' := clearAllMetadataLocked (clearPendingRwSetLocked (unlockAllSlotsForTxLocked c id) id) id in
  same_blocks c c' ∧ sc_prepares c' = sc_prepares c ∧ holds c' id None None None.
Proof.
  cbv zeta. destruct (unlockAll_frame c id) as (Hb1&_&Hp1). set (c1 := unlockAllSlotsForTxLocked c id) in *.
  destruct (clearRw_frame c1 id) as (Hb2&_&Hp2). set (c2 := clearPendingRwSetLocked c1 id) in *.
  destruct (clearAll_frame c2 id) as (Hb3&_&Hp3).
  split; [by etrans; [|etrans]|]. split; [congruence|]. apply clearAll_releases.
Qed.

(** [s1] is [s] that acts on a decision of [id] with the transactions [txs]. *)
Definition acts_with s s1 (id : string) (txs : list Transaction) : Prop :=
  sv_evmState s1 = sv_evmState s ∧ sv_blockBuffer s1 = sv_blockBuffer s ∧ sv_shardID s1 = sv_shardID s ∧
  (sv_uuids s ≤ sv_uuids s1)%nat ∧ Forall (λ tx, tx_CrossShardTxID tx = id) txs ∧
  sv_chain s1 = set_currentTxs (MarkCommitProcessed (sv_chain s) id) txs.

(** What the shard executes then. *)
Definition decided_chain s (id : string) (txs : list Transaction) (h : Z) : Chain :=
  SetLastOrchestratorHeight (set_currentTxs (MarkCommitProcessed (sv_chain s) id) txs) h.

(** What executing them leaves: nothing held for [id], and balances changed by [d]. *)
Definition settles s (id : string) (txs : list Transaction) (h : Z) (d : Address → Z) : Prop :=
  ∃ ok c1 e1,
    process_txs (decided_chain s id txs h) (sv_evmState s) (sortTransactionsByPriority txs) [] = Some (ok, c1, e1) ∧
    same_blocks (decided_chain s id txs h) c1 ∧ sc_prepares c1 = ∅ ∧ solvent c1 e1 ∧ holds c1 id None None None ∧
    (∀ x, bal e1 x = bal (sv_evmState s) x + d x) ∧ ∀ x k, sto e1 x k = sto (sv_evmState s) x k.

Lemma second_round s i h b id v now txs d :
  idle s i h → 0 ≤ h → h + 2 < two64 → sc_height (sv_chain s) + 1 < two64 →
  ob_Height b = h + 1 → ob_TpcResult b = {[id := v]} → ob_CtToOrder b = [] →
  (∀ buf, acts_with (set_buf s buf) (process_result uuid (set_buf s buf) id v) id txs) → settles s id txs (h + 1) d →
  ∃ b' s', shardTick SHash (handleOrchestratorShardBlock uuid s b).2 now = Some (Some b', s') ∧ idle s' i (h + 1) ∧
    holds (sv_chain s') id None None None ∧ IsCommitProcessed (sv_chain s') id = true ∧
    (∀ x, bal (sv_evmState s') x = bal (sv_evmState s) x + d x) ∧ (∀ x k, sto (sv_evmState s') x k = sto (sv_evmState s) x k) ∧ advances s s' id ∧
    sc_height (sv_chain s') = sc_height (sv_chain s) + 1.
Proof.
  intros Hid Hh Hov Hov' Hb Hr Ho Hacts (ok&c1&e1&Hp&Hsame&Hpr&Hs&Hrel&Hbal&Hsto).
  destruct (deliver_next s i h b Hid Hh Hov Hb) as (buf&Hexp&Hbuf&->). cbn [snd].
  assert (processOrchestratorBlock uuid (set_buf s buf) b
    = let s1 := process_result uuid (set_buf s buf) id v in with_chain s1 (SetLastOrchestratorHeight (sv_chain s1) (h + 1))) as ->.
  { unfold processOrchestratorBlock. change (GetLastOrchestratorHeight (sv_chain (set_buf s buf))) with (sc_lastOrchestratorHeight (sv_chain s)).
    rewrite (id_last _ _ _ _ Hid), Hb, Hr, Ho, map_range_singleton. destruct (Z.leb_spec (h + 1) h); [lia|done]. }
  destruct (Hacts buf) as (He1&Hb1&Hi1&Hu1&Hids&Hc1). clear Hacts. revert He1 Hb1 Hi1 Hu1 Hc1.
  generalize (process_result uuid (set_buf s buf) id v) as s1. intros s1 He1 Hb1 Hi1 Hu1 Hc1. cbv zeta. set (s2 := with_chain s1 _).
  assert (Hc2 : sv_chain s2 = decided_chain s id txs (h + 1)) by (unfold s2, decided_chain; cbn [sv_chain with_chain]; by rewrite Hc1).
  assert (Hw : waiting s2 i (h + 1) txs).
  { split; rewrite ?Hc2; unfold s2; cbn [sv_shardID sv_blockBuffer sv_evmState with_chain]; rewrite ?Hi1, ?Hb1, ?He1; try done; try apply Hid.
    - cbn. rewrite Hexp. lia. }
  destruct (tick_seals s2 i (h + 1) txs now ok c1 e1) as (b'&s'&Ht&_&_&Hid'&[Hb' Hs']&Hhe&Hho&Hpd&Hadv); try done.
  - by rewrite Hc2.
  - rewrite Hc2. unfold s2. cbn [sv_evmState with_chain]. by rewrite He1.
  - by rewrite Hc2.
  - exists b', s'. split; [done|]. split; [done|]. split; [by apply Hho|]. split.
    { unfold IsCommitProcessed. rewrite Hpd, Hc2. cbn. unfold map_get. by rewrite lookup_insert_eq. }
    split; [intros x; rewrite <- Hbal; apply Hb'|]. split; [intros x k; rewrite <- Hsto; apply Hs'|].
    split; [|rewrite Hhe, Hc2; done].
    apply (advances_trans s s2); [|by apply Hadv]. split; [|exact Hu1]. intros id' Hne. rewrite Hc2. split; [done|].
    cbn. by rewrite lookup_insert_ne.
Qed.

(** A transaction of the commit protocol as it is queued. *)
Definition queued_tx (n : nat) (ty : TxType) (id : string) (from to : Address) (value : option BigInt) (rws : list RwVariable) : Transaction :=
  Transaction_DeepCopy (mkTransaction (uuid n) 0 from to value 0 [] true ty id rws "").

Definition unlock_tx (n : nat) (id : string) : Transaction := queued_tx n TxTypeUnlock id 0 0 None [].

(** The Unlock at the end. *)
Lemma process_unlock c e n id :
  id ≠ ""%string → solvent c e →
  ∃ c' e', process_tx c e (unlock_tx n id) = Some (true, c', e') ∧ same_blocks c c' ∧ sc_prepares c' = sc_prepares c ∧
    solvent c' e' ∧ holds c' id None None None ∧ same_evm e' e.
Proof.
  intros Hne Hs. eexists (cleanupAfterExecutionLocked c (unlock_tx n id)), (es_Snapshot e).2. split; [by apply process_exec_ok|].
  pose proof (es_Snapshot_same e) as Hsn. pose proof (cleanupAfterExecution_frame c (unlock_tx n id)) as [Hb _].
  split; [done|]. destruct (unlock_releases c id) as (_&Hpr&Hho).
  assert (cleanupAfterExecutionLocked c (unlock_tx n id)
    = clearAllMetadataLocked (clearPendingRwSetLocked (unlockAllSlotsForTxLocked c id) id) id) as Heq.
  { unfold cleanupAfterExecutionLocked. cbn [tx_CrossShardTxID unlock_tx queued_tx Transaction_DeepCopy tx_TxType]. by rewrite decide_False. }
  split; [by rewrite Heq|]. split; [|split; [by rewrite Heq|done]].
  apply solvent_execution. eapply solvent_same; [done|apply same_evm_bal; exact Hsn|done].
Qed.

Lemma decided_solvent s i h id txs : idle s i h → solvent (decided_chain s id txs (h + 1)) (sv_evmState s).
Proof. intros Hid. eapply solvent_same; [|done|apply (id_solvent _ _ _ _ Hid)]. done. Qed.

(** *** A commit on the shard of the sender *)

Definition source_txs (n : nat) (id : string) (a : Address) (v : Z) : list Transaction :=
  [queued_tx n TxTypeCrossDebit id a 0 (NewBigInt (Some v)) []; unlock_tx (S n) id].

Lemma source_acts s id a v :
  sc_currentTxs (sv_chain s) = [] → holds (sv_chain s) id (Some (mkLockedFunds a v)) None (Some []) → undecided (sv_chain s) id →
  acts_with s (process_result uuid s id true) id (source_txs (sv_uuids s) id a v).
Proof.
  intros Hq (Hl&Hcr&Hca&Hrw) Hun. unfold process_result, CheckAndMarkCommitProcessed, map_get.
  unfold undecided in Hun. rewrite Hun. cbn [default negb].
  set (s1 := with_chain s (MarkCommitProcessed (sv_chain s) id)).
  unfold queue_commit. change (GetLockedFunds (sv_chain s1) id) with (sc_locked (sv_chain s) !! id). rewrite Hl. cbv zeta.
  cbn [lf_Address lf_Amount]. set (s2 := queue uuid s1 TxTypeCrossDebit id a 0 (NewBigInt (Some v)) []).
  change (GetPendingCredits (sv_chain s2) id) with (sc_pendingCredits (sv_chain s) !! id). rewrite Hcr.
  change (GetPendingCall (sv_chain s2) id) with (CrossShardTx_DeepCopy <$> sc_pendingCalls (sv_chain s) !! id). rewrite Hca.
  cbn [fmap option_fmap option_map].
  change (GetPendingRwSet (sv_chain s2) id) with (map RwVariable_DeepCopy <$> sc_pendingRwSets (sv_chain s) !! id). rewrite Hrw.
  split_and!; try done; [cbn; lia|by repeat constructor|]. cbn. unfold AddTx. cbn. by rewrite Hq.
Qed.

Lemma source_pays s i h id a v :
  idle s i h → holds (sv_chain s) id (Some (mkLockedFunds a v)) None (Some []) → id ≠ ""%string → is_u256 v →
  settles s id (source_txs (sv_uuids s) id a v) (h + 1) (λ x, if decide (x = a) then - v else 0).
Proof.
  intros Hid Hho Hne Hu. unfold settles. set (txs := source_txs (sv_uuids s) id a v).
  pose proof (decided_solvent s i h id txs Hid) as Hs. set (c := decided_chain s id txs (h + 1)) in *. set (e := sv_evmState s) in *.
  assert (Hl : sc_locked c !! id = Some (mkLockedFunds a v)) by apply Hho.
  pose proof (reservation_affordable c e id _ Hs Hl) as Hle. cbn in Hle.
  set (debit := queued_tx (sv_uuids s) TxTypeCrossDebit id a 0 (NewBigInt (Some v)) []).
  assert (sortTransactionsByPriority txs = [debit; unlock_tx (S (sv_uuids s)) id]) as -> by reflexivity.
  pose proof (es_Snapshot_same e) as Hsn. set (e' := (es_Snapshot e).2) in *.
  assert (Hs' : solvent c e') by (eapply solvent_same; [done|apply same_evm_bal; exact Hsn|done]).
  destruct (solvent_debit c e' debit Hs' eq_refl) as (e2&Hx&Hs2); [done|].
  destruct (process_unlock (cleanupAfterExecutionLocked c debit) e2 (S (sv_uuids s)) id Hne Hs2) as (c3&e3&Hp3&Hb3&Hpr3&Hs3&Hho3&[Hbal3 Hsto3]).
  exists ([debit; unlock_tx (S (sv_uuids s)) id]), c3, e3.
  split. { cbn [process_txs]. rewrite (process_exec_ok c e debit e2) by done. cbn [process_txs]. by rewrite Hp3. }
  destruct (cleanupAfterExecution_frame c debit) as [Hf1 _]. split; [by etrans|]. split.
  { rewrite Hpr3. unfold cleanupAfterExecutionLocked. cbn [tx_CrossShardTxID debit queued_tx Transaction_DeepCopy tx_TxType].
    rewrite decide_False by done. destruct (clear_lock_frame slice_remove c id) as (_&_&Hpr2&_).
    unfold clearLockLocked. rewrite Hpr2. apply (id_votes _ _ _ _ Hid). }
  split; [done|]. split; [done|]. destruct (Debit_spec e' a v Hu) as (r&e4&Hd&Hr). change (ExecuteTx e' debit) with (Debit e' a v) in Hx.
  rewrite Hd in Hx. injection Hx as -> ->. destruct Hsn as [Hsb Hss].
  rewrite (proj2 (Z.leb_le _ _)) in Hr by (etrans; [exact Hle|apply Z.eq_le_incl; symmetry; apply Hsb]).
  destruct Hr as (_&Hb&Ht). split.
  - intros x. rewrite (Hbal3 x : bal e3 x = bal e2 x), Hb, (Hsb a : bal e' a = bal e a), (Hsb x : bal e' x = bal e x).
    case_decide; subst; lia.
  - intros x k. rewrite (Hsto3 x k : sto e3 x k = sto e2 x k), Ht. apply Hss.
Qed.

(** *** A commit on the shard of the receiver *)

Definition target_txs (n : nat) (id : string) (b : Address) (v : Z) (rws : list RwVariable) : list Transaction :=
  [queued_tx n TxTypeCrossCredit id 0 b (NewBigInt (Some v)) []; queued_tx (S n) TxTypeFinalize id 0 0 None rws;
   unlock_tx (S (S n)) id].

Lemma target_acts s id b v rws :
  sc_currentTxs (sv_chain s) = [] → holds (sv_chain s) id None (Some [mkPendingCredit b v]) (Some rws) → rws ≠ [] →
  undecided (sv_chain s) id →
  acts_with s (process_result uuid s id true) id (target_txs (sv_uuids s) id b v rws).
Proof.
  intros Hq (Hl&Hcr&Hca&Hrw) Hne Hun. unfold process_result, CheckAndMarkCommitProcessed, map_get.
  unfold undecided in Hun. rewrite Hun. cbn [default negb].
  set (s1 := with_chain s (MarkCommitProcessed (sv_chain s) id)).
  unfold queue_commit. change (GetLockedFunds (sv_chain s1) id) with (sc_locked (sv_chain s) !! id). rewrite Hl.
  change (GetPendingCredits (sv_chain s1) id) with (sc_pendingCredits (sv_chain s) !! id). rewrite Hcr. cbv zeta. cbn [foldl pc_Address pc_Amount].
  set (s2 := queue uuid s1 TxTypeCrossCredit id 0 b (NewBigInt (Some v)) []).
  change (GetPendingCall (sv_chain s2) id) with (CrossShardTx_DeepCopy <$> sc_pendingCalls (sv_chain s) !! id). rewrite Hca.
  cbn [fmap option_fmap option_map].
  change (GetPendingRwSet (sv_chain s2) id) with (map RwVariable_DeepCopy <$> sc_pendingRwSets (sv_chain s) !! id). rewrite Hrw.
  cbn [fmap option_fmap option_map]. rewrite RwSet_DeepCopy_id. destruct rws as [|rw rws]; [done|].
  split_and!; try done; [cbn; lia|by repeat constructor|]. cbn. unfold AddTx. cbn. by rewrite Hq.
Qed.

Lemma target_receives s i h id b v rws :
  idle s i h → holds (sv_chain s) id None (Some [mkPendingCredit b v]) (Some rws) → id ≠ ""%string → is_u256 v →
  bal (sv_evmState s) b + v < two256 → (∀ rw, rw ∈ rws → rw_WriteSet rw = []) →
  settles s id (target_txs (sv_uuids s) id b v rws) (h + 1) (λ x, if decide (x = b) then v else 0).
Proof.
  intros Hid Hho Hne Hu Hov Hws. unfold settles. set (txs := target_txs (sv_uuids s) id b v rws).
  pose proof (decided_solvent s i h id txs Hid) as Hs. set (c := decided_chain s id txs (h + 1)) in *. set (e := sv_evmState s) in *.
  set (credit := queued_tx (sv_uuids s) TxTypeCrossCredit id 0 b (NewBigInt (Some v)) []).
  set (finalize := queued_tx (S (sv_uuids s)) TxTypeFinalize id 0 0 None rws).
  assert (sortTransactionsByPriority txs = [credit; finalize; unlock_tx (S (S (sv_uuids s))) id]) as -> by reflexivity.
  pose proof (es_Snapshot_same e) as Hsn. set (e' := (es_Snapshot e).2) in *.
  destruct (Credit_spec e' b v Hu) as (e2&Hx&Hb2&Ht2); [rewrite (proj1 Hsn b : bal e' b = bal e b); exact Hov|].
  set (c2 := cleanupAfterExecutionLocked c credit).
  assert (Hp1 : process_tx c e credit = Some (true, c2, e2)).
  { apply process_exec_ok; [done|done|]. change (ExecuteTx (es_Snapshot e).2 credit) with
      (match Credit e' b v with Some e' => Some (@None evm_error, e') | None => None end). by rewrite Hx. }
  set (c3 := cleanupAfterExecutionLocked c2 finalize). set (e3 := (es_Snapshot e2).2).
  assert (Hnw : applyWriteSet e3 (tx_RwSet finalize) = e3).
  { unfold finalize, queued_tx. cbn. rewrite RwSet_DeepCopy_id. clear -Hws. revert e3.
    induction rws as [|rw l IH]; intros e3; [done|]. cbn. rewrite (Hws rw) by (by left). cbn. apply IH. intros. apply Hws. by right. }
  assert (Hp2 : process_tx c2 e2 finalize = Some (true, c3, e3)).
  { apply process_exec_ok; [done|done|]. change (ExecuteTx (es_Snapshot e2).2 finalize) with (Some (@None evm_error, applyWriteSet e3 (tx_RwSet finalize))).
    by rewrite Hnw. }
  pose proof (es_Snapshot_same e2) as Hsn2.
  assert (Hbal : ∀ x, bal e3 x = bal e x + (if decide (x = b) then v else 0)).
  { intros x. rewrite (proj1 Hsn2 x : bal e3 x = bal e2 x), Hb2.
    case_decide; [subst|]; rewrite ?Z.add_0_r; [f_equal|]; apply Hsn. }
  destruct (process_unlock c3 e3 (S (S (sv_uuids s))) id Hne) as (c4&e4&Hp4&Hb4&Hpr4&Hs4&Hho4&[Hbal4 Hsto4]).
  { do 2 apply solvent_execution. eapply solvent_same; [done| |exact Hs]. intros x. rewrite Hbal. destruct Hu. case_decide; lia. }
  exists ([credit; finalize; unlock_tx (S (S (sv_uuids s))) id]), c4, e4.
  split; [cbn [process_txs]; rewrite Hp1; cbn [process_txs]; rewrite Hp2; cbn [process_txs]; by rewrite Hp4|].
  destruct (cleanupAfterExecution_frame c credit) as [Hf1 _], (cleanupAfterExecution_frame c2 finalize) as [Hf2 _].
  split; [by etrans; [|etrans]|]. split; [|split; [done|split; [done|split]]].
  - rewrite Hpr4. unfold c3. rewrite no_vote_prepares by done. unfold c2. rewrite no_vote_prepares by done. apply (id_votes _ _ _ _ Hid).
  - intros x. by rewrite (Hbal4 x : bal e4 x = bal e3 x).
  - intros x k. rewrite (Hsto4 x k : sto e4 x k = sto e3 x k), (proj2 Hsn2 x k : sto e3 x k = sto e2 x k), Ht2. apply Hsn.
Qed.

(** *** An abort: the Unlock runs first, [CrossAbort] has the priority of local transactions *)

Definition abort_txs (n : nat) (id : string) (held : bool) : list Transaction :=
  if held then [queued_tx n TxTypeCrossAbort id 0 0 None []; unlock_tx (S n) id] else [unlock_tx n id].

Lemma abort_acts s id cr rws :
  sc_currentTxs (sv_chain s) = [] → holds (sv_chain s) id None cr rws → undecided (sv_chain s) id →
  acts_with s (process_result uuid s id false) id
    (abort_txs (sv_uuids s) id (bool_decide (is_Some cr) || bool_decide (is_Some rws))).
Proof.
  intros Hq (Hl&Hcr&Hca&Hrw) Hun. unfold process_result, CheckAndMarkCommitProcessed, map_get.
  unfold undecided in Hun. rewrite Hun. cbn [default negb].
  unfold queue_abort. cbv zeta. set (s1 := with_chain s (MarkCommitProcessed (sv_chain s) id)).
  change (GetLockedFunds (sv_chain s1) id) with (sc_locked (sv_chain s) !! id).
  change (GetPendingCredits (sv_chain s1) id) with (sc_pendingCredits (sv_chain s) !! id).
  change (GetPendingCall (sv_chain s1) id) with (CrossShardTx_DeepCopy <$> sc_pendingCalls (sv_chain s) !! id).
  change (GetPendingRwSet (sv_chain s1) id) with (map RwVariable_DeepCopy <$> sc_pendingRwSets (sv_chain s) !! id).
  rewrite Hl, Hcr, Hca, Hrw. destruct cr, rws; cbn;
    (split_and!; try done; [cbn; lia|by repeat constructor|]); cbn; unfold AddTx; cbn; by rewrite Hq.
Qed.

Lemma abort_releases s i h id held :
  idle s i h → id ≠ ""%string → settles s id (abort_txs (sv_uuids s) id held) (h + 1) (λ _, 0).
Proof.
  intros Hid Hne. unfold settles. set (txs := abort_txs (sv_uuids s) id held).
  pose proof (decided_solvent s i h id txs Hid) as Hs. set (c := decided_chain s id txs (h + 1)) in *. set (e := sv_evmState s) in *.
  unfold txs, abort_txs. destruct held.
  - set (abort := queued_tx (sv_uuids s) TxTypeCrossAbort id 0 0 None []).
    assert (sortTransactionsByPriority [abort; unlock_tx (S (sv_uuids s)) id] = [unlock_tx (S (sv_uuids s)) id; abort]) as -> by reflexivity.
    destruct (process_unlock c e (S (sv_uuids s)) id Hne Hs) as (c2&e2&Hp2&Hb2&Hpr2&Hs2&_&Hsame2).
    pose proof (es_Snapshot_same e2) as Hsn. set (c3 := cleanupAfterExecutionLocked c2 abort). set (e3 := (es_Snapshot e2).2) in *.
    assert (Hp3 : process_tx c2 e2 abort = Some (true, c3, e3)) by (by apply process_exec_ok).
    exists [unlock_tx (S (sv_uuids s)) id; abort], c3, e3. split; [cbn [process_txs]; rewrite Hp2; cbn [process_txs]; by rewrite Hp3|].
    destruct (cleanupAfterExecution_frame c2 abort) as [Hf1 _]. split; [by etrans|]. split.
    { unfold c3. rewrite no_vote_prepares, Hpr2 by done. apply (id_votes _ _ _ _ Hid). }
    split; [apply solvent_execution; eapply solvent_same; [done|apply same_evm_bal; exact Hsn|done]|]. split.
    { unfold c3, cleanupAfterExecutionLocked. rewrite decide_False by done. apply clearAll_releases. }
    assert (Hsame : same_evm e3 e) by (by etrans). destruct Hsame as [Hb Hst].
    split; [intros x; rewrite Z.add_0_r; apply Hb|apply Hst].
  - destruct (process_unlock c e (sv_uuids s) id Hne Hs) as (c3&e3&Hp3&Hb3&Hpr3&Hs3&Hho3&[Hb Hst]).
    assert (sortTransactionsByPriority [unlock_tx (sv_uuids s) id] = [unlock_tx (sv_uuids s) id]) as -> by reflexivity.
    exists [unlock_tx (sv_uuids s) id], c3, e3. split; [cbn [process_txs]; by rewrite Hp3|]. split; [done|].
    split; [rewrite Hpr3; apply (id_votes _ _ _ _ Hid)|]. split; [done|]. split; [done|].
    split; [intros x; rewrite Z.add_0_r; apply Hb|apply Hst].
Qed.
End shard.

(** ** The orchestrator *)

(** The transaction of a client's transfer, as it is forwarded, and as the
    orchestrator keeps it. *)
Definition transfer_tx (id : string) (i j : Z) (a b : Address) (v : Z) (status : TxStatus) : CrossShardTx :=
  mkCrossShardTx id 0 i a b (NewBigInt (Some v)) 0 [] [mkRwVariable b (mkReference j 0 0) [] []] status SimNoStatus "".

Section orchestrator.
Context {N D : Type} `{Net N} `{EthDB D} `{Geth} `{GethHex} `{TrieCodec} `{EVM} `{Uint256} `{MapRange}.
Context (Hash : OrchestratorShardBlock → BlockHash).
Implicit Types (y : Service N D).

(** Nothing to order, to decide or to announce; [h] is the height. *)
Record svc_idle y (h : Z) : Prop := {
  si_height : oc_height (lg_chain (svc_ledger y)) = h;
  si_blocks : Z.of_nat (length (oc_blocks (lg_chain (svc_ledger y)))) = h + 1;
  si_pending : oc_pendingTxs (lg_chain (svc_ledger y)) = [];
  si_awaiting : oc_awaitingVotes (lg_chain (svc_ledger y)) = ∅;
  si_results : oc_pendingResult (lg_chain (svc_ledger y)) = ∅
}.

Lemma transfer_shards id i j a b v st : i ≠ j → InvolvedShards (transfer_tx id i j a b v st) = [i; j].
Proof.
  intros Hne. unfold InvolvedShards, TargetShards, transfer_tx. cbn [ct_RwSet ct_FromShard TargetShards_loop rw_ReferenceBlock ref_ShardNum].
  rewrite decide_False by apply not_elem_of_empty. cbn [existsb app].
  rewrite (proj2 (Z.eqb_neq j i)) by done. done.
Qed.

(** The transfer is accepted and goes into the next block. *)
Lemma transfer_ordered y h id i j a b v u now :
  let id_ok := id ≠ ""%string in
  svc_idle y h → 0 ≤ h → h + 1 < two64 → id_ok → i ≠ j → 0 ≤ i < svc_numShards y → 0 ≤ j < svc_numShards y →
  ∃ y1 y2 blk,
    svc_step Hash y (EvSubmit (Ok (transfer_tx id i j a b v TxNoStatus)) u) = Some y1 ∧ svc_step Hash y1 (EvTick now) = Some y2 ∧
    ob_Height blk = h + 1 ∧ ob_TpcResult blk = ∅ ∧ ob_CtToOrder blk = [transfer_tx id i j a b v TxPending] ∧
    oc_blocks (lg_chain (svc_ledger y2)) = oc_blocks (lg_chain (svc_ledger y)) ++ [blk] ∧
    oc_height (lg_chain (svc_ledger y2)) = h + 1 ∧ oc_pendingTxs (lg_chain (svc_ledger y2)) = [] ∧
    oc_pendingResult (lg_chain (svc_ledger y2)) = ∅ ∧
    oc_awaitingVotes (lg_chain (svc_ledger y2)) = {[id := transfer_tx id i j a b v TxPending]} ∧
    oc_votes (lg_chain (svc_ledger y2)) = oc_votes (lg_chain (svc_ledger y)) ∧
    oc_expectedVoters (lg_chain (svc_ledger y2)) !! id = Some [i; j] ∧
    lg_pending (svc_ledger y2) !! id = Some (transfer_tx id i j a b v TxPending) ∧
    svc_numShards y2 = svc_numShards y.
Proof.
  intros id_ok Hid Hh Hov Hne Hij Hi Hj. destruct y as [n [pend c] sim cl]. destruct c as [blocks hh ptx aw pr vo ex vs vt].
  destruct Hid as [S1 S2 S3 S4 S5]. cbn in S1, S2, S3, S4, S5. subst hh ptx aw pr. cbn [svc_numShards] in Hi, Hj.
  destruct (lookup_lt_is_Some_2 blocks (Z.to_nat h)) as [prev Hprev]; [lia|].
  set (tx := transfer_tx id i j a b v TxPending).
  set (c1 := mkOrchestratorChain blocks h [tx] ∅ ∅ vo ex vs vt).
  assert (Hsub : (handleSubmit (mkService n (mkLedger pend (mkOrchestratorChain blocks h [] ∅ ∅ vo ex vs vt)) sim cl)
    (Ok (transfer_tx id i j a b v TxNoStatus)) u).2 = mkService n (mkLedger (<[id := tx]> pend) c1) sim cl).
  { unfold handleSubmit, admit_tx. cbn [transfer_tx ct_ID]. rewrite decide_False by done. unfold valid_shard. cbn.
    destruct (Z.leb_spec 0 i), (Z.ltb_spec i n), (Z.leb_spec 0 j), (Z.ltb_spec j n); try lia. cbn. reflexivity. }
  eexists (mkService n (mkLedger (<[id := tx]> pend) c1) sim cl), _, (mkOrchestratorShardBlock (h + 1) (Hash prev) now ∅ [tx]). split; [cbn [svc_step]; f_equal; exact Hsub|]. split.
  { cbn [svc_step]. unfold blockProducer, OrchestratorChain.ProduceBlock, checkTimeouts. cbn [lg_chain svc_ledger c1 oc_awaitingVotes].
    rewrite map_to_list_empty. cbn -[u64_add tx]. rewrite Hprev. cbn -[u64_add tx]. rewrite map_range_empty. cbn -[u64_add tx]. reflexivity. }
  cbn -[u64_add tx]. rewrite u64_add_small by lia. split_and!; try done.
  - change (<[id := InvolvedShards tx]> ex !! id = Some [i; j]). rewrite lookup_insert_eq. f_equal. by apply transfer_shards.
  - apply lookup_insert_eq.
Qed.

(** What the votes leave: the decision to be published. *)
Definition decided_as y y2 (id : string) (yes : bool) : Prop :=
  oc_awaitingVotes (lg_chain (svc_ledger y2)) = ∅ ∧ oc_pendingResult (lg_chain (svc_ledger y2)) = {[id := yes]} ∧
  oc_pendingTxs (lg_chain (svc_ledger y2)) = oc_pendingTxs (lg_chain (svc_ledger y)) ∧
  oc_blocks (lg_chain (svc_ledger y2)) = oc_blocks (lg_chain (svc_ledger y)) ∧
  oc_height (lg_chain (svc_ledger y2)) = oc_height (lg_chain (svc_ledger y)) ∧
  (∃ tx, lg_pending (svc_ledger y2) !! id = Some tx ∧ ct_ID tx = id) ∧ svc_numShards y2 = svc_numShards y ∧
  ∀ id', id' ≠ id → oc_votes (lg_chain (svc_ledger y2)) !! id' = oc_votes (lg_chain (svc_ledger y)) !! id'.

(** The two YES votes, of the shards [i] and [j]. *)
Lemma votes_accept y id i j tx tx0 :
  i ≠ j →
  oc_awaitingVotes (lg_chain (svc_ledger y)) = {[id := tx]} → oc_votes (lg_chain (svc_ledger y)) !! id = None →
  oc_expectedVoters (lg_chain (svc_ledger y)) !! id = Some [i; j] → oc_pendingResult (lg_chain (svc_ledger y)) = ∅ →
  lg_pending (svc_ledger y) !! id = Some tx0 → ct_ID tx0 = id →
  decided_as y (record_vote (record_vote y i id true) j id true) id true.
Proof.
  intros Hij Haw Hvo Hex Hpr Hpend Htid.
  destruct y as [n [pend c] sim cl]. destruct c as [blocks h ptx aw pr vo ex vs vt]. cbn in Haw, Hvo, Hex, Hpr, Hpend. subst aw pr.
  set (c1 := mkOrchestratorChain blocks h ptx {[id := tx]} ∅ (<[id := {[i := true]}]> vo) ex vs vt).
  set (y1 := mkService n (mkLedger (alter (λ tx, set_Status tx TxPrepared) id pend) c1) sim cl).
  assert (record_vote (mkService n (mkLedger pend (mkOrchestratorChain blocks h ptx {[id := tx]} ∅ vo ex vs vt)) sim cl) i id true = y1) as ->.
  { unfold record_vote, RecordVote. cbn [lg_chain svc_ledger oc_awaitingVotes]. rewrite lookup_singleton_eq.
    unfold map_get. cbn [oc_votes]. rewrite Hvo. cbn [default]. rewrite lookup_empty. cbn [negb]. cbv zeta. cbn [oc_expectedVoters set_votes].
    rewrite Hex. cbn [default]. rewrite map_size_insert_None, map_size_empty by apply lookup_empty. cbn. reflexivity. }
  set (c2 := mkOrchestratorChain blocks h ptx ∅ {[id := true]} (delete id (<[id := <[j := true]> {[i := true]}]> (<[id := {[i := true]}]> vo)))
    (delete id ex) (delete id vs) vt).
  assert (record_vote y1 j id true
    = mkService n (mkLedger (alter (λ tx, set_Status tx TxPrepared) id (alter (λ tx, set_Status tx TxPrepared) id pend)) c2) sim cl) as ->.
  { unfold record_vote, RecordVote, y1, c1. cbn [lg_chain svc_ledger oc_awaitingVotes]. rewrite lookup_singleton_eq.
    unfold map_get. cbn [oc_votes]. rewrite lookup_insert_eq. cbn [default]. unfold Datatypes.id.
    rewrite lookup_singleton_ne by done. cbn [negb]. cbv zeta.
    cbn [oc_expectedVoters set_votes oc_votes]. rewrite Hex. cbn [default].
    unfold Datatypes.id. rewrite map_size_insert_None, map_size_singleton by (by apply lookup_singleton_ne). cbn [length Nat.leb].
    cbn [forallb]. rewrite lookup_insert_ne, lookup_singleton_eq, lookup_insert_eq by done. cbn.
    unfold decide_tx. cbn. rewrite delete_singleton_eq. reflexivity. }
  split_and!; try done; [eexists; cbn; by rewrite !lookup_alter_eq, Hpend|].
  intros id' Hne. cbn. by rewrite lookup_delete_ne, !lookup_insert_ne by done.
Qed.

(** A NO vote decides at once; the vote that comes later is not recorded. *)
Lemma votes_refuse y id i j tx tx0 :
  oc_awaitingVotes (lg_chain (svc_ledger y)) = {[id := tx]} → oc_votes (lg_chain (svc_ledger y)) !! id = None →
  oc_pendingResult (lg_chain (svc_ledger y)) = ∅ → lg_pending (svc_ledger y) !! id = Some tx0 → ct_ID tx0 = id →
  decided_as y (record_vote (record_vote y i id false) j id true) id false.
Proof.
  intros Haw Hvo Hpr Hpend Htid.
  destruct y as [n [pend c] sim cl]. destruct c as [blocks h ptx aw pr vo ex vs vt]. cbn in Haw, Hvo, Hpr, Hpend. subst aw pr.
  set (c1 := mkOrchestratorChain blocks h ptx ∅ {[id := false]} (delete id (<[id := {[i := false]}]> vo)) (delete id ex) (delete id vs) vt).
  assert (record_vote (mkService n (mkLedger pend (mkOrchestratorChain blocks h ptx {[id := tx]} ∅ vo ex vs vt)) sim cl) i id false
    = mkService n (mkLedger (alter (λ tx, set_Status tx TxPrepared) id pend) c1) sim cl) as ->.
  { unfold record_vote, RecordVote. cbn [lg_chain svc_ledger oc_awaitingVotes]. rewrite lookup_singleton_eq.
    unfold map_get. cbn [oc_votes]. rewrite Hvo. cbn [default]. rewrite lookup_empty. cbn.
    unfold decide_tx. cbn. rewrite delete_singleton_eq. reflexivity. }
  unfold record_vote, RecordVote. cbn [lg_chain svc_ledger c1 oc_awaitingVotes]. rewrite lookup_empty.
  split_and!; try done; [eexists; cbn; by rewrite lookup_alter_eq, Hpend|].
  intros id' Hne. cbn. by rewrite lookup_delete_ne, lookup_insert_ne by done.
Qed.

(** The votes of both shards decide it. *)
Lemma transfer_voted y id i j tx tx0 blk_i blk_j (yes : bool) :
  i ≠ j →
  oc_awaitingVotes (lg_chain (svc_ledger y)) = {[id := tx]} → oc_votes (lg_chain (svc_ledger y)) !! id = None →
  oc_expectedVoters (lg_chain (svc_ledger y)) !! id = Some [i; j] → oc_pendingResult (lg_chain (svc_ledger y)) = ∅ →
  sb_ShardID blk_i = i → sb_TpcPrepare blk_i = {[id := yes]} → sb_ShardID blk_j = j → sb_TpcPrepare blk_j = {[id := true]} →
  lg_pending (svc_ledger y) !! id = Some tx0 → ct_ID tx0 = id →
  ∃ y1 y2,
    svc_step Hash y (EvShardBlock (Ok blk_i)) = Some y1 ∧ svc_step Hash y1 (EvShardBlock (Ok blk_j)) = Some y2 ∧
    decided_as y y2 id yes.
Proof.
  intros Hij Haw Hvo Hex Hpr Hbi Hpi Hbj Hpj Hpend Htid. eexists _, _. split; [reflexivity|]. split; [reflexivity|].
  cbn [handleStateShardBlock snd]. rewrite Hpi, Hpj, !map_range_singleton, Hbi, Hbj. cbn [foldl].
  destruct yes; [by eapply votes_accept|by eapply votes_refuse].
Qed.

(** The decision is published and recorded. *)
Lemma transfer_decided y h id (yes : bool) tx now :
  oc_height (lg_chain (svc_ledger y)) = h → Z.of_nat (length (oc_blocks (lg_chain (svc_ledger y)))) = h + 1 →
  0 ≤ h → h + 1 < two64 → oc_pendingTxs (lg_chain (svc_ledger y)) = [] → oc_awaitingVotes (lg_chain (svc_ledger y)) = ∅ →
  oc_pendingResult (lg_chain (svc_ledger y)) = {[id := yes]} → lg_pending (svc_ledger y) !! id = Some tx →
  ∃ y1 blk, svc_step Hash y (EvTick now) = Some y1 ∧
    ob_Height blk = h + 1 ∧ ob_TpcResult blk = {[id := yes]} ∧ ob_CtToOrder blk = [] ∧
    oc_blocks (lg_chain (svc_ledger y1)) = oc_blocks (lg_chain (svc_ledger y)) ++ [blk] ∧
    handleStatus y1 id = SvcStatus (ct_ID tx) (if yes then TxCommitted else TxAborted) ∧ svc_idle y1 (h + 1) ∧ svc_numShards y1 = svc_numShards y ∧
    oc_votes (lg_chain (svc_ledger y1)) = oc_votes (lg_chain (svc_ledger y)).
Proof.
  intros S1 S2 Hh Hov S3 S4 S5 Hp. destruct y as [n [pend c] sim cl]. destruct c as [blocks hh ptx aw pr vo ex vs vt].
  cbn in S1, S2, S3, S4, S5, Hp. subst hh ptx aw pr.
  destruct (lookup_lt_is_Some_2 blocks (Z.to_nat h)) as [prev Hprev]; [lia|].
  set (blk := mkOrchestratorShardBlock (h + 1) (Hash prev) now {[id := yes]} []).
  set (c1 := mkOrchestratorChain (blocks ++ [blk]) (h + 1) [] ∅ ∅ vo ex vs vt).
  set (y1 := publish_result (mkService n (mkLedger pend c1) sim cl) id yes).
  assert (Ht : svc_step Hash (mkService n (mkLedger pend (mkOrchestratorChain blocks h [] ∅ {[id := yes]} vo ex vs vt)) sim cl) (EvTick now) = Some y1).
  { cbn [svc_step]. unfold blockProducer, OrchestratorChain.ProduceBlock, checkTimeouts. cbn [lg_chain svc_ledger oc_awaitingVotes].
    rewrite map_to_list_empty. cbn -[u64_add publish_result]. rewrite Hprev. cbn -[u64_add publish_result].
    rewrite u64_add_small by lia. rewrite map_range_singleton. reflexivity. }
  exists y1, blk. split; [exact Ht|]. split_and!; try done.
  - unfold handleStatus, y1. cbn. by rewrite lookup_alter_eq, Hp.
  - split; cbn; try done. rewrite length_app. simpl. lia.
Qed.
End orchestrator.

(** ** The deployment *)

Lemma set_at_eq {A} (f : Z → A) i x : set_at f i x i = x.
Proof. unfold set_at. by rewrite decide_True. Qed.

Lemma set_at_ne {A} (f : Z → A) i j x : i ≠ j → set_at f i x j = f j.
Proof. unfold set_at. intros. by rewrite decide_False. Qed.

Section deployment.
Context {N D : Type} `{Net N} `{EthDB D} {DB : Type} `{GethStateDBLaws DB} `{Geth} `{!GethLaws} `{GethHex} `{TrieCodec}
  `{EVM} `{!EVMLaws} `{Uint256} `{MapRange}.
Context (OHash : OrchestratorShardBlock → BlockHash) (SHash : StateShardBlock → BlockHash) (uuid : Z → nat → string).
Hypothesis commits_succeed : ∀ (db : DB) n, is_Some (sdb_Commit db n).
Implicit Types (y : System N D DB).

Lemma acts_cons y a l y1 : act OHash SHash uuid y a = Some y1 → acts OHash SHash uuid y (a :: l) = acts OHash SHash uuid y1 l.
Proof. simpl. by intros ->. Qed.

Lemma act_event v sh sent evs rs ev v' :
  own_event ev = true → svc_step OHash v ev = Some v' →
  act OHash SHash uuid (mkSystem v sh sent evs rs) (ActEvent ev) = Some (mkSystem v' sh sent (evs ++ [ev]) rs).
Proof. unfold act. by intros -> ->. Qed.

Lemma act_votes v sh sent evs rs k b v' :
  sent !! k = Some b → svc_step OHash v (EvShardBlock (Ok b)) = Some v' →
  act OHash SHash uuid (mkSystem v sh sent evs rs) (ActVotes k) = Some (mkSystem v' sh sent (evs ++ [EvShardBlock (Ok b)]) rs).
Proof. unfold act. intros ->. cbn [mbind option_bind]. by intros ->. Qed.

Lemma act_deliver v sh sent evs rs i k b :
  oc_blocks (lg_chain (svc_ledger v)) !! k = Some b →
  act OHash SHash uuid (mkSystem v sh sent evs rs) (ActDeliver i k)
  = Some (mkSystem v (set_at sh i (handleOrchestratorShardBlock (uuid i) (sh i) b).2) sent evs rs).
Proof. unfold act. by intros ->. Qed.

Lemma act_tick v sh sent evs rs i t b s' :
  shardTick SHash (sh i) t = Some (Some b, s') →
  act OHash SHash uuid (mkSystem v sh sent evs rs) (ActTick i t) = Some (mkSystem v (set_at sh i s') (sent ++ [b]) evs rs).
Proof. unfold act. by intros ->. Qed.

(** Both shards take the [k]-th block of the orchestrator and produce one. *)
Definition round (i j : Z) (k : nat) (t t' : Z) : list (action DB) :=
  [ActDeliver i k; ActDeliver j k; ActTick i t; ActTick j t'].

Lemma round_acts v sh sent evs rs i j k t t' b bi bj si sj :
  i ≠ j → oc_blocks (lg_chain (svc_ledger v)) !! k = Some b →
  shardTick SHash (handleOrchestratorShardBlock (uuid i) (sh i) b).2 t = Some (Some bi, si) →
  shardTick SHash (handleOrchestratorShardBlock (uuid j) (sh j) b).2 t' = Some (Some bj, sj) →
  ∃ sh', acts OHash SHash uuid (mkSystem v sh sent evs rs) (round i j k t t')
         = Some (mkSystem v sh' (sent ++ [bi; bj]) evs rs) ∧
    sh' i = si ∧ sh' j = sj ∧ ∀ m, m ≠ i → m ≠ j → sh' m = sh m.
Proof.
  intros Hne Hb Hi Hj. eexists. split; [|split; [|split]].
  - unfold round.
    rewrite (acts_cons _ _ _ _ (act_deliver v sh sent evs rs i k b Hb)), (acts_cons _ _ _ _ (act_deliver v _ sent evs rs j k b Hb)).
    set (sh2 := set_at (set_at sh i _) j _).
    assert (Hi2 : shardTick SHash (sh2 i) t = Some (Some bi, si)) by (unfold sh2; by rewrite set_at_ne, set_at_eq).
    rewrite (acts_cons _ _ _ _ (act_tick v sh2 sent evs rs i t bi si Hi2)).
    assert (Hj2 : shardTick SHash (set_at sh2 i si j) t' = Some (Some bj, sj))
      by (unfold sh2; by rewrite set_at_ne, set_at_eq, set_at_ne).
    rewrite (acts_cons _ _ _ _ (act_tick v _ _ evs rs j t' bj sj Hj2)), <- (assoc_L (++)). reflexivity.
  - by rewrite set_at_ne, set_at_eq by done.
  - by rewrite set_at_eq.
  - intros m Hmi Hmj. by rewrite !set_at_ne by done.
Qed.

(** Between two transactions: the orchestrator at height [h] and the shards [i]
    and [j] have nothing to do, and the heights are far from the end of a [uint64]. *)
Record quiet y (i j h : Z) : Prop := {
  qu_service : svc_idle (sys_service y) h;
  qu_shards : svc_numShards (sys_service y) = NumShards;
  qu_source : idle (sys_shards y i) i h;
  qu_target : idle (sys_shards y j) j h;
  qu_height : 0 ≤ h
}.

(** Room for two more blocks on each of the chains. *)
Definition room y (i j h : Z) : Prop :=
  h + 3 < two64 ∧ sc_height (sv_chain (sys_shards y i)) + 2 < two64 ∧ sc_height (sv_chain (sys_shards y j)) + 2 < two64.

(** Nobody has heard of the transaction. *)
Record unknown y (i j : Z) (id : string) : Prop := {
  un_id : id ≠ ""%string;
  un_source : holds (sv_chain (sys_shards y i)) id None None None;
  un_target : holds (sv_chain (sys_shards y j)) id None None None;
  un_source_new : undecided (sv_chain (sys_shards y i)) id;
  un_target_new : undecided (sv_chain (sys_shards y j)) id;
  un_votes : oc_votes (lg_chain (svc_ledger (sys_service y))) !! id = None
}.

(** The request at shard [i], its forwarding to the orchestrator and a round for the
    votes. *)
Definition voting_schedule (i j h : Z) (req : CrossShardTransferRequest) (tx : CrossShardTx) (u : string) (t : Z) : list (action DB) :=
  [ActTransfer i req; ActEvent (EvSubmit (Ok tx) u); ActEvent (EvTick t)] ++ round i j (Z.to_nat (h + 1)) t t.

(** The votes, and a round for the decision. *)
Definition deciding_schedule (i j h : Z) (sent : nat) (t : Z) : list (action DB) :=
  [ActVotes sent; ActVotes (S sent); ActEvent (EvTick t)] ++ round i j (Z.to_nat (h + 2)) t t.

(** The request posts this transaction and draws an identifier. *)
Definition forwarded (s : Server DB) : Server DB :=
  mkServer (sv_shardID s) (sv_evmState s) (sv_chain s) (sv_blockBuffer s) (S (sv_uuids s)) (sv_receipts s).

Lemma transfer_forwarded (s : Server DB) i req v :
  sv_shardID s = i → SetString (xr_Amount req) 10 = Some v →
  handleCrossShardTransfer (uuid i) s req
  = (ForwardedToOrchestrator (transfer_tx (uuid i (sv_uuids s)) i (xr_ToShard req) (HexToAddress (xr_From req))
       (HexToAddress (xr_To req)) v TxNoStatus), forwarded s).
Proof. intros Hi Hv. unfold handleCrossShardTransfer. rewrite Hv. by subst i. Qed.

(** Between the two halves: both shards have voted, [yes] is the sender's vote. *)
Record prepared y (i j h : Z) (id : string) (a b : Address) (v : Z) (yes : bool) (n : nat) : Prop := {
  pp_height : oc_height (lg_chain (svc_ledger (sys_service y))) = h + 1;
  pp_blocks : Z.of_nat (length (oc_blocks (lg_chain (svc_ledger (sys_service y))))) = h + 2;
  pp_pending : oc_pendingTxs (lg_chain (svc_ledger (sys_service y))) = [];
  pp_awaiting : oc_awaitingVotes (lg_chain (svc_ledger (sys_service y))) = {[id := transfer_tx id i j a b v TxPending]};
  pp_votes : oc_votes (lg_chain (svc_ledger (sys_service y))) !! id = None;
  pp_voters : oc_expectedVoters (lg_chain (svc_ledger (sys_service y))) !! id = Some [i; j];
  pp_results : oc_pendingResult (lg_chain (svc_ledger (sys_service y))) = ∅;
  pp_status : lg_pending (svc_ledger (sys_service y)) !! id = Some (transfer_tx id i j a b v TxPending);
  pp_shards : svc_numShards (sys_service y) = NumShards;
  pp_source : idle (sys_shards y i) i (h + 1);
  pp_target : idle (sys_shards y j) j (h + 1);
  pp_reserved : holds (sv_chain (sys_shards y i)) id (if yes then Some (mkLockedFunds a v) else None) None (if yes then Some [] else None);
  pp_credit : holds (sv_chain (sys_shards y j)) id None (Some [mkPendingCredit b v]) (Some [mkRwVariable b (mkReference j 0 0) [] []]);
  pp_source_new : undecided (sv_chain (sys_shards y i)) id;
  pp_target_new : undecided (sv_chain (sys_shards y j)) id;
  pp_sent_source : ∃ blk, sys_sent y !! n = Some blk ∧ sb_ShardID blk = i ∧ sb_TpcPrepare blk = {[id := yes]};
  pp_sent_target : ∃ blk, sys_sent y !! S n = Some blk ∧ sb_ShardID blk = j ∧ sb_TpcPrepare blk = {[id := true]}
}.

(** Whether the sender can pay: the vote of its shard. *)
Definition affordable (s : Server DB) (a : Address) (v : Z) : bool :=
  getLockedAmountForAddrLocked (sv_chain s) a + v <=? bal (sv_evmState s) a.

Lemma source_votes (s : Server DB) i j h blk id a b v t :
  idle s i h → 0 ≤ h → h + 2 < two64 → sc_height (sv_chain s) + 1 < two64 → i ≠ j → shard_of b NumShards = j → 0 < v →
  ob_Height blk = h + 1 → ob_TpcResult blk = ∅ → ob_CtToOrder blk = [transfer_tx id i j a b v TxPending] →
  holds (sv_chain s) id None None None → undecided (sv_chain s) id → id ≠ ""%string →
  let yes := affordable s a v in
  ∃ bi s', shardTick SHash (handleOrchestratorShardBlock (uuid i) s blk).2 t = Some (Some bi, s') ∧
    sb_ShardID bi = i ∧ sb_TpcPrepare bi = {[id := yes]} ∧ idle s' i (h + 1) ∧ same_evm (sv_evmState s') (sv_evmState s) ∧
    sc_height (sv_chain s') = sc_height (sv_chain s) + 1 ∧
    holds (sv_chain s') id (if yes then Some (mkLockedFunds a v) else None) None (if yes then Some [] else None) ∧ undecided (sv_chain s') id ∧
    advances s s' id.
Proof.
  intros Hid Hh Hov Hov' Hne Hb Hv B1 B2 B3 Hho Hun Hids yes. set (tx := transfer_tx id i j a b v TxPending) in *.
  destruct (order_delivered (uuid i) s i h blk tx a v None []) as (s2&x&->&Hw&X1&X2&X3&X4&X5&Ev&Eh&El&Hho2&Hun2&Ha2); try done.
  { intros buf. apply (source_takes_up (uuid i) (set_buf s buf) tx i); [exact (id_queue _ _ _ _ Hid)|exact (id_server _ _ _ _ Hid)|done| |unfold tx; cbn; congruence].
    unfold tx, local_rwset. cbn. by rewrite decide_False by done. }
  change (ct_ID tx) with id in *.
  assert (∃ ok c1 e1, process_lock (sv_chain s2) (sv_evmState s2) x = (ok, c1, e1) ∧ same_evm e1 (sv_evmState s2) ∧
    sc_prepares c1 = {[id := yes]} ∧ holds c1 id (if yes then Some (mkLockedFunds a v) else None) None (if yes then Some [] else None))
    as (ok&c1&e1&L1&L2&L3&L4).
  { unfold yes, affordable. destruct (Z.leb_spec (getLockedAmountForAddrLocked (sv_chain s) a + v) (bal (sv_evmState s) a)) as [Hle|Hgt].
    - destruct (lock_accepted (sv_chain s2) (sv_evmState s2) x) as (c1&e1&L1&L2&L3&L4); rewrite ?X2, ?X3, ?X4, ?X5 in *; try done; [apply Hw| |].
      + intros _. unfold getLockedAmountForAddrLocked. by rewrite El, Ev.
      + exists true, c1, e1. rewrite (proj2 (Z.ltb_lt _ _) Hv) in L4. split_and!; try done; by apply L4.
    - destruct (lock_refused (sv_chain s2) (sv_evmState s2) x) as (c1&e1&L1&L2&L3&L4); rewrite ?X2, ?X3, ?X4 in *; try done; [apply Hw| |].
      + unfold getLockedAmountForAddrLocked. by rewrite El, Ev.
      + by exists false, c1, e1. }
  destruct (vote_tick SHash commits_succeed s2 i (h + 1) x t ok c1 e1 yes) as (bi&s'&T1&T2&T3&T4&T5&T6&T7&T8&T9);
    rewrite ?X2; try done; [lia|apply Hho2|].
  exists bi, s'. rewrite X2 in T3, T9. split_and!; try done; [by etrans; [|by rewrite Ev in L2]|lia|by apply T7| |by apply (advances_trans s s2)].
  unfold undecided. by rewrite T8.
Qed.

Lemma target_votes (s : Server DB) i j h blk id a b v t :
  idle s j h → 0 ≤ h → h + 2 < two64 → sc_height (sv_chain s) + 1 < two64 → i ≠ j → shard_of b NumShards = j → 0 < v →
  ob_Height blk = h + 1 → ob_TpcResult blk = ∅ → ob_CtToOrder blk = [transfer_tx id i j a b v TxPending] →
  holds (sv_chain s) id None None None → undecided (sv_chain s) id → id ≠ ""%string →
  ∃ bj s', shardTick SHash (handleOrchestratorShardBlock (uuid j) s blk).2 t = Some (Some bj, s') ∧
    sb_ShardID bj = j ∧ sb_TpcPrepare bj = {[id := true]} ∧ idle s' j (h + 1) ∧ same_evm (sv_evmState s') (sv_evmState s) ∧
    sc_height (sv_chain s') = sc_height (sv_chain s) + 1 ∧
    holds (sv_chain s') id None (Some [mkPendingCredit b v]) (Some [mkRwVariable b (mkReference j 0 0) [] []]) ∧
    undecided (sv_chain s') id ∧ advances s s' id.
Proof.
  intros Hid Hh Hov Hov' Hne Hb Hv B1 B2 B3 Hho Hun Hids. set (tx := transfer_tx id i j a b v TxPending) in *.
  assert (Hl : local_rwset j (ct_RwSet tx) = [mkRwVariable b (mkReference j 0 0) [] []])
    by (unfold tx, local_rwset; cbn; by rewrite decide_True by done).
  destruct (order_delivered (uuid j) s j h blk tx a 0 (Some [mkPendingCredit b v]) [mkRwVariable b (mkReference j 0 0) [] []])
    as (s2&x&->&Hw&X1&X2&X3&X4&X5&Ev&Eh&El&Hho2&Hun2&Ha2); try done.
  { intros buf. rewrite <- Hl.
    apply (target_takes_up (uuid j) (set_buf s buf) tx j); try done; [exact (id_queue _ _ _ _ Hid)|exact (id_server _ _ _ _ Hid)|by rewrite Hl|apply Hho]. }
  change (ct_ID tx) with id in *.
  destruct (lock_accepted (sv_chain s2) (sv_evmState s2) x) as (c1&e1&L1&L2&L3&L4); rewrite ?X2, ?X3, ?X4, ?X5 in *; try done; [apply Hw|].
  destruct (vote_tick SHash commits_succeed s2 j (h + 1) x t true c1 e1 true) as (bi&s'&T1&T2&T3&T4&T5&T6&T7&T8&T9);
    rewrite ?X2; try done; [lia|apply Hho2|].
  exists bi, s'. rewrite X2 in T3, T9. split_and!; try done; [by etrans; [|by rewrite Ev in L2]|lia|by apply T7, L4| |by apply (advances_trans s s2)].
  unfold undecided. by rewrite T8.
Qed.

(** [y'] is [y] as far as the other transactions are concerned. *)
Record progressed y y' (i j : Z) (id : string) : Prop := {
  pr_source : advances (sys_shards y i) (sys_shards y' i) id;
  pr_target : advances (sys_shards y j) (sys_shards y' j) id;
  pr_votes id' : id' ≠ id → oc_votes (lg_chain (svc_ledger (sys_service y'))) !! id' = oc_votes (lg_chain (svc_ledger (sys_service y))) !! id'
}.

Lemma progressed_trans y1 y2 y3 i j id : progressed y1 y2 i j id → progressed y2 y3 i j id → progressed y1 y3 i j id.
Proof.
  intros [A1 A2 A3] [B1 B2 B3]. split; [by eapply advances_trans|by eapply advances_trans|].
  intros id' Hne. by rewrite B3, A3.
Qed.

Lemma votes_collected y i j h req v u t :
  let id := uuid i (sv_uuids (sys_shards y i)) in
  let a := HexToAddress (xr_From req) in
  let b := HexToAddress (xr_To req) in
  quiet y i j h → room y i j h → unknown y i j id → i ≠ j → 0 ≤ i < NumShards → 0 ≤ j < NumShards →
  SetString (xr_Amount req) 10 = Some v → xr_ToShard req = j → shard_of b NumShards = j → 0 < v →
  ∃ y1, acts OHash SHash uuid y (voting_schedule i j h req (transfer_tx id i j a b v TxNoStatus) u t) = Some y1 ∧
    prepared y1 i j h id a b v (affordable (sys_shards y i) a v) (length (sys_sent y)) ∧
    same_evm (sv_evmState (sys_shards y1 i)) (sv_evmState (sys_shards y i)) ∧
    same_evm (sv_evmState (sys_shards y1 j)) (sv_evmState (sys_shards y j)) ∧
    sc_height (sv_chain (sys_shards y1 i)) = sc_height (sv_chain (sys_shards y i)) + 1 ∧
    sc_height (sv_chain (sys_shards y1 j)) = sc_height (sv_chain (sys_shards y j)) + 1 ∧
    (∀ m, m ≠ i → m ≠ j → sys_shards y1 m = sys_shards y m) ∧
    progressed y y1 i j id ∧ (sv_uuids (sys_shards y i) < sv_uuids (sys_shards y1 i))%nat.
Proof.
  intros id a b [Hsvc Hnum Hsi Hsj Hh] (Hr1&Hr2&Hr3) [Hid Hui Huj Hdi Hdj Hvo] Hne Hi Hj Hv Hto Hsh Hpos.
  destruct y as [w sh sent evs rs]. cbn [sys_service sys_shards sys_sent sys_events] in *.
  pose proof (si_blocks _ _ Hsvc) as Hlen.
  destruct (transfer_ordered OHash w h id i j a b v u t) as (w1&w2&blk&Hs1&Hs2&B1&B2&B3&B4&B5&B6&B7&B8&B9&B10&B11&B12);
    [done|done|lia|done|done|lia|lia|].
  set (sh1 := set_at sh i (forwarded (sh i))).
  assert (Hsi' : idle (sh1 i) i h) by (unfold sh1; rewrite set_at_eq; by destruct Hsi).
  assert (Hsj' : idle (sh1 j) j h) by (unfold sh1; by rewrite set_at_ne).
  assert (Hci : sv_chain (sh1 i) = sv_chain (sh i)) by (unfold sh1; by rewrite set_at_eq).
  assert (Hei : sv_evmState (sh1 i) = sv_evmState (sh i)) by (unfold sh1; by rewrite set_at_eq).
  assert (Haff : affordable (sh1 i) a v = affordable (sh i) a v) by (unfold affordable; by rewrite Hci, Hei).
  assert (Hj1 : sh1 j = sh j) by (unfold sh1; by rewrite set_at_ne).
  set (tx := transfer_tx id i j a b v TxPending) in *.
  destruct (source_votes (sh1 i) i j h blk id a b v t) as (bi&si&T1&T2&T3&T4&T5&T6&T7&T8&T9); rewrite ?Hci, ?Hei, ?Haff in *; try done; [lia|lia|].
  destruct (target_votes (sh1 j) i j h blk id a b v t) as (bj&sj&U1&U2&U3&U4&U5&U6&U7&U8&U9); rewrite ?Hj1 in *; try done; [lia|lia|].
  destruct (round_acts w2 sh1 sent (evs ++ [EvSubmit (Ok (transfer_tx id i j a b v TxNoStatus)) u; EvTick t]) rs i j (Z.to_nat (h + 1)) t t blk bi bj si sj)
    as (sh2&Hacts&R1&R2&R3); [done| |exact T1|by rewrite Hj1|].
  { rewrite B4. apply list_lookup_middle. lia. }
  eexists. split.
  { unfold voting_schedule. cbn [app].
    erewrite acts_cons; [|cbn [act]; rewrite (transfer_forwarded _ i req v), Hto by (done || apply Hsi); reflexivity].
    erewrite acts_cons; [|by apply act_event]. erewrite acts_cons; [|by apply act_event].
    rewrite <- (assoc_L (++)). exact Hacts. }
  cbn [sys_service sys_shards sys_sent]. rewrite R1, R2. unfold sh1 in T9. rewrite set_at_eq in T9. pose proof T9 as [_ Hlt]. cbn in Hlt.
  split; [|do 4 (split; [done|]); split; [|split; [|lia]]].
  - split; cbn [sys_service sys_shards sys_sent]; rewrite ?R1, ?R2; try done.
    + rewrite B4, length_app. cbn. lia.
    + congruence.
    + congruence.
    + exists bi. split; [|done]. by apply list_lookup_middle.
    + exists bj. split; [|done]. rewrite lookup_app_r by lia. by replace (S (length sent) - length sent)%nat with 1%nat by lia.
  - intros m Hmi Hmj. rewrite R3 by done. unfold sh1. by rewrite set_at_ne.
  - split; cbn [sys_shards sys_service]; rewrite ?R1, ?R2; [|done|intros id' _; by rewrite B9].
    apply (advances_trans _ (forwarded (sh i))); [|done]. split; [done|cbn; lia].
Qed.

(** The shards on the block that publishes the decision. *)
Lemma source_settles (s : Server DB) i h blk id a v (yes : bool) t :
  idle s i h → 0 ≤ h → h + 2 < two64 → sc_height (sv_chain s) + 1 < two64 →
  ob_Height blk = h + 1 → ob_TpcResult blk = {[id := yes]} → ob_CtToOrder blk = [] →
  holds (sv_chain s) id (if yes then Some (mkLockedFunds a v) else None) None (if yes then Some [] else None) →
  undecided (sv_chain s) id → id ≠ ""%string → is_u256 v →
  ∃ bi s', shardTick SHash (handleOrchestratorShardBlock (uuid i) s blk).2 t = Some (Some bi, s') ∧ idle s' i (h + 1) ∧
    holds (sv_chain s') id None None None ∧ IsCommitProcessed (sv_chain s') id = true ∧
    (∀ x, bal (sv_evmState s') x = bal (sv_evmState s) x + (if decide (x = a) then - (if yes then v else 0) else 0)) ∧
    (∀ x k, sto (sv_evmState s') x k = sto (sv_evmState s) x k) ∧ advances s s' id ∧
    sc_height (sv_chain s') = sc_height (sv_chain s) + 1.
Proof.
  intros Hid Hh Hov Hov' B1 B2 B3 Hho Hun Hids Hu.
  assert (∃ txs, (∀ buf, acts_with (set_buf s buf) (process_result (uuid i) (set_buf s buf) id yes) id txs) ∧
    settles s id txs (h + 1) (λ x, if decide (x = a) then - (if yes then v else 0) else 0)) as (txs&Ha&Hse).
  { destruct yes.
    - eexists. split; [|by apply (source_pays (uuid i) s i)].
      intros buf. by apply (source_acts (uuid i) (set_buf s buf)); [exact (id_queue _ _ _ _ Hid)|..].
    - exists (abort_txs (uuid i) (sv_uuids s) id false). split.
      + intros buf. apply (abort_acts (uuid i) (set_buf s buf) id None None); [exact (id_queue _ _ _ _ Hid)|done|done].
      + destruct (abort_releases (uuid i) s i h id false Hid Hids) as (ok&c1&e1&P1&P2&P3&P4&P5&P6&P7).
        exists ok, c1, e1. split_and!; try done; try apply P5. intros x. rewrite P6. by case_decide. }
  by apply (second_round SHash (uuid i) commits_succeed s i h blk id yes t txs).
Qed.

Lemma target_settles (s : Server DB) i h blk id b v rws (yes : bool) t :
  idle s i h → 0 ≤ h → h + 2 < two64 → sc_height (sv_chain s) + 1 < two64 →
  ob_Height blk = h + 1 → ob_TpcResult blk = {[id := yes]} → ob_CtToOrder blk = [] →
  holds (sv_chain s) id None (Some [mkPendingCredit b v]) (Some rws) → undecided (sv_chain s) id → id ≠ ""%string → is_u256 v →
  bal (sv_evmState s) b + v < two256 → rws ≠ [] → (∀ rw, rw ∈ rws → rw_WriteSet rw = []) →
  ∃ bi s', shardTick SHash (handleOrchestratorShardBlock (uuid i) s blk).2 t = Some (Some bi, s') ∧ idle s' i (h + 1) ∧
    holds (sv_chain s') id None None None ∧ IsCommitProcessed (sv_chain s') id = true ∧
    (∀ x, bal (sv_evmState s') x = bal (sv_evmState s) x + (if decide (x = b) then (if yes then v else 0) else 0)) ∧
    (∀ x k, sto (sv_evmState s') x k = sto (sv_evmState s) x k) ∧ advances s s' id ∧
    sc_height (sv_chain s') = sc_height (sv_chain s) + 1.
Proof.
  intros Hid Hh Hov Hov' B1 B2 B3 Hho Hun Hids Hu Hb Hne Hws.
  assert (∃ txs, (∀ buf, acts_with (set_buf s buf) (process_result (uuid i) (set_buf s buf) id yes) id txs) ∧
    settles s id txs (h + 1) (λ x, if decide (x = b) then (if yes then v else 0) else 0)) as (txs&Ha&Hse).
  { destruct yes.
    - eexists. split; [|by apply (target_receives (uuid i) s i h id b v rws)].
      intros buf. by apply (target_acts (uuid i) (set_buf s buf)); [exact (id_queue _ _ _ _ Hid)|..].
    - exists (abort_txs (uuid i) (sv_uuids s) id true). split.
      + intros buf. apply (abort_acts (uuid i) (set_buf s buf) id (Some [mkPendingCredit b v]) (Some rws)); [exact (id_queue _ _ _ _ Hid)|done|done].
      + destruct (abort_releases (uuid i) s i h id true Hid Hids) as (ok&c1&e1&P1&P2&P3&P4&P5&P6&P7).
        exists ok, c1, e1. split_and!; try done; try apply P5. intros x. rewrite P6. by case_decide. }
  by apply (second_round SHash (uuid i) commits_succeed s i h blk id yes t txs).
Qed.

(** [y'] is [y] with [v] moved from [a] on shard [i] to [b] on shard [j], and nothing
    else of the state changed. *)
Record moved y y' (i j : Z) (a b : Address) (v : Z) : Prop := {
  mv_source x : bal (sv_evmState (sys_shards y' i)) x = bal (sv_evmState (sys_shards y i)) x + (if decide (x = a) then - v else 0);
  mv_target x : bal (sv_evmState (sys_shards y' j)) x = bal (sv_evmState (sys_shards y j)) x + (if decide (x = b) then v else 0);
  mv_source_storage x k : sto (sv_evmState (sys_shards y' i)) x k = sto (sv_evmState (sys_shards y i)) x k;
  mv_target_storage x k : sto (sv_evmState (sys_shards y' j)) x k = sto (sv_evmState (sys_shards y j)) x k;
  mv_others m : m ≠ i → m ≠ j → sys_shards y' m = sys_shards y m
}.

Lemma decision_carried_out y i j h id a b v (yes : bool) n t :
  prepared y i j h id a b v yes n → 0 ≤ h → h + 3 < two64 → i ≠ j → id ≠ ""%string → is_u256 v →
  sc_height (sv_chain (sys_shards y i)) + 1 < two64 → sc_height (sv_chain (sys_shards y j)) + 1 < two64 →
  bal (sv_evmState (sys_shards y j)) b + v < two256 →
  ∃ y', acts OHash SHash uuid y (deciding_schedule i j h n t) = Some y' ∧ quiet y' i j (h + 2) ∧
    handleStatus (sys_service y') id = SvcStatus id (if yes then TxCommitted else TxAborted) ∧
    moved y y' i j a b (if yes then v else 0) ∧
    (∀ m, m = i ∨ m = j → holds (sv_chain (sys_shards y' m)) id None None None ∧ IsCommitProcessed (sv_chain (sys_shards y' m)) id = true) ∧
    progressed y y' i j id ∧ sc_height (sv_chain (sys_shards y' i)) = sc_height (sv_chain (sys_shards y i)) + 1 ∧
    sc_height (sv_chain (sys_shards y' j)) = sc_height (sv_chain (sys_shards y j)) + 1.
Proof.
  intros [Q1 Q2 Q3 Q4 Q5 Q6 Q7 Q8 Q9 Q10 Q11 Q12 Q13 Q14 Q15 (bi&Hbi&Vi1&Vi2) (bj&Hbj&Vj1&Vj2)] Hh Hov Hne Hid Hu Hoi Hoj Hb.
  destruct y as [w sh sent evs rs]. cbn [sys_service sys_shards sys_sent sys_events] in *.
  destruct (transfer_voted OHash w id i j _ _ bi bj yes Hne Q4 Q5 Q6 Q7 Vi1 Vi2 Vj1 Vj2 Q8 eq_refl)
    as (w1&w2&S1&S2&W1&W2&W3&W4&W5&(tx&W6&W7)&W8&W9).
  destruct (transfer_decided OHash w2 (h + 1) id yes tx t) as (w3&blk&S3&B1&B2&B3&B4&B5&B6&B7&B8);
    [congruence|rewrite W4; lia|lia|lia|congruence|done|done|done|].
  destruct (source_settles (sh i) i (h + 1) blk id a v yes t) as (ci&si&T1&T2&T3&T4&T5&T6&T7&T8); try done; [lia|lia|].
  destruct (target_settles (sh j) j (h + 1) blk id b v [mkRwVariable b (mkReference j 0 0) [] []] yes t)
    as (cj&sj&U1&U2&U3&U4&U5&U6&U7&U8); try done; [lia|lia|by intros rw ->%list_elem_of_singleton|].
  set (evs3 := ((evs ++ [EvShardBlock (Ok bi)]) ++ [EvShardBlock (Ok bj)]) ++ [EvTick t]).
  destruct (round_acts w3 sh sent evs3 rs i j (Z.to_nat (h + 2)) t t blk ci cj si sj) as (sh'&Hacts&R1&R2&R3); [done| |exact T1|exact U1|].
  { rewrite B4, W4. apply list_lookup_middle. lia. }
  eexists. split.
  { unfold deciding_schedule. cbn [app]. erewrite acts_cons; [|by apply act_votes]. erewrite acts_cons; [|by apply act_votes].
    erewrite acts_cons; [|by apply act_event]. exact Hacts. }
  cbn [sys_service sys_shards]. split_and!.
  - split; cbn [sys_service sys_shards]; rewrite ?R1, ?R2; replace (h + 2) with (h + 1 + 1) by lia; try done; [congruence|lia].
  - by rewrite B5, W7.
  - split; cbn [sys_shards]; rewrite ?R1, ?R2; done.
  - intros m [->| ->]; rewrite ?R1, ?R2; done.
  - split; cbn [sys_shards sys_service]; rewrite ?R1, ?R2; [done|done|].
    intros id' Hid'. rewrite B8. by apply W9.
  - by rewrite R1.
  - by rewrite R2.
Qed.

(** The whole schedule, with what is needed to go on with the next transfer. *)
Lemma transfer_runs y i j h req v u t1 t2 :
  let id := uuid i (sv_uuids (sys_shards y i)) in
  let a := HexToAddress (xr_From req) in
  let b := HexToAddress (xr_To req) in
  let yes := affordable (sys_shards y i) a v in
  quiet y i j h → room y i j h → unknown y i j id → i ≠ j → 0 ≤ i < NumShards → 0 ≤ j < NumShards →
  SetString (xr_Amount req) 10 = Some v → xr_ToShard req = j → shard_of b NumShards = j → 0 < v → is_u256 v →
  bal (sv_evmState (sys_shards y j)) b + v < two256 →
  ∃ y',
    acts OHash SHash uuid y (voting_schedule i j h req (transfer_tx id i j a b v TxNoStatus) u t1 ++
                             deciding_schedule i j h (length (sys_sent y)) t2) = Some y' ∧
    handleStatus (sys_service y') id = SvcStatus id (if yes then TxCommitted else TxAborted) ∧
    moved y y' i j a b (if yes then v else 0) ∧ quiet y' i j (h + 2) ∧
    (∀ m, m = i ∨ m = j → holds (sv_chain (sys_shards y' m)) id None None None ∧ IsCommitProcessed (sv_chain (sys_shards y' m)) id = true) ∧
    progressed y y' i j id ∧ (sv_uuids (sys_shards y i) < sv_uuids (sys_shards y' i))%nat ∧
    sc_height (sv_chain (sys_shards y' i)) = sc_height (sv_chain (sys_shards y i)) + 2 ∧
    sc_height (sv_chain (sys_shards y' j)) = sc_height (sv_chain (sys_shards y j)) + 2.
Proof.
  intros id a b yes Hq Hr Hun Hne Hi Hj Hv Hto Hsh Hpos Hu Hb.
  destruct (votes_collected y i j h req v u t1) as (y1&A1&Hp&[Ei1 Ei2]&[Ej1 Ej2]&Hi1&Hj1&Ho&Hpr&Hlt); try done.
  destruct Hr as (Hr1&Hr2&Hr3).
  destruct (decision_carried_out y1 i j h id a b v yes (length (sys_sent y)) t2)
    as (y2&A2&Hq2&Hst&[M1 M2 M3 M4 M5]&Hrel&Hpr2&Hh1&Hh2);
    [done|apply Hq|lia|done|apply Hun|done|lia|lia|by rewrite (Ej1 b : bal _ b = bal _ b)|].
  fold id a b in A1. exists y2. split; [rewrite acts_app, A1; exact A2|]. split; [done|].
  split; [|split; [done|split; [done|split; [by apply (progressed_trans y y1)|]]]].
  - split.
    + intros x. rewrite M1. f_equal. apply Ei1.
    + intros x. rewrite M2. f_equal. apply Ej1.
    + intros x k. rewrite M3. apply Ei2.
    + intros x k. rewrite M4. apply Ej2.
    + intros m Hmi Hmj. rewrite M5 by done. by apply Ho.
  - destruct (pr_source _ _ _ _ _ Hpr2) as [_ Hle]. split; [lia|]. split; lia.
Qed.


(** A fresh deployment is idle, and no identifier is in use. *)
Lemma fresh_idle (db : DB) i now : idle (fresh_server i db now) i 0.
Proof.
  split; try done. split; [split; [|split]|split].
  - intros a. apply NoDup_nil_2.
  - intros a en Hin. by apply (not_elem_of_nil en) in Hin.
  - done.
  - done.
  - intros a. apply balance_u256.
Qed.

Lemma fresh_quiet n net db dbs now t0 i j : n = NumShards → quiet (sys_init t0 n net db dbs now : System N D DB) i j 0.
Proof. intros ->. split; try done; apply fresh_idle. Qed.

Lemma fresh_unknown n net db dbs now t0 i j id :
  id ≠ ""%string → unknown (sys_init t0 n net db dbs now : System N D DB) i j id.
Proof. intros Hid. by split. Qed.
End deployment.

(** ** Witness *)

#[local] Existing Instance list_range.
#[local] Existing Instance toy_codec.
#[local] Existing Instances toy_tries plain_codec.

Definition freshDeployment : System (ShardNet MemDB) (gmap (list byte) (list byte)) MemDB :=
  sys_init 0 NumShards twoShards ∅ (λ _, set_bal emptyMem 8 100) (λ _, 0).

(** The account 8 is of shard 0 and has 100, the account 1 is of shard 1. *)
Definition transfer60 : CrossShardTransferRequest := mkCrossShardTransferRequest "8" "1" 1 "60".
Definition transfer160 : CrossShardTransferRequest := mkCrossShardTransferRequest "8" "1" 1 "160".

Lemma mem_commits_at (db : MemDB) n : is_Some (sdb_Commit db n).
Proof. by eexists. Qed.

