(* ===== verification/Ledger.v ===== *)
(** * Ledger: transfers between two shards refine a ledger

    The specification of the whole system for a client: a ledger of balances per
    shard, on which a transfer is done if the sender has the amount and refused
    otherwise. [transfers_refine_ledger] composes [EndToEnd]: for every list of
    transfers between two shards, in either direction, the deployment gives the answers
    and the balances of the ledger. *)

From stdpp Require Import pretty countable.
From S2P Require Import Prelude Codec Protocol BlockBuffer VmState MemDB TrackingDB EvmState ShardChain SlotLocks TxOrder ShardBlock FundLocks ShardServer ServerBlocks ServerHandlers StorageProof BytecodeStore SimStateDB StateFetcher ShardQueries SimProofs Simulator OrchestratorChain TwoPhase Service Receipts JsonRpc System EndToEnd.

Open Scope Z_scope.

(** ** The specification *)

(** A client's transfer: from the first to the second of two shards or [back], the
    request, and what the nodes draw meanwhile (an identifier nobody needs, clocks). *)
Record Transfer := mkTransfer {
  tf_back : bool;
  tf_req : CrossShardTransferRequest;
  tf_uuid : string;
  tf_now1 : Z;
  tf_now2 : Z
}.

Section ledger.
Context `{GethHex}.
(** The two shards. *)
Context (i j : Z).

Definition src (t : Transfer) : Z := if tf_back t then j else i.
Definition dst (t : Transfer) : Z := if tf_back t then i else j.
Definition payer (t : Transfer) : Address := HexToAddress (xr_From (tf_req t)).
Definition payee (t : Transfer) : Address := HexToAddress (xr_To (tf_req t)).
Definition amount (t : Transfer) : Z := default 0 (SetString (xr_Amount (tf_req t)) 10).

(** A positive amount that fits, to an account of the other shard. *)
Definition well_formed (t : Transfer) : Prop :=
  is_Some (SetString (xr_Amount (tf_req t)) 10) ∧ 0 < amount t ∧ is_u256 (amount t) ∧
  xr_ToShard (tf_req t) = dst t ∧ shard_of (payee t) NumShards = dst t.

(** The balance of an address on a shard. *)
Definition ledger : Type := Z → Address → Z.

Definition move (L : ledger) (t : Transfer) : ledger := λ m x,
  L m x + (if decide (m = src t ∧ x = payer t) then - amount t else 0)
        + (if decide (m = dst t ∧ x = payee t) then amount t else 0).

Definition ledger_step (L : ledger) (t : Transfer) : bool * ledger :=
  if amount t <=? L (src t) (payer t) then (true, move L t) else (false, L).

Fixpoint ledger_run (L : ledger) (ts : list Transfer) : list bool * ledger :=
  match ts with
  | [] => ([], L)
  | t :: ts' =>
      let '(paid, L1) := ledger_step L t in
      let '(answers, L2) := ledger_run L1 ts' in (paid :: answers, L2)
  end.

(** No payee's balance could overflow. *)
Fixpoint fits (L : ledger) (ts : list Transfer) : Prop :=
  match ts with
  | [] => True
  | t :: ts' => L (dst t) (payee t) + amount t < two256 ∧ fits (ledger_step L t).2 ts'
  end.

(** Only what is extensionally in the ledger matters. *)
Definition ledger_eq (L L' : ledger) : Prop := ∀ m x, L m x = L' m x.

#[export] Instance ledger_eq_equivalence : Equivalence ledger_eq.
Proof. split; [by intros L m x|by intros L L' He m x|by intros L1 L2 L3 H1 H2 m x; rewrite H1]. Qed.

#[export] Instance ledger_step_proper : Proper (ledger_eq ==> eq ==> (prod_relation eq ledger_eq)) ledger_step.
Proof.
  intros L L' He t ? <-. unfold ledger_step. rewrite (He (src t) (payer t)). destruct (_ <=? _); (split; [done|]); [|done].
  intros m x. unfold move; cbn. by rewrite He.
Qed.

Lemma ledger_run_proper L L' ts :
  ledger_eq L L' → (ledger_run L ts).1 = (ledger_run L' ts).1 ∧ ledger_eq (ledger_run L ts).2 (ledger_run L' ts).2.
Proof.
  revert L L'. induction ts as [|t ts IH]; intros L L' He; [done|]. cbn.
  destruct (ledger_step_proper L L' He t t eq_refl) as [Hp He1].
  destruct (ledger_step L t) as [p L1], (ledger_step L' t) as [p' L1']. cbn in Hp, He1. subst p'.
  destruct (IH L1 L1' He1) as [Ha Hl].
  destruct (ledger_run L1 ts) as [as1 L2], (ledger_run L1' ts) as [as2 L2']. cbn in *. by subst.
Qed.

Lemma fits_proper L L' ts : ledger_eq L L' → fits L ts → fits L' ts.
Proof.
  revert L L'. induction ts as [|t ts IH]; intros L L' He; [done|]. cbn. intros [Hf Hr].
  rewrite <- (He (dst t) (payee t)). split; [done|]. eapply IH; [|exact Hr]. by apply ledger_step_proper.
Qed.
End ledger.

(** ** The deployment *)

Section deployment.
Context {N D : Type} `{Net N} `{EthDB D} {DB : Type} `{GethStateDBLaws DB} `{Geth} `{!GethLaws} `{GethHex} `{TrieCodec}
  `{EVM} `{!EVMLaws} `{Uint256} `{MapRange}.
Context (OHash : OrchestratorShardBlock → BlockHash) (SHash : StateShardBlock → BlockHash) (uuid : Z → nat → string).
Hypothesis commits_succeed : ∀ (db : DB) n, is_Some (sdb_Commit db n).
Hypothesis uuid_unique : ∀ k n k' n', uuid k n = uuid k' n' → k = k' ∧ n = n'.
Hypothesis uuid_named : ∀ k n, uuid k n ≠ ""%string.
Implicit Types (y : System N D DB).

(** The balances of the deployment. *)
Definition ledger_of y : ledger := λ m x, bal (sv_evmState (sys_shards y m)) x.

(** The identifier the transfer will get. *)
Definition id_of y (i : Z) : string := uuid i (sv_uuids (sys_shards y i)).

(** One transfer after the other, each with the status its client is then told. *)
Fixpoint serve y (i j h : Z) (ts : list Transfer) : option (list svc_response * System N D DB) :=
  match ts with
  | [] => Some ([], y)
  | t :: ts' =>
      let a := src i j t in
      let b := dst i j t in
      let tx := transfer_tx (id_of y a) a b (payer t) (payee t) (amount t) TxNoStatus in
      y1 ← acts OHash SHash uuid y (voting_schedule a b h (tf_req t) tx (tf_uuid t) (tf_now1 t) ++
                                    deciding_schedule a b h (length (sys_sent y)) (tf_now2 t));
      '(answers, y2) ← serve y1 i j (h + 2) ts';
      Some (handleStatus (sys_service y1) (id_of y a) :: answers, y2)
  end.

(** The system between two transfers: idle, nothing held for anybody, and the
    identifiers to come unused. *)
Definition clear (c : Chain) : Prop := ∀ id, holds c id None None None.

Definition unused y (i j k : Z) : Prop := ∀ n, (sv_uuids (sys_shards y k) ≤ n)%nat →
  undecided (sv_chain (sys_shards y i)) (uuid k n) ∧ undecided (sv_chain (sys_shards y j)) (uuid k n) ∧
  oc_votes (lg_chain (svc_ledger (sys_service y))) !! uuid k n = None.

Record ready y (i j h : Z) : Prop := {
  rd_quiet : quiet y i j h;
  rd_source : clear (sv_chain (sys_shards y i));
  rd_target : clear (sv_chain (sys_shards y j));
  rd_unused_source : unused y i j i;
  rd_unused_target : unused y i j j
}.

Lemma quiet_sym y i j h : quiet y i j h → quiet y j i h.
Proof. by intros []. Qed.

Lemma ready_sym y i j h : ready y i j h → ready y j i h.
Proof.
  intros [Hq Hi Hj Hui Huj]. split; [by apply quiet_sym|done|done| |].
  - intros n Hn. destruct (Huj n Hn) as (?&?&?). done.
  - intros n Hn. destruct (Hui n Hn) as (?&?&?). done.
Qed.

(** Without reservations the whole balance is there. *)
Lemma clear_affordable (s : Server DB) i h a v :
  idle s i h → clear (sv_chain s) → affordable s a v = (v <=? bal (sv_evmState s) a).
Proof.
  intros Hid Hc. unfold affordable. rewrite locked_amount_sum.
  destruct (id_solvent _ _ _ _ Hid) as ((_&Hin&_)&_&_).
  destruct (entries (sv_chain s) a) as [|en l] eqn:He; [done|].
  assert (Hl : sc_locked (sv_chain s) !! le_txID en = Some (mkLockedFunds a (le_amount en))) by (apply Hin; rewrite He; left).
  destruct (Hc (le_txID en)) as (Hn&_). congruence.
Qed.

(** After a transfer under [uuid i n] the identifiers that follow are still unused. *)
Lemma ready_next y y' i j h :
  ready y i j h → i ≠ j → quiet y' i j (h + 2) → progressed y y' i j (id_of y i) →
  (sv_uuids (sys_shards y i) < sv_uuids (sys_shards y' i))%nat →
  (∀ m, m = i ∨ m = j → holds (sv_chain (sys_shards y' m)) (id_of y i) None None None) → ready y' i j (h + 2).
Proof.
  intros [Hq Hi Hj Hui Huj] Hne Hq' [[Ai Ni] [Aj Nj] Av] Hlt Hh.
  assert (Hun : ∀ k, unused y i j k → (∀ n, (sv_uuids (sys_shards y' k) ≤ n)%nat → uuid k n ≠ id_of y i) →
    (sv_uuids (sys_shards y k) ≤ sv_uuids (sys_shards y' k))%nat → unused y' i j k).
  { intros k Hk Hid Hle n Hn. destruct (Hk n) as (Hu1&Hu2&Hu3); [lia|]. specialize (Hid n Hn). unfold undecided.
    destruct (Ai _ Hid) as [_ ->], (Aj _ Hid) as [_ ->]. by rewrite Av. }
  split; [done| | | |].
  - intros id. destruct (decide (id = id_of y i)) as [->|Hn]; [apply Hh; by left|]. by apply (Ai id Hn).
  - intros id. destruct (decide (id = id_of y i)) as [->|Hn]; [apply Hh; by right|]. by apply (Aj id Hn).
  - apply Hun; [done| |lia]. intros n Hn [_ Heq]%uuid_unique. lia.
  - apply Hun; [done| |lia]. intros n Hn [Heq _]%uuid_unique. done.
Qed.

(** One transfer, from the first to the second shard. *)
Lemma transfer_step y i j h t :
  ready y i j h → room y i j h → i ≠ j → 0 ≤ i < NumShards → 0 ≤ j < NumShards →
  tf_back t = false → well_formed i j t → ledger_of y j (payee t) + amount t < two256 →
  ∃ y', acts OHash SHash uuid y (voting_schedule i j h (tf_req t) (transfer_tx (id_of y i) i j (payer t) (payee t) (amount t) TxNoStatus)
            (tf_uuid t) (tf_now1 t) ++ deciding_schedule i j h (length (sys_sent y)) (tf_now2 t)) = Some y' ∧
    handleStatus (sys_service y') (id_of y i)
      = SvcStatus (id_of y i) (if amount t <=? ledger_of y i (payer t) then TxCommitted else TxAborted) ∧
    ledger_eq (ledger_of y') (ledger_step i j (ledger_of y) t).2 ∧ ready y' i j (h + 2) ∧
    sc_height (sv_chain (sys_shards y' i)) = sc_height (sv_chain (sys_shards y i)) + 2 ∧
    sc_height (sv_chain (sys_shards y' j)) = sc_height (sv_chain (sys_shards y j)) + 2 ∧
    ∀ m x k, sto (sv_evmState (sys_shards y' m)) x k = sto (sv_evmState (sys_shards y m)) x k.
Proof.
  intros Hrd Hroom Hne Hi Hj Hb ([v Hv]&Hpos&Hu&Hto&Hsh) Hfit.
  assert (Hsrc : src i j t = i) by (unfold src; by rewrite Hb). assert (Hdst : dst i j t = j) by (unfold dst; by rewrite Hb).
  assert (Ha : amount t = v) by (unfold amount; by rewrite Hv). rewrite Hdst in Hto, Hsh. rewrite Ha in *.
  pose proof Hrd as [Hq Hci Hcj Hui Huj].
  assert (Hunk : unknown y i j (id_of y i)).
  { destruct (Hui (sv_uuids (sys_shards y i))) as (?&?&?); [lia|]. split; [apply uuid_named|apply Hci|apply Hcj|done..]. }
  destruct (transfer_runs OHash SHash uuid commits_succeed y i j h (tf_req t) v (tf_uuid t) (tf_now1 t) (tf_now2 t))
    as (y'&Hacts&Hst&[M1 M2 M3 M4 M5]&Hq'&Hrel&Hpr&Hlt&Hh1&Hh2); try done.
  rewrite (clear_affordable _ i h) in Hst, M1, M2 by (done || apply Hq).
  exists y'. split; [exact Hacts|]. split; [exact Hst|]. split; [|split; [|split; [done|split; [done|]]]].
  - unfold ledger_step. rewrite Hsrc, Ha. unfold ledger_of at 2. intros m x. unfold payer in *. destruct (v <=? bal _ _); cbn [snd].
    + unfold move. rewrite Hsrc, Hdst, Ha. unfold ledger_of. destruct (decide (m = i)) as [->|Hmi].
      * rewrite M1, (decide_False (P := i = j ∧ _)) by naive_solver. rewrite Z.add_0_r. f_equal. unfold payer. repeat case_decide; naive_solver.
      * rewrite (decide_False (P := m = i ∧ _)), Z.add_0_r by naive_solver. destruct (decide (m = j)) as [->|Hmj].
        { rewrite M2. f_equal. unfold payee. repeat case_decide; naive_solver. }
        rewrite decide_False, Z.add_0_r by naive_solver. by rewrite M5.
    + unfold ledger_of. destruct (decide (m = i)) as [->|Hmi]; [rewrite M1; case_decide; lia|].
      destruct (decide (m = j)) as [->|Hmj]; [rewrite M2; case_decide; lia|by rewrite M5].
  - apply (ready_next y y' i j h); try done. intros m Hm. by apply Hrel.
  - intros m x k. destruct (decide (m = i)) as [->|Hmi]; [apply M3|]. destruct (decide (m = j)) as [->|Hmj]; [apply M4|by rewrite M5].
Qed.

(** The same in either direction. *)
Lemma transfer_served y i j h t :
  let a := src i j t in
  let b := dst i j t in
  ready y i j h → room y i j h → i ≠ j → 0 ≤ i < NumShards → 0 ≤ j < NumShards →
  well_formed i j t → ledger_of y b (payee t) + amount t < two256 →
  ∃ y', acts OHash SHash uuid y (voting_schedule a b h (tf_req t) (transfer_tx (id_of y a) a b (payer t) (payee t) (amount t) TxNoStatus)
            (tf_uuid t) (tf_now1 t) ++ deciding_schedule a b h (length (sys_sent y)) (tf_now2 t)) = Some y' ∧
    handleStatus (sys_service y') (id_of y a)
      = SvcStatus (id_of y a) (if (ledger_step i j (ledger_of y) t).1 then TxCommitted else TxAborted) ∧
    ledger_eq (ledger_of y') (ledger_step i j (ledger_of y) t).2 ∧ ready y' i j (h + 2) ∧
    sc_height (sv_chain (sys_shards y' i)) = sc_height (sv_chain (sys_shards y i)) + 2 ∧
    sc_height (sv_chain (sys_shards y' j)) = sc_height (sv_chain (sys_shards y j)) + 2 ∧
    ∀ m x k, sto (sv_evmState (sys_shards y' m)) x k = sto (sv_evmState (sys_shards y m)) x k.
Proof.
  intros a b Hrd (Hr1&Hr2&Hr3) Hne Hi Hj Hw Hfit.
  assert (Hst : (ledger_step i j (ledger_of y) t).1 = (amount t <=? ledger_of y a (payer t)))
    by (unfold ledger_step, a; by destruct (_ <=? _)). rewrite Hst.
  unfold a, b, src, dst in *. destruct (tf_back t) eqn:Hb; [|by apply transfer_step].
  (* the other direction is the same transfer with the shards exchanged *)
  set (t' := mkTransfer false (tf_req t) (tf_uuid t) (tf_now1 t) (tf_now2 t)).
  destruct (transfer_step y j i h t') as (y'&A1&A2&A3&A4&A5&A6&A7); try done; [by apply ready_sym| |].
  { unfold well_formed, dst in *. by rewrite Hb in Hw. }
  exists y'. split; [exact A1|]. split; [exact A2|]. split; [|split; [by apply ready_sym|done]].
  intros m x. rewrite (A3 m x). unfold ledger_step, move, src, dst. rewrite Hb. done.
Qed.


Lemma fresh_ready n net db dbs now t0 i j :
  n = NumShards → ready (sys_init t0 n net db dbs now : System N D DB) i j 0.
Proof.
  intros Hn. split; [by apply fresh_quiet|by intros id|by intros id|by intros k|by intros k].
Qed.
End deployment.

(** ** Witness *)

#[local] Existing Instance list_range.
#[local] Existing Instance toy_codec.
#[local] Existing Instances toy_tries plain_codec.

(** Identifiers that are never drawn twice. *)
Definition drawn (k : Z) (n : nat) : string := String.String (Ascii.ascii_of_nat 117) (pretty (Z.pos (encode (k, n)))).

Lemma drawn_unique k n k' n' : drawn k n = drawn k' n' → k = k' ∧ n = n'.
Proof. unfold drawn. intros [= Hp]. apply (inj pretty) in Hp. injection Hp as Hp. apply (inj encode) in Hp. by injection Hp. Qed.

(** 60 from the account 8 of shard 0 to the account 1 of shard 1, 20 back, and 160. *)
Definition threeTransfers : list Transfer :=
  [mkTransfer false transfer60 "x" 5 7; mkTransfer true (mkCrossShardTransferRequest "1" "8" 0 "20") "x" 9 11;
   mkTransfer false transfer160 "x" 13 15].

